(* ===== verification/_CoqProject ===== *)
-Q . S2P
Prelude.v
Domain.v
Data.v
Store.v
Auth.v
Leases.v
Cluster.v
Placement.v
Requests.v
Queries.v
Commands.v
Access.v
Protection.v
Footprints.v
Tables.v
Service.v
Nodes.v
Maintenance.v
Startup.v
UnitFootprints.v
Uploads.v
System.v
Snapshots.v
Locks.v
Paths.v
Tree.v
Namespace.v
Migration.v
Process.v
Protected.v
Ledger.v
Gateway.v
Local.v
Blocks.v
Patch.v
DataNode.v
Streams.v
NodeTasks.v
NodeEffects.v
NodeResources.v
Inventory.v
NodeContent.v
Acknowledged.v
Copies.v
Capacity.v
Client.v
Downloads.v
ClientFacts.v
DownloadFacts.v
Sends.v
SendFacts.v
Ranges.v
RangeFacts.v
Etcd.v
Lab.v
EtcdFacts.v
EtcdPublish.v
Publication.v
Ownership.v
Watch.v
Diagnostic.v
Trees.v
ClientState.v
Cli.v
CliFacts.v
Backup.v
BackupFacts.v
BackupRuns.v
World.v
Runs.v
Samples.v
NodeRuns.v
ClientRuns.v
CliRuns.v
