(* ===== verification/Prelude.v ===== *)
(** * DFSha: a verified model of the distributed file system

    DFSha keeps files as encrypted blocks on data nodes, and everything about
    them (names, users, permissions, snapshots, locks, operations, copies) in the
    tables of a control.  A client asks the control for plans and grants, and
    moves the bytes itself between its disk and the data nodes.  The control is
    one process over SQLite (the profile [PMonolith]), one with data nodes and
    replicas, or several processes over etcd (the HA profile).  The sources are
    under [src/src/dfsha/]; file names below are relative to it.

    ** The parts, and the files that model them

    Shared: [Prelude] (notation, Python dictionaries, the error and state monad
    [SM], automation); [Domain] ([common/domain.py], [limits.py]: reasons,
    status codes, canonical JSON, intents, the interfaces of hashing and
    ciphers); [Data] (the protocol messages and the stored records); [Requests]
    (one constructor per method of the services).

    The control: [Store] ([control/metadata.py], [common/ports.py]: tables by
    kind and identity, the unit of work [M] with rollback); [Auth]
    ([auth.py]); [Leases] ([leases.py], and the etcd variant of [ha.py]);
    [Cluster], [Placement] (the methods of the four control classes that others
    call); [Queries] ([queries.py]); [Commands] ([commands.py]); [Access]
    ([access.py]); [Protection] (the commands of [replication.py] and
    [distributed.py], and which method of which class answers); [Service]
    and [Gateway] ([monolith.py]); [Nodes] ([distributed.py], [patch_authority.py], [ha.py]:
    what data nodes ask); [Maintenance], [Startup], [Migration] ([migration.py]);
    [Ownership] ([ha.py]: which control runs maintenance).  Beside the services,
    [Backup] ([common/backup_archive.py]: encrypted archives of files) over
    [Trees] (a tree of local files), and [Diagnostic] ([control/diagnostic.py],
    [client/diagnostic.py]: the check of a connection).  A method that
    subclasses override is one definition per class; the plain name picks the
    class of the running profile.

    The metadata over etcd: [Etcd] ([control/etcd_metadata.py]: pages, roots,
    units of work), [Publication] (the conditional transaction under the gate),
    [Watch] ([control/etcd_watch.py]: following the root), [Protected]
    ([common/protected.py]: sealed pages).

    A data node: [Blocks] ([datanode/blocks.py]: the encrypted container,
    verification, collection, pins); [Patch] ([patch.py]); [DataNode], [Streams],
    [NodeTasks] ([datanode/service.py]: state, start and recovery, the streams,
    copies, deletions, the inventory); [Local] ([common/local.py],
    [failover.py]).

    The client: [Client] (calls with retries, metadata operations, handles, of
    [client/sdk.py] and [client/access.py]); [Downloads], [Sends] ([sdk.py]:
    [receive], [send]); [Ranges] ([access.py]: open files, range reads and
    writes); [ClientState] ([client/state.py]: the sealed state file), [Cli]
    ([client/cli.py]: the commands over the client, and the state that one
    process leaves to the next).

    ** How the parts are modelled

    A unit of work of the control is a function of an environment (instant,
    configuration, drawn identities, what leases are live) and the tables; it
    returns a result or an exception that rolls back.  [System] makes one step of
    every unit of work there is, in any order, at any instant and with any
    arguments: theorems about runs are about [rtc] of that relation.  [Footprints]
    and [UnitFootprints] say once which tables each operation can change, and
    [Tables] turns an invariant of one table into lemmas about its writers only.

    The handlers of a data node and of a client keep what they did before an
    exception: [Process] runs them as functions from a world and a state to a
    result and a state ([PM]).  Every external call takes a tick, which indexes
    what the world answers; at any tick the process may stop ([Exit]), and then no
    [except] or [finally] runs.  [preserves], [restores] and [ensures] are the
    three ways to state what a run keeps.

    Third-party code (Argon2, AES-GCM, HKDF, key wrap, base64, NFC, SHA-256,
    protobuf, JSON of the standard library where its text matters) is a type
    class with the laws the code relies on; [Lab] gives each a concrete instance,
    which shows that the laws hold together and lets witnesses evaluate.

    ** What the theorems show

    About the control ([Uploads], [System], [Snapshots], [Locks], [Tree],
    [Namespace], [Paths], [Ledger]): in every run an upload moves along its life and what
    ended holds no reservation; the names form a tree; live locks of different
    owners do not conflict; a published snapshot never changes; [parent] and
    [resolve] agree, and walks find what is there; a command is executed at most
    once, and every answer has the type of its method.

    About its metadata ([EtcdFacts], [EtcdPublish], [Publication], [Protected],
    [Migration], [Ownership], [Watch]): a unit of work over etcd publishes exactly the
    tables it saw; publications are serial however controls interleave; sealed
    pages open as what was sealed, and nothing else opens; a migration keeps the
    content and leaves one authority; generations of maintenance are fencing
    tokens, and can always be taken over; the watch misses no change of the root.

    About data nodes ([Blocks], [Patch], [NodeEffects], [NodeResources],
    [Inventory], [NodeContent], [Acknowledged], [Copies], [Capacity]): only
    verified content is released; an acknowledged block reads back as the bytes
    sent, is recorded, and is answered the same for ever; the inventory stays
    truthful across crashes; a read sends exactly its range; a patch is the splice
    of the delta; a copy is the source's bytes; a deletion leaves nothing; streams
    give back what they took and stay within the capacity.

    About the client ([ClientFacts], [DownloadFacts], [SendFacts], [RangeFacts]):
    a download is verified and all-or-nothing; an upload that succeeds has sent,
    listed and sealed the whole file; an unknown outcome is not aborted; a read
    hands on the bytes of its range once and in order although streams break; the
    parts of a write cover its payload.  About its command line ([ClientState],
    [CliFacts]): the state file is replaced atomically, and the next process has
    what the last command left.

    About archives ([BackupFacts]): restoring gives back the files that went in.
    About the diagnosis ([Diagnostic]): it succeeds over a steady connection.

    Some runs show behaviour the code does not mean ([Runs], [Namespace],
    [ClientRuns], [Ownership], [BackupRuns], [CliFacts]): a directory below a file,
    a crash on opening the root, a confirmed upload reported as failed, a deposed
    owner that still publishes maintenance, a key file that is refused for ever
    after its writing stopped, and a local name that cannot be freed.

    [World], [Runs], [Samples], [NodeRuns], [ClientRuns], [BackupRuns], [CliRuns]
    hold the concrete runs that witness the hypotheses of these theorems.

    ** Bounds and fuel

    Loops over data recurse on the data, or take as fuel a bound that is proved
    to be enough: the number of records for walks to the root ([Commands]), the
    length of the payload for the parts of a write ([Ranges]) and for the chunks
    of a block ([Sends]).  Loops whose length another process decides (pages of
    the control, attempts of a read, waiting for replicas) take the fuel [v_fuel]
    of the world: past it the run ends as a process that is stopped there, so the
    theorems hold of every prefix of the loop.  Numbers are unbounded integers of
    Python; where the code bounds them (63-bit offsets, limits of requests,
    capacities) the check is in the definition.

    ** Not modelled

    Time limits of calls, pauses between attempts and the interleaving of
    threads inside one process: a renewal thread is seen in the objects and
    errors it leaves, a wait for another stream ends as one that ran out.
    Staging files, [fsync] and the failure of the removal of an own temporary
    file; other programs that write the same local files.  Fault injection for
    tests, the parser of the command line and the loop of its shell,
    configuration, telemetry, the servers, generated and vendored code, and
    scripts. *)
From stdpp Require Export base gmap sets list strings sorting numbers.
From Stdlib Require Export Lia ZArith Ascii.
From Stdlib Require Import DecimalString DecimalZ.

#[export] Set Default Proof Using "Type".
Open Scope Z_scope.

(** ** Record update

    [r <| f := v |>] replaces one field of a record.  A record type declares its
    eta expansion once ([Eta]); the setter of each field is computed from it. *)
Class Eta (R : Type) := eta : R → R.

Class Setter {R T : Type} (proj : R → T) := upd : (T → T) → R → R.
Arguments upd {R T} proj {_} _ _ /.

Ltac derive_setter :=
  lazymatch goal with
  | |- @Setter ?R ?T ?proj =>
      let inst := constr:(_ : Eta R) in
      let body := eval hnf in inst in
      let f := fresh "f" in
      let r := fresh "r" in
      intros f r;
      let b := eval cbv beta in (body r) in
      let abs := eval pattern proj in b in
      lazymatch abs with
      | ?F _ => let res := eval cbv beta in (F (fun x => f (proj x))) in exact res
      end
  end.
#[export] Hint Extern 1 (Setter _) => derive_setter : typeclass_instances.

Declare Scope record_scope.
Open Scope record_scope.
Notation "r <| p := v |>" := (upd p (fun _ => v) r)
  (at level 1, left associativity, p at next level, v at level 200) : record_scope.
Notation "r <| p ::= g |>" := (upd p g r)
  (at level 1, left associativity, p at next level, g at level 200) : record_scope.

(** ** Python dictionaries that keep insertion order

    A Python [dict] whose order the program observes (the [allocations] and
    [pages] of an upload, the receipts of a block) is an association list:
    updating a present key keeps its place, a new key goes last. *)
Section Dict.
Context {K V : Type} `{!EqDecision K}.

Fixpoint dget (k : K) (d : list (K * V)) : option V :=
  match d with
  | [] => None
  | (k', v) :: d' => if decide (k = k') then Some v else dget k d'
  end.

Fixpoint dset (k : K) (v : V) (d : list (K * V)) : list (K * V) :=
  match d with
  | [] => [(k, v)]
  | (k', v') :: d' => if decide (k = k') then (k', v) :: d' else (k', v') :: dset k v d'
  end.

Lemma dget_dset_eq k v d : dget k (dset k v d) = Some v.
Proof. induction d as [|[k' v'] d IH]; simpl; repeat (case_decide; simpl); congruence. Qed.

Lemma dget_dset_ne k k' v d : k ≠ k' → dget k' (dset k v d) = dget k' d.
Proof.
  intros Hne. induction d as [|[k0 v0] d IH]; simpl; repeat (case_decide; simpl); congruence.
Qed.

Lemma dget_elem k v d : dget k d = Some v → (k, v) ∈ d.
Proof.
  induction d as [|[k' v'] d IH]; simpl; [done|].
  case_decide; intros; simplify_eq; set_solver.
Qed.

Lemma dset_elem k v d p : p ∈ dset k v d → p = (k, v) ∨ p ∈ d.
Proof. induction d as [|[k' v'] d IH]; simpl; [set_solver|case_decide; set_solver]. Qed.

Lemma dget_None k d : dget k d = None ↔ k ∉ d.*1.
Proof. induction d as [|[k' v'] d IH]; simpl; [set_solver|case_decide; set_solver]. Qed.
Lemma dget_NoDup k v d : NoDup d.*1 → (k, v) ∈ d → dget k d = Some v.
Proof.
  induction d as [|[k' v'] d IH]; simpl; [set_solver|]. intros [Hk Hd]%list.NoDup_cons [[= -> ->]|Hin]%elem_of_cons.
  - by rewrite decide_True.
  - rewrite decide_False; [by apply IH|]. intros <-. apply Hk. apply list_elem_of_fmap. by exists (k, v).
Qed.
Lemma dset_keys k v d : (dset k v d).*1 = if decide (k ∈ d.*1) then d.*1 else d.*1 ++ [k].
Proof.
  induction d as [|[k' v'] d IH]; csimpl; [done|]. destruct (decide (k = k')) as [<-|Hne]; csimpl.
  - rewrite decide_True by set_solver. done.
  - rewrite IH. repeat case_decide; try done; set_solver.
Qed.
Lemma dset_NoDup k v d : NoDup d.*1 → NoDup (dset k v d).*1.
Proof.
  intros Hd. rewrite dset_keys. case_decide; [done|]. apply list.NoDup_app. split_and!; [done|set_solver|apply NoDup_singleton].
Qed.

Lemma dget_app k d1 d2 :
  dget k (d1 ++ d2) = match dget k d1 with Some v => Some v | None => dget k d2 end.
Proof. induction d1 as [|[k' v'] d1 IH]; simpl; [done|by case_decide]. Qed.
End Dict.

(** [l[-1]]. *)
Definition list_last {A} (l : list A) : option A := head (rev l).

(** ** Results and effects

    A handler reads an environment, threads a state and may raise.  An
    exception drops the state it was raised in: every handler runs inside a unit
    of work, and [transaction] of the store rolls back on any exception. *)
Inductive result (X A : Type) :=
  | Ok (a : A)
  | Err (x : X).
Arguments Ok {X A} _.
Arguments Err {X A} _.

(** What a run that is known to succeed returned. *)
Definition is_ok {X A} (r : result X A) : bool := match r with Ok _ => true | Err _ => false end.
Definition ok_or {X A} (a : A) (r : result X A) : A := match r with Ok a => a | Err _ => a end.
Lemma ok_pair {X A B} (a : A * B) (r : result X (A * B)) :
  is_ok r = true → r = Ok ((ok_or a r).1, (ok_or a r).2).
Proof. by destruct r as [[]|]. Qed.

Definition SM (E S X A : Type) : Type := E → S → result X (A * S).

Section Monad.
Context {E S X : Type}.
Implicit Types (e : E) (s : S) (x : X).

#[export] Instance sm_ret : MRet (SM E S X) := λ A a e s, Ok (a, s).
#[export] Instance sm_bind : MBind (SM E S X) := λ A B f m e s,
  match m e s with
  | Ok (a, s') => f a e s'
  | Err x => Err x
  end.

#[export] Instance sm_fmap : FMap (SM E S X) := λ A B f m, m ≫= λ a, mret (f a).

Definition ask : SM E S X E := λ e s, Ok (e, s).
Definition get_st : SM E S X S := λ e s, Ok (s, s).
Definition put_st (s' : S) : SM E S X unit := λ e s, Ok (tt, s').
Definition modify (f : S → S) : SM E S X unit := λ e s, Ok (tt, f s).
Definition raise {A} (x : X) : SM E S X A := λ e s, Err x.
(** [if not condition: raise]. *)
Definition guard_or (b : bool) (x : X) : SM E S X unit := if b then mret tt else raise x.
(** [try: m except: h]; what [m] had written before raising is not kept, so it
    models the handlers of the program, whose protected calls only read. *)
Definition catch {A} (m : SM E S X A) (h : X → SM E S X A) : SM E S X A := λ e s,
  match m e s with
  | Ok r => Ok r
  | Err x => h x e s
  end.
Fixpoint for_each {A} (l : list A) (f : A → SM E S X unit) : SM E S X unit :=
  match l with
  | [] => mret tt
  | a :: l => f a;; for_each l f
  end.
Fixpoint for_map {A B} (l : list A) (f : A → SM E S X B) : SM E S X (list B) :=
  match l with
  | [] => mret []
  | a :: l => b ← f a; bs ← for_map l f; mret (b :: bs)
  end.
(** A loop that threads a local variable through its iterations. *)
Fixpoint for_fold {A B} (l : list A) (b : B) (f : B → A → SM E S X B) : SM E S X B :=
  match l with
  | [] => mret b
  | a :: l => b' ← f b a; for_fold l b' f
  end.
(** [any(f(x) for x in l)] with effects in [f]; stops at the first [True]. *)
Fixpoint any_m {A} (l : list A) (f : A → SM E S X bool) : SM E S X bool :=
  match l with
  | [] => mret false
  | a :: l => b ← f a; if (b : bool) then mret true else any_m l f
  end.
Fixpoint filter_m {A} (l : list A) (f : A → SM E S X bool) : SM E S X (list A) :=
  match l with
  | [] => mret []
  | a :: l => b ← f a; r ← filter_m l f; mret (if (b : bool) then a :: r else r)
  end.

Lemma bind_Ok {A B} (m : SM E S X A) (f : A → SM E S X B) e s b s' :
  (m ≫= f) e s = Ok (b, s') ↔ ∃ a s1, m e s = Ok (a, s1) ∧ f a e s1 = Ok (b, s').
Proof.
  unfold mbind, sm_bind. split.
  - destruct (m e s) as [[a s1]|x]; [eauto|done].
  - by intros (a & s1 & -> & ?).
Qed.
Lemma bind_run {A B} {m : SM E S X A} {f : A → SM E S X B} {e s a s1} :
  m e s = Ok (a, s1) → (m ≫= f) e s = f a e s1.
Proof. unfold mbind, sm_bind. by intros ->. Qed.
Lemma fmap_run {A B} {f : A → B} {m : SM E S X A} {e s a s1} :
  m e s = Ok (a, s1) → (f <$> m) e s = Ok (f a, s1).
Proof. unfold fmap, sm_fmap, mbind, sm_bind. by intros ->. Qed.
Lemma ret_Ok {A} (a b : A) e s s' :
  (mret a : SM E S X A) e s = Ok (b, s') ↔ b = a ∧ s' = s.
Proof. unfold mret, sm_ret. naive_solver. Qed.
Lemma fmap_Ok {A B} (f : A → B) (m : SM E S X A) e s b s' :
  (f <$> m) e s = Ok (b, s') ↔ ∃ a, m e s = Ok (a, s') ∧ b = f a.
Proof. unfold fmap, sm_fmap. rewrite bind_Ok. setoid_rewrite ret_Ok. naive_solver. Qed.
Lemma guard_Ok b x e s u s' :
  guard_or b x e s = Ok (u, s') ↔ b = true ∧ s' = s.
Proof. unfold guard_or, raise, mret, sm_ret. destruct b, u; naive_solver. Qed.
Lemma ask_Ok e s a s' : (ask : SM E S X E) e s = Ok (a, s') ↔ a = e ∧ s' = s.
Proof. unfold ask. naive_solver. Qed.
Lemma get_st_Ok e s a s' : (get_st : SM E S X S) e s = Ok (a, s') ↔ a = s ∧ s' = s.
Proof. unfold get_st. naive_solver. Qed.
Lemma modify_Ok f e s u s' : (modify f : SM E S X unit) e s = Ok (u, s') ↔ s' = f s.
Proof. unfold modify. destruct u. naive_solver. Qed.
Lemma raise_Ok {A} x e s (a : A) s' : raise x e s = Ok (a, s') ↔ False.
Proof. done. Qed.
Lemma catch_Ok {A} (m : SM E S X A) h e s a s' :
  catch m h e s = Ok (a, s') ↔
    m e s = Ok (a, s') ∨ ∃ x, m e s = Err x ∧ h x e s = Ok (a, s').
Proof.
  unfold catch. destruct (m e s) as [[b s1]|x] eqn:Hm; naive_solver.
Qed.

Lemma for_map_length {A B} (l : list A) (f : A → SM E S X B) e s r s' :
  for_map l f e s = Ok (r, s') → length r = length l.
Proof.
  revert s r s'. induction l as [|a l IH]; intros s r s'; simpl.
  - by intros [-> _]%ret_Ok.
  - intros (b & s1 & _ & H1)%bind_Ok. apply bind_Ok in H1 as (r1 & s2 & H2 & H3).
    apply ret_Ok in H3 as [-> _]. simpl. f_equal. by eapply IH.
Qed.
Lemma for_each_Forall {A} (P : A → Prop) (l : list A) (f : A → SM E S X unit) e s u s' :
  (∀ a s1 u1 s2, f a e s1 = Ok (u1, s2) → P a) → for_each l f e s = Ok (u, s') → Forall P l.
Proof.
  intros Hf. revert s. induction l as [|a l IH]; intros s; simpl; [constructor|].
  intros (u1 & s1 & H1 & H2)%bind_Ok. constructor; eauto.
Qed.

(** An invariant of a loop, between its accumulator and the state. *)
Lemma for_fold_run {A B} (I : B → S → Prop) (R : S → S → Prop) `{!PreOrder R} (f : B → A → SM E S X B) e l :
  (∀ b a s b' s', I b s → f b a e s = Ok (b', s') → I b' s' ∧ R s s') →
  ∀ b s b' s', I b s → for_fold l b f e s = Ok (b', s') → I b' s' ∧ R s s'.
Proof.
  intros Hf. induction l as [|a l IH]; intros b s b' s' Hi; simpl.
  - by intros [-> ->]%ret_Ok.
  - intros (b1 & s1 & H1 & H2)%bind_Ok. destruct (Hf _ _ _ _ _ Hi H1) as [I1 R1].
    destruct (IH _ _ _ _ I1 H2) as [I2 R2]. split; [done|by transitivity s1].
Qed.

Lemma for_fold_inv {A B} (P : B → Prop) (f : B → A → SM E S X B) e l b s b' s' :
  (∀ b a s b' s', P b → f b a e s = Ok (b', s') → P b') → P b → for_fold l b f e s = Ok (b', s') → P b'.
Proof.
  intros Hf. revert b s. induction l as [|a l IH]; intros b s Hb; simpl; [by intros [-> _]%ret_Ok|].
  intros (b1 & s1 & H1 & H2)%bind_Ok. eapply IH; [by eapply Hf|done].
Qed.

(** *** Steps related by a preorder

    [keeps R m]: every successful run of [m] relates its start and its end by
    [R].  It composes, so an invariant or a frame of a handler follows from
    those of the operations it calls. *)
Definition keeps {A} (R : E → S → S → Prop) (m : SM E S X A) : Prop :=
  ∀ e s a s', m e s = Ok (a, s') → R e s s'.

Section Keeps.
Context (R : E → S → S → Prop) `{HR : ∀ e, PreOrder (R e)}.

Lemma keeps_ret {A} (a : A) : keeps R (mret a).
Proof using HR. intros e s b s' [-> ->]%ret_Ok. apply HR. Qed.
Lemma keeps_raise {A} x : keeps R (raise x : SM E S X A).
Proof. by intros e s b s'. Qed.
Lemma keeps_guard b x : keeps R (guard_or b x).
Proof using HR. intros e s u s' [_ ->]%guard_Ok. apply HR. Qed.
Lemma keeps_ask : keeps R ask.
Proof using HR. intros e s u s' [-> ->]%ask_Ok. apply HR. Qed.
Lemma keeps_get_st : keeps R get_st.
Proof using HR. intros e s u s' [-> ->]%get_st_Ok. apply HR. Qed.
Lemma keeps_bind {A B} (m : SM E S X A) (f : A → SM E S X B) :
  keeps R m → (∀ a, keeps R (f a)) → keeps R (m ≫= f).
Proof using HR.
  intros Hm Hf e s b s' (a & s1 & H1 & H2)%bind_Ok.
  transitivity s1; [by eapply Hm|by eapply Hf].
Qed.
Lemma keeps_fmap {A B} (f : A → B) (m : SM E S X A) : keeps R m → keeps R (f <$> m).
Proof using HR. intros Hm. apply keeps_bind; [done|intros a; apply keeps_ret]. Qed.
Lemma keeps_catch {A} (m : SM E S X A) h :
  keeps R m → (∀ x, keeps R (h x)) → keeps R (catch m h).
Proof using Type.
  intros Hm Hh e s a s' [?|(x & ? & ?)]%catch_Ok; [by eapply Hm|by eapply Hh].
Qed.
Lemma keeps_for_each {A} (l : list A) f : (∀ a, keeps R (f a)) → keeps R (for_each l f).
Proof using HR.
  intros Hf. induction l as [|a l IH]; simpl; [apply keeps_ret|by apply keeps_bind].
Qed.
Lemma keeps_for_map {A B} (l : list A) (f : A → SM E S X B) :
  (∀ a, keeps R (f a)) → keeps R (for_map l f).
Proof using HR.
  intros Hf. induction l as [|a l IH]; simpl; [apply keeps_ret|].
  apply keeps_bind; [done|intros b]. apply keeps_bind; [done|intros bs; apply keeps_ret].
Qed.
Lemma keeps_for_fold {A B} (l : list A) (b : B) f :
  (∀ b a, keeps R (f b a)) → keeps R (for_fold l b f).
Proof using HR.
  intros Hf. revert b. induction l as [|a l IH]; intros b; simpl; [apply keeps_ret|].
  apply keeps_bind; [done|intros b'; apply IH].
Qed.
Lemma keeps_any_m {A} (l : list A) f : (∀ a, keeps R (f a)) → keeps R (any_m l f).
Proof using HR.
  intros Hf. induction l as [|a l IH]; simpl; [apply keeps_ret|].
  apply keeps_bind; [done|intros []]; [apply keeps_ret|done].
Qed.
Lemma keeps_filter_m {A} (l : list A) f : (∀ a, keeps R (f a)) → keeps R (filter_m l f).
Proof using HR.
  intros Hf. induction l as [|a l IH]; simpl; [apply keeps_ret|].
  apply keeps_bind; [done|intros b]. apply keeps_bind; [done|intros r; apply keeps_ret].
Qed.
End Keeps.
End Monad.

(** ** Automation

    [mrun] inverts a successful run of a handler, step by step; [solve_keeps]
    follows the shape of a handler and closes the steps found in the [keeps]
    hint database. *)
Ltac mrun1 :=
  match goal with
  | H : (_ ≫= _) _ _ = Ok (_, _) |- _ =>
      let a := fresh "v" in let s := fresh "s" in let H1 := fresh "H" in let H2 := fresh "H" in
      apply bind_Ok in H as (a & s & H1 & H2)
  | H : mret _ _ _ = Ok (_, _) |- _ => apply ret_Ok in H; destruct H; simplify_eq
  | H : (_ <$> _) _ _ = Ok (_, _) |- _ =>
      let a := fresh "v" in let H1 := fresh "H" in apply fmap_Ok in H as (a & H1 & ->)
  | H : guard_or _ _ _ _ = Ok (_, _) |- _ => apply guard_Ok in H; destruct H; simplify_eq
  | H : ask _ _ = Ok (_, _) |- _ => apply ask_Ok in H; destruct H; simplify_eq
  | H : get_st _ _ = Ok (_, _) |- _ => apply get_st_Ok in H; destruct H; simplify_eq
  | H : modify _ _ _ = Ok (_, _) |- _ => apply modify_Ok in H; simplify_eq
  | H : raise _ _ _ = Ok (_, _) |- _ => apply raise_Ok in H; destruct H
  end.
Ltac mrun := repeat (mrun1; simpl in *).

Create HintDb keeps discriminated.
Ltac keeps_step :=
  first
    [ apply keeps_ret; apply _ | apply keeps_raise | apply keeps_guard; apply _
    | apply keeps_ask; apply _ | apply keeps_get_st; apply _
    | match goal with |- keeps _ (_ <$> _) => apply keeps_fmap; [apply _|] end
    | apply keeps_catch
    | apply keeps_bind; [apply _| | intros ?]
    | apply keeps_for_each; [apply _|intros ?]
    | apply keeps_for_map; [apply _|intros ?]
    | apply keeps_for_fold; [apply _|intros ? ?]
    | apply keeps_any_m; [apply _|intros ?]
    | apply keeps_filter_m; [apply _|intros ?]
    | match goal with
      | |- keeps _ (match ?x with _ => _ end) => destruct x
      | |- keeps _ ((match ?x with _ => _ end) _) => destruct x
      | |- keeps _ (let _ := _ in _) => cbv zeta
      | |- ∀ _, _ => intros ?
      end ].
Ltac solve_keeps := repeat first [ solve [eauto 2 with keeps nocore] | keeps_step ].

(** ** Strings

    A Python [str] is its UTF-8 encoding and [bytes] are themselves, both as
    [string]; the byte order of the encoding is Python's code point order.
    The separators the program splits on are ASCII, so splitting bytes splits
    characters. *)
#[global] Arguments String.append : simpl nomatch.
Definition slen (s : string) : Z := Z.of_nat (String.length s).
Definition empty (s : string) : bool := bool_decide (s = "").
Definition starts_with (p s : string) : bool := String.prefix p s.

Fixpoint has_char (c : ascii) (s : string) : bool :=
  match s with
  | EmptyString => false
  | String c' s => bool_decide (c = c') || has_char c s
  end.

(** [s.split(c)]. *)
Fixpoint split_on (c : ascii) (s : string) : list string :=
  match s with
  | EmptyString => [""]
  | String c' s =>
      if decide (c = c') then "" :: split_on c s
      else match split_on c s with
           | [] => [String c' ""]
           | w :: ws => String c' w :: ws
           end
  end.

(** [c.join(ws)]. *)
Fixpoint join_with (c : ascii) (ws : list string) : string :=
  match ws with
  | [] => ""
  | [w] => w
  | w :: ws => w +:+ String c (join_with c ws)
  end.

(** [s.rstrip(c)]. *)
Fixpoint rstrip (c : ascii) (s : string) : string :=
  match s with
  | EmptyString => ""
  | String c' s =>
      let r := rstrip c s in
      if decide (c = c' ∧ r = "") then "" else String c' r
  end.

(** [s.rpartition(c)]: what precedes the last [c] and what follows it;
    [("", s)] when there is none. *)
Fixpoint rpartition (c : ascii) (s : string) : string * string :=
  match s with
  | EmptyString => ("", "")
  | String c' s' =>
      if has_char c s' then let '(h, t) := rpartition c s' in (String c' h, t)
      else if decide (c = c') then ("", s') else ("", String c' s')
  end.

Lemma split_on_nonempty c s : split_on c s ≠ [].
Proof. destruct s; simpl; [done|case_decide; [done|by case_match]]. Qed.

Lemma join_split c s : join_with c (split_on c s) = s.
Proof.
  induction s as [|c' s IH]; simpl; [done|].
  pose proof (split_on_nonempty c s) as Hne. case_decide as Hc.
  - subst c'. destruct (split_on c s) as [|w ws] eqn:E; [done|]. by rewrite <- IH.
  - destruct (split_on c s) as [|w ws] eqn:E; [done|].
    rewrite <- IH. by destruct ws.
Qed.

(** Decimal integers: [str(n)] and [int(s)] on ASCII input: blanks around, one
    sign, single underscores between digits. *)
Definition str_Z (n : Z) : string := NilZero.string_of_int (Z.to_int n).

Definition is_blank (c : ascii) : bool :=
  let n := nat_of_ascii c in
  bool_decide (n = 32%nat) || (Nat.leb 9 n && Nat.leb n 13) || (Nat.leb 28 n && Nat.leb n 31).
Definition is_digit (c : ascii) : bool :=
  let n := nat_of_ascii c in Nat.leb 48 n && Nat.leb n 57.
Fixpoint lstrip_blank (s : string) : string :=
  match s with
  | EmptyString => ""
  | String c s' => if is_blank c then lstrip_blank s' else s
  end.
Fixpoint rstrip_blank (s : string) : string :=
  match s with
  | EmptyString => ""
  | String c s' =>
      let r := rstrip_blank s' in
      if is_blank c && empty r then "" else String c r
  end.
(** Digits with single underscores between them; [None] for anything else. *)
Fixpoint digits (after_digit : bool) (s : string) : option string :=
  match s with
  | EmptyString => if after_digit then Some "" else None
  | String c s' =>
      if is_digit c then String c <$> digits true s'
      else if bool_decide (c = "_"%char) && after_digit then digits false s'
      else None
  end.
Definition py_int (s : string) : option Z :=
  let t := rstrip_blank (lstrip_blank s) in
  let '(neg, body) :=
    match t with
    | String "-" r => (true, r)
    | String "+" r => (false, r)
    | _ => (false, t)
    end in
  d ← digits false body;
  u ← NilZero.uint_of_string d;
  Some (if neg : bool then - Z.of_uint u else Z.of_uint u).
