(* ===== verification/Domain.v ===== *)
(** * Values and errors shared by every component ([common/domain.py],
    [common/limits.py], [common/rpc.py])

    The reasons a handler may refuse with, their gRPC status codes, canonical
    identifiers, the canonical JSON text, and the digest that identifies the
    intention of a request. *)
From S2P Require Import Prelude.

(** ** Refusals *)

(** [ErrorReason] of [common.proto], the reasons [need] and [Fault] are called with. *)
Inductive reason :=
  | INVALID_ARGUMENT | LIMIT_EXCEEDED | NOT_IMPLEMENTED_STAGE2 | UNAUTHENTICATED
  | PERMISSION_DENIED | NOT_FOUND | ALREADY_EXISTS | NOT_DIRECTORY | IS_DIRECTORY
  | DIRECTORY_NOT_EMPTY | ROOT_PROTECTED | CWD_GONE | LIST_CHANGED | VERSION_CONFLICT
  | LOCK_CONFLICT | LOCK_EXPIRED | LOCK_BUSY | STALE_HANDLE | HANDLE_BUSY
  | SPARSE_WRITE_UNSUPPORTED | UNSUPPORTED_MODE | IDEMPOTENCY_MISMATCH | OUTCOME_UNKNOWN
  | NO_SPACE | INSUFFICIENT_REPLICAS | METADATA_QUORUM_LOST | DATA_UNAVAILABLE | DATA_LOSS
  | CHECKSUM_MISMATCH | SERVICE_UNAVAILABLE | DEADLINE_EXCEEDED | OPERATION_EXPIRED | NOT_RETIRED.

#[export] Instance reason_eq_dec : EqDecision reason.
Proof. solve_decision. Defined.

(** What a handler raises: a [Fault] with its reason, or another Python
    exception (a subscript of [None], an integrity error of the database),
    which the transport does not translate. *)
Inductive exn :=
  | Fault (r : reason)
  | PyError.

#[export] Instance exn_eq_dec : EqDecision exn.
Proof. solve_decision. Defined.

Module Grpc.
Inductive StatusCode :=
  | UNAUTHENTICATED | PERMISSION_DENIED | NOT_FOUND | ALREADY_EXISTS | INVALID_ARGUMENT
  | RESOURCE_EXHAUSTED | ABORTED | DEADLINE_EXCEEDED | UNAVAILABLE | DATA_LOSS
  | FAILED_PRECONDITION | CANCELLED | UNIMPLEMENTED | UNKNOWN.
End Grpc.

#[export] Instance status_eq_dec : EqDecision Grpc.StatusCode.
Proof. solve_decision. Defined.

(** [Fault.__init__]: the table of [domain.py], [FAILED_PRECONDITION] by default. *)
Definition fault_code (r : reason) : Grpc.StatusCode :=
  match r with
  | UNAUTHENTICATED => Grpc.UNAUTHENTICATED
  | PERMISSION_DENIED => Grpc.PERMISSION_DENIED
  | NOT_FOUND => Grpc.NOT_FOUND
  | ALREADY_EXISTS => Grpc.ALREADY_EXISTS
  | IDEMPOTENCY_MISMATCH => Grpc.ALREADY_EXISTS
  | INVALID_ARGUMENT => Grpc.INVALID_ARGUMENT
  | LIMIT_EXCEEDED => Grpc.RESOURCE_EXHAUSTED
  | UNSUPPORTED_MODE => Grpc.INVALID_ARGUMENT
  | VERSION_CONFLICT => Grpc.ABORTED
  | LIST_CHANGED => Grpc.ABORTED
  | LOCK_BUSY => Grpc.ABORTED
  | LOCK_CONFLICT => Grpc.ABORTED
  | HANDLE_BUSY => Grpc.ABORTED
  | SPARSE_WRITE_UNSUPPORTED => Grpc.INVALID_ARGUMENT
  | OUTCOME_UNKNOWN => Grpc.DEADLINE_EXCEEDED
  | DATA_UNAVAILABLE => Grpc.UNAVAILABLE
  | DEADLINE_EXCEEDED => Grpc.DEADLINE_EXCEEDED
  | NO_SPACE => Grpc.RESOURCE_EXHAUSTED
  | DATA_LOSS => Grpc.DATA_LOSS
  | CHECKSUM_MISMATCH => Grpc.DATA_LOSS
  | SERVICE_UNAVAILABLE => Grpc.UNAVAILABLE
  | _ => Grpc.FAILED_PRECONDITION
  end.

(** [need(condition, reason)]. *)
Definition need {E S} (b : bool) (r : reason) : SM E S exn unit := guard_or b (Fault r).

(** Subscripting a value that may be [None]. *)
Definition some_or_crash {E S A} (o : option A) : SM E S exn A :=
  match o with Some a => mret a | None => raise PyError end.
(** [need(value, reason)] on a value that may be [None], which is then used. *)
Definition need_some {E S A} (o : option A) (r : reason) : SM E S exn A :=
  match o with Some a => mret a | None => raise (Fault r) end.

Section NeedLemmas.
Context {E S : Type}.
Implicit Types (e : E) (s : S).

Lemma need_Ok b r e s u s' :
  (need b r : SM E S exn unit) e s = Ok (u, s') ↔ b = true ∧ s' = s.
Proof. apply guard_Ok. Qed.
Lemma need_some_Ok {A} (o : option A) r e s a s' :
  (need_some o r : SM E S exn A) e s = Ok (a, s') ↔ o = Some a ∧ s' = s.
Proof. destruct o; simpl; [rewrite ret_Ok|]; unfold raise; naive_solver. Qed.
Lemma some_or_crash_Ok {A} (o : option A) e s a s' :
  (some_or_crash o : SM E S exn A) e s = Ok (a, s') ↔ o = Some a ∧ s' = s.
Proof. destruct o; simpl; [rewrite ret_Ok|]; unfold raise; naive_solver. Qed.

Context (R : E → S → S → Prop) `{HR : ∀ e, PreOrder (R e)}.
Lemma keeps_need b r : keeps R (need b r).
Proof using HR. by apply keeps_guard. Qed.
Lemma keeps_need_some {A} (o : option A) r : keeps R (need_some o r).
Proof using HR. destruct o; [by apply keeps_ret|apply keeps_raise]. Qed.
Lemma keeps_some_or_crash {A} (o : option A) : keeps R (some_or_crash o).
Proof using HR. destruct o; [by apply keeps_ret|apply keeps_raise]. Qed.
End NeedLemmas.
#[export] Hint Extern 1 (keeps _ (need _ _)) => apply keeps_need; apply _ : keeps.
#[export] Hint Extern 1 (keeps _ (need_some _ _)) => apply keeps_need_some; apply _ : keeps.
#[export] Hint Extern 1 (keeps _ (some_or_crash _)) => apply keeps_some_or_crash; apply _ : keeps.

(** Turn the boolean conditions of [need] into propositions. *)
Ltac bsimpl :=
  repeat match goal with
  | H : Is_true _ |- _ => apply Is_true_true in H
  | H : bool_decide _ = true |- _ => apply bool_decide_eq_true in H
  | H : bool_decide _ = false |- _ => apply bool_decide_eq_false in H
  | H : negb _ = true |- _ => apply negb_true_iff in H
  | H : negb _ = false |- _ => apply negb_false_iff in H
  | H : _ && _ = true |- _ => apply andb_true_iff in H; destruct H
  | H : _ || _ = false |- _ => apply orb_false_iff in H; destruct H
  | H : (_ <=? _)%Z = true |- _ => apply Z.leb_le in H
  | H : (_ <=? _)%Z = false |- _ => apply Z.leb_gt in H
  | H : (_ <? _)%Z = true |- _ => apply Z.ltb_lt in H
  | H : (_ <? _)%Z = false |- _ => apply Z.ltb_ge in H
  | H : (_ =? _)%Z = true |- _ => apply Z.eqb_eq in H
  | H : (_ =? _)%Z = false |- _ => apply Z.eqb_neq in H
  end.

Ltac need_inv :=
  match goal with
  | H : need _ _ _ _ = Ok (_, _) |- _ => apply need_Ok in H; destruct H; subst
  | H : need_some _ _ _ _ = Ok (_, _) |- _ => apply need_some_Ok in H; destruct H; subst
  | H : some_or_crash _ _ _ = Ok (_, _) |- _ => apply some_or_crash_Ok in H; destruct H; subst
  end.
Ltac minv := repeat (first [progress mrun | need_inv]; simpl in *); bsimpl; simplify_eq.

(** ** Limits ([CHUNK], [PROFILES], [DEADLINES], [limits.py]) *)
Definition CHUNK : Z := 262144.
Definition PROFILES : list Z := [4194304; 67108864; 134217728].
Definition DEADLINES : list (Z * Z) := [(4194304, 30); (67108864, 120); (134217728, 240)].
Definition CHUNK_BYTES : Z := 256 * 1024.
Definition DIAGNOSTIC_BYTES : Z := 64 * 1024 * 1024.
Definition MESSAGE_BYTES : Z := 1024 * 1024.

(** Integer division rounding up, [(a + b - 1) // b]. *)
Definition cdiv (a b : Z) : Z := (a + b - 1) / b.

Lemma cdiv_le a b : 0 < b → a ≤ cdiv a b * b.
Proof.
  intros Hb. unfold cdiv.
  pose proof (Z.div_mod (a + b - 1) b ltac:(lia)). pose proof (Z.mod_pos_bound (a + b - 1) b Hb). nia.
Qed.
Lemma cdiv_lt a b : 0 < b → (cdiv a b - 1) * b < a ∨ a ≤ 0.
Proof.
  intros Hb. unfold cdiv.
  pose proof (Z.div_mod (a + b - 1) b ltac:(lia)). pose proof (Z.mod_pos_bound (a + b - 1) b Hb). nia.
Qed.

(** ** Canonical identifiers ([uuid])

    [str(UUID(value)) == value] holds of the lower-case 8-4-4-4-12 spelling
    and of no other text. *)
Definition is_hex_lower (c : ascii) : bool :=
  let n := nat_of_ascii c in (Nat.leb 48 n && Nat.leb n 57) || (Nat.leb 97 n && Nat.leb n 102).
Fixpoint uuid_from (i : nat) (s : string) : bool :=
  match s with
  | EmptyString => Nat.eqb i 36
  | String c s' =>
      (if decide (i = 8%nat ∨ i = 13%nat ∨ i = 18%nat ∨ i = 23%nat)
       then bool_decide (c = "-"%char) else is_hex_lower c)
      && uuid_from (S i) s'
  end.
Definition is_uuid (s : string) : bool := uuid_from 0 s.
Definition uuid {E S} (s : string) : SM E S exn string := need (is_uuid s) INVALID_ARGUMENT;; mret s.

(** ** JSON ([canonical]) *)
Inductive json :=
  | JNull
  | JBool (b : bool)
  | JNum (n : Z)
  | JStr (s : string)
  | JArr (l : list json)
  | JObj (l : list (string * json)).

Definition hex_digit (n : nat) : ascii := ascii_of_nat (if Nat.ltb n 10 then 48 + n else 87 + n).

(** The escapes of [json.dumps(..., ensure_ascii=False)]. *)
Definition json_char (c : ascii) : string :=
  let n := nat_of_ascii c in
  if Nat.eqb n 34 then String "\" (String (ascii_of_nat 34) "")
  else if Nat.eqb n 92 then "\\"
  else if Nat.eqb n 10 then "\n"
  else if Nat.eqb n 13 then "\r"
  else if Nat.eqb n 9 then "\t"
  else if Nat.eqb n 8 then "\b"
  else if Nat.eqb n 12 then "\f"
  else if Nat.ltb n 32 then "\u00" +:+ String (hex_digit (n / 16)) (String (hex_digit (n mod 16)) "")
  else String c "".
Fixpoint json_chars (s : string) : string :=
  match s with
  | EmptyString => ""
  | String c s' => json_char c +:+ json_chars s'
  end.
Definition quote : string := String (ascii_of_nat 34) "".
Definition json_string (s : string) : string := quote +:+ json_chars s +:+ quote.

Definition key_le {A} (p q : string * A) : Prop := String.le p.1 q.1.
#[export] Instance key_le_dec {A} : RelDecision (@key_le A).
Proof. intros p q. unfold key_le. apply _. Defined.
#[export] Instance key_le_total {A} : Total (@key_le A).
Proof. intros p q. apply (total String.le). Qed.
#[export] Instance key_le_trans {A} : Transitive (@key_le A).
Proof. intros p q r. apply (transitivity (R := String.le)). Qed.

(** [json.dumps(value, ensure_ascii=False, sort_keys=True, separators=(',', ':'))]. *)
Fixpoint canonical (j : json) : string :=
  match j with
  | JNull => "null"
  | JBool b => if b then "true" else "false"
  | JNum n => str_Z n
  | JStr s => json_string s
  | JArr l => "[" +:+ join_with "," (map canonical l) +:+ "]"
  | JObj l =>
      "{" +:+ join_with ","
        (map (λ p : string * string, json_string p.1 +:+ ":" +:+ p.2)
           (merge_sort key_le (map (λ p : string * json, (p.1, canonical p.2)) l))) +:+ "}"
  end.

(** ** Hashes and text normalization of the standard library *)
Class Hash := {
  sha256 : string → string;
  hmac_sha256 : string → string → string;
  sha256_length s : slen (sha256 s) = 32;
}.

(** [unicodedata.normalize('NFC', s)]: the Unicode tables are not modelled; what
    the Unicode standard documents of them is. *)
Class Unicode := {
  nfc : string → string;
  nfc_idemp s : nfc (nfc s) = nfc s;
}.

(** [json.loads] of what [canonical] wrote gives the dictionary back, for objects
    of representable texts and numbers ([json_ok]); [None] is its [ValueError]. *)
Class Json := {
  json_ok : list (string * json) → bool;
  json_loads : string → option json;
  json_loads_canonical l : json_ok l = true → NoDup l.*1 →
    ∃ l', json_loads (canonical (JObj l)) = Some (JObj l') ∧ ∀ k, dget k l' = dget k l;
}.

(** [base64]: [b64encode] and [b64decode], in either alphabet. *)
Class Base64 := {
  b64encode : string → string;
  b64decode : string → option string;
  b64decode_encode s : b64decode (b64encode s) = Some s;
  b64encode_nonempty s : s ≠ "" → b64encode s ≠ "";
}.

(** ** The intention of a request ([intent]) *)
Definition volatile_keys : list string :=
  ["context"; "password"; "capability"; "expires_at_unix_ms"].

Section Intent.
Context `{Hash, Unicode}.

Fixpoint clean (j : json) : json :=
  match j with
  | JObj l =>
      JObj (omap (λ p : string * json,
              if decide (p.1 ∈ volatile_keys) then None else Some (p.1, clean p.2)) l)
  | JArr l => JArr (map clean l)
  | JStr s => JStr (nfc s)
  | _ => j
  end.

(** [intent(message)], on the dictionary form of the message. *)
Definition intent (m : json) : string := sha256 (canonical (clean m)).
End Intent.
