(* ===== verification/Data.v ===== *)
(** * Messages and stored records

    The protocol messages the program builds and reads ([proto/dfsha/v1]), and
    the dictionaries the metadata store keeps, one record per kind.  A message
    and its dictionary form ([asdict], [proto]) are the same record here: the
    protobuf JSON mapping is a bijection between them, and the program only
    compares, stores and rebuilds them.  A [None] field is an absent one. *)
From S2P Require Import Prelude Domain.

(** ** Messages *)
Record RequestContext := mkRequestContext {
  rc_request_id : string; rc_user_id : string; rc_service_epoch : string; rc_intent_sha256 : string }.
Record PathRef := mkPathRef { pr_path : string; pr_cwd_path : string; pr_cwd_id : string }.
Record PageRequest := mkPageRequest { pg_limit : Z; pg_cursor : string }.
Record AclEntry := mkAclEntry { ae_principal : string; ae_is_group : bool; ae_permissions : Z }.
Record Acl := mkAcl {
  acl_owner_id : string; acl_group_id : string; acl_owner : Z; acl_group : Z; acl_other : Z;
  acl_entries : list AclEntry; acl_revision : Z }.
Record SnapshotRef := mkSnapshotRef {
  sr_file_id : string; sr_content_epoch : Z; sr_file_version : Z; sr_manifest_root : string;
  sr_size_bytes : Z; sr_manifest_sha256 : string; sr_file_sha256 : option string;
  sr_block_size_bytes : Z }.
Record BlockRef := mkBlockRef {
  br_file_id : string; br_block_version_id : string; br_block_index : Z; br_size_bytes : Z;
  br_plaintext_sha256 : string }.
Record Fence := mkFence {
  fc_lock_id : string; fc_handle_id : string; fc_service_epoch : string; fc_generation : Z;
  fc_lease_id : Z; fc_block_indices : list Z; fc_whole_file : bool; fc_includes_size : bool;
  fc_expires : Z }.
Record BlockLocation := mkBlockLocation {
  bl_node_id : string; bl_boot_generation : Z; bl_client_endpoint : string;
  bl_private_endpoint : string; bl_failure_domain : string }.
Inductive AccessAction :=
  | READ_DATA | WRITE_DATA | READ_REPLICA | STORE_REPLICA | DELETE_RETIRED | READ_PATCH_BASE
  | PATCH_DATA | ACCESS_ACTION_UNSPECIFIED.
Record BlockGrant := mkBlockGrant {
  bg_capability : string; bg_action : AccessAction; bg_block : BlockRef; bg_node_id : string;
  bg_offset : Z; bg_length : Z; bg_expires : Z }.
Record StorageReservation := mkStorageReservation {
  rs_id : string; rs_node_id : string; rs_operation_id : string; rs_bytes : Z; rs_expires : Z }.
Record PlannedBlock := mkPlannedBlock {
  pb_block : BlockRef; pb_locations : list BlockLocation; pb_grants : list BlockGrant;
  pb_replacement_id : string; pb_patch : bool; pb_delta_offset : Z; pb_block_offset : Z;
  pb_delta_length : Z; pb_reservation : option StorageReservation }.
Record DurableReceipt := mkDurableReceipt {
  dr_receipt_id : string; dr_operation_id : string; dr_block : BlockRef; dr_node_id : string;
  dr_boot_generation : Z; dr_failure_domain : string; dr_stored_size_bytes : Z;
  dr_ciphertext_sha256 : string; dr_durable_at : Z }.
Inductive OperationState := PREPARING | COMMITTED | ABORTED | EXPIRED | OPERATION_STATE_UNSPECIFIED.
Record OperationRef := mkOperationRef {
  or_operation_id : string; or_request_id : string; or_intent_sha256 : string }.
Record MutationResult := mkMutationResult { mr_request_id : string; mr_revision : Z }.
Record CommitResult := mkCommitResult {
  cr_operation : OperationRef; cr_state : OperationState; cr_snapshot : SnapshotRef;
  cr_accepted_bytes : Z; cr_degraded : bool; cr_target_replicas : Z; cr_minimum_durable : Z }.
Record PageReceipt := mkPageReceipt { pt_page_id : string; pt_sha256 : string; pt_revision : Z }.
Record UploadPlan := mkUploadPlan {
  up_operation : OperationRef; up_file_id : string; up_content_epoch : Z; up_fence : Fence;
  up_block_bytes : Z; up_expires : Z; up_minimum_durable : Z }.
Record BlockPlan := mkBlockPlan {
  bp_blocks : list PlannedBlock; bp_next_cursor : string; bp_snapshot : option SnapshotRef }.
Module ctl.
Inductive OpenMode := OPEN_MODE_UNSPECIFIED | R | R_PLUS | W | W_PLUS | X | X_PLUS.
End ctl.
Abbreviation OpenMode := ctl.OpenMode.
Record Handle := mkHandle {
  hm_handle_id : string; hm_snapshot : SnapshotRef; hm_mode : OpenMode; hm_expires : Z;
  hm_revision : Z }.
Record WritePart := mkWritePart {
  wp_block_index : Z; wp_block_offset : Z; wp_delta_offset : Z; wp_length : Z;
  wp_delta_sha256 : string }.
Record BeginWriteRequest := mkBeginWriteRequest {
  bw_context : RequestContext; bw_handle_id : string; bw_base : SnapshotRef;
  bw_offset : option Z; bw_length : option Z; bw_delta_sha256 : string;
  bw_fences : list Fence; bw_parts : list WritePart }.
Record WritePlan := mkWritePlan {
  wl_operation : OperationRef; wl_blocks : list PlannedBlock; wl_fences : list Fence;
  wl_base : SnapshotRef; wl_minimum_durable : Z }.
Record BlockChange := mkBlockChange {
  bc_base : BlockRef; bc_replacement : BlockRef; bc_receipts : list DurableReceipt }.
Record OperationStatus := mkOperationStatus {
  os_operation : OperationRef; os_state : OperationState; os_result : option CommitResult;
  os_expires : Z; os_write_intent : option BeginWriteRequest }.
Record ReadLease := mkReadLease { rl_read_id : string; rl_snapshot : SnapshotRef; rl_expires : Z }.
Inductive ObjectKind := FILE | DIRECTORY.
Record Entry := mkEntry {
  en_object_id : string; en_name : string; en_kind : ObjectKind; en_size_bytes : Z;
  en_revision : Z; en_snapshot : option SnapshotRef }.
Record ListResponse := mkListResponse {
  ls_entries : list Entry; ls_next_cursor : string; ls_directory_revision : Z }.
Record User := mkUser { um_user_id : string; um_username : string; um_disabled : bool; um_revision : Z }.
Record Group := mkGroup {
  gm_group_id : string; gm_name : string; gm_user_ids : list string; gm_revision : Z }.
Record Session := mkSession {
  sm_session_id : string; sm_user_id : string; sm_token : string; sm_expires : Z;
  sm_service_epoch : string }.
Inductive TaskState := ACCEPTED | RUNNING | FINISHED | FAILED | TASK_STATE_UNSPECIFIED.
Record TaskStatus := mkTaskStatus {
  ts_task_id : string; ts_state : TaskState; ts_receipt : option DurableReceipt;
  ts_error_reason : option reason }.
Record NodeLease := mkNodeLease {
  nl_node_id : string; nl_boot_generation : Z; nl_expires : Z; nl_revision : Z }.
Record AuthorizationDecision := mkAuthorizationDecision {
  ad_subject_id : string; ad_authz_revision : Z; ad_valid_until : Z; ad_block_size_bytes : Z;
  ad_replay_receipt : option DurableReceipt; ad_replacement_size_bytes : Z }.

#[export] Instance RequestContext_eq_dec : EqDecision RequestContext.
Proof. solve_decision. Defined.
#[export] Instance AclEntry_eq_dec : EqDecision AclEntry.
Proof. solve_decision. Defined.
#[export] Instance SnapshotRef_eq_dec : EqDecision SnapshotRef.
Proof. solve_decision. Defined.
#[export] Instance BlockRef_eq_dec : EqDecision BlockRef.
Proof. solve_decision. Defined.
#[export] Instance Fence_eq_dec : EqDecision Fence.
Proof. solve_decision. Defined.
#[export] Instance BlockLocation_eq_dec : EqDecision BlockLocation.
Proof. solve_decision. Defined.
#[export] Instance AccessAction_eq_dec : EqDecision AccessAction.
Proof. solve_decision. Defined.
#[export] Instance DurableReceipt_eq_dec : EqDecision DurableReceipt.
Proof. solve_decision. Defined.
#[export] Instance OperationState_eq_dec : EqDecision OperationState.
Proof. solve_decision. Defined.
#[export] Instance OperationRef_eq_dec : EqDecision OperationRef.
Proof. solve_decision. Defined.
#[export] Instance PageReceipt_eq_dec : EqDecision PageReceipt.
Proof. solve_decision. Defined.
#[export] Instance OpenMode_eq_dec : EqDecision OpenMode.
Proof. solve_decision. Defined.
#[export] Instance TaskState_eq_dec : EqDecision TaskState.
Proof. solve_decision. Defined.
#[export] Instance TaskStatus_eq_dec : EqDecision TaskStatus.
Proof. solve_decision. Defined.

(** ** Stored records *)
Inductive node_kind := Directory | File.
#[export] Instance node_kind_eq_dec : EqDecision node_kind.
Proof. solve_decision. Defined.

(** [new_node]: files also carry the [block_size] their creator adds. *)
Record node := mkNode {
  n_id : string; n_name : string; n_parent : option string; n_owner : string; n_group : string;
  n_mode : Z; n_acl : list AclEntry; n_alive : bool; n_kind : node_kind; n_revision : Z;
  n_snapshot : option string; n_block_size : Z }.
Record user := mkUserRec {
  u_id : string; u_username : string; u_password : string; u_disabled : bool; u_admin : bool;
  u_revision : Z }.
Record group := mkGroupRec {
  g_id : string; g_name : string; g_members : list string; g_revision : Z }.
Record session := mkSessionRec {
  s_id : string; s_session_id : string; s_user : string; s_expires : Z; s_revoked : bool }.
(** [settings]: the singletons the program keeps under that kind. *)
Record counter := mkCounter { ct_id : string; ct_generation : Z; ct_epoch : string }.
Record placement := mkPlacement { pl_id : string; pl_last : string }.
Record rate := mkRate { rt_id : string; rt_window : Z; rt_count : Z }.
Record login_result := mkLoginResult {
  lr_id : string; lr_session : string; lr_expires : Z; lr_response : string }.
Record snapshot := mkSnapshot {
  sn_id : string; sn_file : string; sn_ref : SnapshotRef; sn_blocks : list BlockRef }.
Record block := mkBlock {
  b_id : string; b_file : string; b_operation : string; b_ref : BlockRef; b_stored_size : Z;
  b_receipt : DurableReceipt }.
Record policy := mkPolicy {
  po_id : string; po_r : Z; po_w : Z; po_revision : Z; po_state : string; po_until : Z }.
(** One planned part of a range write. *)
Record write_part := mkWP {
  w_part : WritePart; w_base : BlockRef; w_replacement : BlockRef; w_plan : PlannedBlock }.
(** What an operation of kind [write] adds to an upload. *)
Record write_ext := mkWriteExt {
  we_handle : string; we_handle_revision : Z; we_control_epoch : string; we_offset : Z;
  we_length : Z; we_growing : bool; we_base_size : Z; we_fences : list Fence;
  we_parts : list write_part; we_begin : BeginWriteRequest }.
Record upload := mkUpload {
  o_id : string; o_operation : OperationRef; o_request_id : string; o_user : string;
  o_session : string; o_parent : option string; o_name : string; o_file : string;
  o_base : option string; o_version : Z; o_block_size : Z; o_total : Z; o_sha : string;
  o_state : OperationState; o_expires : Z; o_max_expires : Z; o_epoch : Z; o_reserved : Z;
  o_allocations : list (Z * BlockRef); o_pages : list (Z * list BlockRef);
  o_sealed : option PageReceipt; o_result : option CommitResult; o_locks : list string;
  o_full_fence : option Fence; o_policy : option policy; o_write : option write_ext }.
Record handle := mkHandleRec {
  h_id : string; h_file : string; h_snapshot : string; h_user : string; h_session : string;
  h_expires : Z; h_revision : Z; h_closed : bool; h_ancestors : list string; h_mode : OpenMode;
  h_busy : option string; h_control_epoch : option string; h_deadline : Z; h_maximum : Z }.
Record lock := mkLock {
  k_id : string; k_handle : string; k_file : string; k_session : string; k_generation : Z;
  k_control_epoch : string; k_indices : list Z; k_whole : bool; k_size : bool;
  k_automatic : bool; k_lease : Z; k_active : list string; k_deadline : Z }.
Record read := mkRead {
  r_id : string; r_handle : string; r_session : string; r_offset : Z; r_length : Z; r_closed : bool }.
Record ledger := mkLedger {
  l_id : string; l_method : string; l_digest : string; l_response : string;
  l_password_verifier : option string }.
Record datanode := mkDatanode {
  dn_id : string; dn_location : BlockLocation; dn_capacity : Z; dn_free : Z; dn_used : Z;
  dn_seen : Z; dn_sequence : Z; dn_reconciled : bool; dn_inventory_id : string; dn_page : Z;
  dn_active : Z; dn_authorization_disabled : bool; dn_heartbeat_digest : string;
  dn_report_pages : list (Z * string); dn_deadline : Z; dn_counters : list Z }.
(** [health] absent reads as [VERIFIED], [checked_at] absent as [0]. *)
Record location := mkLocation {
  lo_id : string; lo_block : string; lo_node : string; lo_receipt : DurableReceipt;
  lo_inventory : string; lo_health : string; lo_checked_at : Z }.
Record assignment := mkAssignment {
  a_id : string; a_node : string; a_operation : string; a_generation : Z; a_reserved : Z }.
Inductive task_kind := CopyTask | DeleteTask.
#[export] Instance task_kind_eq_dec : EqDecision task_kind.
Proof. solve_decision. Defined.
Record task := mkTask {
  t_id : string; t_kind : task_kind; t_block : BlockRef; t_src : string; t_dest : string;
  t_expires : Z; t_status : TaskStatus; t_source : option BlockLocation;
  t_destination : option BlockLocation; t_receipt : option DurableReceipt; t_reserved : Z;
  t_write_operation : option string; t_owner : string; t_generation : Z; t_attempts : Z;
  t_next_run : Z; t_expected_receipt_id : string; t_replace_receipt : string;
  t_dispatched : bool; t_cleanup_checked : bool; t_maintenance_owner : string }.
Record retirement := mkRetirement { rm_id : string; rm_task : string }.
Record node_policy := mkNodePolicy { np_id : string; np_revision : Z; np_enabled : bool }.
Record durability := mkDurability { du_id : string; du_receipts : list (string * DurableReceipt) }.
Record retired := mkRetired { re_id : string; re_ref : BlockRef; re_at : Z }.
Record replica_plan := mkReplicaPlan {
  rp_id : string; rp_operation : string; rp_destinations : list string; rp_reserved : Z }.
Record repair_retry := mkRepairRetry { rr_id : string; rr_attempts : Z; rr_next_run : Z }.
Record health_event := mkHealthEvent {
  he_id : string; he_block : string; he_node : string; he_receipt : DurableReceipt;
  he_health : string; he_observed_at : Z }.

#[export] Instance eta_node : Eta node := λ r,
  mkNode r.(n_id) r.(n_name) r.(n_parent) r.(n_owner) r.(n_group) r.(n_mode) r.(n_acl)
    r.(n_alive) r.(n_kind) r.(n_revision) r.(n_snapshot) r.(n_block_size).
#[export] Instance eta_user : Eta user := λ r,
  mkUserRec r.(u_id) r.(u_username) r.(u_password) r.(u_disabled) r.(u_admin) r.(u_revision).
#[export] Instance eta_group : Eta group := λ r,
  mkGroupRec r.(g_id) r.(g_name) r.(g_members) r.(g_revision).
#[export] Instance eta_session : Eta session := λ r,
  mkSessionRec r.(s_id) r.(s_session_id) r.(s_user) r.(s_expires) r.(s_revoked).
#[export] Instance eta_counter : Eta counter := λ r,
  mkCounter r.(ct_id) r.(ct_generation) r.(ct_epoch).
#[export] Instance eta_rate : Eta rate := λ r, mkRate r.(rt_id) r.(rt_window) r.(rt_count).
#[export] Instance eta_snapshot : Eta snapshot := λ r,
  mkSnapshot r.(sn_id) r.(sn_file) r.(sn_ref) r.(sn_blocks).
#[export] Instance eta_SnapshotRef : Eta SnapshotRef := λ r,
  mkSnapshotRef r.(sr_file_id) r.(sr_content_epoch) r.(sr_file_version) r.(sr_manifest_root)
    r.(sr_size_bytes) r.(sr_manifest_sha256) r.(sr_file_sha256) r.(sr_block_size_bytes).
#[export] Instance eta_Fence : Eta Fence := λ r,
  mkFence r.(fc_lock_id) r.(fc_handle_id) r.(fc_service_epoch) r.(fc_generation) r.(fc_lease_id)
    r.(fc_block_indices) r.(fc_whole_file) r.(fc_includes_size) r.(fc_expires).
#[export] Instance eta_CommitResult : Eta CommitResult := λ r,
  mkCommitResult r.(cr_operation) r.(cr_state) r.(cr_snapshot) r.(cr_accepted_bytes)
    r.(cr_degraded) r.(cr_target_replicas) r.(cr_minimum_durable).
#[export] Instance eta_UploadPlan : Eta UploadPlan := λ r,
  mkUploadPlan r.(up_operation) r.(up_file_id) r.(up_content_epoch) r.(up_fence)
    r.(up_block_bytes) r.(up_expires) r.(up_minimum_durable).
#[export] Instance eta_WritePlan : Eta WritePlan := λ r,
  mkWritePlan r.(wl_operation) r.(wl_blocks) r.(wl_fences) r.(wl_base) r.(wl_minimum_durable).
#[export] Instance eta_BlockGrant : Eta BlockGrant := λ r,
  mkBlockGrant r.(bg_capability) r.(bg_action) r.(bg_block) r.(bg_node_id) r.(bg_offset)
    r.(bg_length) r.(bg_expires).
#[export] Instance eta_PlannedBlock : Eta PlannedBlock := λ r,
  mkPlannedBlock r.(pb_block) r.(pb_locations) r.(pb_grants) r.(pb_replacement_id) r.(pb_patch)
    r.(pb_delta_offset) r.(pb_block_offset) r.(pb_delta_length) r.(pb_reservation).
#[export] Instance eta_write_ext : Eta write_ext := λ r,
  mkWriteExt r.(we_handle) r.(we_handle_revision) r.(we_control_epoch) r.(we_offset) r.(we_length)
    r.(we_growing) r.(we_base_size) r.(we_fences) r.(we_parts) r.(we_begin).
#[export] Instance eta_upload : Eta upload := λ r,
  mkUpload r.(o_id) r.(o_operation) r.(o_request_id) r.(o_user) r.(o_session) r.(o_parent)
    r.(o_name) r.(o_file) r.(o_base) r.(o_version) r.(o_block_size) r.(o_total) r.(o_sha)
    r.(o_state) r.(o_expires) r.(o_max_expires) r.(o_epoch) r.(o_reserved) r.(o_allocations)
    r.(o_pages) r.(o_sealed) r.(o_result) r.(o_locks) r.(o_full_fence) r.(o_policy) r.(o_write).
#[export] Instance eta_handle : Eta handle := λ r,
  mkHandleRec r.(h_id) r.(h_file) r.(h_snapshot) r.(h_user) r.(h_session) r.(h_expires)
    r.(h_revision) r.(h_closed) r.(h_ancestors) r.(h_mode) r.(h_busy) r.(h_control_epoch)
    r.(h_deadline) r.(h_maximum).
#[export] Instance eta_lock : Eta lock := λ r,
  mkLock r.(k_id) r.(k_handle) r.(k_file) r.(k_session) r.(k_generation) r.(k_control_epoch)
    r.(k_indices) r.(k_whole) r.(k_size) r.(k_automatic) r.(k_lease) r.(k_active) r.(k_deadline).
#[export] Instance eta_read : Eta read := λ r,
  mkRead r.(r_id) r.(r_handle) r.(r_session) r.(r_offset) r.(r_length) r.(r_closed).
#[export] Instance eta_datanode : Eta datanode := λ r,
  mkDatanode r.(dn_id) r.(dn_location) r.(dn_capacity) r.(dn_free) r.(dn_used) r.(dn_seen)
    r.(dn_sequence) r.(dn_reconciled) r.(dn_inventory_id) r.(dn_page) r.(dn_active)
    r.(dn_authorization_disabled) r.(dn_heartbeat_digest) r.(dn_report_pages) r.(dn_deadline)
    r.(dn_counters).
#[export] Instance eta_location : Eta location := λ r,
  mkLocation r.(lo_id) r.(lo_block) r.(lo_node) r.(lo_receipt) r.(lo_inventory) r.(lo_health)
    r.(lo_checked_at).
#[export] Instance eta_TaskStatus : Eta TaskStatus := λ r,
  mkTaskStatus r.(ts_task_id) r.(ts_state) r.(ts_receipt) r.(ts_error_reason).
#[export] Instance eta_task : Eta task := λ r,
  mkTask r.(t_id) r.(t_kind) r.(t_block) r.(t_src) r.(t_dest) r.(t_expires) r.(t_status)
    r.(t_source) r.(t_destination) r.(t_receipt) r.(t_reserved) r.(t_write_operation) r.(t_owner)
    r.(t_generation) r.(t_attempts) r.(t_next_run) r.(t_expected_receipt_id)
    r.(t_replace_receipt) r.(t_dispatched) r.(t_cleanup_checked) r.(t_maintenance_owner).
#[export] Instance eta_policy : Eta policy := λ r,
  mkPolicy r.(po_id) r.(po_r) r.(po_w) r.(po_revision) r.(po_state) r.(po_until).
#[export] Instance eta_node_policy : Eta node_policy := λ r,
  mkNodePolicy r.(np_id) r.(np_revision) r.(np_enabled).
#[export] Instance eta_durability : Eta durability := λ r, mkDurability r.(du_id) r.(du_receipts).
#[export] Instance eta_repair_retry : Eta repair_retry := λ r,
  mkRepairRetry r.(rr_id) r.(rr_attempts) r.(rr_next_run).
#[export] Instance eta_BlockChange : Eta BlockChange := λ r,
  mkBlockChange r.(bc_base) r.(bc_replacement) r.(bc_receipts).
