(* ===== verification/Store.v ===== *)
(** * The metadata store ([control/metadata.py], the port of [common/ports.py])

    A unit of work reads and writes tables of records, one per kind, keyed by
    the record's own identity.  [DB] is what a unit of work promises its
    callers, whichever adapter keeps the tables. *)
From S2P Require Import Prelude Domain Data.

(** ** Kinds and tables *)
Inductive kind :=
  | KEpoch | KLockSeq | KPlacement | KRate | KLoginResult | KUser | KGroup | KSession | KNode
  | KSnapshot | KBlock | KUpload | KHandle | KLock | KRead | KLedger | KDatanode | KLocation
  | KAssignment | KTask | KRetirement | KNodePolicy | KPolicy | KDurability | KRetired
  | KReplicaPlan | KRepairRetry | KHealthEvent | KMaintenance | KMigrationPin.

#[export] Instance kind_eq_dec : EqDecision kind.
Proof. solve_decision. Defined.

(** [settings/maintenance] of the replicated control: who owns maintenance. *)
Record maintenance := mkMaintenance {
  mt_id : string; mt_generation : Z; mt_lease_owner : string; mt_instance : string }.
Record migration_pin := mkMigrationPin { mp_id : string; mp_snapshot : string }.

Definition val (k : kind) : Type :=
  match k with
  | KEpoch | KLockSeq => counter
  | KPlacement => placement | KRate => rate | KLoginResult => login_result
  | KUser => user | KGroup => group | KSession => session | KNode => node
  | KSnapshot => snapshot | KBlock => block | KUpload => upload | KHandle => handle
  | KLock => lock | KRead => read | KLedger => ledger | KDatanode => datanode
  | KLocation => location | KAssignment => assignment | KTask => task
  | KRetirement => retirement | KNodePolicy => node_policy | KPolicy => policy
  | KDurability => durability | KRetired => retired | KReplicaPlan => replica_plan
  | KRepairRetry => repair_retry | KHealthEvent => health_event | KMaintenance => maintenance
  | KMigrationPin => migration_pin
  end.

(** [value['id']]. *)
Definition key (k : kind) : val k → string :=
  match k with
  | KEpoch | KLockSeq => ct_id
  | KPlacement => pl_id | KRate => rt_id | KLoginResult => lr_id
  | KUser => u_id | KGroup => g_id | KSession => s_id | KNode => n_id
  | KSnapshot => sn_id | KBlock => b_id | KUpload => o_id | KHandle => h_id
  | KLock => k_id | KRead => r_id | KLedger => l_id | KDatanode => dn_id
  | KLocation => lo_id | KAssignment => a_id | KTask => t_id
  | KRetirement => rm_id | KNodePolicy => np_id | KPolicy => po_id
  | KDurability => du_id | KRetired => re_id | KReplicaPlan => rp_id
  | KRepairRetry => rr_id | KHealthEvent => he_id | KMaintenance => mt_id
  | KMigrationPin => mp_id
  end.

Definition DB : Type := ∀ k : kind, gmap string (val k).

Definition empty_db : DB := λ k, ∅.

Definition on_kind (k : kind) (f : gmap string (val k) → gmap string (val k)) (d : DB) : DB :=
  λ k', match decide (k = k') with
        | left Hk => match Hk in (_ = k0) return gmap string (val k0) with eq_refl => f (d k) end
        | right _ => d k'
        end.

Definition put_db (k : kind) (v : val k) : DB → DB := on_kind k (insert (key k v) v).
Definition del_db (k : kind) (i : string) : DB → DB := on_kind k (delete i).

(** Records in the order of their identity ([ORDER BY id]). *)
Definition rows {A} (m : gmap string A) : list (string * A) := merge_sort key_le (map_to_list m).
Definition all_db (k : kind) (d : DB) : list (val k) := (rows (d k)).*2.

(** [sorted(..., key=lambda v: v['name'])] of the live children of a directory. *)
Definition name_le (p q : node) : Prop := String.le p.(n_name) q.(n_name).
#[export] Instance name_le_dec : RelDecision name_le.
Proof. intros p q. unfold name_le. apply _. Defined.
#[export] Instance name_le_total : Total name_le.
Proof. intros p q. apply (total String.le). Qed.
#[export] Instance name_le_trans : Transitive name_le.
Proof. intros p q r. apply (transitivity (R := String.le)). Qed.

Definition is_child (parent : string) (n : node) : bool :=
  n.(n_alive) && bool_decide (n.(n_parent) = Some parent).
Definition children_db (parent : string) (d : DB) : list node :=
  merge_sort name_le (List.filter (is_child parent) (all_db KNode d)).

Section Tables.
Implicit Types (d : DB) (k : kind).

Lemma on_kind_eq k f d : on_kind k f d k = f (d k).
Proof.
  unfold on_kind. destruct (decide (k = k)) as [Hk|]; [|done].
  by rewrite (proof_irrel Hk eq_refl).
Qed.
Lemma on_kind_ne k k' f d : k ≠ k' → on_kind k f d k' = d k'.
Proof. intros. unfold on_kind. by destruct (decide (k = k')). Qed.

Lemma put_db_same k v d : put_db k v d k = <[key k v := v]> (d k).
Proof. apply on_kind_eq. Qed.
Lemma put_db_eq k v d : put_db k v d k !! key k v = Some v.
Proof. rewrite put_db_same. apply lookup_insert_eq. Qed.
Lemma put_db_ne k v d i : key k v ≠ i → put_db k v d k !! i = d k !! i.
Proof. intros. rewrite put_db_same. by apply lookup_insert_ne. Qed.
Lemma put_db_kind k k' v d : k ≠ k' → put_db k v d k' = d k'.
Proof. apply on_kind_ne. Qed.
Lemma del_db_same k i d : del_db k i d k = delete i (d k).
Proof. apply on_kind_eq. Qed.
Lemma del_db_kind k k' i d : k ≠ k' → del_db k i d k' = d k'.
Proof. apply on_kind_ne. Qed.

Lemma elem_of_rows {A} (m : gmap string A) i v : (i, v) ∈ rows m ↔ m !! i = Some v.
Proof. unfold rows. rewrite merge_sort_Permutation. apply elem_of_map_to_list. Qed.
Lemma elem_of_all k d v : v ∈ all_db k d ↔ ∃ i, d k !! i = Some v.
Proof.
  unfold all_db. rewrite list_elem_of_fmap. split.
  - intros ([i w] & -> & Hin%elem_of_rows). eauto.
  - intros [i Hi]. exists (i, v). by rewrite elem_of_rows.
Qed.
Lemma NoDup_rows {A} (m : gmap string A) : NoDup (rows m).*1.
Proof. unfold rows. rewrite merge_sort_Permutation. apply NoDup_fst_map_to_list. Qed.
Lemma rows_sorted {A} (m : gmap string A) : StronglySorted key_le (rows m).
Proof. apply StronglySorted_merge_sort; apply _. Qed.

Lemma elem_of_children p d n :
  n ∈ children_db p d ↔ (∃ i, d KNode !! i = Some n) ∧ n.(n_alive) = true ∧ n.(n_parent) = Some p.
Proof.
  unfold children_db. rewrite merge_sort_Permutation, list_elem_of_In, filter_In, <-list_elem_of_In.
  rewrite (elem_of_all KNode). unfold is_child. rewrite andb_true_iff, bool_decide_eq_true. tauto.
Qed.
Lemma children_sorted p d : StronglySorted name_le (children_db p d).
Proof. apply StronglySorted_merge_sort; apply _. Qed.

(** Every record lies under its own identity: what [put] and [delete] keep. *)
Definition keyed d : Prop := ∀ k i v, d k !! i = Some v → key k v = i.

Lemma keyed_empty : keyed empty_db.
Proof. intros k i v. unfold empty_db. by rewrite lookup_empty. Qed.
Lemma keyed_put k v d : keyed d → keyed (put_db k v d).
Proof.
  intros Hd k' i w. destruct (decide (k = k')) as [<-|Hne].
  - rewrite put_db_same, lookup_insert_Some. intros [[<- <-]|[_ Hw]]; [done|by apply Hd].
  - rewrite put_db_kind by done. apply Hd.
Qed.
Lemma keyed_del k i d : keyed d → keyed (del_db k i d).
Proof.
  intros Hd k' j w. destruct (decide (k = k')) as [<-|Hne].
  - rewrite del_db_same, lookup_delete_Some. intros [_ Hw]. by apply Hd.
  - rewrite del_db_kind by done. apply Hd.
Qed.
Lemma keyed_all k d v : keyed d → v ∈ all_db k d ↔ d k !! key k v = Some v.
Proof.
  intros Hd. rewrite elem_of_all. split; [|by eauto].
  intros [i Hi]. by rewrite (Hd k i v Hi).
Qed.
End Tables.

Ltac db_simpl :=
  repeat first
    [ rewrite put_db_kind by discriminate
    | rewrite del_db_kind by discriminate
    | rewrite put_db_same | rewrite del_db_same ].
Tactic Notation "db_simpl" "in" hyp(H) :=
  repeat first
    [ rewrite put_db_kind in H by discriminate
    | rewrite del_db_kind in H by discriminate
    | rewrite put_db_same in H | rewrite del_db_same in H ].

(** ** The process around a unit of work *)

(** The rows of [authorized_nodes_path]. *)
Record allowed_node := mkAllowed {
  al_identity : string; al_client_endpoint : string; al_private_endpoint : string;
  al_failure_domain : string; al_capacity_bytes : Z }.

(** Which control class runs: [Monolith], [DistributedControl],
    [ReplicatedControl] or [HAControl] ([server.py]). *)
Inductive profile := PMonolith | PDistributed | PReplicated | PHA.
#[export] Instance profile_eq_dec : EqDecision profile.
Proof. solve_decision. Defined.

(** The configuration the handlers read; durations of leases are in
    milliseconds, like the monotonic clock below. *)
Record config := mkConfig {
  c_profile : profile;
  c_rf3 : bool;
  c_encrypted : bool;                    (* metadata_key_path is set *)
  c_etcd : bool;                         (* metadata_backend == 'etcd' *)
  c_block_size_bytes : Z;
  c_max_file_bytes : Z;
  c_capacity_bytes : Z;
  c_default_replicas : Z;
  c_lock_lease_ms : Z;
  c_handle_lease_ms : Z;
  c_suspect_ms : Z;
  c_unavailable_ms : Z;
  c_scrub_interval_ms : Z;
  c_endpoint : string;                   (* LocalPlacement.endpoint *)
  c_allowed : list (string * allowed_node) }.

(** [settings/system]. *)
Record system := mkSystem {
  sy_epoch : string; sy_root : string; sy_node : string; sy_strict : bool }.

(** What one handler reads: the configuration, the clocks at the instant of the
    unit of work, the master key, the free bytes of the local disk, the
    identifiers [uid()] and the bytes [os.urandom()] will draw, the epoch of the
    lease authority, the maintenance generation, and which leases etcd holds
    ([lease_live], by kind and identity; unused by the SQLite profiles). *)
Record env := mkEnv {
  e_cfg : config;
  e_system : system;
  e_now : Z;
  e_clock : Z;
  e_key : string;
  e_disk_free : Z;
  e_uid : nat → string;
  e_random : nat → Z → string;
  e_lease_epoch : string;
  e_maintenance_generation : Z;
  e_lease_live : kind → string → bool }.

#[export] Instance eta_config : Eta config := λ r,
  mkConfig r.(c_profile) r.(c_rf3) r.(c_encrypted) r.(c_etcd) r.(c_block_size_bytes) r.(c_max_file_bytes)
    r.(c_capacity_bytes) r.(c_default_replicas) r.(c_lock_lease_ms) r.(c_handle_lease_ms) r.(c_suspect_ms)
    r.(c_unavailable_ms) r.(c_scrub_interval_ms) r.(c_endpoint) r.(c_allowed).
#[export] Instance eta_env : Eta env := λ r,
  mkEnv r.(e_cfg) r.(e_system) r.(e_now) r.(e_clock) r.(e_key) r.(e_disk_free) r.(e_uid) r.(e_random)
    r.(e_lease_epoch) r.(e_maintenance_generation) r.(e_lease_live).

(** What it changes: the tables, the number of random draws, and the
    in-memory [verified_seals]. *)
Record st := mkSt { s_db : DB; s_draws : nat; s_seals : list (string * string) }.
#[export] Instance eta_st : Eta st := λ r, mkSt r.(s_db) r.(s_draws) r.(s_seals).

Abbreviation M := (SM env st exn).

(** ** The operations of a unit of work *)
Definition get (k : kind) (i : string) : M (option (val k)) :=
  λ e s, Ok (s.(s_db) k !! i, s).
(** An optional reference: [tx.get(kind, None)] finds nothing. *)
Definition get_opt (k : kind) (i : option string) : M (option (val k)) :=
  match i with Some i => get k i | None => mret None end.
Definition all (k : kind) : M (list (val k)) := λ e s, Ok (all_db k s.(s_db), s).
Definition children (parent : string) : M (list node) :=
  λ e s, Ok (children_db parent s.(s_db), s).
Definition put (k : kind) (v : val k) : M unit := modify (λ s, s <| s_db ::= put_db k v |>).
Definition del (k : kind) (i : string) : M unit := modify (λ s, s <| s_db ::= del_db k i |>).

Definition uid : M string :=
  λ e s, Ok (e.(e_uid) s.(s_draws), s <| s_draws ::= S |>).
Definition urandom (n : Z) : M string :=
  λ e s, Ok (e.(e_random) s.(s_draws) n, s <| s_draws ::= S |>).
Definition now : M Z := λ e s, Ok (e.(e_now), s).
Definition clock : M Z := λ e s, Ok (e.(e_clock), s).
Definition cfg : M config := λ e s, Ok (e.(e_cfg), s).
Definition system_of : M system := λ e s, Ok (e.(e_system), s).

(** [with store.transaction(): body]: an exception rolls the tables back. *)
Definition transaction {A} (body : M A) (e : env) (s : st) : result exn A * st :=
  match body e s with
  | Ok (a, s') => (Ok a, s')
  | Err x => (Err x, s)
  end.

Section OpLemmas.
Implicit Types (e : env) (s : st).

Lemma get_Ok k i e s v s' : get k i e s = Ok (v, s') ↔ v = s.(s_db) k !! i ∧ s' = s.
Proof. unfold get. naive_solver. Qed.
Lemma get_opt_Ok k i e s v s' :
  get_opt k i e s = Ok (v, s') ↔ v = (i ≫= λ i, s.(s_db) k !! i) ∧ s' = s.
Proof. destruct i; simpl; [apply get_Ok|]. rewrite ret_Ok. naive_solver. Qed.
Lemma all_Ok k e s v s' : all k e s = Ok (v, s') ↔ v = all_db k s.(s_db) ∧ s' = s.
Proof. unfold all. naive_solver. Qed.
Lemma children_Ok p e s v s' : children p e s = Ok (v, s') ↔ v = children_db p s.(s_db) ∧ s' = s.
Proof. unfold children. naive_solver. Qed.
Lemma put_Ok k v e s u s' : put k v e s = Ok (u, s') ↔ s' = s <| s_db ::= put_db k v |>.
Proof. apply modify_Ok. Qed.
Lemma del_Ok k i e s u s' : del k i e s = Ok (u, s') ↔ s' = s <| s_db ::= del_db k i |>.
Proof. apply modify_Ok. Qed.
Lemma uid_Ok e s v s' : uid e s = Ok (v, s') ↔ v = e.(e_uid) s.(s_draws) ∧ s' = s <| s_draws ::= S |>.
Proof. unfold uid. naive_solver. Qed.
Lemma urandom_Ok n e s v s' :
  urandom n e s = Ok (v, s') ↔ v = e.(e_random) s.(s_draws) n ∧ s' = s <| s_draws ::= S |>.
Proof. unfold urandom. naive_solver. Qed.
Lemma now_Ok e s v s' : now e s = Ok (v, s') ↔ v = e.(e_now) ∧ s' = s.
Proof. unfold now. naive_solver. Qed.
Lemma clock_Ok e s v s' : clock e s = Ok (v, s') ↔ v = e.(e_clock) ∧ s' = s.
Proof. unfold clock. naive_solver. Qed.
Lemma cfg_Ok e s v s' : cfg e s = Ok (v, s') ↔ v = e.(e_cfg) ∧ s' = s.
Proof. unfold cfg. naive_solver. Qed.
Lemma system_of_Ok e s v s' : system_of e s = Ok (v, s') ↔ v = e.(e_system) ∧ s' = s.
Proof. unfold system_of. naive_solver. Qed.
End OpLemmas.

(** *** Footprints

    [frame ks]: only tables of the kinds [ks] may differ, random draws are never
    taken back, and records stay under their own identity.  [writes ks m] bounds
    what a handler writes; a theorem about the other tables needs nothing else of
    the handler. *)
Definition frame (ks : list kind) (e : env) (s s' : st) : Prop :=
  (∀ k, k ∉ ks → s'.(s_db) k = s.(s_db) k) ∧ (s.(s_draws) ≤ s'.(s_draws))%nat
  ∧ (keyed s.(s_db) → keyed s'.(s_db)).
#[export] Instance frame_preorder ks e : PreOrder (frame ks e).
Proof.
  split; [intros s; by split|].
  intros s1 s2 s3 (H1 & D1 & K1) (H2 & D2 & K2). split_and!; [intros k Hk; rewrite H2, H1; done|lia|auto].
Qed.
Abbreviation writes ks := (keeps (frame ks)).

Section Footprints.
Context (ks : list kind).

Lemma writes_same {A} (m : M A) :
  (∀ e s a s', m e s = Ok (a, s') → s'.(s_db) = s.(s_db) ∧ (s.(s_draws) ≤ s'.(s_draws))%nat) → writes ks m.
Proof. intros Hm e s a s' H. destruct (Hm _ _ _ _ H) as [E D]. split_and!; [intros k _; by rewrite E|done|by rewrite E]. Qed.
Lemma writes_get k i : writes ks (get k i).
Proof. apply writes_same. intros e s a s' [_ ->]%get_Ok. by split. Qed.
Lemma writes_get_opt k i : writes ks (get_opt k i).
Proof. apply writes_same. intros e s a s' [_ ->]%get_opt_Ok. by split. Qed.
Lemma writes_all k : writes ks (all k).
Proof. apply writes_same. intros e s a s' [_ ->]%all_Ok. by split. Qed.
Lemma writes_children p : writes ks (children p).
Proof. apply writes_same. intros e s a s' [_ ->]%children_Ok. by split. Qed.
Lemma writes_uid : writes ks uid.
Proof. apply writes_same. intros e s a s' [_ ->]%uid_Ok. split; simpl; [done|lia]. Qed.
Lemma writes_urandom n : writes ks (urandom n).
Proof. apply writes_same. intros e s a s' [_ ->]%urandom_Ok. split; simpl; [done|lia]. Qed.
Lemma writes_now : writes ks now.
Proof. apply writes_same. intros e s a s' [_ ->]%now_Ok. by split. Qed.
Lemma writes_clock : writes ks clock.
Proof. apply writes_same. intros e s a s' [_ ->]%clock_Ok. by split. Qed.
Lemma writes_cfg : writes ks cfg.
Proof. apply writes_same. intros e s a s' [_ ->]%cfg_Ok. by split. Qed.
Lemma writes_system_of : writes ks system_of.
Proof. apply writes_same. intros e s a s' [_ ->]%system_of_Ok. by split. Qed.
Lemma writes_put k v : k ∈ ks → writes ks (put k v).
Proof.
  intros Hk e s u s' ->%put_Ok. split_and!; [|done|apply keyed_put]. intros k' Hk'. simpl. apply put_db_kind. by intros <-.
Qed.
Lemma writes_del k i : k ∈ ks → writes ks (del k i).
Proof.
  intros Hk e s u s' ->%del_Ok. split_and!; [|done|apply keyed_del]. intros k' Hk'. simpl. apply del_db_kind. by intros <-.
Qed.
Lemma writes_weaken {A} ks' (m : M A) : writes ks' m → ks' ⊆ ks → writes ks m.
Proof. intros Hm Hks e s a s' H. destruct (Hm _ _ _ _ H) as (F & D & K). split_and!; [intros k Hk; apply F; set_solver|done|done]. Qed.
End Footprints.
#[export] Hint Resolve writes_children writes_uid
  writes_urandom writes_now writes_clock writes_cfg writes_system_of : keeps.
#[export] Hint Extern 1 (keeps (frame ?ks) (get ?k ?i)) => exact (writes_get ks k i) : keeps.
#[export] Hint Extern 1 (keeps (frame ?ks) (get_opt ?k ?i)) => exact (writes_get_opt ks k i) : keeps.
#[export] Hint Extern 1 (keeps (frame ?ks) (all ?k)) => exact (writes_all ks k) : keeps.
#[export] Hint Extern 1 (keeps (frame ?ks) (put ?k ?v)) =>
  apply (writes_put ks k v); refine (bool_decide_unpack _ _); vm_compute; exact I : keeps.
#[export] Hint Extern 1 (keeps (frame ?ks) (del ?k ?i)) =>
  apply (writes_del ks k i); refine (bool_decide_unpack _ _); vm_compute; exact I : keeps.

#[export] Instance list_kind_subseteq_dec : RelDecision (⊆@{list kind}).
Proof.
  intros l k. destruct (decide (Forall (λ x, x ∈ k) l)) as [Hl|Hl]; [left|right].
  - rewrite list.Forall_forall in Hl. intros x Hx. by apply Hl.
  - intros Hs. apply Hl, list.Forall_forall. intros x Hx. by apply Hs.
Defined.

(** A footprint lemma about fewer kinds. *)
Ltac by_footprint lem :=
  apply (writes_weaken _ _ _ lem); refine (bool_decide_unpack _ _); vm_compute; exact I.

(** What an operation promises of its footprint; the frame of its callers is
    found by instance resolution. *)
Class Footprint {A} (ks : list kind) (m : M A) := footprint : writes ks m.
#[export] Hint Mode Footprint - - ! : typeclass_instances.
#[export] Hint Extern 3 (keeps (frame _) ?m) => by_footprint (@footprint _ _ m _) : keeps.

(** A computation that only reads. *)
Definition reading {A} (f : env → DB → A) : M A := λ e s, Ok (f e s.(s_db), s).
Lemma reading_Ok {A} (f : env → DB → A) e s v s' :
  reading f e s = Ok (v, s') ↔ v = f e s.(s_db) ∧ s' = s.
Proof. unfold reading. naive_solver. Qed.
Lemma writes_reading {A} ks (f : env → DB → A) : writes ks (reading f).
Proof. apply writes_same. intros e s a s' H. injection H as _ <-. by split. Qed.
#[export] Hint Resolve writes_reading : keeps.

Ltac store_inv :=
  match goal with
  | H : get ?k ?i ?e ?s = Ok (?v, ?t) |- _ =>
      apply (proj1 (get_Ok k i e s v t)) in H; destruct H; simplify_eq
  | H : get_opt ?k ?i ?e ?s = Ok (?v, ?t) |- _ =>
      apply (proj1 (get_opt_Ok k i e s v t)) in H; destruct H; simplify_eq
  | H : all ?k ?e ?s = Ok (?v, ?t) |- _ =>
      apply (proj1 (all_Ok k e s v t)) in H; destruct H; simplify_eq
  | H : reading _ _ _ = Ok (_, _) |- _ => apply reading_Ok in H; destruct H; simplify_eq
  | H : children _ _ _ = Ok (_, _) |- _ => apply children_Ok in H; destruct H; simplify_eq
  | H : put ?k ?v ?e ?s = Ok (?u, ?t) |- _ =>
      apply (proj1 (put_Ok k v e s u t)) in H; simplify_eq
  | H : del _ _ _ _ = Ok (_, _) |- _ => apply del_Ok in H; simplify_eq
  | H : uid _ _ = Ok (_, _) |- _ => apply uid_Ok in H; destruct H; simplify_eq
  | H : urandom _ _ _ = Ok (_, _) |- _ => apply urandom_Ok in H; destruct H; simplify_eq
  | H : now _ _ = Ok (_, _) |- _ => apply now_Ok in H; destruct H; simplify_eq
  | H : clock _ _ = Ok (_, _) |- _ => apply clock_Ok in H; destruct H; simplify_eq
  | H : cfg _ _ = Ok (_, _) |- _ => apply cfg_Ok in H; destruct H; simplify_eq
  | H : system_of _ _ = Ok (_, _) |- _ => apply system_of_Ok in H; destruct H; simplify_eq
  end.
Ltac sinv := repeat (first [progress mrun | need_inv | store_inv]; simpl in *); bsimpl; simplify_eq.
