(* ===== verification/Auth.v ===== *)
(** * Identity and permissions ([control/auth.py])

    Sessions, the permission bits of a node, block capabilities, the encrypted
    ledger, and the tables a new installation starts from. *)
From Stdlib Require String.
From S2P Require Import Prelude Domain Data Store.

(** ** Third-party cryptography *)

(** [argon2.PasswordHasher]: an encoded hash verifies the password it was made of. *)
Class Argon2 := {
  argon2_hash : string → string → string;                  (* salt, password *)
  argon2_verify : string → string → bool;                  (* encoded, password *)
  argon2_verify_hash salt p : argon2_verify (argon2_hash salt p) p = true;
}.

(** [AESGCM]: decryption accepts exactly what encryption of the same key, nonce
    and associated data produces (the mode is deterministic in them), and the
    tag is 16 bytes. *)
Class Aead := {
  aead_encrypt : string → string → string → string → string;         (* key nonce data aad *)
  aead_decrypt : string → string → string → string → option string;  (* key nonce data aad *)
  aead_decrypt_encrypt k n p a : aead_decrypt k n (aead_encrypt k n p a) a = Some p;
  aead_decrypt_only k n c a p : aead_decrypt k n c a = Some p → c = aead_encrypt k n p a;
  aead_length k n p a : slen (aead_encrypt k n p a) = slen p + 16;
}.

(** [bytes.hex()]. *)
Fixpoint hex (s : string) : string :=
  match s with
  | EmptyString => ""
  | String c s' =>
      let n := nat_of_ascii c in
      String (hex_digit (n / 16)) (String (hex_digit (n mod 16)) (hex s'))
  end.

(** [bytes.fromhex(s)] on lower-case hexadecimal text. *)
Definition unhex_digit (c : ascii) : nat :=
  let n := nat_of_ascii c in if Nat.ltb n 58 then n - 48 else n - 87.
Fixpoint unhex (s : string) : string :=
  match s with
  | String a (String b s') => String (ascii_of_nat (16 * unhex_digit a + unhex_digit b)) (unhex s')
  | _ => ""
  end.

Lemma unhex_hex s : unhex (hex s) = s.
Proof.
  induction s as [|c s IH]; [done|]. cbn [hex unhex]. rewrite IH. f_equal.
  destruct c as [[] [] [] [] [] [] [] []]; reflexivity.
Qed.

(** [[a-zA-Z0-9_-]{1,64}] ([re.fullmatch]). *)
Definition is_name_char (c : ascii) : bool :=
  let n := nat_of_ascii c in
  (Nat.leb 97 n && Nat.leb n 122) || (Nat.leb 65 n && Nat.leb n 90) || (Nat.leb 48 n && Nat.leb n 57)
  || bool_decide (c = "_"%char) || bool_decide (c = "-"%char).
Fixpoint all_chars (f : ascii → bool) (s : string) : bool :=
  match s with
  | EmptyString => true
  | String c s' => f c && all_chars f s'
  end.
Definition valid_name (s : string) : bool :=
  (1 <=? slen s) && (slen s <=? 64) && all_chars is_name_char s.

Section Auth.
Context `{Hash, Argon2, Aead, Base64}.

(** [password_hash]; the bounded semaphore of [auth_slot] only delays. *)
Definition password_hash (password : string) : M string :=
  need ((12 <=? slen password) && (slen password <=? 1024)) INVALID_ARGUMENT;;
  salt ← urandom 16;
  mret (argon2_hash salt password).

Definition matches (encoded password : string) : bool :=
  (slen password <=? 1024) && argon2_verify encoded password.

Definition new_node (name : string) (parent : option string) (owner : string)
    (k : node_kind) (mode : Z) : M node :=
  i ← uid;
  mret (mkNode i name parent owner owner mode [] true k 1 None 0).

(** [tx.session_live(session)], which only the etcd unit of work has. *)
Definition session_live (s : session) : M bool :=
  c ← cfg; e ← ask;
  mret (negb c.(c_etcd) || e.(e_lease_live) KSession s.(s_id)).

Definition authenticate (token : string) : M (user * session) :=
  o ← get KSession (hex (sha256 token));
  s ← need_some o UNAUTHENTICATED;
  t ← now;
  need (negb s.(s_revoked) && (t <? s.(s_expires))) UNAUTHENTICATED;;
  live ← session_live s;
  need live UNAUTHENTICATED;;
  o ← get KUser s.(s_user);
  u ← need_some o UNAUTHENTICATED;
  need (negb u.(u_disabled)) UNAUTHENTICATED;;
  mret (u, s).

(** The groups [user] is a member of, and the bits the node grants it. *)
Definition groups_of (i : string) (gs : list group) : list string :=
  omap (λ g, if decide (i ∈ g.(g_members)) then Some g.(g_id) else None) gs.
Definition acl_applies (i : string) (gs : list string) (a : AclEntry) : bool :=
  if a.(ae_is_group) then bool_decide (a.(ae_principal) ∈ gs) else bool_decide (a.(ae_principal) = i).
Definition allowed_bits (i : string) (gs : list string) (n : node) : Z :=
  let shift :=
    if decide (n.(n_owner) = i) then 6 else if decide (n.(n_group) ∈ gs) then 3 else 0 in
  fold_left (λ acc a, if acl_applies i gs a then Z.lor acc a.(ae_permissions) else acc)
    n.(n_acl) (Z.land (Z.shiftr n.(n_mode) shift) 7).

Definition require (u : user) (n : node) (bits : Z) : M unit :=
  sys ← system_of;
  if u.(u_admin) && (negb sys.(sy_strict) || (bool_decide (n.(n_kind) = Directory) && (bits =? 1)))
  then mret tt
  else
    gs ← all KGroup;
    need (Z.land (allowed_bits u.(u_id) (groups_of u.(u_id) gs) n) bits =? bits) PERMISSION_DENIED.

Definition nul : ascii := ascii_of_nat 0.
Definition capability_of (k epoch user_id binding block_id action : string) : string :=
  hmac_sha256 k (join_with nul [epoch; user_id; binding; block_id; action]).
Definition capability (user_id binding block_id action : string) : M string :=
  e ← ask;
  mret (capability_of e.(e_key) e.(e_system).(sy_epoch) user_id binding block_id action).

(** [encrypt], [decrypt] of ledger responses. *)
Definition ledger_aad : string := "dfsha-ledger-v1".
Definition ledger_encrypt (data : string) : M string :=
  e ← ask;
  nonce ← urandom 12;
  mret (b64encode (nonce +:+ aead_encrypt e.(e_key) nonce data ledger_aad)).
Definition ledger_decrypt (text : string) : M string :=
  e ← ask;
  data ← some_or_crash (b64decode text);
  some_or_crash (aead_decrypt e.(e_key) (String.substring 0 12 data)
                   (String.substring 12 (String.length data - 12) data) ledger_aad).

(** The transaction of [initialize] on empty tables: the administrator, its
    group, the root, [/home] and the administrator's home. *)
Definition initialize (username password : string) : M string :=
  need (valid_name username) INVALID_ARGUMENT;;
  encoded ← password_hash password;
  identity ← uid;
  rootnode ← new_node "" None identity Directory 493;
  put KUser (mkUserRec identity username encoded false true 1);;
  put KGroup (mkGroupRec identity username [identity] 1);;
  put KNode rootnode;;
  home ← new_node "home" (Some rootnode.(n_id)) identity Directory 493;
  put KNode home;;
  own ← new_node username (Some home.(n_id)) identity Directory 448;
  put KNode own;;
  mret rootnode.(n_id).

Lemma writes_password_hash ks p : writes ks (password_hash p).
Proof. unfold password_hash. solve_keeps. Qed.
Lemma writes_new_node ks name p o k m : writes ks (new_node name p o k m).
Proof. unfold new_node. solve_keeps. Qed.
Lemma writes_session_live ks s : writes ks (session_live s).
Proof. unfold session_live. solve_keeps. Qed.
Hint Resolve writes_password_hash writes_new_node writes_session_live : keeps.
Lemma writes_authenticate ks t : writes ks (authenticate t).
Proof. unfold authenticate. solve_keeps. Qed.
Lemma writes_require ks u n b : writes ks (require u n b).
Proof. unfold require. solve_keeps. Qed.
Lemma writes_capability ks a b c d : writes ks (capability a b c d).
Proof. unfold capability. solve_keeps. Qed.
Lemma writes_ledger_encrypt ks d : writes ks (ledger_encrypt d).
Proof. unfold ledger_encrypt. solve_keeps. Qed.
Lemma writes_ledger_decrypt ks d : writes ks (ledger_decrypt d).
Proof. unfold ledger_decrypt. solve_keeps. Qed.
End Auth.
#[export] Hint Resolve writes_password_hash writes_new_node writes_session_live
  writes_authenticate writes_require writes_capability writes_ledger_encrypt
  writes_ledger_decrypt : keeps.
