(* ===== verification/Leases.v ===== *)
(** * The lease authority ([control/leases.py], [EtcdLeaseAuthority] of [control/ha.py])

    Locks and handles are leases: records with a control epoch and a deadline on
    the authority's clock.  Every mutation runs in the unit of work that
    publishes it. *)
From S2P Require Import Prelude Domain Data Store.

Definition MAX_DELTA : Z := 16 * 1024 * 1024.
Definition MAX_OFFSET : Z := Z.shiftl 1 63 - 1.

(** [checked_range]: the end of a range whose bounds fit 63 bits. *)
Definition checked_range {E S} (offset length : Z) (maximum : option Z) : SM E S exn Z :=
  need ((0 <=? offset) && (offset <=? MAX_OFFSET) && (0 <=? length) && (length <=? MAX_OFFSET - offset))
    INVALID_ARGUMENT;;
  match maximum with
  | Some m => need (length <=? m) LIMIT_EXCEEDED
  | None => mret tt
  end;;
  mret (offset + length).

(** [sorted(set(indices))]. *)
Definition sorted_set (l : list Z) : list Z := merge_sort Z.le (remove_dups l).

(** [active.remove(x)] drops the first occurrence. *)
Fixpoint remove_first (x : string) (l : list string) : list string :=
  match l with
  | [] => []
  | y :: l => if decide (x = y) then l else y :: remove_first x l
  end.

(** The authority's clock: monotonic for SQLite, wall clock for etcd. *)
Definition lease_clock_of (e : env) : Z :=
  if decide (e.(e_cfg).(c_profile) = PHA) then e.(e_now) else e.(e_clock).
Definition lease_clock : M Z := λ e s, Ok (lease_clock_of e, s).
Definition lease_epoch : M string := λ e s, Ok (e.(e_lease_epoch), s).

(** [live] of a lock and of a handle; under etcd the record's key must also be
    held, and a handle must be younger than its maximum. *)
Definition live_lock_at (e : env) (k : lock) : bool :=
  bool_decide (k.(k_control_epoch) = e.(e_lease_epoch))
  && (lease_clock_of e <? k.(k_deadline))
  && (negb (bool_decide (e.(e_cfg).(c_profile) = PHA)) || e.(e_lease_live) KLock k.(k_id)).
Definition live_handle_at (e : env) (h : handle) : bool :=
  bool_decide (h.(h_control_epoch) = Some e.(e_lease_epoch))
  && (lease_clock_of e <? h.(h_deadline))
  && (negb (bool_decide (e.(e_cfg).(c_profile) = PHA))
      || ((lease_clock_of e <? h.(h_maximum)) && e.(e_lease_live) KHandle h.(h_id))).
Definition live_lock (k : lock) : M bool := λ e s, Ok (live_lock_at e k, s).
Definition live_handle (h : handle) : M bool := λ e s, Ok (live_handle_at e h, s).

Definition expiry_hint (deadline : Z) : M Z := λ e s,
  Ok (e.(e_now) + Z.max 0 (deadline - lease_clock_of e), s).

Definition refresh_handle (h : handle) (initial : bool) : M handle := λ e s,
  let t := lease_clock_of e in
  let h := if initial then h <| h_control_epoch := Some e.(e_lease_epoch) |>
                             <| h_maximum := t + 86400000 |> else h in
  let d := Z.min (t + e.(e_cfg).(c_handle_lease_ms)) h.(h_maximum) in
  Ok (h <| h_deadline := d |> <| h_expires := e.(e_now) + Z.max 0 (d - t) |>, s).

(** Start of the authority ([SQLiteLeaseAuthority.__init__]): a new epoch, every
    handle closed, every lock dropped.  [EtcdLeaseAuthority] only reads the
    shared epoch. *)
Definition epoch_id : string := "control-epoch".
Definition start_authority : M string :=
  c ← cfg;
  need ((0 <? c.(c_lock_lease_ms)) && (c.(c_lock_lease_ms) <=? 300000) &&
        (0 <? c.(c_handle_lease_ms)) && (c.(c_handle_lease_ms) <=? 3600000)) INVALID_ARGUMENT;;
  p ← get KEpoch epoch_id;
  let g := default 0 (ct_generation <$> p) in
  i ← uid;
  put KEpoch (mkCounter epoch_id (g + 1) i);;
  hs ← all KHandle;
  for_each hs (λ h, put KHandle (h <| h_closed := true |>));;
  ls ← all KLock;
  for_each ls (λ k, del KLock k.(k_id));;
  mret i.

(** Who asks for a lock: [(session, id)] owns it, on a file. *)
Record lock_owner := mkOwner { ow_id : string; ow_file : string; ow_session : string }.
Definition owner_of (h : handle) : lock_owner := mkOwner h.(h_id) h.(h_file) h.(h_session).

Definition overlap (a b : list Z) : bool := bool_decide (Exists (λ i, i ∈ b) a).

(** Two lock requests on one file exclude each other. *)
Definition conflicts (indices : list Z) (whole size : bool) (k : lock) : bool :=
  whole || k.(k_whole) || (size && k.(k_size)) || overlap indices k.(k_indices).

Definition other_owner (o : lock_owner) (k : lock) : bool :=
  negb (bool_decide ((k.(k_session), k.(k_handle)) = (o.(ow_session), o.(ow_id)))).

Definition acquire (o : lock_owner) (indices : list Z) (whole size automatic : bool) : M lock :=
  let indices := sorted_set indices in
  ls ← all KLock;
  for_each ls (λ k,
    l ← live_lock k;
    if negb l || negb (bool_decide (k.(k_file) = o.(ow_file))) then mret tt
    else if negb (other_owner o k) then mret tt
    else need (negb (conflicts indices whole size k)) LOCK_CONFLICT);;
  sq ← get KLockSeq "lock-sequence";
  let g := default 0 (ct_generation <$> sq) + 1 in
  put KLockSeq (mkCounter "lock-sequence" g "");;
  i ← uid;
  t ← lease_clock; c ← cfg; ep ← lease_epoch;
  let k := mkLock i o.(ow_id) o.(ow_file) o.(ow_session) g ep indices whole size automatic g []
             (t + c.(c_lock_lease_ms)) in
  put KLock k;;
  mret k.

Definition fence_message (k : lock) : M Fence :=
  x ← expiry_hint k.(k_deadline); ep ← lease_epoch;
  mret (mkFence k.(k_id) k.(k_handle) ep k.(k_generation) k.(k_lease) k.(k_indices) k.(k_whole)
          k.(k_size) x).

Definition unexpiring (f : Fence) : Fence := f <| fc_expires := 0 |>.

Definition validate (s : session) (f : Fence) : M lock :=
  o ← get KLock f.(fc_lock_id);
  k ← need_some o LOCK_EXPIRED;
  need (bool_decide (k.(k_session) = s.(s_id)) && bool_decide (k.(k_handle) = f.(fc_handle_id)))
    PERMISSION_DENIED;;
  l ← live_lock k; ep ← lease_epoch;
  need (l && bool_decide (f.(fc_service_epoch) = ep) && (f.(fc_generation) =? k.(k_generation))
        && (f.(fc_lease_id) =? k.(k_lease))) LOCK_EXPIRED;;
  m ← fence_message k;
  need (bool_decide (unexpiring m = unexpiring f)) PERMISSION_DENIED;;
  mret k.

(** [release_operation]; an operation that is not a write names no handle. *)
Definition release_operation (op : upload) : M unit :=
  for_each op.(o_locks) (λ i,
    o ← get KLock i;
    match o with
    | Some k =>
        if decide (op.(o_id) ∈ k.(k_active)) then
          if k.(k_automatic) then del KLock i
          else put KLock (k <| k_active ::= remove_first op.(o_id) |>)
        else mret tt
    | None => mret tt
    end);;
  h ← get KHandle (default "" (we_handle <$> op.(o_write)));
  match h with
  | Some h =>
      if decide (h.(h_busy) = Some op.(o_id)) then put KHandle (h <| h_busy := None |>) else mret tt
  | None => mret tt
  end.

Section LeaseLemmas.
Context (ks : list kind).

Lemma writes_checked_range o l m : writes ks (checked_range o l m).
Proof. unfold checked_range. solve_keeps. Qed.
Lemma writes_lease_clock : writes ks lease_clock.
Proof. apply writes_same. intros e s a s' H. injection H as _ <-. by split. Qed.
Lemma writes_lease_epoch : writes ks lease_epoch.
Proof. apply writes_same. intros e s a s' H. injection H as _ <-. by split. Qed.
Lemma writes_live_lock k : writes ks (live_lock k).
Proof. apply writes_same. intros e s a s' H. injection H as _ <-. by split. Qed.
Lemma writes_live_handle h : writes ks (live_handle h).
Proof. apply writes_same. intros e s a s' H. injection H as _ <-. by split. Qed.
Lemma writes_expiry_hint d : writes ks (expiry_hint d).
Proof. apply writes_same. intros e s a s' H. injection H as _ <-. by split. Qed.
Lemma writes_refresh_handle h i : writes ks (refresh_handle h i).
Proof. apply writes_same. intros e s a s' H. injection H as _ <-. by split. Qed.
End LeaseLemmas.
#[export] Hint Resolve writes_checked_range writes_lease_clock writes_lease_epoch writes_live_lock
  writes_live_handle writes_expiry_hint writes_refresh_handle : keeps.

Lemma writes_fence_message ks k : writes ks (fence_message k).
Proof. unfold fence_message. solve_keeps. Qed.
#[export] Hint Resolve writes_fence_message : keeps.
Lemma writes_validate ks s f : writes ks (validate s f).
Proof. unfold validate. solve_keeps. Qed.
#[export] Hint Resolve writes_validate : keeps.
#[export] Instance fp_acquire o i w z a : Footprint [KLock; KLockSeq] (acquire o i w z a).
Proof. unfold acquire, Footprint. solve_keeps. Qed.
#[export] Instance fp_release_operation op : Footprint [KLock; KHandle] (release_operation op).
Proof. unfold release_operation, Footprint. solve_keeps. Qed.
