(* ===== verification/Cluster.v ===== *)
(** * Data nodes, copies and placement

    The methods of [Monolith] ([monolith.py]), [DistributedControl]
    ([distributed.py]), [ReplicatedControl] ([replication.py]) and [HAControl]
    ([ha.py]) that the commands and queries call through [self.app].  A method a
    subclass overrides is one definition per class; the name the callers use
    picks the class of the running profile, as method resolution does. *)
From S2P Require Import Prelude Domain Data Store Auth Leases.

Definition has_leases (c : config) : bool := c.(c_rf3).
Definition replicated (c : config) : bool :=
  bool_decide (c.(c_profile) = PReplicated) || bool_decide (c.(c_profile) = PHA).
Definition is_ha (c : config) : bool := bool_decide (c.(c_profile) = PHA).

Fixpoint zsum (l : list Z) : Z := match l with [] => 0 | x :: l => x + zsum l end.

(** [storage_cost]: the container of a block, with its header and tags. *)
Definition storage_cost (length : Z) : Z := length + 4096 + cdiv length CHUNK * 20.

Definition active_state (t : TaskState) : bool :=
  bool_decide (t = ACCEPTED) || bool_decide (t = RUNNING).
Definition active_task (t : task) : bool := active_state t.(t_status).(ts_state).
Definition live_task (e : env) (t : task) : bool := active_task t && (e.(e_now) <? t.(t_expires)).
Definition is_copy (t : task) : bool := bool_decide (t.(t_kind) = CopyTask).

(** ** State of a data node *)
Inductive node_state := READY | SUSPECT | STARTING | UNAVAILABLE.
#[export] Instance node_state_eq_dec : EqDecision node_state.
Proof. solve_decision. Defined.

Definition distributed_state (e : env) (o : option datanode) : node_state :=
  match o with
  | None => UNAVAILABLE
  | Some n =>
      if n.(dn_authorization_disabled) || (e.(e_cfg).(c_unavailable_ms) <? e.(e_now) - n.(dn_seen))
      then UNAVAILABLE
      else if negb n.(dn_reconciled) then STARTING
      else if e.(e_cfg).(c_suspect_ms) <? e.(e_now) - n.(dn_seen) then SUSPECT else READY
  end.
Definition ha_state (e : env) (o : option datanode) : node_state :=
  match o with
  | None => UNAVAILABLE
  | Some n =>
      if n.(dn_authorization_disabled) || (n.(dn_deadline) <=? e.(e_now))
         || negb (e.(e_lease_live) KDatanode n.(dn_id))
      then UNAVAILABLE
      else if negb n.(dn_reconciled) then STARTING
      else if e.(e_cfg).(c_suspect_ms) <=? e.(e_now) - n.(dn_seen) then SUSPECT else READY
  end.
Definition state (e : env) (o : option datanode) : node_state :=
  if is_ha e.(e_cfg) then ha_state e o else distributed_state e o.
Definition reachable_state (s : node_state) : bool :=
  bool_decide (s = READY) || bool_decide (s = SUSPECT).

(** Storing a data node; the etcd unit of work stamps its deadline. *)
Definition put_datanode (n : datanode) : M unit :=
  e ← ask;
  put KDatanode (if is_ha e.(e_cfg)
                 then n <| dn_deadline := e.(e_now) + e.(e_cfg).(c_unavailable_ms) |> else n).

(** ** Copies and operations *)
Definition location_id (block node : string) : string := block +:+ ":" +:+ node.
Definition location_of (d : DB) (block node : string) : option location :=
  d KLocation !! location_id block node.
Definition locations_of_block (d : DB) (block : string) : list location :=
  List.filter (λ l, bool_decide (l.(lo_block) = block)) (all_db KLocation d).

(** [operation_live]: a range write lives while its handle and its locks do. *)
Definition operation_live (e : env) (d : DB) (o : option upload) : bool :=
  match o with
  | None => false
  | Some op =>
      if negb (bool_decide (op.(o_state) = PREPARING)) then false
      else match op.(o_write) with
      | Some w =>
          if has_leases e.(e_cfg) then
            match d KHandle !! w.(we_handle) with
            | Some h =>
                negb h.(h_closed) && live_handle_at e h &&
                forallb (λ i, match d KLock !! i with Some k => live_lock_at e k | None => false end)
                  op.(o_locks)
            | None => false
            end
          else e.(e_now) <? op.(o_expires)
      | None => e.(e_now) <? op.(o_expires)
      end
  end.

(** ** Used and reserved bytes of a node ([usage]) *)
Definition copies_bytes (d : DB) (node : string) : Z :=
  zsum (map (λ l, l.(lo_receipt).(dr_stored_size_bytes))
    (List.filter (λ l, bool_decide (l.(lo_node) = node)) (all_db KLocation d))).
Definition assignment_pending (e : env) (d : DB) (node : string) (a : assignment) : bool :=
  bool_decide (a.(a_node) = node) && bool_decide (location_of d a.(a_id) a.(a_node) = None)
  && operation_live e d (d KUpload !! a.(a_operation)).
Definition assignments_bytes (e : env) (d : DB) (node : string) : Z :=
  zsum (map a_reserved (List.filter (assignment_pending e d node) (all_db KAssignment d))).
Definition tasks_bytes (e : env) (d : DB) (node : string) : Z :=
  zsum (map t_reserved
    (List.filter (λ t, bool_decide (t.(t_dest) = node) && live_task e t) (all_db KTask d))).
Definition distributed_usage (e : env) (d : DB) (n : datanode) : Z * Z :=
  (Z.max n.(dn_used) (copies_bytes d n.(dn_id)),
   assignments_bytes e d n.(dn_id) + tasks_bytes e d n.(dn_id)).

Definition block_task_to (e : env) (d : DB) (block node : string) : bool :=
  existsb (λ t, bool_decide (t.(t_dest) = node)
                && bool_decide (t.(t_block).(br_block_version_id) = block) && live_task e t)
    (all_db KTask d).
Definition plan_pending (e : env) (d : DB) (node : string) (p : replica_plan) : bool :=
  bool_decide (node ∈ p.(rp_destinations))
  && operation_live e d (d KUpload !! p.(rp_operation))
  && bool_decide (location_of d p.(rp_id) node = None)
  && negb (block_task_to e d p.(rp_id) node).
Definition plans_bytes (e : env) (d : DB) (node : string) : Z :=
  zsum (map rp_reserved (List.filter (plan_pending e d node) (all_db KReplicaPlan d))).
Definition replicated_usage (e : env) (d : DB) (n : datanode) : Z * Z :=
  let '(used, reserved) := distributed_usage e d n in (used, reserved + plans_bytes e d n.(dn_id)).

Definition usage (e : env) (d : DB) (n : datanode) : Z * Z :=
  if replicated e.(e_cfg) then replicated_usage e d n else distributed_usage e d n.

(** Room for [cost] more bytes within the capacity and the free disk of a node,
    leaving [margin] bytes free. *)
Definition has_room (e : env) (d : DB) (n : datanode) (cost margin : Z) : bool :=
  let '(used, reserved) := usage e d n in
  (used + reserved + cost <=? n.(dn_capacity)) && (reserved + cost + margin <=? n.(dn_free)).

(** ** Protection policies *)
Definition policy_at (d : DB) (file_id : string) : policy :=
  match d KPolicy !! file_id with
  | Some p => p
  | None => mkPolicy file_id 1 1 1 "ACTIVE" 0
  end.
(** [policy(tx, file_id, create)]. *)
Definition get_policy (file_id : string) (create : bool) : M policy :=
  o ← get KPolicy file_id;
  match o with
  | Some p => mret p
  | None =>
      c ← cfg;
      let replicas := if create then c.(c_default_replicas) else 1 in
      need (bool_decide (replicas = 1 ∨ replicas = 3)) INVALID_ARGUMENT;;
      let p := mkPolicy file_id replicas (if decide (replicas = 3) then 2 else 1) 1 "ACTIVE" 0 in
      (if create then put KPolicy p else mret tt);;
      mret p
  end.

Definition validate_policy (o : option upload) : M unit :=
  op ← need_some o NOT_FOUND;
  p ← get_policy op.(o_file) false;
  need ((po_revision (default p op.(o_policy)) =? p.(po_revision))
        && negb (bool_decide (p.(po_state) = "PROMOTING"))) VERSION_CONFLICT.

(** ** Blocks in use and copies that count *)
Definition versions (bs : list BlockRef) : list string := map br_block_version_id bs.
Definition dset_all {V} (ps : list (string * V)) (acc : list (string * V)) : list (string * V) :=
  fold_left (λ acc p, dset p.1 p.2 acc) ps acc.
Definition refs_of (bs : list BlockRef) : list (string * BlockRef) :=
  map (λ b, (b.(br_block_version_id), b)) bs.

Definition retained_snapshots (e : env) (d : DB) : list string :=
  if is_ha e.(e_cfg) then map mp_snapshot (all_db KMigrationPin d) else [].

Definition node_pins (d : DB) : list string :=
  omap (λ n, if (n.(n_alive) : bool) then n.(n_snapshot) else None) (all_db KNode d).
Definition replicated_useful (e : env) (d : DB) : list (string * BlockRef) :=
  let pins := node_pins d ++ omap (λ h : handle,
      if negb h.(h_closed) && live_handle_at e h then Some h.(h_snapshot) else None) (all_db KHandle d) in
  let acc := fold_left (λ acc sn,
      if decide (sn.(sn_id) ∈ pins) then dset_all (refs_of sn.(sn_blocks)) acc else acc)
    (all_db KSnapshot d) [] in
  fold_left (λ acc op,
      if operation_live e d (Some op) then dset_all (refs_of op.(o_allocations).*2) acc else acc)
    (all_db KUpload d) acc.
Definition useful (e : env) (d : DB) : list (string * BlockRef) :=
  fold_left (λ acc i,
      match d KSnapshot !! i with
      | Some sn => dset_all (refs_of sn.(sn_blocks)) acc
      | None => acc
      end) (retained_snapshots e d) (replicated_useful e d).

Definition eligible_copy (e : env) (d : DB) (block : string) (l : location) : bool :=
  bool_decide (l.(lo_block) = block) && bool_decide (l.(lo_health) = "VERIFIED") &&
  match d KDatanode !! l.(lo_node) with
  | Some n => reachable_state (state e (Some n)) && bool_decide (l.(lo_inventory) = n.(dn_inventory_id))
  | None => false
  end.
Definition eligible (e : env) (d : DB) (block : string) : list location :=
  List.filter (eligible_copy e d block) (all_db KLocation d).

Definition domain_of (e : env) (node : string) : option string :=
  al_failure_domain <$> dget node e.(e_cfg).(c_allowed).

Record CopyProtection := mkCopyProtection {
  cx_node : BlockLocation; cx_receipt : DurableReceipt; cx_health : string; cx_eligible : bool }.
Record BlockProtection := mkBlockProtection {
  bx_block : BlockRef; bx_target : Z; bx_confirmed : Z; bx_eligible : Z;
  bx_copies : list CopyProtection; bx_pending : Z }.

Definition receipts_of (d : DB) (block : string) : list (string * DurableReceipt) :=
  default [] (du_receipts <$> d KDurability !! block).
Definition confirmed_domains (e : env) (d : DB) (block : string) : list string :=
  remove_dups (omap (λ k, domain_of e k) (receipts_of d block).*1).
Definition zlen {A} (l : list A) : Z := Z.of_nat (length l).

Definition protection (ref : BlockRef) (p : policy) : M BlockProtection :=
  let i := ref.(br_block_version_id) in
  e ← ask; d ← reading (λ _ d, d);
  let el := remove_dups (map lo_node (eligible e d i)) in
  copies ← for_map (locations_of_block d i) (λ l,
    n ← some_or_crash (d KDatanode !! l.(lo_node));
    mret (mkCopyProtection n.(dn_location) l.(lo_receipt) l.(lo_health) (bool_decide (l.(lo_node) ∈ el))));
  let pending := zlen (List.filter
      (λ t, bool_decide (t.(t_block).(br_block_version_id) = i) && live_task e t) (all_db KTask d)) in
  mret (mkBlockProtection (default ref (b_ref <$> d KBlock !! i)) p.(po_r)
          (zlen (confirmed_domains e d i)) (zlen el) copies pending).

(** [{self.allowed[x['node']]['failure_domain'] for x in ls}]. *)
Definition domains_of (ls : list location) : M (list string) :=
  e ← ask;
  ds ← for_map ls (λ l, some_or_crash (domain_of e l.(lo_node)));
  mret (remove_dups ds).

(** [require_durable]: [W] confirmed and [W] reachable failure domains. *)
Definition require_durable (op : upload) (b : BlockRef) : M unit :=
  validate_policy (Some op);;
  p ← get_policy op.(o_file) false;
  x ← protection b p;
  e ← ask; d ← reading (λ _ d, d);
  ds ← domains_of (eligible e d b.(br_block_version_id));
  need ((p.(po_w) <=? x.(bx_confirmed)) && (p.(po_w) <=? zlen ds)) INSUFFICIENT_REPLICAS.

(** ** Tasks and retirement *)
Definition maintenance_of : M maintenance :=
  e ← ask;
  o ← get KMaintenance "maintenance";
  m ← need_some o SERVICE_UNAVAILABLE;
  need (e.(e_lease_live) KMaintenance "maintenance") SERVICE_UNAVAILABLE;;
  mret m.

Definition distributed_new_task (k : task_kind) (b : BlockRef) (source dest : string) : M task :=
  i ← uid; t ← now;
  mret (mkTask i k b source dest (t + 300000) (mkTaskStatus i ACCEPTED None None) None None None 0
          None "" 0 0 0 "" "" false false "").
Definition replicated_new_task (k : task_kind) (b : BlockRef) (source dest : string) : M task :=
  x ← distributed_new_task k b source dest;
  e ← ask;
  mret (x <| t_owner := if has_leases e.(e_cfg) then e.(e_lease_epoch) else "" |>
          <| t_generation := e.(e_maintenance_generation) |> <| t_next_run := e.(e_now) |>).
Definition ha_new_task (k : task_kind) (b : BlockRef) (source dest : string) : M task :=
  x ← replicated_new_task k b source dest;
  m ← maintenance_of;
  mret (x <| t_generation := m.(mt_generation) |> <| t_maintenance_owner := m.(mt_lease_owner) |>).
Definition new_task (k : task_kind) (b : BlockRef) (source dest : string) : M task :=
  c ← cfg;
  if is_ha c then ha_new_task k b source dest
  else if replicated c then replicated_new_task k b source dest
  else distributed_new_task k b source dest.

Definition distributed_retire_copy (ref : BlockRef) (node : string) : M unit :=
  let i := location_id ref.(br_block_version_id) node in
  o ← get KRetirement i;
  match o with
  | Some _ => mret tt
  | None =>
      t ← new_task DeleteTask ref "" node;
      put KTask t;;
      put KRetirement (mkRetirement i t.(t_id))
  end.
Definition replicated_retire_copy (ref : BlockRef) (node : string) : M unit :=
  let i := location_id ref.(br_block_version_id) node in
  o ← get KRetirement i;
  previous ← get_opt KTask (rm_task <$> o);
  e ← ask;
  let epoch := if has_leases e.(e_cfg) then e.(e_lease_epoch) else "" in
  let again := match previous with
               | Some t => bool_decide (t.(t_status).(ts_state) = FAILED)
                           || negb (bool_decide (t.(t_owner) = epoch))
               | None => true
               end in
  if again then
    t ← new_task DeleteTask ref "" node;
    l ← reading (λ _ d, location_of d ref.(br_block_version_id) node);
    let t := t <| t_expected_receipt_id := default "" (dr_receipt_id <$> (lo_receipt <$> l)) |> in
    put KTask t;;
    put KRetirement (mkRetirement i t.(t_id))
  else mret tt.
Definition retire_copy (ref : BlockRef) (node : string) : M unit :=
  c ← cfg;
  if replicated c then replicated_retire_copy ref node else distributed_retire_copy ref node.

Definition monolith_retire_block (b : block) : M unit := del KBlock b.(b_id).
Definition distributed_retire_block (b : block) : M unit :=
  ls ← all KLocation;
  for_each ls (λ l,
    if decide (l.(lo_block) = b.(b_id)) then
      retire_copy b.(b_ref) l.(lo_node);; del KLocation l.(lo_id)
    else mret tt);;
  monolith_retire_block b.
Definition replicated_retire_block (b : block) : M unit :=
  t ← now;
  put KRetired (mkRetired b.(b_id) b.(b_ref) t);;
  distributed_retire_block b.
Definition retire_block (b : block) : M unit :=
  c ← cfg;
  if replicated c then replicated_retire_block b
  else if decide (c.(c_profile) = PDistributed) then distributed_retire_block b
  else monolith_retire_block b.

Definition distributed_confirm_location (r : DurableReceipt) (inventory : string) : M unit :=
  put KLocation (mkLocation (location_id r.(dr_block).(br_block_version_id) r.(dr_node_id))
    r.(dr_block).(br_block_version_id) r.(dr_node_id) r inventory "VERIFIED" 0).
Definition replicated_confirm_location (r : DurableReceipt) (inventory : string) : M unit :=
  let i := r.(dr_block).(br_block_version_id) in
  x ← get KRetired i;
  need (bool_decide (x = None)) VERSION_CONFLICT;;
  distributed_confirm_location r inventory;;
  d ← reading (λ _ d, d);
  put KDurability (mkDurability i (dset r.(dr_node_id) r (receipts_of d i))).
Definition confirm_location (r : DurableReceipt) (inventory : string) : M unit :=
  c ← cfg;
  if replicated c then replicated_confirm_location r inventory
  else distributed_confirm_location r inventory.
