(* ===== verification/Placement.v ===== *)
(** * Placement of blocks and plans ([plan], [reserve_replicas], [reserve_upload])

    Which node a block goes to, what is reserved for it, and the grants a client
    receives; with the other messages [app] builds for the commands. *)
From S2P Require Import Prelude Domain Data Store Auth Leases Cluster.

Section Placement.
Context `{Hash}.

(** What [plan] reads of the handle or operation it is made for. *)
Record binding := mkBinding {
  bd_id : string; bd_session : string; bd_expires : Z; bd_reserved : Z; bd_file : string;
  bd_base : option string }.
Definition upload_binding (op : upload) : binding :=
  mkBinding op.(o_id) op.(o_session) op.(o_expires) op.(o_reserved) op.(o_file) op.(o_base).
Definition handle_binding (h : handle) : binding :=
  mkBinding h.(h_id) h.(h_session) h.(h_expires) 0 h.(h_file) None.

Definition node_capability (user_id : string) (bd : binding) (b : BlockRef) (n : datanode)
    (action : string) : M string :=
  capability user_id bd.(bd_id) b.(br_block_version_id)
    (join_with ":" [action; n.(dn_id); str_Z n.(dn_location).(bl_boot_generation); bd.(bd_session)]).

Definition monolith_plan (b : BlockRef) (user_id : string) (bd : binding) (rd : bool) : M PlannedBlock :=
  e ← ask;
  let here := e.(e_system).(sy_node) in
  cap ← capability user_id bd.(bd_id) b.(br_block_version_id) (if rd then "read" else "write");
  mret (mkPlannedBlock b [mkBlockLocation here 1 e.(e_cfg).(c_endpoint) "" "local-host"]
    [mkBlockGrant cap (if rd then READ_DATA else WRITE_DATA) b here 0 b.(br_size_bytes) bd.(bd_expires)]
    "" false 0 0 0
    (if rd then None
     else Some (mkStorageReservation bd.(bd_id) here bd.(bd_id) bd.(bd_reserved) bd.(bd_expires)))).

(** The candidates of a block of [cost] bytes, with their load band and streams. *)
Definition load_band (e : env) (d : DB) (n : datanode) : Z :=
  let '(used, reserved) := usage e d n in 20 * (used + reserved) / n.(dn_capacity).
Definition MARGIN : Z := 1048576.
Definition is_candidate (e : env) (d : DB) (cost : Z) (n : datanode) : bool :=
  bool_decide (state e (Some n) = READY) && has_room e d n cost MARGIN.
Definition candidates (e : env) (d : DB) (cost : Z) : list datanode :=
  List.filter (is_candidate e d cost) (all_db KDatanode d).

Definition load_le (e : env) (d : DB) (n m : datanode) : bool :=
  (load_band e d n <? load_band e d m)
  || ((load_band e d n =? load_band e d m) && (n.(dn_active) <=? m.(dn_active))).
(** The candidates of least load, in the order of their identity. *)
Definition best_pool (e : env) (d : DB) (cs : list datanode) : list datanode :=
  List.filter (λ n, forallb (load_le e d n) cs) cs.
(** The next one after the last choice, else the first. *)
Definition after (last : string) (n : datanode) : bool :=
  bool_decide (String.le last n.(dn_id) ∧ last ≠ n.(dn_id)).
Definition choose (last : string) (pool : list datanode) : option datanode :=
  match List.find (after last) pool with
  | Some n => Some n
  | None => head pool
  end.

(** The write branch of [DistributedControl.plan]: the assignment of a block,
    made on first use. *)
Definition assign_block (b : BlockRef) (bd : binding) : M assignment :=
  o ← get KAssignment b.(br_block_version_id);
  match o with
  | Some a => mret a
  | None =>
      let cost := storage_cost b.(br_size_bytes) in
      cs ← reading (λ e d, candidates e d cost);
      need (negb (bool_decide (cs = []))) NO_SPACE;;
      pool ← reading (λ e d, best_pool e d cs);
      rot ← get KPlacement "placement";
      n ← some_or_crash (choose (default "" (pl_last <$> rot)) pool);
      put KPlacement (mkPlacement "placement" n.(dn_id));;
      let a := mkAssignment b.(br_block_version_id) n.(dn_id) bd.(bd_id)
                 n.(dn_location).(bl_boot_generation) cost in
      put KAssignment a;;
      mret a
  end.

Definition distributed_plan (b : BlockRef) (user_id : string) (bd : binding) (rd : bool) : M PlannedBlock :=
  e ← ask;
  '(nodes, rs) ← (if rd then
      ns ← reading (λ e d, List.filter (λ n, reachable_state (state e (Some n)))
             (omap (λ l, d KDatanode !! l.(lo_node)) (locations_of_block d b.(br_block_version_id))));
      need (negb (bool_decide (ns = []))) DATA_UNAVAILABLE;;
      mret (ns, None)
    else
      a ← assign_block b bd;
      o ← get KDatanode a.(a_node);
      need (reachable_state (state e o)) DATA_UNAVAILABLE;;
      n ← some_or_crash o;
      need (n.(dn_location).(bl_boot_generation) =? a.(a_generation)) DATA_UNAVAILABLE;;
      mret ([n], Some (mkStorageReservation b.(br_block_version_id) n.(dn_id) bd.(bd_id)
                         a.(a_reserved) bd.(bd_expires))));
  grants ← for_map nodes (λ n,
    cap ← node_capability user_id bd b n (if rd then "read" else "write");
    mret (mkBlockGrant cap (if rd then READ_DATA else WRITE_DATA) b n.(dn_id) 0 b.(br_size_bytes)
            bd.(bd_expires)));
  mret (mkPlannedBlock b (map dn_location nodes) grants "" false 0 0 0 rs).

(** Relative load, [(used + reserved) / capacity], then streams, then identity. *)
Definition spread_le (e : env) (d : DB) (n m : datanode) : Prop :=
  let '(un, rn) := usage e d n in
  let '(um, rm) := usage e d m in
  let x := (un + rn) * m.(dn_capacity) in
  let y := (um + rm) * n.(dn_capacity) in
  x < y ∨ (x = y ∧ (n.(dn_active) < m.(dn_active)
                    ∨ (n.(dn_active) = m.(dn_active) ∧ String.le n.(dn_id) m.(dn_id)))).
#[local] Instance spread_le_dec e d : RelDecision (spread_le e d).
Proof.
  intros n m. unfold spread_le. destruct (usage e d n), (usage e d m). apply _.
Defined.

(** Extra destinations, one per further failure domain, while fewer than [r]. *)
Fixpoint spread (e : env) (r : Z) (ns : list datanode) (domains : list string) : M (list string * list string) :=
  match ns with
  | [] => mret (domains, [])
  | n :: ns =>
      dom ← some_or_crash (domain_of e n.(dn_id));
      if negb (bool_decide (dom ∈ domains)) && (zlen domains <? r) then
        '(ds, dest) ← spread e r ns (dom :: domains);
        mret (ds, n.(dn_id) :: dest)
      else spread e r ns domains
  end.

Definition reserve_replicas (b : BlockRef) (operation : string) (p : policy) : M unit :=
  let i := b.(br_block_version_id) in
  o ← get KAssignment i;
  ex ← get KReplicaPlan i;
  match ex with
  | Some _ => mret tt
  | None =>
      e ← ask;
      a ← some_or_crash o;
      dom ← some_or_crash (domain_of e a.(a_node));
      let cost := storage_cost b.(br_size_bytes) in
      cs ← reading (λ e d, merge_sort (spread_le e d) (candidates e d cost));
      '(domains, dest) ← spread e p.(po_r) cs [dom];
      need (p.(po_w) <=? zlen domains) INSUFFICIENT_REPLICAS;;
      put KReplicaPlan (mkReplicaPlan i operation dest cost)
  end.

Definition rotate {A} (k : nat) (l : list A) : list A := drop k l ++ take k l.

Definition replicated_plan (b : BlockRef) (user_id : string) (bd : binding) (rd : bool) : M PlannedBlock :=
  p ← distributed_plan b user_id bd rd;
  let i := b.(br_block_version_id) in
  if rd then
    el ← reading (λ e d, map lo_node (eligible e d i));
    let pairs := List.filter (λ q : BlockLocation * BlockGrant, bool_decide (q.1.(bl_node_id) ∈ el))
                   (combine p.(pb_locations) p.(pb_grants)) in
    if decide (pairs = []) then
      known ← reading (λ _ d, locations_of_block d i);
      hist ← reading (λ _ d, receipts_of d i);
      let lost := negb (bool_decide (known = [])) && (zlen known =? zlen hist)
            && forallb (λ l, bool_decide (l.(lo_health) = "CORRUPT") || bool_decide (l.(lo_health) = "MISSING")) known in
      raise (Fault (if lost then DATA_LOSS else DATA_UNAVAILABLE))
    else
      let pairs := rotate (Z.to_nat (b.(br_block_index) mod zlen pairs)) pairs in
      mret (p <| pb_locations := pairs.*1 |> <| pb_grants := pairs.*2 |>)
  else
    po ← get_policy bd.(bd_file) (bool_decide (bd.(bd_base) = None));
    reserve_replicas b bd.(bd_id) po;;
    mret p.

Definition plan (b : BlockRef) (user_id : string) (bd : binding) (rd : bool) : M PlannedBlock :=
  c ← cfg;
  if replicated c then replicated_plan b user_id bd rd
  else if decide (c.(c_profile) = PDistributed) then distributed_plan b user_id bd rd
  else monolith_plan b user_id bd rd.

(** ** Upload admission and messages *)
Definition upload_cost (total block_size : Z) : Z :=
  total + cdiv total block_size * 4096 + cdiv total CHUNK * 20.
Definition preparing (op : upload) : bool := bool_decide (op.(o_state) = PREPARING).
Definition pending_bytes (d : DB) : Z :=
  zsum (map o_reserved (List.filter preparing (all_db KUpload d))).
Definition stored_bytes (d : DB) : Z := zsum (map b_stored_size (all_db KBlock d)).

Definition monolith_reserve_upload (total block_size : Z) : M Z :=
  e ← ask;
  d ← reading (λ _ d, d);
  let reserved := upload_cost total block_size in
  need ((reserved + pending_bytes d + stored_bytes d <=? e.(e_cfg).(c_capacity_bytes))
        && (reserved + pending_bytes d + MARGIN <=? e.(e_disk_free))) NO_SPACE;;
  mret reserved.
(** With data nodes, capacity is reserved per allocated block. *)
Definition distributed_reserve_upload : M Z := mret 0.
Definition reserve_upload (total block_size : Z) : M Z :=
  c ← cfg;
  if decide (c.(c_profile) = PMonolith) then monolith_reserve_upload total block_size
  else distributed_reserve_upload.

Definition monolith_upload_plan (op : upload) : M UploadPlan :=
  e ← ask;
  mret (mkUploadPlan op.(o_operation) op.(o_file) op.(o_epoch)
    (mkFence op.(o_id) "" e.(e_system).(sy_epoch) op.(o_epoch) 1 [] true true op.(o_expires))
    op.(o_block_size) op.(o_expires) 0).
Definition replicated_upload_plan (op : upload) : M UploadPlan :=
  p ← monolith_upload_plan op;
  mret (p <| up_minimum_durable := default 1 (po_w <$> op.(o_policy)) |>).
Definition upload_plan (op : upload) : M UploadPlan :=
  c ← cfg; if replicated c then replicated_upload_plan op else monolith_upload_plan op.

Definition handle_message (h : handle) : M Handle :=
  c ← cfg;
  x ← (if has_leases c then expiry_hint h.(h_deadline) else mret h.(h_expires));
  o ← get KSnapshot h.(h_snapshot);
  sn ← some_or_crash o;
  mret (mkHandle h.(h_id) sn.(sn_ref) h.(h_mode) x h.(h_revision)).

(** [manifest]: the blocks of every staged page, in order, complete. *)
Definition page_blocks (op : upload) : list BlockRef :=
  concat (map (λ i, default [] (dget (Z.of_nat i) op.(o_pages))) (seq 0 (length op.(o_pages)))).
Fixpoint indexed_from (i : Z) (bs : list BlockRef) : bool :=
  match bs with
  | [] => true
  | b :: bs => (b.(br_block_index) =? i) && indexed_from (i + 1) bs
  end.
Definition manifest (op : upload) : M (list BlockRef) :=
  let count := cdiv op.(o_total) op.(o_block_size) in
  need (zlen op.(o_pages) =? (count + 63) / 64) CHECKSUM_MISMATCH;;
  let blocks := page_blocks op in
  need ((zlen blocks =? count) && (zsum (map br_size_bytes blocks) =? op.(o_total))
        && indexed_from 0 blocks) CHECKSUM_MISMATCH;;
  mret blocks.
End Placement.
