(* ===== verification/Requests.v ===== *)
(** * Requests and responses of the control services

    One constructor per method, with the fields of its request message; the
    context travels beside the body.  Protobuf itself (the dictionary form of a
    message, its size and its bytes) is a parameter. *)
From S2P Require Import Prelude Domain Data Store Cluster.

Inductive body :=
  (* queries *)
  | Stat (path : PathRef)
  | List (path : PathRef) (page : PageRequest)
  | GetAcl (path : PathRef)
  | GetOperation (operation_id original_request_id : string)
  | ResolveBlocks (handle_id : string) (snapshot : SnapshotRef) (offset length : option Z)
      (page : PageRequest) (read_id : string)
  | ListNodes (page : PageRequest)
  | CopyStatus (task_id : string)
  | GetProtection (path : PathRef) (operation_id snapshot_id : string) (page : PageRequest)
  (* commands of the namespace and of identity *)
  | Mkdir (path : PathRef)
  | Rmdir (path : PathRef)
  | Remove (path : PathRef)
  | CreateUser (username password : string)
  | SetUser (user_id : string) (disabled : bool) (expected_revision : Z)
  | ChangePassword (user_id password : string) (expected_revision : Z)
  | CreateGroup (name : string)
  | SetGroupMembers (group_id : string) (user_ids : list string) (expected_revision : Z)
  | SetAcl (path : PathRef) (acl : Acl) (expected_revision : Z)
  | Logout (session_id : string)
  (* uploads *)
  | BeginUpload (path : PathRef) (total_bytes : Z) (file_sha256 : string) (overwrite : bool)
      (expected_snapshot : option SnapshotRef)
  | RenewUpload (operation : OperationRef)
  | AllocateBlocks (operation : OperationRef) (fence : Fence) (blocks : list BlockRef)
  | StageManifestPage (operation : OperationRef) (fence : Fence) (page_index : Z)
      (blocks : list BlockRef) (page_sha256 : string)
  | SealManifest (operation : OperationRef) (fence : Fence) (page_count block_count total_bytes : Z)
      (manifest_sha256 : string)
  | CommitUpload (operation : OperationRef) (fence : Fence) (seal : PageReceipt)
  | AbortUpload (operation : OperationRef)
  (* handles, locks, ranges *)
  | Open (path : PathRef) (mode : OpenMode)
  | RenewHandle (handle_id : string) (expected_handle_revision : Z)
  | Close (handle_id : string) (expected_handle_revision : Z)
  | BeginRead (handle_id : string) (snapshot : SnapshotRef) (offset length : Z)
  | EndRead (handle_id read_id : string)
  | Lock (handle_id : string) (whole_file : bool) (offset length : option Z) (wait_timeout_ms : Z)
  | RenewLock (fence : Fence)
  | Unlock (fence : Fence)
  | BeginWrite (w : BeginWriteRequest)
  | CommitWrite (operation : OperationRef) (handle_id : string) (expected_handle_revision : Z)
      (fences : list Fence) (changes : list BlockChange)
  | AbortWrite (operation : OperationRef)
  (* the cluster *)
  | SetNodeAuthorization (node_id : string) (enabled : bool) (expected_revision : Z)
  | CopyBlock (block : BlockRef) (source_node_id destination_node_id : string)
  | PromoteProtection (path : PathRef) (expected_policy_revision : Z)
  (* headers of the block streams, which the ledger remembers too *)
  | PutBlock (operation : OperationRef) (block : BlockRef) (fence : Fence) (capability : string)
  | PatchBlock (operation : OperationRef) (base : BlockRef) (new_block_version_id : string)
      (block_offset delta_length : Z) (delta_sha256 : string) (fence : Fence) (capability : string).

Record request := mkRequest { rq_context : RequestContext; rq_body : body }.

(** [method], the name the transport dispatches on. *)
Definition method_name (b : body) : string :=
  match b with
  | Stat _ => "Stat" | List _ _ => "List" | GetAcl _ => "GetAcl" | GetOperation _ _ => "GetOperation"
  | ResolveBlocks _ _ _ _ _ _ => "ResolveBlocks" | ListNodes _ => "ListNodes"
  | CopyStatus _ => "CopyStatus" | GetProtection _ _ _ _ => "GetProtection"
  | Mkdir _ => "Mkdir" | Rmdir _ => "Rmdir" | Remove _ => "Remove"
  | CreateUser _ _ => "CreateUser" | SetUser _ _ _ => "SetUser"
  | ChangePassword _ _ _ => "ChangePassword" | CreateGroup _ => "CreateGroup"
  | SetGroupMembers _ _ _ => "SetGroupMembers" | SetAcl _ _ _ => "SetAcl" | Logout _ => "Logout"
  | BeginUpload _ _ _ _ _ => "BeginUpload" | RenewUpload _ => "RenewUpload"
  | AllocateBlocks _ _ _ => "AllocateBlocks" | StageManifestPage _ _ _ _ _ => "StageManifestPage"
  | SealManifest _ _ _ _ _ _ => "SealManifest" | CommitUpload _ _ _ => "CommitUpload"
  | AbortUpload _ => "AbortUpload" | Open _ _ => "Open" | RenewHandle _ _ => "RenewHandle"
  | Close _ _ => "Close" | BeginRead _ _ _ _ => "BeginRead" | EndRead _ _ => "EndRead"
  | Lock _ _ _ _ _ => "Lock" | RenewLock _ => "RenewLock" | Unlock _ => "Unlock"
  | BeginWrite _ => "BeginWrite" | CommitWrite _ _ _ _ _ => "CommitWrite"
  | AbortWrite _ => "AbortWrite" | SetNodeAuthorization _ _ _ => "SetNodeAuthorization"
  | CopyBlock _ _ _ => "CopyBlock" | PromoteProtection _ _ => "PromoteProtection"
  | PutBlock _ _ _ _ => "PutBlock" | PatchBlock _ _ _ _ _ _ _ _ => "PatchBlock"
  end.

(** [hasattr(request, 'password')]. *)
Definition password_of (b : body) : option string :=
  match b with
  | CreateUser _ p | ChangePassword _ p _ => Some p
  | _ => None
  end.

Record NodeStatus := mkNodeStatus {
  ns_node : BlockLocation; ns_state : node_state; ns_capacity : Z; ns_used : Z; ns_reserved : Z;
  ns_free : Z; ns_active : Z; ns_seen : Z; ns_confirmed_blocks : Z;
  ns_counters : list Z }.
Record NodeStatusPage := mkNodeStatusPage { nsp_nodes : list NodeStatus; nsp_next_cursor : string }.
Record ProtectionStatus := mkProtectionStatus {
  px_file_id : string; px_target : Z; px_minimum : Z; px_revision : Z; px_state : string;
  px_blocks : list BlockProtection; px_status : string; px_durable_ready : bool;
  px_next_cursor : string; px_operation_state : OperationState }.

Inductive response :=
  | REntry (v : Entry)
  | RList (v : ListResponse)
  | RAcl (v : Acl)
  | ROperation (v : OperationStatus)
  | RBlocks (v : BlockPlan)
  | RNodes (v : NodeStatusPage)
  | RTask (v : TaskStatus)
  | RProtection (v : ProtectionStatus)
  | RMutation (v : MutationResult)
  | RUser (v : User)
  | RGroup (v : Group)
  | RUpload (v : UploadPlan)
  | RPage (v : PageReceipt)
  | RCommit (v : CommitResult)
  | RHandle (v : Handle)
  | RRead (v : ReadLease)
  | RFence (v : Fence)
  | RWrite (v : WritePlan)
  | RReceipt (v : DurableReceipt)
  | RSession (v : Session).

(** The message types of responses, and the one each method declares, which is the
    class the transport parses and the ledger replays with. *)
Inductive message_type :=
  | TEntry | TList | TAcl | TOperation | TBlocks | TNodes | TTask | TProtection | TMutation | TUser | TGroup
  | TUpload | TPage | TCommit | THandle | TRead | TFence | TWrite | TReceipt | TSession.
#[export] Instance message_type_eq_dec : EqDecision message_type.
Proof. solve_decision. Defined.
Definition type_of (r : response) : message_type :=
  match r with
  | REntry _ => TEntry | RList _ => TList | RAcl _ => TAcl | ROperation _ => TOperation | RBlocks _ => TBlocks
  | RNodes _ => TNodes | RTask _ => TTask | RProtection _ => TProtection | RMutation _ => TMutation
  | RUser _ => TUser | RGroup _ => TGroup | RUpload _ => TUpload | RPage _ => TPage | RCommit _ => TCommit
  | RHandle _ => THandle | RRead _ => TRead | RFence _ => TFence | RWrite _ => TWrite | RReceipt _ => TReceipt
  | RSession _ => TSession
  end.
Definition response_type (b : body) : message_type :=
  match b with
  | Stat _ | Mkdir _ => TEntry
  | List _ _ => TList
  | GetAcl _ => TAcl
  | GetOperation _ _ => TOperation
  | ResolveBlocks _ _ _ _ _ _ | AllocateBlocks _ _ _ => TBlocks
  | ListNodes _ => TNodes
  | CopyStatus _ | CopyBlock _ _ _ => TTask
  | GetProtection _ _ _ _ => TProtection
  | Rmdir _ | Remove _ | SetAcl _ _ _ | Logout _ | AbortUpload _ | Close _ _ | EndRead _ _ | Unlock _ | AbortWrite _
  | SetNodeAuthorization _ _ _ | PromoteProtection _ _ => TMutation
  | CreateUser _ _ | SetUser _ _ _ | ChangePassword _ _ _ => TUser
  | CreateGroup _ | SetGroupMembers _ _ _ => TGroup
  | BeginUpload _ _ _ _ _ | RenewUpload _ => TUpload
  | StageManifestPage _ _ _ _ _ | SealManifest _ _ _ _ _ _ => TPage
  | CommitUpload _ _ _ | CommitWrite _ _ _ _ _ => TCommit
  | Open _ _ | RenewHandle _ _ => THandle
  | BeginRead _ _ _ _ => TRead
  | Lock _ _ _ _ _ | RenewLock _ => TFence
  | BeginWrite _ => TWrite
  | PutBlock _ _ _ _ | PatchBlock _ _ _ _ _ _ _ _ => TReceipt
  end.

(** Protobuf: [MessageToDict], [ByteSize], [SerializeToString], and [FromString] of
    a class.  Its documented promise is that a message with values its schema can
    represent survives the round trip, and that a class parses to its own messages. *)
Class Wire := {
  request_dict : body → json;
  request_size : body → Z;
  block_dict : BlockRef → json;
  fence_request_dict : Fence → json;
  representable : response → bool;
  serialize : response → string;
  parse : message_type → string → option response;
  parse_type t s r : parse t s = Some r → type_of r = t;
  parse_serialize r : representable r = true → parse (type_of r) (serialize r) = Some r;
}.

Section Intents.
Context `{Hash, Unicode, Wire}.

Definition request_intent (b : body) : string := intent (request_dict b).
Definition fence_intent (f : Fence) : string := intent (fence_request_dict f).
(** [manifest_hash(blocks)]. *)
Definition manifest_hash (bs : list BlockRef) : string := sha256 (canonical (JArr (map block_dict bs))).
End Intents.

(** The MutationResult of a command ([Commands.result]). *)
Definition result_of (ctx : RequestContext) (revision : Z) : response :=
  RMutation (mkMutationResult ctx.(rc_request_id) revision).
