(* ===== verification/Queries.v ===== *)
(** * Queries ([control/queries.py], [AccessQueries] of [access.py],
    [ClusterQueries] of [distributed.py], [ProtectionQueries] of [replication.py])

    Reads of the authoritative source: the walk from a path to a node, listings
    with cursors, open handles and the blocks of a range. *)
From S2P Require Import Prelude Domain Data Store Auth Leases Cluster Placement Requests.

Definition READ_MODES : list OpenMode := [ctl.R; ctl.R_PLUS; ctl.W_PLUS; ctl.X_PLUS].
Definition WRITE_MODES : list OpenMode := [ctl.R_PLUS; ctl.W; ctl.W_PLUS; ctl.X; ctl.X_PLUS].
Definition readable (m : OpenMode) : bool := bool_decide (m ∈ READ_MODES).
Definition writable_mode (m : OpenMode) : bool := bool_decide (m ∈ WRITE_MODES).
Definition is_directory (n : node) : bool := bool_decide (n.(n_kind) = Directory).
Definition is_file (n : node) : bool := bool_decide (n.(n_kind) = File).
Definition slash : ascii := "/"%char.
Definition backslash : ascii := "\"%char.

Section Queries.
Context `{Hash, Unicode, Json, Base64, Wire}.

Definition plain_text (s : string) : bool := negb (has_char backslash s) && negb (has_char nul s).
Definition components (path : string) : list string :=
  List.filter (λ p, negb (empty p)) (split_on slash path).

Definition child_named (name : string) (ns : list node) : option node :=
  List.find (λ n, bool_decide (n.(n_name) = name)) ns.
Definition has_child (name : string) (ns : list node) : bool :=
  existsb (λ n, bool_decide (n.(n_name) = name)) ns.

Fixpoint walk_from (u : user) (n : node) (pieces : list string) : M node :=
  match pieces with
  | [] => mret n
  | p :: pieces =>
      need (is_directory n) NOT_DIRECTORY;;
      require u n 1;;
      if decide (p = ".") then walk_from u n pieces
      else if decide (p = "..") then
        match n.(n_parent) with
        | Some i => o ← get KNode i; n ← some_or_crash o; walk_from u n pieces
        | None => walk_from u n pieces
        end
      else
        ns ← children n.(n_id);
        n ← need_some (child_named p ns) NOT_FOUND;
        walk_from u n pieces
  end.

Definition walk (u : user) (path : string) : M node :=
  need (starts_with "/" path && (slen path <=? 4096) && plain_text path) INVALID_ARGUMENT;;
  let pieces := map nfc (components path) in
  need ((zlen pieces <=? 32) && forallb (λ p, slen p <=? 255) pieces) LIMIT_EXCEEDED;;
  sys ← system_of;
  o ← get KNode sys.(sy_root);
  n ← some_or_crash o;
  walk_from u n pieces.

(** [path]: a relative path continues a working directory that must still be
    the directory the client knows. *)
Definition full_path (u : user) (r : PathRef) : M string :=
  need (negb (empty r.(pr_path)) && (slen r.(pr_path) <=? 4096)) INVALID_ARGUMENT;;
  if starts_with "/" r.(pr_path) then mret r.(pr_path)
  else
    need (starts_with "/" r.(pr_cwd_path) && negb (empty r.(pr_cwd_id))) INVALID_ARGUMENT;;
    cwd ← catch (walk u r.(pr_cwd_path)) (λ x,
      if decide (x = Fault NOT_FOUND ∨ x = Fault NOT_DIRECTORY) then raise (Fault CWD_GONE) else raise x);
    need (bool_decide (cwd.(n_id) = r.(pr_cwd_id)) && is_directory cwd) CWD_GONE;;
    mret (rstrip slash r.(pr_cwd_path) +:+ "/" +:+ r.(pr_path)).

Definition resolve (u : user) (r : PathRef) : M node :=
  p ← full_path u r; walk u p.

Definition parent (u : user) (r : PathRef) : M (node * string) :=
  p ← full_path u r;
  let p := rstrip slash p in
  need (negb (empty p) && negb (bool_decide (p = "/"))) ROOT_PROTECTED;;
  let '(parent_path, name) := rpartition slash p in
  let name := nfc name in
  need (negb (bool_decide (name ∈ [""; "."; ".."])) && (slen name <=? 255) && plain_text name)
    INVALID_ARGUMENT;;
  n ← walk u (if empty parent_path then "/" else parent_path);
  need (is_directory n) NOT_DIRECTORY;;
  require u n 3;;
  need (zlen (components (parent_path +:+ "/" +:+ name)) <=? 32) LIMIT_EXCEEDED;;
  mret (n, name).

Definition entry (n : node) : M Entry :=
  o ← get_opt KSnapshot n.(n_snapshot);
  ref ← match n.(n_snapshot) with
        | Some _ => sn ← some_or_crash o; mret (Some sn.(sn_ref))
        | None => mret None
        end;
  mret (mkEntry n.(n_id) n.(n_name) (if is_directory n then DIRECTORY else FILE)
          (default 0 (sr_size_bytes <$> ref)) n.(n_revision) ref).

Definition stat (u : user) (path : PathRef) : M Entry :=
  n ← resolve u path;
  require u n (if is_directory n then 1 else 4);;
  entry n.

(** The name a listing continues after. *)
Definition field (k : string) (j : json) : M json :=
  match j with
  | JObj l => need_some (dget k l) INVALID_ARGUMENT
  | _ => raise (Fault INVALID_ARGUMENT)
  end.
Definition is_str (s : string) (j : json) : bool := match j with JStr t => bool_decide (t = s) | _ => false end.
Definition is_num (z : Z) (j : json) : bool := match j with JNum t => t =? z | _ => false end.
Definition list_after (u : user) (n : node) (cursor : string) : M string :=
  if empty cursor then mret "" else
  j ← need_some (b64decode cursor ≫= json_loads) INVALID_ARGUMENT;
  i ← field "id" j; need (is_str n.(n_id) i) LIST_CHANGED;;
  r ← field "revision" j; need (is_num n.(n_revision) r) LIST_CHANGED;;
  v ← field "user" j; need (is_str u.(u_id) v) LIST_CHANGED;;
  ns ← children n.(n_id);
  last ← field "last" j;
  p ← need_some (List.find (λ m, is_str m.(n_id) last) ns) INVALID_ARGUMENT;
  mret p.(n_name).
Definition name_after (last : string) (n : node) : bool :=
  bool_decide (String.le last n.(n_name) ∧ last ≠ n.(n_name)).
Definition list_cursor (u : user) (n last : node) : string :=
  b64encode (canonical (JObj [("id", JStr n.(n_id)); ("revision", JNum n.(n_revision));
    ("user", JStr u.(u_id)); ("last", JStr last.(n_id))])).
Definition list_directory (u : user) (path : PathRef) (page : PageRequest) : M ListResponse :=
  n ← resolve u path;
  need (is_directory n) NOT_DIRECTORY;;
  require u n 5;;
  need ((1 <=? page.(pg_limit)) && (page.(pg_limit) <=? 100)) INVALID_ARGUMENT;;
  need (slen page.(pg_cursor) <=? 512) LIMIT_EXCEEDED;;
  last ← list_after u n page.(pg_cursor);
  ns ← children n.(n_id);
  let ns := List.filter (name_after last) ns in
  let selected := take (Z.to_nat page.(pg_limit)) ns in
  entries ← for_map selected entry;
  next ← (if zlen ns <=? page.(pg_limit) then mret ""
          else l ← some_or_crash (list_last selected); mret (list_cursor u n l));
  mret (mkListResponse entries next n.(n_revision)).

Definition get_acl (u : user) (path : PathRef) : M Acl :=
  n ← resolve u path;
  (if u.(u_admin) || bool_decide (n.(n_owner) = u.(u_id)) then mret tt else require u n 4);;
  mret (mkAcl n.(n_owner) n.(n_group) (Z.shiftr n.(n_mode) 6) (Z.land (Z.shiftr n.(n_mode) 3) 7)
          (Z.land n.(n_mode) 7) n.(n_acl) n.(n_revision)).

Definition get_operation (u : user) (operation_id original_request_id : string) : M OperationStatus :=
  o ← (if empty operation_id then
         os ← all KUpload;
         mret (List.find (λ o, bool_decide (o.(o_user) = u.(u_id))
                               && bool_decide (o.(o_request_id) = original_request_id)) os)
       else get KUpload operation_id);
  op ← need_some o NOT_FOUND;
  need (bool_decide (op.(o_user) = u.(u_id))) NOT_FOUND;;
  mret (mkOperationStatus op.(o_operation) op.(o_state) op.(o_result) op.(o_expires)
          (we_begin <$> op.(o_write))).

(** ** Handles *)
Definition require_ancestors (u : user) (h : handle) : M unit :=
  for_each h.(h_ancestors) (λ i, o ← get KNode i; n ← some_or_crash o; require u n 1).

(** [Queries.handle] and [AccessQueries.handle]. *)
Definition base_handle (u : user) (s : session) (i : string) : M (handle * snapshot) :=
  o ← get KHandle i;
  h ← need_some o STALE_HANDLE;
  t ← now;
  need (bool_decide (h.(h_user) = u.(u_id)) && bool_decide (h.(h_session) = s.(s_id))
        && negb h.(h_closed) && (t <? h.(h_expires))) STALE_HANDLE;;
  o ← get KNode h.(h_file);
  n ← some_or_crash o;
  require u n 4;;
  require_ancestors u h;;
  o ← get KSnapshot h.(h_snapshot);
  sn ← some_or_crash o;
  mret (h, sn).
Definition access_handle (u : user) (s : session) (i : string) : M (handle * snapshot) :=
  o ← get KHandle i;
  h ← need_some o STALE_HANDLE;
  l ← live_handle h;
  need (bool_decide (h.(h_user) = u.(u_id)) && bool_decide (h.(h_session) = s.(s_id))
        && negb h.(h_closed) && l) STALE_HANDLE;;
  o ← get KNode h.(h_file);
  n ← some_or_crash o;
  require u n (if readable h.(h_mode) then 4 else 2);;
  require_ancestors u h;;
  o ← get KSnapshot h.(h_snapshot);
  sn ← need_some o STALE_HANDLE;
  mret (h, sn).
Definition get_handle (u : user) (s : session) (i : string) : M (handle * snapshot) :=
  c ← cfg; if has_leases c then access_handle u s i else base_handle u s i.

(** [AccessQueries.writable]: a write handle on the live, current content. *)
Definition writable (u : user) (s : session) (i : string) : M (handle * snapshot * node * snapshot) :=
  '(h, sn) ← access_handle u s i;
  need (writable_mode h.(h_mode)) PERMISSION_DENIED;;
  o ← get KNode h.(h_file);
  n ← some_or_crash o;
  require u n 2;;
  o ← get_opt KSnapshot n.(n_snapshot);
  need n.(n_alive) VERSION_CONFLICT;;
  cur ← some_or_crash o;
  need (cur.(sn_ref).(sr_content_epoch) =? sn.(sn_ref).(sr_content_epoch)) VERSION_CONFLICT;;
  mret (h, sn, n, cur).

Definition validate_read (h : handle) (i : string) (offset length : Z) : M read :=
  o ← get KRead i;
  fin ← checked_range offset length None;
  r ← need_some o HANDLE_BUSY;
  need (bool_decide (r.(r_handle) = h.(h_id)) && bool_decide (r.(r_session) = h.(h_session))
        && bool_decide (h.(h_busy) = Some i) && negb r.(r_closed)) HANDLE_BUSY;;
  need ((r.(r_offset) <=? offset) && (fin <=? r.(r_offset) + r.(r_length))) PERMISSION_DENIED;;
  mret r.

(** ** The blocks of a range *)
Definition slice {A} (lo hi : Z) (l : list A) : list A :=
  take (Z.to_nat (hi - lo)) (drop (Z.to_nat lo) l).
Definition page_cursor (page : PageRequest) : M Z :=
  need_some (py_int (if empty page.(pg_cursor) then "0" else page.(pg_cursor))) INVALID_ARGUMENT.
Definition in_range (size offset length : Z) (b : BlockRef) : bool :=
  (b.(br_block_index) * size <? offset + length)
  && (offset <? b.(br_block_index) * size + b.(br_size_bytes)).

Definition base_resolve_blocks (u : user) (s : session) (handle_id : string) (snap : SnapshotRef)
    (offset length : option Z) (page : PageRequest) : M BlockPlan :=
  '(h, sn) ← base_handle u s handle_id;
  need (bool_decide (snap = sn.(sn_ref))) VERSION_CONFLICT;;
  need ((1 <=? page.(pg_limit)) && (page.(pg_limit) <=? 64)) INVALID_ARGUMENT;;
  let total := sn.(sn_ref).(sr_size_bytes) in
  let offset := default 0 offset in
  let length := default (total - offset) length in
  need ((offset <=? total) && (offset + length <=? total)) INVALID_ARGUMENT;;
  index ← page_cursor page;
  let blocks := List.filter (in_range sn.(sn_ref).(sr_block_size_bytes) offset length) sn.(sn_blocks) in
  need ((0 <=? index) && (index <=? zlen blocks)) INVALID_ARGUMENT;;
  let selected := slice index (index + page.(pg_limit)) blocks in
  ps ← for_map selected (λ b, plan b u.(u_id) (handle_binding h) true);
  mret (mkBlockPlan ps
    (if index + zlen selected <? zlen blocks then str_Z (index + zlen selected) else "") (Some snap)).

(** The action a range grant is signed for. *)
Definition read_action (low len : Z) (read_id : string) : string :=
  join_with ":" ["read"; str_Z low; str_Z len; read_id].
Definition narrow_grant (u : user) (h : handle) (b : BlockRef) (low high : Z) (read_id : string)
    (g : BlockGrant) : M BlockGrant :=
  o ← get KDatanode g.(bg_node_id);
  n ← some_or_crash o;
  cap ← node_capability u.(u_id) (handle_binding h) b n (read_action low (high - low) read_id);
  mret (g <| bg_offset := low |> <| bg_length := high - low |> <| bg_capability := cap |>).
Definition range_plan (u : user) (h : handle) (size offset fin : Z) (read_id : string) (b : BlockRef)
    : M PlannedBlock :=
  p ← plan b u.(u_id) (handle_binding h) true;
  let low := Z.max 0 (offset - b.(br_block_index) * size) in
  let high := Z.min b.(br_size_bytes) (fin - b.(br_block_index) * size) in
  gs ← for_map p.(pb_grants) (narrow_grant u h b low high read_id);
  mret (p <| pb_grants := gs |>).
Definition access_resolve_blocks (u : user) (s : session) (handle_id : string) (snap : SnapshotRef)
    (offset length : option Z) (page : PageRequest) (read_id : string) : M BlockPlan :=
  '(h, sn) ← access_handle u s handle_id;
  need (readable h.(h_mode)) PERMISSION_DENIED;;
  need (match h.(h_busy) with Some i => bool_decide (i = read_id) | None => true end) HANDLE_BUSY;;
  (if empty read_id then mret tt
   else _ ← validate_read h read_id (default 0 offset) (default 0 length); mret tt);;
  need (bool_decide (snap = sn.(sn_ref))) VERSION_CONFLICT;;
  let offset := default 0 offset in
  let length := default (Z.max 0 (snap.(sr_size_bytes) - offset)) length in
  fin ← checked_range offset length None;
  let fin := Z.min fin snap.(sr_size_bytes) in
  need ((1 <=? page.(pg_limit)) && (page.(pg_limit) <=? 64)) INVALID_ARGUMENT;;
  cursor ← page_cursor page;
  let size := snap.(sr_block_size_bytes) in
  let start := offset / size in
  let stop := if negb (length =? 0) && (offset <? fin) then (fin + size - 1) / size else start in
  need ((0 <=? cursor) && (cursor <=? Z.max 0 (stop - start))) INVALID_ARGUMENT;;
  let selected := slice (start + cursor) (Z.min stop (start + cursor + page.(pg_limit))) sn.(sn_blocks) in
  ps ← for_map selected (range_plan u h size offset fin read_id);
  let next := cursor + zlen ps in
  mret (mkBlockPlan ps (if start + next <? stop then str_Z next else "") (Some snap)).
Definition resolve_blocks (u : user) (s : session) (handle_id : string) (snap : SnapshotRef)
    (offset length : option Z) (page : PageRequest) (read_id : string) : M BlockPlan :=
  c ← cfg;
  if has_leases c then access_resolve_blocks u s handle_id snap offset length page read_id
  else base_resolve_blocks u s handle_id snap offset length page.

(** ** The cluster *)
Definition list_nodes (u : user) (page : PageRequest) : M NodeStatusPage :=
  need u.(u_admin) PERMISSION_DENIED;;
  let limit := if page.(pg_limit) =? 0 then 64 else page.(pg_limit) in
  need ((1 <=? limit) && (limit <=? 64)) INVALID_ARGUMENT;;
  e ← ask; d ← reading (λ _ d, d);
  let records := List.filter (after page.(pg_cursor)) (all_db KDatanode d) in
  let status (n : datanode) :=
    let '(used, reserved) := usage e d n in
    mkNodeStatus n.(dn_location) (state e (Some n)) n.(dn_capacity) used reserved n.(dn_free)
      n.(dn_active) n.(dn_seen)
      (zlen (List.filter (λ l, bool_decide (l.(lo_node) = n.(dn_id))) (all_db KLocation d)))
      n.(dn_counters) in
  let selected := take (Z.to_nat limit) records in
  mret (mkNodeStatusPage (map status selected)
    (if limit <? zlen records then default "" (dn_id <$> list_last selected) else "")).

Definition copy_status (u : user) (task_id : string) : M TaskStatus :=
  need u.(u_admin) PERMISSION_DENIED;;
  i ← uuid task_id;
  o ← get KTask i;
  t ← need_some o NOT_FOUND;
  mret t.(t_status).

(** [GetProtection]. *)
Definition protection_refs (u : user) (s : session) (path : PathRef) (operation_id snapshot_id : string)
    : M (option upload * string * list BlockRef) :=
  if empty operation_id then
    n ← resolve u path;
    need (is_file n) IS_DIRECTORY;;
    require u n 4;;
    (if empty snapshot_id then mret tt
     else
       e ← ask;
       hs ← all KHandle;
       need (existsb (λ h, bool_decide (h.(h_file) = n.(n_id)) && bool_decide (h.(h_snapshot) = snapshot_id)
              && bool_decide (h.(h_user) = u.(u_id)) && bool_decide (h.(h_session) = s.(s_id))
              && negb h.(h_closed) && live_handle_at e h) hs) STALE_HANDLE);;
    o ← get_opt KSnapshot (if empty snapshot_id then n.(n_snapshot) else Some snapshot_id);
    sn ← some_or_crash o;
    mret (None, n.(n_id), sn.(sn_blocks))
  else
    o ← get KUpload operation_id;
    op ← need_some o PERMISSION_DENIED;
    need (bool_decide (op.(o_user) = u.(u_id))) PERMISSION_DENIED;;
    mret (Some op, op.(o_file), op.(o_allocations).*2).
Definition get_protection (u : user) (s : session) (path : PathRef) (operation_id snapshot_id : string)
    (page : PageRequest) : M ProtectionStatus :=
  let limit := if page.(pg_limit) =? 0 then 64 else page.(pg_limit) in
  need ((1 <=? limit) && (limit <=? 64)) INVALID_ARGUMENT;;
  '(op, file_id, refs) ← protection_refs u s path operation_id snapshot_id;
  p ← get_policy file_id false;
  cursor ← page_cursor page;
  need ((0 <=? cursor) && (cursor <=? zlen refs)) INVALID_ARGUMENT;;
  rows ← for_map (slice cursor (cursor + limit) refs) (λ r, protection r p);
  let status := if existsb (λ x, x.(bx_eligible) =? 0) rows then "UNAVAILABLE"
    else if existsb (λ x, x.(bx_eligible) <? p.(po_r)) rows then "DEGRADED" else "NORMAL" in
  mret (mkProtectionStatus file_id p.(po_r) p.(po_w) p.(po_revision) p.(po_state) rows status
    (forallb (λ x, (p.(po_w) <=? x.(bx_confirmed)) && (p.(po_w) <=? x.(bx_eligible))) rows)
    (if cursor + limit <? zlen refs then str_Z (cursor + limit) else "")
    (match op with Some op => op.(o_state) | None => OPERATION_STATE_UNSPECIFIED end)).
End Queries.
