(* ===== verification/Commands.v ===== *)
(** * Commands of the domain ([control/commands.py])

    Each method runs in one short write unit of work.  A method that subclasses
    override is defined here as the base class has it ([base_...]). *)
From S2P Require Import Prelude Domain Data Store Auth Leases Cluster Placement Requests Queries.

Section Commands.
Context `{Hash, Unicode, Argon2, Json, Base64, Wire}.

Definition bump (n : node) : M node :=
  let n := n <| n_revision ::= Z.succ |> in put KNode n;; mret n.

(** [Commands.reserved]: a live upload holds the name. *)
Definition reserves (t : Z) (parent name : string) (o : upload) : bool :=
  bool_decide (o.(o_parent) = Some parent) && bool_decide (o.(o_name) = name)
  && preparing o && (t <? o.(o_expires)).
Definition reserved (parent name : string) : M bool :=
  t ← now; os ← all KUpload; mret (existsb (reserves t parent name) os).

Definition mkdir (u : user) (path : PathRef) : M Entry :=
  '(p, name) ← parent u path;
  ns ← children p.(n_id);
  need (negb (has_child name ns)) ALREADY_EXISTS;;
  r ← reserved p.(n_id) name;
  need (negb r) LOCK_BUSY;;
  n ← new_node name (Some p.(n_id)) u.(u_id) Directory 448;
  put KNode n;;
  _ ← bump p;
  entry n.

Definition abort_op (op : upload) : upload := op <| o_state := ABORTED |> <| o_reserved := 0 |>.
Definition abort_uploads_of (file : string) : M unit :=
  os ← all KUpload;
  for_each os (λ o,
    if bool_decide (o.(o_file) = file) && preparing o then put KUpload (abort_op o) else mret tt).

Definition base_remove (u : user) (ctx : RequestContext) (path : PathRef) (directory : bool) : M response :=
  n ← resolve u path;
  pid ← need_some n.(n_parent) ROOT_PROTECTED;
  need (if directory then is_directory n else is_file n) (if directory then NOT_DIRECTORY else IS_DIRECTORY);;
  o ← get KNode pid;
  p ← some_or_crash o;
  require u p 3;;
  (if directory then
     ns ← children n.(n_id);
     t ← now;
     os ← all KUpload;
     need (bool_decide (ns = []) && negb (existsb (λ o, bool_decide (o.(o_parent) = Some n.(n_id))
             && preparing o && (t <? o.(o_expires))) os)) DIRECTORY_NOT_EMPTY
   else mret tt);;
  abort_uploads_of n.(n_id);;
  n ← bump (n <| n_alive := false |>);
  _ ← bump p;
  mret (result_of ctx n.(n_revision)).

(** ** Identity *)
Definition user_message (t : user) : User := mkUser t.(u_id) t.(u_username) t.(u_disabled) t.(u_revision).
Definition group_message (g : group) : Group := mkGroup g.(g_id) g.(g_name) g.(g_members) g.(g_revision).

Definition create_user (u : user) (username password : string) : M User :=
  need u.(u_admin) PERMISSION_DENIED;;
  need (valid_name username) INVALID_ARGUMENT;;
  us ← all KUser;
  need (negb (existsb (λ v, bool_decide (v.(u_username) = username)) us)) ALREADY_EXISTS;;
  i ← uid;
  encoded ← password_hash password;
  put KUser (mkUserRec i username encoded false false 1);;
  put KGroup (mkGroupRec i username [i] 1);;
  home ← walk u "/home";
  ns ← children home.(n_id);
  need (negb (has_child username ns)) ALREADY_EXISTS;;
  n ← new_node username (Some home.(n_id)) i Directory 448;
  put KNode n;;
  _ ← bump home;
  mret (mkUser i username false 1).

Definition revoke_sessions (user_id : string) : M unit :=
  ss ← all KSession;
  for_each ss (λ s,
    if bool_decide (s.(s_user) = user_id) && negb s.(s_revoked)
    then put KSession (s <| s_revoked := true |>) else mret tt).

Definition set_user (u : user) (user_id : string) (disabled : bool) (expected : Z) : M User :=
  need u.(u_admin) PERMISSION_DENIED;;
  o ← get KUser user_id;
  t ← need_some o NOT_FOUND;
  need (negb t.(u_admin)) PERMISSION_DENIED;;
  need (t.(u_revision) =? expected) VERSION_CONFLICT;;
  let t := t <| u_disabled := disabled |> <| u_revision ::= Z.succ |> in
  (if disabled then revoke_sessions t.(u_id) else mret tt);;
  put KUser t;;
  mret (user_message t).

Definition change_password (u : user) (user_id password : string) (expected : Z) : M User :=
  need (u.(u_admin) || bool_decide (u.(u_id) = user_id)) PERMISSION_DENIED;;
  o ← get KUser user_id;
  t ← need_some o NOT_FOUND;
  need (t.(u_revision) =? expected) VERSION_CONFLICT;;
  encoded ← password_hash password;
  let t := t <| u_password := encoded |> <| u_revision ::= Z.succ |> in
  put KUser t;;
  revoke_sessions t.(u_id);;
  mret (user_message t).

Definition create_group (u : user) (name : string) : M Group :=
  need u.(u_admin) PERMISSION_DENIED;;
  need (valid_name name) INVALID_ARGUMENT;;
  gs ← all KGroup;
  need (negb (existsb (λ g, bool_decide (g.(g_name) = name)) gs)) ALREADY_EXISTS;;
  i ← uid;
  let g := mkGroupRec i name [] 1 in
  put KGroup g;;
  mret (group_message g).

Definition set_group_members (u : user) (group_id : string) (user_ids : list string) (expected : Z) : M Group :=
  need u.(u_admin) PERMISSION_DENIED;;
  o ← get KGroup group_id;
  g ← need_some o NOT_FOUND;
  need (g.(g_revision) =? expected) VERSION_CONFLICT;;
  need ((zlen user_ids <=? 100) && bool_decide (NoDup user_ids)) INVALID_ARGUMENT;;
  known ← reading (λ _ d, forallb (λ i, bool_decide (is_Some (d KUser !! i))) user_ids);
  need known NOT_FOUND;;
  let g := g <| g_members := user_ids |> <| g_revision ::= Z.succ |> in
  put KGroup g;;
  mret (group_message g).

Definition mode_of (a : Acl) : Z :=
  Z.lor (Z.lor (Z.shiftl a.(acl_owner) 6) (Z.shiftl a.(acl_group) 3)) a.(acl_other).
Definition set_acl (u : user) (ctx : RequestContext) (path : PathRef) (a : Acl) (expected : Z) : M response :=
  n ← resolve u path;
  need (u.(u_admin) || bool_decide (n.(n_owner) = u.(u_id))) PERMISSION_DENIED;;
  need (expected =? n.(n_revision)) VERSION_CONFLICT;;
  need ((a.(acl_owner) <=? 7) && (a.(acl_group) <=? 7) && (a.(acl_other) <=? 7)
        && (zlen a.(acl_entries) <=? 64) && forallb (λ x, x.(ae_permissions) <=? 7) a.(acl_entries))
    INVALID_ARGUMENT;;
  d ← reading (λ _ d, d);
  need (bool_decide (is_Some (d KUser !! a.(acl_owner_id))) && bool_decide (is_Some (d KGroup !! a.(acl_group_id))))
    NOT_FOUND;;
  need (u.(u_admin) || (bool_decide (a.(acl_owner_id) = n.(n_owner)) && bool_decide (a.(acl_group_id) = n.(n_group))))
    PERMISSION_DENIED;;
  for_each a.(acl_entries) (λ x,
    need (if x.(ae_is_group) then bool_decide (is_Some (d KGroup !! x.(ae_principal)))
          else bool_decide (is_Some (d KUser !! x.(ae_principal)))) NOT_FOUND);;
  n ← bump (n <| n_owner := a.(acl_owner_id) |> <| n_group := a.(acl_group_id) |>
              <| n_mode := mode_of a |> <| n_acl := a.(acl_entries) |>);
  mret (result_of ctx n.(n_revision)).

Definition logout (s : session) (ctx : RequestContext) (session_id : string) : M response :=
  need (bool_decide (session_id = s.(s_session_id))) PERMISSION_DENIED;;
  put KSession (s <| s_revoked := true |>);;
  mret (result_of ctx 1).

(** ** Uploads *)
Definition active_upload (t : Z) (o : upload) : bool := preparing o && (t <? o.(o_expires)).
Definition begin_quota (u : user) : M unit :=
  c ← cfg;
  if c.(c_encrypted) then
    t ← now;
    os ← all KUpload;
    let active := List.filter (active_upload t) os in
    need ((zlen active <? 64)
          && (zlen (List.filter (λ o, bool_decide (o.(o_user) = u.(u_id))) active) <? 16)) LIMIT_EXCEEDED
  else mret tt.
(** The snapshot an upload replaces: the one the client expects. *)
Definition upload_base (u : user) (overwrite : bool) (expected : option SnapshotRef) (existing : option node)
    : M (option snapshot) :=
  match existing with
  | Some n =>
      need (is_file n) IS_DIRECTORY;;
      need overwrite ALREADY_EXISTS;;
      require u n 2;;
      o ← get_opt KSnapshot n.(n_snapshot);
      sn ← some_or_crash o;
      need (bool_decide (expected = Some sn.(sn_ref))) VERSION_CONFLICT;;
      mret (Some sn)
  | None =>
      need (empty (default "" (sr_file_id <$> expected))) VERSION_CONFLICT;;
      mret None
  end.

Definition base_begin_upload (u : user) (s : session) (ctx : RequestContext) (path : PathRef)
    (total : Z) (sha : string) (overwrite : bool) (expected : option SnapshotRef) : M UploadPlan :=
  begin_quota u;;
  c ← cfg;
  need ((slen sha =? 32) && (total <=? c.(c_max_file_bytes))) INVALID_ARGUMENT;;
  '(p, name) ← parent u path;
  ns ← children p.(n_id);
  let existing := child_named name ns in
  r ← reserved p.(n_id) name;
  need (negb r) LOCK_BUSY;;
  base ← upload_base u overwrite expected existing;
  let block_size := match existing with Some n => n.(n_block_size) | None => c.(c_block_size_bytes) end in
  rs ← reserve_upload total block_size;
  i ← uid;
  file ← match existing with Some n => mret n.(n_id) | None => uid end;
  t ← now;
  let op := mkUpload i (mkOperationRef i ctx.(rc_request_id) ctx.(rc_intent_sha256)) ctx.(rc_request_id)
    u.(u_id) s.(s_id) (Some p.(n_id)) name file (existing ≫= n_snapshot)
    (default 0 (n_revision <$> existing)) block_size total (hex sha) PREPARING (t + 300000)
    (t + 3600000) (match base with Some sn => sn.(sn_ref).(sr_content_epoch) + 1 | None => 1 end)
    rs [] [] None None [] None None None in
  put KUpload op;;
  upload_plan op.

(** [Commands.operation]: the upload a request names, while it may continue. *)
Definition base_operation (u : user) (s : session) (ref : OperationRef) (fence : option Fence) : M upload :=
  o ← get KUpload ref.(or_operation_id);
  op ← need_some o PERMISSION_DENIED;
  need (bool_decide (op.(o_user) = u.(u_id)) && bool_decide (op.(o_session) = s.(s_id))) PERMISSION_DENIED;;
  need (bool_decide (ref = op.(o_operation))) VERSION_CONFLICT;;
  t ← now;
  need (preparing op && (t <? op.(o_expires))) OPERATION_EXPIRED;;
  o ← get_opt KNode op.(o_parent);
  p ← need_some o VERSION_CONFLICT;
  need p.(n_alive) VERSION_CONFLICT;;
  require u p 3;;
  match op.(o_base) with
  | Some b =>
      o ← get KNode op.(o_file);
      n ← need_some o VERSION_CONFLICT;
      need (n.(n_alive) && bool_decide (n.(n_snapshot) = Some b)) VERSION_CONFLICT;;
      require u n 2
  | None => mret tt
  end;;
  sys ← system_of;
  match fence with
  | Some f =>
      need (bool_decide (f.(fc_lock_id) = op.(o_id)) && (f.(fc_generation) =? op.(o_epoch))
            && bool_decide (f.(fc_service_epoch) = sys.(sy_epoch))) LOCK_EXPIRED
  | None => mret tt
  end;;
  mret op.
(** [AccessCommands.operation]. *)
Definition access_operation (u : user) (s : session) (ref : OperationRef) (fence : option Fence) : M upload :=
  op ← base_operation u s ref fence;
  need (bool_decide (op.(o_write) = None)) PERMISSION_DENIED;;
  match op.(o_full_fence) with
  | Some f => _ ← validate s f; mret tt
  | None => mret tt
  end;;
  mret op.
Definition operation (u : user) (s : session) (ref : OperationRef) (fence : option Fence) : M upload :=
  c ← cfg; if has_leases c then access_operation u s ref fence else base_operation u s ref fence.

Definition base_renew_upload (u : user) (s : session) (ref : OperationRef) : M UploadPlan :=
  op ← operation u s ref None;
  t ← now;
  let op := op <| o_expires := Z.min (t + 300000) op.(o_max_expires) |> in
  put KUpload op;;
  upload_plan op.

Definition block_size_at (op : upload) (index : Z) : Z :=
  Z.min op.(o_block_size) (op.(o_total) - index * op.(o_block_size)).
(** One requested block: an allocation already made is kept, a new one is drawn. *)
Definition allocate_one (u : user) (acc : upload * list PlannedBlock) (rq : BlockRef)
    : M (upload * list PlannedBlock) :=
  let '(op, planned) := acc in
  let index := rq.(br_block_index) in
  let size := block_size_at op index in
  need ((0 <? size) && bool_decide (rq.(br_file_id) = op.(o_file)) && (rq.(br_size_bytes) =? size)
        && (slen rq.(br_plaintext_sha256) =? 32) && empty rq.(br_block_version_id)) INVALID_ARGUMENT;;
  '(op, b) ← match dget index op.(o_allocations) with
    | Some b =>
        need ((b.(br_size_bytes) =? size)
              && bool_decide (b.(br_plaintext_sha256) = rq.(br_plaintext_sha256))) VERSION_CONFLICT;;
        mret (op, b)
    | None =>
        i ← uid;
        let b := mkBlockRef op.(o_file) i index size rq.(br_plaintext_sha256) in
        mret (op <| o_allocations ::= dset index b |>, b)
    end;
  p ← plan b u.(u_id) (upload_binding op) false;
  mret (op, planned ++ [p]).
Definition allocate_blocks (u : user) (s : session) (ref : OperationRef) (fence : Fence)
    (blocks : list BlockRef) : M BlockPlan :=
  op ← operation u s ref (Some fence);
  need (bool_decide (op.(o_sealed) = None)) VERSION_CONFLICT;;
  need ((1 <=? zlen blocks) && (zlen blocks <=? 64)) INVALID_ARGUMENT;;
  '(op, planned) ← for_fold blocks (op, []) (allocate_one u);
  put KUpload op;;
  mret (mkBlockPlan planned "" None).

Fixpoint check_staged (op : upload) (index : Z) (bs : list BlockRef) : M unit :=
  match bs with
  | [] => mret tt
  | b :: bs =>
      need ((b.(br_block_index) =? index) && bool_decide (dget index op.(o_allocations) = Some b)) VERSION_CONFLICT;;
      o ← get KBlock b.(br_block_version_id);
      need (bool_decide (is_Some o)) DATA_UNAVAILABLE;;
      check_staged op (index + 1) bs
  end.
Definition stage_manifest_page (u : user) (s : session) (rq : body) (ref : OperationRef) (fence : Fence)
    (page_index : Z) (blocks : list BlockRef) (sha : string) : M PageReceipt :=
  op ← operation u s ref (Some fence);
  need (bool_decide (op.(o_sealed) = None)) VERSION_CONFLICT;;
  let count := cdiv op.(o_total) op.(o_block_size) in
  let start := page_index * 64 in
  need ((0 <? zlen blocks) && (zlen blocks <=? 64) && (request_size rq <=? 65536)
        && (zlen blocks =? Z.min 64 (count - start))) INVALID_ARGUMENT;;
  check_staged op start blocks;;
  need (bool_decide (manifest_hash blocks = sha)) CHECKSUM_MISMATCH;;
  put KUpload (op <| o_pages ::= dset page_index blocks |>);;
  mret (mkPageReceipt (op.(o_id) +:+ ":" +:+ str_Z page_index) sha 1).

Definition seal_manifest (u : user) (s : session) (ref : OperationRef) (fence : Fence)
    (page_count block_count total : Z) (sha : string) : M PageReceipt :=
  op ← operation u s ref (Some fence);
  blocks ← manifest op;
  need ((block_count =? zlen blocks) && (total =? op.(o_total)) && (page_count =? zlen op.(o_pages))
        && bool_decide (sha = manifest_hash blocks)) CHECKSUM_MISMATCH;;
  x ← get_st;
  need (bool_decide (dget op.(o_id) x.(s_seals) = Some sha)) CHECKSUM_MISMATCH;;
  let r := mkPageReceipt op.(o_id) sha 1 in
  put KUpload (op <| o_sealed := Some r |>);;
  mret r.

(** The node a commit publishes: the one it replaces, or a new file. *)
Definition commit_target (u : user) (op : upload) : M node :=
  o ← match op.(o_base) with Some _ => get KNode op.(o_file) | None => mret None end;
  match o with
  | Some n => mret n
  | None =>
      ns ← children (default "" op.(o_parent));
      need (negb (has_child op.(o_name) ns)) VERSION_CONFLICT;;
      n ← new_node op.(o_name) op.(o_parent) u.(u_id) File 384;
      mret (n <| n_id := op.(o_file) |> <| n_block_size := op.(o_block_size) |>)
  end.
Definition base_commit_upload (u : user) (s : session) (ref : OperationRef) (fence : Fence) (seal : PageReceipt)
    : M CommitResult :=
  op ← operation u s ref (Some fence);
  need (bool_decide (op.(o_sealed) = Some seal)) VERSION_CONFLICT;;
  blocks ← manifest op;
  stored ← reading (λ _ d, forallb (λ b, bool_decide (is_Some (d KBlock !! b.(br_block_version_id)))) blocks);
  need stored DATA_UNAVAILABLE;;
  o ← get_opt KNode op.(o_parent);
  p ← some_or_crash o;
  n ← commit_target u op;
  i ← uid;
  let r := mkSnapshotRef op.(o_file) op.(o_epoch) op.(o_epoch) i op.(o_total) seal.(pt_sha256)
             (Some (unhex op.(o_sha))) op.(o_block_size) in
  put KSnapshot (mkSnapshot i op.(o_file) r blocks);;
  _ ← bump (n <| n_snapshot := Some i |>);
  _ ← bump p;
  let result := mkCommitResult ref COMMITTED r op.(o_total) false 1 1 in
  put KUpload (op <| o_state := COMMITTED |> <| o_result := Some result |> <| o_reserved := 0 |>);;
  mret result.
(** [ClusterCommands.CommitUpload]. *)
Definition cluster_commit_upload (u : user) (s : session) (ref : OperationRef) (fence : Fence) (seal : PageReceipt)
    : M CommitResult :=
  op ← operation u s ref (Some fence);
  e ← ask;
  for_each op.(o_allocations).*2 (λ b,
    if replicated e.(e_cfg) then require_durable op b
    else
      o ← get KAssignment b.(br_block_version_id);
      n ← get_opt KDatanode (a_node <$> o);
      need (match o, n with
            | Some a, Some n => reachable_state (state e (Some n))
                                && (n.(dn_location).(bl_boot_generation) =? a.(a_generation))
            | _, _ => false
            end) DATA_UNAVAILABLE);;
  base_commit_upload u s ref fence seal.

Definition base_abort_upload (u : user) (s : session) (ctx : RequestContext) (ref : OperationRef) : M response :=
  o ← get KUpload ref.(or_operation_id);
  op ← need_some o PERMISSION_DENIED;
  need (bool_decide (op.(o_user) = u.(u_id)) && bool_decide (op.(o_session) = s.(s_id))) PERMISSION_DENIED;;
  need (bool_decide (ref = op.(o_operation))) VERSION_CONFLICT;;
  need (negb (bool_decide (op.(o_state) = COMMITTED))) VERSION_CONFLICT;;
  put KUpload (abort_op op);;
  mret (result_of ctx 1).

(** ** Handles *)
(** The loop of [Open] over the parents of a node.  [fuel] bounds it by the
    number of nodes; a longer chain would repeat one and the loop not end. *)
Fixpoint ancestors_from (fuel : nat) (d : DB) (p : option string) : option (list string) :=
  match p with
  | None => Some []
  | Some i =>
      match fuel with
      | O => None
      | S fuel =>
          n ← d KNode !! i;
          l ← ancestors_from fuel d n.(n_parent);
          Some (i :: l)
      end
  end.
Definition ancestors (p : option string) : M (list string) :=
  o ← reading (λ _ d, ancestors_from (size (d KNode)) d p);
  some_or_crash o.

Definition base_open (u : user) (s : session) (path : PathRef) (mode : OpenMode) : M Handle :=
  need (bool_decide (mode = ctl.R)) UNSUPPORTED_MODE;;
  n ← resolve u path;
  need (is_file n) IS_DIRECTORY;;
  require u n 4;;
  anc ← ancestors n.(n_parent);
  i ← uid;
  t ← now;
  sn ← some_or_crash n.(n_snapshot);
  let h := mkHandleRec i n.(n_id) sn u.(u_id) s.(s_id) (t + 300000) 1 false anc ctl.R None None 0 0 in
  put KHandle h;;
  handle_message h.
Definition base_renew_handle (u : user) (s : session) (handle_id : string) (expected : Z) : M Handle :=
  '(h, _) ← get_handle u s handle_id;
  need (h.(h_revision) =? expected) VERSION_CONFLICT;;
  t ← now;
  let h := h <| h_expires := t + 300000 |> <| h_revision ::= Z.succ |> in
  put KHandle h;;
  handle_message h.
Definition base_close (u : user) (s : session) (ctx : RequestContext) (handle_id : string) (expected : Z)
    : M response :=
  o ← get KHandle handle_id;
  h ← need_some o STALE_HANDLE;
  need (bool_decide (h.(h_user) = u.(u_id)) && bool_decide (h.(h_session) = s.(s_id))) STALE_HANDLE;;
  need (h.(h_revision) =? expected) VERSION_CONFLICT;;
  let h := h <| h_closed := true |> <| h_revision ::= Z.succ |> in
  put KHandle h;;
  mret (result_of ctx h.(h_revision)).
End Commands.
