(* ===== verification/Access.v ===== *)
(** * Handles, locks and range writes ([control/access.py]) and their
    protection policies ([ProtectionCommands] of [replication.py])

    Publication and fencing happen in one unit of work: [BeginWrite] takes or
    recognises the locks of its ranges, plans one patch per block, and
    [CommitWrite] publishes the new snapshot. *)
From S2P Require Import Prelude Domain Data Store Auth Leases Cluster Placement Requests Queries Commands.

(** [range(lo, hi)]. *)
Definition zrange (lo hi : Z) : list Z := map (λ i, lo + Z.of_nat i) (seq 0 (Z.to_nat (hi - lo))).
(** [l[i] if i < len(l) else None]. *)
Definition znth {A} (l : list A) (i : Z) : option A := if i <? 0 then None else l !! Z.to_nat i.

Section Access.
Context `{Hash, Unicode, Argon2, Json, Base64, Wire}.

(** ** Reads *)
Definition begin_read (u : user) (s : session) (handle_id : string) (snap : SnapshotRef) (offset length : Z)
    : M ReadLease :=
  '(h, sn) ← get_handle u s handle_id;
  need (readable h.(h_mode)) PERMISSION_DENIED;;
  need (bool_decide (h.(h_busy) = None)) HANDLE_BUSY;;
  need (bool_decide (snap = sn.(sn_ref))) VERSION_CONFLICT;;
  _ ← checked_range offset length None;
  i ← uid;
  put KRead (mkRead i h.(h_id) s.(s_id) offset length false);;
  put KHandle (h <| h_busy := Some i |>);;
  mret (mkReadLease i snap h.(h_expires)).

Definition end_read (u : user) (s : session) (ctx : RequestContext) (handle_id read_id : string) : M response :=
  oh ← get KHandle handle_id;
  orc ← get KRead read_id;
  h ← need_some oh PERMISSION_DENIED;
  r ← need_some orc PERMISSION_DENIED;
  need (bool_decide (r.(r_handle) = h.(h_id)) && bool_decide (r.(r_session) = s.(s_id))
        && bool_decide (h.(h_user) = u.(u_id))) PERMISSION_DENIED;;
  put KRead (r <| r_closed := true |>);;
  (if decide (h.(h_busy) = Some r.(r_id)) then put KHandle (h <| h_busy := None |>) else mret tt);;
  mret (result_of ctx 1).

(** ** Opening *)
Definition open_quota (u : user) : M unit :=
  c ← cfg;
  if c.(c_encrypted) then
    ep ← lease_epoch; t ← lease_clock;
    hs ← all KHandle;
    let active := List.filter (λ h, negb h.(h_closed) && bool_decide (h.(h_control_epoch) = Some ep)
                               && (t <? h.(h_deadline))) hs in
    need ((zlen active <? 512)
          && (zlen (List.filter (λ h, bool_decide (h.(h_user) = u.(u_id))) active) <? 32)) LIMIT_EXCEEDED
  else mret tt.
Definition exclusive_mode (m : OpenMode) : bool := bool_decide (m ∈ [ctl.X; ctl.X_PLUS]).
Definition creating_mode (m : OpenMode) : bool := bool_decide (m ∈ [ctl.W; ctl.W_PLUS; ctl.X; ctl.X_PLUS]).
(** [resolve], with [None] when there is nothing at the path. *)
Definition resolve_opt (u : user) (path : PathRef) : M (option node) :=
  catch (n ← resolve u path; mret (Some n))
    (λ x, if decide (x = Fault NOT_FOUND) then mret None else raise x).

(** Truncating an existing file: its next content epoch and version.  The lock
    it takes is released at once, since the same unit of work publishes. *)
Definition truncate (u : user) (s : session) (mode : OpenMode) (n : node) : M (Z * Z) :=
  need (is_file n) IS_DIRECTORY;;
  require u n (if readable mode then 6 else 2);;
  o ← get_opt KSnapshot n.(n_snapshot);
  i ← uid;
  k ← acquire (mkOwner i n.(n_id) s.(s_id)) [] true true true;
  del KLock k.(k_id);;
  old ← some_or_crash o;
  mret (old.(sn_ref).(sr_content_epoch) + 1, old.(sn_ref).(sr_file_version) + 1).
Definition open_creating (u : user) (s : session) (path : PathRef) (mode : OpenMode) : M node :=
  on ← resolve_opt u path;
  '(p, name) ← match on with
    | None => parent u path
    | Some n => o ← get_opt KNode n.(n_parent); p ← (
        need (negb (exclusive_mode mode)) ALREADY_EXISTS;; some_or_crash o); mret (p, n.(n_name))
    end;
  r ← reserved p.(n_id) name;
  need (negb r) LOCK_BUSY;;
  '(n, (epoch, version)) ← match on with
    | Some n => ev ← truncate u s mode n; mret (n, ev)
    | None =>
        n ← new_node name (Some p.(n_id)) u.(u_id) File 384;
        c ← cfg;
        mret (n <| n_block_size := c.(c_block_size_bytes) |>, (1, 1))
    end;
  root ← uid;
  put KSnapshot (mkSnapshot root n.(n_id)
    (mkSnapshotRef n.(n_id) epoch version root 0 (manifest_hash []) (Some (sha256 "")) n.(n_block_size)) []);;
  n ← bump (n <| n_snapshot := Some root |>);
  _ ← bump p;
  mret n.
Definition access_open (u : user) (s : session) (path : PathRef) (mode : OpenMode) : M Handle :=
  need (readable mode || writable_mode mode) UNSUPPORTED_MODE;;
  open_quota u;;
  n ← (if creating_mode mode then open_creating u s path mode
       else
         n ← resolve u path;
         need (is_file n) IS_DIRECTORY;;
         require u n (if decide (mode = ctl.R_PLUS) then 6 else 4);;
         mret n);
  anc ← ancestors n.(n_parent);
  i ← uid;
  sn ← some_or_crash n.(n_snapshot);
  h ← refresh_handle (mkHandleRec i n.(n_id) sn u.(u_id) s.(s_id) 0 1 false anc mode None None 0 0) true;
  put KHandle h;;
  handle_message h.

Definition access_renew_handle (u : user) (s : session) (handle_id : string) : M Handle :=
  '(h, _) ← get_handle u s handle_id;
  h ← refresh_handle h false;
  put KHandle h;;
  o ← get_opt KUpload h.(h_busy);
  match o with
  | Some op =>
      if preparing op && bool_decide (is_Some op.(o_write))
      then put KUpload (op <| o_expires := h.(h_expires) |>) else mret tt
  | None => mret tt
  end;;
  handle_message h.

Definition access_close (u : user) (s : session) (ctx : RequestContext) (handle_id : string) : M response :=
  o ← get KHandle handle_id;
  h ← need_some o STALE_HANDLE;
  need (bool_decide (h.(h_user) = u.(u_id)) && bool_decide (h.(h_session) = s.(s_id))) STALE_HANDLE;;
  if h.(h_closed) then mret (result_of ctx h.(h_revision))
  else
    need (bool_decide (h.(h_busy) = None)) HANDLE_BUSY;;
    let h := h <| h_closed := true |> <| h_revision ::= Z.succ |> in
    put KHandle h;;
    ls ← all KLock;
    for_each ls (λ k, if bool_decide (k.(k_handle) = h.(h_id)) && bool_decide (k.(k_session) = s.(s_id))
                      then del KLock k.(k_id) else mret tt);;
    mret (result_of ctx h.(h_revision)).

(** ** Locks *)
Definition lock_range (sn : snapshot) (whole : bool) (offset length : option Z) : M (list Z) :=
  if whole then
    need (bool_decide (offset = None) && bool_decide (length = None)) INVALID_ARGUMENT;; mret []
  else
    need (bool_decide (is_Some offset) && bool_decide (is_Some length) && (0 <? default 0 length)) INVALID_ARGUMENT;;
    fin ← checked_range (default 0 offset) (default 0 length) (Some MAX_DELTA);
    let size := sn.(sn_ref).(sr_block_size_bytes) in
    mret (zrange (default 0 offset / size) ((fin - 1) / size + 1)).
Definition lock_cmd (u : user) (s : session) (handle_id : string) (whole : bool) (offset length : option Z)
    (wait_timeout_ms : Z) : M Fence :=
  '(h, sn, _, _) ← writable u s handle_id;
  need (bool_decide (h.(h_busy) = None)) HANDLE_BUSY;;
  need (wait_timeout_ms <=? 5000) INVALID_ARGUMENT;;
  indices ← lock_range sn whole offset length;
  k ← acquire (owner_of h) indices whole whole false;
  fence_message k.
Definition renew_lock (u : user) (s : session) (f : Fence) : M Fence :=
  _ ← writable u s f.(fc_handle_id);
  k ← validate s f;
  t ← lease_clock; c ← cfg;
  let k := k <| k_deadline := t + c.(c_lock_lease_ms) |> in
  put KLock k;;
  fence_message k.
Definition unlock (s : session) (ctx : RequestContext) (f : Fence) : M response :=
  k ← validate s f;
  need (bool_decide (k.(k_active) = [])) LOCK_BUSY;;
  del KLock k.(k_id);;
  mret (result_of ctx 1).

(** ** Range writes *)
Definition write_operation (u : user) (s : session) (ref : OperationRef)
    : M (upload * write_ext * handle * node * snapshot) :=
  o ← get KUpload ref.(or_operation_id);
  op ← need_some o PERMISSION_DENIED;
  w ← need_some op.(o_write) PERMISSION_DENIED;
  need (bool_decide (op.(o_user) = u.(u_id)) && bool_decide (op.(o_session) = s.(s_id))) PERMISSION_DENIED;;
  need (bool_decide (op.(o_operation) = ref)) IDEMPOTENCY_MISMATCH;;
  ep ← lease_epoch;
  need (preparing op && bool_decide (w.(we_control_epoch) = ep)) OPERATION_EXPIRED;;
  '(h, _, n, cur) ← writable u s w.(we_handle);
  need (bool_decide (h.(h_busy) = Some op.(o_id)) && (h.(h_revision) =? w.(we_handle_revision))) HANDLE_BUSY;;
  for_each w.(we_fences) (λ f, _ ← validate s f; mret tt);;
  mret (op, w, h, n, cur).

(** The parts of a delta: consecutive, split exactly at block boundaries. *)
Fixpoint parts_ok (offset length size cursor : Z) (ps : list WritePart) : bool :=
  match ps with
  | [] => cursor =? length
  | p :: ps =>
      let absolute := offset + cursor in
      let expected := Z.min (length - cursor) (size - absolute mod size) in
      (0 <? expected) && (p.(wp_block_index) =? absolute / size)
      && (p.(wp_block_offset) =? absolute mod size) && (p.(wp_delta_offset) =? cursor)
      && (p.(wp_length) =? expected) && (slen p.(wp_delta_sha256) =? 32)
      && parts_ok offset length size (cursor + p.(wp_length)) ps
  end.

(** Locks gathered for a write, the indices they cover, and whether one covers the size. *)
Definition coverage : Type := list lock * list Z * bool.
Definition cover (ps : list WritePart) (acc : coverage) (k : lock) : coverage :=
  let '(locks, covered, size) := acc in
  (locks ++ [k], covered ++ (if k.(k_whole) then map wp_block_index ps else k.(k_indices)), size || k.(k_size)).
Definition given_locks (s : session) (h : handle) (ps : list WritePart) (fences : list Fence) : M coverage :=
  for_fold fences ([], [], false) (λ acc f,
    k ← validate s f;
    need (bool_decide (k.(k_handle) = h.(h_id))) PERMISSION_DENIED;;
    mret (cover ps acc k)).
Definition explicit_lock (e : env) (h : handle) (s : session) (k : lock) : bool :=
  live_lock_at e k && bool_decide (k.(k_handle) = h.(h_id)) && bool_decide (k.(k_session) = s.(s_id))
  && negb k.(k_automatic).
Definition own_locks (s : session) (h : handle) (ps : list WritePart) (acc : coverage) : M coverage :=
  e ← ask; ls ← all KLock;
  mret (fold_left (λ acc k,
    if explicit_lock e h s k && negb (bool_decide (k.(k_id) ∈ map k_id acc.1.1)) then cover ps acc k else acc) ls acc).
Definition write_locks (s : session) (h : handle) (ps : list WritePart) (fences : list Fence) (growing : bool)
    : M (list lock) :=
  acc ← given_locks s h ps fences;
  '(locks, covered, size) ← own_locks s h ps acc;
  let missing := sorted_set (List.filter (λ i, negb (bool_decide (i ∈ covered))) (map wp_block_index ps)) in
  if negb (bool_decide (missing = [])) || (growing && negb size) then
    k ← acquire (owner_of h) missing false (growing && negb size) true;
    mret (locks ++ [k])
  else mret locks.

(** Where a patch of a stored block goes: a node that holds its base, or a
    node the base must first be copied to. *)
Definition room_for (e : env) (d : DB) (cost : Z) (n : datanode) : bool := has_room e d n cost MARGIN.
Definition copy_target (e : env) (d : DB) (cost : Z) (holders : list datanode) (n : datanode) : bool :=
  bool_decide (state e (Some n) = READY) && negb (bool_decide (n.(dn_id) ∈ map dn_id holders))
  && has_room e d n cost MARGIN.
Definition base_holders (e : env) (d : DB) (block : string) : list datanode :=
  List.filter (λ n, bool_decide (state e (Some n) = READY))
    (omap (λ l, d KDatanode !! l.(lo_node)) (locations_of_block d block)).
Definition assign_patch (op_id : string) (base replacement : BlockRef) : M unit :=
  let i := base.(br_block_version_id) in
  let cost := storage_cost replacement.(br_size_bytes) in
  let base_cost := storage_cost base.(br_size_bytes) in
  holders ← reading (λ e d, base_holders e d i);
  need (negb (bool_decide (holders = []))) DATA_UNAVAILABLE;;
  local ← reading (λ e d, List.find (room_for e d cost) holders);
  n ← match local with
      | Some n => mret n
      | None =>
          far ← reading (λ e d, List.find (copy_target e d (cost + base_cost) holders) (all_db KDatanode d));
          n ← need_some far NO_SPACE;
          source ← some_or_crash (head holders);
          ol ← reading (λ _ d, location_of d i source.(dn_id));
          t ← new_task CopyTask base source.(dn_id) n.(dn_id);
          l ← some_or_crash ol;
          put KTask (t <| t_source := Some source.(dn_location) |> <| t_destination := Some n.(dn_location) |>
                       <| t_receipt := Some l.(lo_receipt) |> <| t_reserved := base_cost |>
                       <| t_write_operation := Some op_id |>);;
          mret n
      end;
  put KAssignment (mkAssignment replacement.(br_block_version_id) n.(dn_id) op_id
    n.(dn_location).(bl_boot_generation) cost).

Definition empty_ref (file : string) (index : Z) : BlockRef := mkBlockRef file "" index 0 "".
Definition base_ref (file : string) (blocks : list BlockRef) (index : Z) : BlockRef :=
  default (empty_ref file index) (znth blocks index).

Definition patch_grant (cap : string) (gs : list BlockGrant) : list BlockGrant :=
  match gs with
  | [] => []
  | g :: gs => (g <| bg_action := PATCH_DATA |> <| bg_capability := cap |>) :: gs
  end.
Definition plan_part (u : user) (n : node) (sn : snapshot) (acc : upload * write_ext * list PlannedBlock)
    (p : WritePart) : M (upload * write_ext * list PlannedBlock) :=
  let '(op, w, planned) := acc in
  let index := p.(wp_block_index) in
  let base := base_ref n.(n_id) sn.(sn_blocks) index in
  i ← uid;
  let replacement := mkBlockRef n.(n_id) i index
    (Z.max base.(br_size_bytes) (p.(wp_block_offset) + p.(wp_length))) "" in
  (if empty base.(br_block_version_id) then mret tt else assign_patch op.(o_id) base replacement);;
  pl ← plan replacement u.(u_id) (upload_binding op) false;
  loc ← some_or_crash (head pl.(pb_locations));
  ot ← get KDatanode loc.(bl_node_id);
  target ← some_or_crash ot;
  cap ← node_capability u.(u_id) (upload_binding op) replacement target "patch";
  let pl := pl <| pb_block := base |> <| pb_patch := true |> <| pb_replacement_id := i |>
    <| pb_block_offset := p.(wp_block_offset) |> <| pb_delta_offset := p.(wp_delta_offset) |>
    <| pb_delta_length := p.(wp_length) |> <| pb_grants ::= patch_grant cap |> in
  let w := w <| we_parts ::= λ l, l ++ [mkWP p base replacement pl] |> in
  let op := op <| o_allocations ::= dset index replacement |> <| o_write := Some w |> in
  put KUpload op;;
  mret (op, w, planned ++ [pl]).

Definition begin_checks (sn cur : snapshot) (rq : BeginWriteRequest) : M (Z * Z * bool) :=
  need (bool_decide (rq.(bw_base) = sn.(sn_ref))) VERSION_CONFLICT;;
  need (bool_decide (is_Some rq.(bw_offset)) && bool_decide (is_Some rq.(bw_length))
        && (slen rq.(bw_delta_sha256) =? 32)) INVALID_ARGUMENT;;
  let offset := default 0 rq.(bw_offset) in
  let length := default 0 rq.(bw_length) in
  fin ← checked_range offset length (Some MAX_DELTA);
  need (offset <=? rq.(bw_base).(sr_size_bytes)) SPARSE_WRITE_UNSUPPORTED;;
  c ← cfg;
  need (fin <=? c.(c_max_file_bytes)) LIMIT_EXCEEDED;;
  let growing := rq.(bw_base).(sr_size_bytes) <? fin in
  need (negb growing || (cur.(sn_ref).(sr_size_bytes) =? rq.(bw_base).(sr_size_bytes))) VERSION_CONFLICT;;
  need ((zlen rq.(bw_parts) <=? 5)
        && parts_ok offset length rq.(bw_base).(sr_block_size_bytes) 0 rq.(bw_parts)
        && ((0 <? length) || bool_decide (rq.(bw_delta_sha256) = sha256 ""))) INVALID_ARGUMENT;;
  need (forallb (λ p, bool_decide (znth sn.(sn_blocks) p.(wp_block_index) = znth cur.(sn_blocks) p.(wp_block_index)))
          rq.(bw_parts)) VERSION_CONFLICT;;
  mret (offset, length, growing).
Definition access_begin_write (u : user) (s : session) (ctx : RequestContext) (rq : BeginWriteRequest) : M WritePlan :=
  '(h, sn, n, cur) ← writable u s rq.(bw_handle_id);
  need (bool_decide (h.(h_busy) = None)) HANDLE_BUSY;;
  '(offset, length, growing) ← begin_checks sn cur rq;
  i ← uid;
  need (zlen rq.(bw_fences) <=? 6) INVALID_ARGUMENT;;
  locks ← write_locks s h rq.(bw_parts) rq.(bw_fences) growing;
  fences ← for_map locks fence_message;
  ep ← lease_epoch;
  let ref := mkOperationRef i ctx.(rc_request_id) ctx.(rc_intent_sha256) in
  let b := rq.(bw_base) in
  let w := mkWriteExt h.(h_id) h.(h_revision) ep offset length growing b.(sr_size_bytes) fences [] rq in
  let op := mkUpload i ref ctx.(rc_request_id) u.(u_id) s.(s_id) n.(n_parent) n.(n_name) n.(n_id)
    (Some h.(h_snapshot)) n.(n_revision) b.(sr_block_size_bytes) (Z.max b.(sr_size_bytes) (offset + length)) ""
    PREPARING h.(h_expires) h.(h_expires) b.(sr_content_epoch) 0 [] [] None None (map k_id locks) None None (Some w) in
  put KUpload op;;
  '(op, _, planned) ← for_fold rq.(bw_parts) (op, w, []) (plan_part u n sn);
  for_each locks (λ k, put KLock (k <| k_active ::= λ l, l ++ [i] |>));;
  op ← (if negb (length =? 0) then
          put KHandle (h <| h_busy := Some i |>);; mret op
        else
          let op := op <| o_state := COMMITTED |> <| o_result := Some (mkCommitResult ref COMMITTED b 0 false 1 1) |> in
          release_operation op;; mret op);
  put KUpload op;;
  mret (mkWritePlan ref planned fences b 0).

(** [blocks[index] = r], or an append at the end. *)
Definition set_block (blocks : list BlockRef) (index : Z) (r : BlockRef) : M (list BlockRef) :=
  if index =? zlen blocks then mret (blocks ++ [r])
  else if (0 <=? index) && (index <? zlen blocks) then mret (<[Z.to_nat index := r]> blocks)
  else raise PyError.
Definition stored_copy (op : upload) (r : BlockRef) (record : option block) : M unit :=
  e ← ask;
  oa ← get KAssignment r.(br_block_version_id);
  a ← some_or_crash oa;
  dn ← get KDatanode a.(a_node);
  b ← need_some record DATA_UNAVAILABLE;
  need (bool_decide (b.(b_ref) = r)) DATA_UNAVAILABLE;;
  if replicated e.(e_cfg) then require_durable op r
  else
    n ← some_or_crash dn;
    l ← reading (λ _ d, location_of d r.(br_block_version_id) n.(dn_id));
    need (bool_decide (is_Some l) && reachable_state (state e (Some n))
          && (a.(a_generation) =? n.(dn_location).(bl_boot_generation))) DATA_UNAVAILABLE.
Definition commit_change (op : upload) (n : node) (blocks : list BlockRef) (pc : write_part * BlockChange)
    : M (list BlockRef) :=
  let '(p, ch) := pc in
  let index := p.(w_base).(br_block_index) in
  let latest := base_ref n.(n_id) blocks index in
  let r := ch.(bc_replacement) in
  need (bool_decide (latest = p.(w_base)) && bool_decide (ch.(bc_base) = p.(w_base))) VERSION_CONFLICT;;
  need (bool_decide (r.(br_block_version_id) = p.(w_replacement).(br_block_version_id))
        && bool_decide (r.(br_file_id) = p.(w_replacement).(br_file_id)) && (r.(br_block_index) =? index)
        && (r.(br_size_bytes) =? p.(w_replacement).(br_size_bytes))) VERSION_CONFLICT;;
  record ← get KBlock r.(br_block_version_id);
  stored_copy op r record;;
  b ← some_or_crash record;
  need (bool_decide (ch.(bc_receipts) = [b.(b_receipt)])) CHECKSUM_MISMATCH;;
  set_block blocks index r.
Definition access_commit_write (u : user) (s : session) (ref : OperationRef) (handle_id : string)
    (expected : Z) (fences : list Fence) (changes : list BlockChange) : M CommitResult :=
  '(op, w, h, n, cur) ← write_operation u s ref;
  need (bool_decide (handle_id = h.(h_id)) && (expected =? h.(h_revision))) VERSION_CONFLICT;;
  need (bool_decide (map fence_intent fences = map fence_intent w.(we_fences))) LOCK_EXPIRED;;
  need (zlen changes =? zlen w.(we_parts)) VERSION_CONFLICT;;
  blocks ← for_fold (combine w.(we_parts) changes) cur.(sn_blocks) (commit_change op n);
  let size := cur.(sn_ref).(sr_size_bytes) in
  need (negb w.(we_growing) || (size =? w.(we_base_size))) VERSION_CONFLICT;;
  root ← uid;
  let r := mkSnapshotRef n.(n_id) op.(o_epoch) (cur.(sn_ref).(sr_file_version) + 1) root
             (Z.max size op.(o_total)) (manifest_hash blocks) None op.(o_block_size) in
  put KSnapshot (mkSnapshot root n.(n_id) r blocks);;
  _ ← bump (n <| n_snapshot := Some root |>);
  put KHandle (h <| h_snapshot := root |> <| h_revision ::= Z.succ |>);;
  let result := mkCommitResult ref COMMITTED r w.(we_length) false 1 1 in
  let op := op <| o_state := COMMITTED |> <| o_result := Some result |> <| o_reserved := 0 |> in
  put KUpload op;;
  release_operation op;;
  mret result.

Definition abort_write (u : user) (s : session) (ctx : RequestContext) (ref : OperationRef) : M response :=
  o ← get KUpload ref.(or_operation_id);
  op ← need_some o PERMISSION_DENIED;
  need (bool_decide (is_Some op.(o_write)) && bool_decide (op.(o_user) = u.(u_id))
        && bool_decide (op.(o_session) = s.(s_id))) PERMISSION_DENIED;;
  need (bool_decide (op.(o_operation) = ref)) IDEMPOTENCY_MISMATCH;;
  need (negb (bool_decide (op.(o_state) = COMMITTED))) VERSION_CONFLICT;;
  put KUpload (abort_op op);;
  release_operation (abort_op op);;
  mret (result_of ctx 1).

(** ** Uploads under a whole-file lease *)
Definition access_begin_upload (u : user) (s : session) (ctx : RequestContext) (path : PathRef)
    (total : Z) (sha : string) (overwrite : bool) (expected : option SnapshotRef) : M UploadPlan :=
  p ← base_begin_upload u s ctx path total sha overwrite expected;
  o ← get KUpload p.(up_operation).(or_operation_id);
  op ← some_or_crash o;
  k ← acquire (mkOwner op.(o_id) op.(o_file) s.(s_id)) [] true true true;
  t ← lease_clock;
  let k := k <| k_deadline := t + 300000 |> <| k_active := [op.(o_id)] |> in
  put KLock k;;
  f ← fence_message k;
  put KUpload (op <| o_locks := [k.(k_id)] |> <| o_full_fence := Some f |>);;
  mret p.
Definition access_renew_upload (u : user) (s : session) (ref : OperationRef) : M UploadPlan :=
  p ← base_renew_upload u s ref;
  o ← get KUpload ref.(or_operation_id);
  op ← some_or_crash o;
  f ← some_or_crash op.(o_full_fence);
  k ← validate s f;
  t ← lease_clock; t' ← now;
  put KLock (k <| k_deadline := t + Z.max 0 (op.(o_expires) - t') |>);;
  mret p.
Definition access_commit_upload (u : user) (s : session) (ref : OperationRef) (fence : Fence) (seal : PageReceipt)
    : M CommitResult :=
  o ← get KUpload ref.(or_operation_id);
  op ← some_or_crash o;
  previous ← get_opt KSnapshot op.(o_base);
  r ← cluster_commit_upload u s ref fence seal;
  let version := match previous with Some sn => sn.(sn_ref).(sr_file_version) + 1 | None => 1 end in
  let r := r <| cr_snapshot ::= λ sr, sr <| sr_file_version := version |> |> in
  osn ← get KSnapshot r.(cr_snapshot).(sr_manifest_root);
  sn ← some_or_crash osn;
  put KSnapshot (sn <| sn_ref := r.(cr_snapshot) |>);;
  o ← get KUpload ref.(or_operation_id);
  op ← some_or_crash o;
  put KUpload (op <| o_result := Some r |>);;
  o ← get KUpload ref.(or_operation_id);
  op ← some_or_crash o;
  release_operation op;;
  mret r.
Definition access_abort_upload (u : user) (s : session) (ctx : RequestContext) (ref : OperationRef) : M response :=
  r ← base_abort_upload u s ctx ref;
  o ← get KUpload ref.(or_operation_id);
  op ← some_or_crash o;
  release_operation op;;
  mret r.
Definition access_remove (u : user) (ctx : RequestContext) (path : PathRef) (directory : bool) : M response :=
  r ← base_remove u ctx path directory;
  os ← all KUpload;
  for_each os (λ op, if preparing op then mret tt else release_operation op);;
  mret r.
End Access.
