(* ===== verification/Protection.v ===== *)
(** * Protected commands, administration of the cluster, and dispatch

    [ProtectionCommands] of [replication.py], [ClusterCommands] of
    [distributed.py], and the method resolution of the transport: which method of
    which class answers a request under the running profile. *)
From S2P Require Import Prelude Domain Data Store Auth Leases Cluster Placement Requests Queries Commands Access.

Section Protection.
Context `{Hash, Unicode, Argon2, Json, Base64, Wire}.

Definition promoting (p : policy) : bool := bool_decide (p.(po_state) = "PROMOTING").

Definition capture_policy (op : upload) : M unit :=
  p ← get_policy op.(o_file) (bool_decide (op.(o_base) = None));
  need (negb (promoting p)) LOCK_BUSY;;
  put KUpload (op <| o_policy := Some p |>).

(** [policy_result]: what a commit promises of its copies. *)
Definition policy_result (op : upload) (r : CommitResult) : M CommitResult :=
  p ← get_policy op.(o_file) false;
  o ← get KSnapshot r.(cr_snapshot).(sr_manifest_root);
  sn ← some_or_crash o;
  e ← ask; d ← reading (λ _ d, d);
  let copies (b : BlockRef) := zlen (eligible e d b.(br_block_version_id)) in
  need (forallb (λ b, 0 <? copies b) sn.(sn_blocks)) DATA_UNAVAILABLE;;
  let r := r <| cr_target_replicas := p.(po_r) |> <| cr_minimum_durable := p.(po_w) |>
             <| cr_degraded := existsb (λ b, copies b <? p.(po_r)) sn.(sn_blocks) |> in
  put KUpload (op <| o_result := Some r |>);;
  mret r.

Definition get_op (i : string) : M upload := o ← get KUpload i; some_or_crash o.

Definition protection_begin_upload (u : user) (s : session) (ctx : RequestContext) (path : PathRef)
    (total : Z) (sha : string) (overwrite : bool) (expected : option SnapshotRef) : M UploadPlan :=
  p ← access_begin_upload u s ctx path total sha overwrite expected;
  op ← get_op p.(up_operation).(or_operation_id);
  capture_policy op;;
  po ← get_policy p.(up_file_id) false;
  mret (p <| up_minimum_durable := po.(po_w) |>).
Definition protection_begin_write (u : user) (s : session) (ctx : RequestContext) (rq : BeginWriteRequest)
    : M WritePlan :=
  '(h, _) ← get_handle u s rq.(bw_handle_id);
  po ← get_policy h.(h_file) false;
  need (negb (promoting po)) LOCK_BUSY;;
  r ← access_begin_write u s ctx rq;
  op ← get_op r.(wl_operation).(or_operation_id);
  capture_policy op;;
  po ← get_policy op.(o_file) false;
  (if decide (op.(o_state) = COMMITTED) then
     res ← some_or_crash op.(o_result);
     _ ← policy_result (op <| o_policy := Some po |>) res; mret tt
   else mret tt);;
  mret (r <| wl_minimum_durable := po.(po_w) |>).
Definition protection_open (u : user) (s : session) (path : PathRef) (mode : OpenMode) : M Handle :=
  (if writable_mode mode then
     on ← resolve_opt u path;
     match on with
     | Some n => po ← get_policy n.(n_id) false; need (negb (promoting po)) LOCK_BUSY
     | None => mret tt
     end
   else mret tt);;
  h ← access_open u s path mode;
  _ ← get_policy h.(hm_snapshot).(sr_file_id) true;
  mret h.
Definition protection_commit_upload (u : user) (s : session) (ref : OperationRef) (fence : Fence)
    (seal : PageReceipt) : M CommitResult :=
  o ← get KUpload ref.(or_operation_id);
  validate_policy o;;
  op ← some_or_crash o;
  r ← access_commit_upload u s ref fence seal;
  op ← get_op op.(o_id);
  policy_result op r.
Definition protection_commit_write (u : user) (s : session) (ref : OperationRef) (handle_id : string)
    (expected : Z) (fences : list Fence) (changes : list BlockChange) : M CommitResult :=
  o ← get KUpload ref.(or_operation_id);
  validate_policy o;;
  op ← some_or_crash o;
  r ← access_commit_write u s ref handle_id expected fences changes;
  op ← get_op op.(o_id);
  policy_result op r.

Definition promote_protection (u : user) (ctx : RequestContext) (path : PathRef) (expected : Z) : M response :=
  need u.(u_admin) PERMISSION_DENIED;;
  n ← resolve u path;
  need (is_file n) IS_DIRECTORY;;
  p ← get_policy n.(n_id) false;
  need (expected =? p.(po_revision)) VERSION_CONFLICT;;
  if (p.(po_r) =? 3) && negb (bool_decide (p.(po_state) = "PROMOTION_BLOCKED"))
  then mret (result_of ctx p.(po_revision))
  else
    t ← now;
    let p := p <| po_r := 3 |> <| po_w := 2 |> <| po_revision ::= Z.succ |>
               <| po_state := "PROMOTING" |> <| po_until := t + 300000 |> in
    put KPolicy p;;
    os ← all KUpload;
    for_each os (λ op,
      if bool_decide (op.(o_file) = n.(n_id)) && preparing op
      then put KUpload (abort_op op);; release_operation (abort_op op) else mret tt);;
    mret (result_of ctx p.(po_revision)).

(** ** Administration of the nodes ([ClusterCommands]) *)
Definition fail_task (t : task) : task :=
  t <| t_expires := 0 |> <| t_reserved := 0 |> <| t_status ::= λ x, x <| ts_state := FAILED |> |>.
Definition set_node_authorization (u : user) (ctx : RequestContext) (node_id : string) (enabled : bool)
    (expected : Z) : M response :=
  need u.(u_admin) PERMISSION_DENIED;;
  c ← cfg;
  need (bool_decide (is_Some (dget node_id c.(c_allowed)))) NOT_FOUND;;
  o ← get KNodePolicy node_id;
  let p := default (mkNodePolicy node_id 0 true) o in
  need (p.(np_revision) =? expected) VERSION_CONFLICT;;
  let p := p <| np_enabled := enabled |> <| np_revision ::= Z.succ |> in
  put KNodePolicy p;;
  o ← get KDatanode node_id;
  match o with
  | Some n =>
      let n := n <| dn_authorization_disabled := negb enabled |> in
      put_datanode (if enabled then n <| dn_reconciled := false |> else n)
  | None => mret tt
  end;;
  (if enabled then mret tt else
     ts ← all KTask;
     for_each ts (λ t,
       if bool_decide (node_id = t.(t_src) ∨ node_id = t.(t_dest)) && active_task t
       then put KTask (fail_task t) else mret tt));;
  mret (result_of ctx p.(np_revision)).

Definition copy_block (u : user) (b : BlockRef) (source_id dest_id : string) : M TaskStatus :=
  need u.(u_admin) PERMISSION_DENIED;;
  i ← uuid b.(br_block_version_id);
  o ← get KBlock i;
  blk ← need_some o NOT_FOUND;
  need (bool_decide (blk.(b_ref) = b)) NOT_FOUND;;
  e ← ask; d ← reading (λ _ d, d);
  let osource := location_of d i source_id in
  dest ← need_some (d KDatanode !! dest_id) DATA_UNAVAILABLE;
  source ← need_some osource DATA_UNAVAILABLE;
  need (bool_decide (state e (Some dest) = READY) && negb (bool_decide (source_id = dest_id))) DATA_UNAVAILABLE;;
  need (bool_decide (location_of d i dest.(dn_id) = None)) ALREADY_EXISTS;;
  need (bool_decide (state e (d KDatanode !! source_id) = READY)) DATA_UNAVAILABLE;;
  source_node ← some_or_crash (d KDatanode !! source_id);
  let cost := storage_cost b.(br_size_bytes) in
  need (has_room e d dest cost 0) NO_SPACE;;
  t ← new_task CopyTask blk.(b_ref) source.(lo_node) dest.(dn_id);
  put KTask (t <| t_source := Some source_node.(dn_location) |> <| t_destination := Some dest.(dn_location) |>
               <| t_receipt := Some source.(lo_receipt) |> <| t_reserved := cost |>);;
  mret t.(t_status).

(** ** Method resolution *)
Inductive commands_class := BaseCommands | ClusterCommands | AccessCommands | ProtectionCommands.
Definition class_of (c : config) : commands_class :=
  if replicated c then ProtectionCommands
  else if has_leases c then AccessCommands
  else if decide (c.(c_profile) = PDistributed) then ClusterCommands
  else BaseCommands.
Definition by_class {A} (f : commands_class → M A) : M A := c ← cfg; f (class_of c).
(** A method the class does not have. *)
Definition missing {A} : M A := raise PyError.

Definition begin_upload u s ctx path total sha overwrite expected : M UploadPlan :=
  by_class (λ k, match k with
    | BaseCommands | ClusterCommands => base_begin_upload u s ctx path total sha overwrite expected
    | AccessCommands => access_begin_upload u s ctx path total sha overwrite expected
    | ProtectionCommands => protection_begin_upload u s ctx path total sha overwrite expected
    end).
Definition renew_upload u s ref : M UploadPlan :=
  by_class (λ k, match k with
    | BaseCommands | ClusterCommands => base_renew_upload u s ref
    | _ => access_renew_upload u s ref
    end).
Definition commit_upload u s ref fence seal : M CommitResult :=
  by_class (λ k, match k with
    | BaseCommands => base_commit_upload u s ref fence seal
    | ClusterCommands => cluster_commit_upload u s ref fence seal
    | AccessCommands => access_commit_upload u s ref fence seal
    | ProtectionCommands => protection_commit_upload u s ref fence seal
    end).
Definition abort_upload u s ctx ref : M response :=
  by_class (λ k, match k with
    | BaseCommands | ClusterCommands => base_abort_upload u s ctx ref
    | _ => access_abort_upload u s ctx ref
    end).
Definition remove u ctx path directory : M response :=
  by_class (λ k, match k with
    | BaseCommands | ClusterCommands => base_remove u ctx path directory
    | _ => access_remove u ctx path directory
    end).
Definition open_file u s path mode : M Handle :=
  by_class (λ k, match k with
    | BaseCommands | ClusterCommands => base_open u s path mode
    | AccessCommands => access_open u s path mode
    | ProtectionCommands => protection_open u s path mode
    end).
Definition renew_handle u s handle_id expected : M Handle :=
  by_class (λ k, match k with
    | BaseCommands | ClusterCommands => base_renew_handle u s handle_id expected
    | _ => access_renew_handle u s handle_id
    end).
Definition close u s ctx handle_id expected : M response :=
  by_class (λ k, match k with
    | BaseCommands | ClusterCommands => base_close u s ctx handle_id expected
    | _ => access_close u s ctx handle_id
    end).
Definition begin_write u s ctx rq : M WritePlan :=
  by_class (λ k, match k with
    | AccessCommands => access_begin_write u s ctx rq
    | ProtectionCommands => protection_begin_write u s ctx rq
    | _ => missing
    end).
Definition commit_write u s ref handle_id expected fences changes : M CommitResult :=
  by_class (λ k, match k with
    | AccessCommands => access_commit_write u s ref handle_id expected fences changes
    | ProtectionCommands => protection_commit_write u s ref handle_id expected fences changes
    | _ => missing
    end).
(** Methods only [AccessCommands], or only a cluster, has. *)
Definition with_access {A} (m : M A) : M A :=
  by_class (λ k, match k with AccessCommands | ProtectionCommands => m | _ => missing end).
Definition with_cluster {A} (m : M A) : M A :=
  by_class (λ k, match k with BaseCommands => missing | _ => m end).

Definition is_query (b : body) : bool :=
  match b with
  | Stat _ | List _ _ | GetAcl _ | GetOperation _ _ | ResolveBlocks _ _ _ _ _ _ | ListNodes _
  | CopyStatus _ | GetProtection _ _ _ _ => true
  | _ => false
  end.
Definition query (u : user) (s : session) (b : body) : M response :=
  match b with
  | Stat p => REntry <$> stat u p
  | List p page => RList <$> list_directory u p page
  | GetAcl p => RAcl <$> get_acl u p
  | GetOperation i r => ROperation <$> get_operation u i r
  | ResolveBlocks h sn o l page rd => RBlocks <$> resolve_blocks u s h sn o l page rd
  | ListNodes page => with_cluster (RNodes <$> list_nodes u page)
  | CopyStatus i => with_cluster (RTask <$> copy_status u i)
  | GetProtection p o sn page =>
      by_class (λ k, match k with
        | ProtectionCommands => RProtection <$> get_protection u s p o sn page
        | _ => missing end)
  | _ => missing
  end.
Definition command (u : user) (s : session) (ctx : RequestContext) (b : body) : M response :=
  match b with
  | Mkdir p => REntry <$> mkdir u p
  | Rmdir p => remove u ctx p true
  | Remove p => remove u ctx p false
  | CreateUser n p => RUser <$> create_user u n p
  | SetUser i dis r => RUser <$> set_user u i dis r
  | ChangePassword i p r => RUser <$> change_password u i p r
  | CreateGroup n => RGroup <$> create_group u n
  | SetGroupMembers g us r => RGroup <$> set_group_members u g us r
  | SetAcl p a r => set_acl u ctx p a r
  | Logout i => logout s ctx i
  | BeginUpload p t h o x => RUpload <$> begin_upload u s ctx p t h o x
  | RenewUpload r => RUpload <$> renew_upload u s r
  | AllocateBlocks r f bs => RBlocks <$> allocate_blocks u s r f bs
  | StageManifestPage r f i bs h => RPage <$> stage_manifest_page u s b r f i bs h
  | SealManifest r f pc bc t h => RPage <$> seal_manifest u s r f pc bc t h
  | CommitUpload r f sl => RCommit <$> commit_upload u s r f sl
  | AbortUpload r => abort_upload u s ctx r
  | Open p m => RHandle <$> open_file u s p m
  | RenewHandle h r => RHandle <$> renew_handle u s h r
  | Close h r => close u s ctx h r
  | BeginRead h sn o l => with_access (RRead <$> begin_read u s h sn o l)
  | EndRead h r => with_access (end_read u s ctx h r)
  | Lock h w o l t => with_access (RFence <$> lock_cmd u s h w o l t)
  | RenewLock f => with_access (RFence <$> renew_lock u s f)
  | Unlock f => with_access (unlock s ctx f)
  | BeginWrite w => RWrite <$> begin_write u s ctx w
  | CommitWrite r h x fs cs => RCommit <$> commit_write u s r h x fs cs
  | AbortWrite r => with_access (abort_write u s ctx r)
  | SetNodeAuthorization i en r => with_cluster (set_node_authorization u ctx i en r)
  | CopyBlock bl a z => with_cluster (RTask <$> copy_block u bl a z)
  | PromoteProtection p r =>
      by_class (λ k, match k with ProtectionCommands => promote_protection u ctx p r | _ => missing end)
  | _ => missing
  end.
End Protection.
