(* ===== verification/Footprints.v ===== *)
(** * Footprints: the tables each operation may change

    One lemma per operation.  The frame of a command follows from its text, and
    an invariant of one table needs only the operations that write it. *)
From S2P Require Import Prelude Domain Data Store Auth Leases Cluster Placement Requests Queries Commands Access Protection.

#[global] Hint Opaque abort_upload abort_uploads_of abort_write access_abort_upload access_begin_upload
  access_begin_write access_close access_commit_upload access_commit_write access_handle
  access_open access_operation access_remove access_renew_handle access_renew_upload
  access_resolve_blocks allocate_blocks allocate_one ancestors assign_block assign_patch
  base_abort_upload base_begin_upload base_close base_commit_upload base_handle base_open
  base_operation base_remove base_renew_handle base_renew_upload base_resolve_blocks
  begin_checks begin_quota begin_read begin_upload begin_write bump capture_policy
  change_password check_staged close cluster_commit_upload commit_change commit_target
  commit_upload commit_write confirm_location copy_block copy_status create_group create_user
  distributed_confirm_location distributed_new_task distributed_plan distributed_reserve_upload
  distributed_retire_block distributed_retire_copy domains_of end_read entry field full_path
  get_acl get_handle get_op get_operation get_policy get_protection given_locks ha_new_task
  handle_message list_after list_directory list_nodes lock_cmd lock_range logout maintenance_of
  manifest mkdir monolith_plan monolith_reserve_upload monolith_retire_block
  monolith_upload_plan narrow_grant new_task node_capability open_creating open_file open_quota
  operation own_locks page_cursor parent plan plan_part policy_result promote_protection
  protection protection_begin_upload protection_begin_write protection_commit_upload
  protection_commit_write protection_open protection_refs put_datanode query range_plan remove
  renew_handle renew_lock renew_upload replicated_confirm_location replicated_new_task
  replicated_plan replicated_retire_block replicated_retire_copy replicated_upload_plan
  require_ancestors require_durable reserve_replicas reserve_upload reserved resolve
  resolve_blocks resolve_opt retire_block retire_copy revoke_sessions seal_manifest set_acl
  set_block set_group_members set_node_authorization set_user spread stage_manifest_page stat
  stored_copy truncate unlock upload_base upload_plan validate_policy validate_read walk
  walk_from writable write_locks write_operation
  get put all del need uid now cfg reading mbind mret
  : typeclass_instances.

(** ** Cluster *)
#[export] Instance fp_put_datanode n : Footprint [KDatanode] (put_datanode n).
Proof. unfold Footprint, put_datanode. solve_keeps. Qed.
#[export] Instance fp_get_policy f c : Footprint [KPolicy] (get_policy f c).
Proof. unfold Footprint, get_policy. solve_keeps. Qed.
#[export] Instance fp_read_policy f : Footprint [] (get_policy f false).
Proof. unfold Footprint, get_policy. solve_keeps. Qed.
#[export] Instance fp_validate_policy o : Footprint [] (validate_policy o).
Proof. unfold Footprint, validate_policy. solve_keeps. Qed.
#[export] Instance fp_protection r p : Footprint [] (protection r p).
Proof. unfold Footprint, protection. solve_keeps. Qed.
#[export] Instance fp_domains_of l : Footprint [] (domains_of l).
Proof. unfold Footprint, domains_of. solve_keeps. Qed.
#[export] Instance fp_require_durable op b : Footprint [] (require_durable op b).
Proof. unfold Footprint, require_durable. solve_keeps. Qed.
#[export] Instance fp_maintenance_of : Footprint [] (maintenance_of).
Proof. unfold Footprint, maintenance_of. solve_keeps. Qed.
#[export] Instance fp_distributed_new_task k b x y : Footprint [] (distributed_new_task k b x y).
Proof. unfold Footprint, distributed_new_task. solve_keeps. Qed.
#[export] Instance fp_replicated_new_task k b x y : Footprint [] (replicated_new_task k b x y).
Proof. unfold Footprint, replicated_new_task. solve_keeps. Qed.
#[export] Instance fp_ha_new_task k b x y : Footprint [] (ha_new_task k b x y).
Proof. unfold Footprint, ha_new_task. solve_keeps. Qed.
#[export] Instance fp_new_task k b x y : Footprint [] (new_task k b x y).
Proof. unfold Footprint, new_task. solve_keeps. Qed.
#[export] Instance fp_distributed_retire_copy r n : Footprint [KTask; KRetirement] (distributed_retire_copy r n).
Proof. unfold Footprint, distributed_retire_copy. solve_keeps. Qed.
#[export] Instance fp_replicated_retire_copy r n : Footprint [KTask; KRetirement] (replicated_retire_copy r n).
Proof. unfold Footprint, replicated_retire_copy. solve_keeps. Qed.
#[export] Instance fp_retire_copy r n : Footprint [KTask; KRetirement] (retire_copy r n).
Proof. unfold Footprint, retire_copy. solve_keeps. Qed.
#[export] Instance fp_monolith_retire_block b : Footprint [KBlock] (monolith_retire_block b).
Proof. unfold Footprint, monolith_retire_block. solve_keeps. Qed.
#[export] Instance fp_distributed_retire_block b : Footprint [KTask; KRetirement; KLocation; KBlock] (distributed_retire_block b).
Proof. unfold Footprint, distributed_retire_block. solve_keeps. Qed.
#[export] Instance fp_replicated_retire_block b : Footprint [KTask; KRetirement; KLocation; KBlock; KRetired] (replicated_retire_block b).
Proof. unfold Footprint, replicated_retire_block. solve_keeps. Qed.
#[export] Instance fp_retire_block b : Footprint [KTask; KRetirement; KLocation; KBlock; KRetired] (retire_block b).
Proof. unfold Footprint, retire_block. solve_keeps. Qed.
#[export] Instance fp_distributed_confirm_location r i : Footprint [KLocation] (distributed_confirm_location r i).
Proof. unfold Footprint, distributed_confirm_location. solve_keeps. Qed.
#[export] Instance fp_replicated_confirm_location r i : Footprint [KLocation; KDurability] (replicated_confirm_location r i).
Proof. unfold Footprint, replicated_confirm_location. solve_keeps. Qed.
#[export] Instance fp_confirm_location r i : Footprint [KLocation; KDurability] (confirm_location r i).
Proof. unfold Footprint, confirm_location. solve_keeps. Qed.

Section FpPlacement.
Context `{Hash}.
(** ** Placement *)
#[export] Instance fp_node_capability u bd b n a : Footprint [] (node_capability u bd b n a).
Proof. unfold Footprint, node_capability. solve_keeps. Qed.
#[export] Instance fp_monolith_plan b u bd rd : Footprint [] (monolith_plan b u bd rd).
Proof. unfold Footprint, monolith_plan. solve_keeps. Qed.
#[export] Instance fp_assign_block b bd : Footprint [KAssignment; KPlacement] (assign_block b bd).
Proof. unfold Footprint, assign_block. solve_keeps. Qed.
#[export] Instance fp_distributed_plan b u bd rd : Footprint [KAssignment; KPlacement] (distributed_plan b u bd rd).
Proof. unfold Footprint, distributed_plan. solve_keeps. Qed.
#[export] Instance fp_spread e r ns ds : Footprint [] (spread e r ns ds).
Proof. unfold Footprint. revert ds. induction ns as [|n ns IH]; intros ds; simpl; solve_keeps; apply IH. Qed.
#[export] Instance fp_reserve_replicas b o p : Footprint [KReplicaPlan] (reserve_replicas b o p).
Proof. unfold Footprint, reserve_replicas. solve_keeps. Qed.
#[export] Instance fp_replicated_plan b u bd rd : Footprint [KAssignment; KPlacement; KReplicaPlan; KPolicy] (replicated_plan b u bd rd).
Proof. unfold Footprint, replicated_plan. solve_keeps. Qed.
#[export] Instance fp_plan b u bd rd : Footprint [KAssignment; KPlacement; KReplicaPlan; KPolicy] (plan b u bd rd).
Proof. unfold Footprint, plan. solve_keeps. Qed.
#[export] Instance fp_plan_read b u bd : Footprint [] (plan b u bd true).
Proof. unfold Footprint, plan, replicated_plan, distributed_plan, monolith_plan. solve_keeps. Qed.
#[export] Instance fp_monolith_reserve_upload t b : Footprint [] (monolith_reserve_upload t b).
Proof. unfold Footprint, monolith_reserve_upload. solve_keeps. Qed.
#[export] Instance fp_distributed_reserve_upload : Footprint [] (distributed_reserve_upload).
Proof. unfold Footprint, distributed_reserve_upload. solve_keeps. Qed.
#[export] Instance fp_reserve_upload t b : Footprint [] (reserve_upload t b).
Proof. unfold Footprint, reserve_upload. solve_keeps. Qed.
#[export] Instance fp_monolith_upload_plan op : Footprint [] (monolith_upload_plan op).
Proof. unfold Footprint, monolith_upload_plan. solve_keeps. Qed.
#[export] Instance fp_replicated_upload_plan op : Footprint [] (replicated_upload_plan op).
Proof. unfold Footprint, replicated_upload_plan. solve_keeps. Qed.
#[export] Instance fp_upload_plan op : Footprint [] (upload_plan op).
Proof. unfold Footprint, upload_plan. solve_keeps. Qed.
#[export] Instance fp_handle_message h : Footprint [] (handle_message h).
Proof. unfold Footprint, handle_message. solve_keeps. Qed.
#[export] Instance fp_manifest op : Footprint [] (manifest op).
Proof. unfold Footprint, manifest. solve_keeps. Qed.

End FpPlacement.
Section FpQueries.
Context `{Hash, Unicode, Json, Base64, Wire}.
(** ** Queries *)
#[export] Instance fp_walk_from u n ps : Footprint [] (walk_from u n ps).
Proof. unfold Footprint. revert n. induction ps as [|p ps IH]; intros n; simpl; solve_keeps; apply IH. Qed.
#[export] Instance fp_walk u p : Footprint [] (walk u p).
Proof. unfold Footprint, walk. solve_keeps. Qed.
#[export] Instance fp_full_path u r : Footprint [] (full_path u r).
Proof. unfold Footprint, full_path. solve_keeps. Qed.
#[export] Instance fp_resolve u r : Footprint [] (resolve u r).
Proof. unfold Footprint, resolve. solve_keeps. Qed.
#[export] Instance fp_parent u r : Footprint [] (parent u r).
Proof. unfold Footprint, parent. solve_keeps. Qed.
#[export] Instance fp_entry n : Footprint [] (entry n).
Proof. unfold Footprint, entry. solve_keeps. Qed.
#[export] Instance fp_stat u p : Footprint [] (stat u p).
Proof. unfold Footprint, stat. solve_keeps. Qed.
#[export] Instance fp_field k j : Footprint [] (field k j).
Proof. unfold Footprint, field. solve_keeps. Qed.
#[export] Instance fp_list_after u n c : Footprint [] (list_after u n c).
Proof. unfold Footprint, list_after. solve_keeps. Qed.
#[export] Instance fp_list_directory u p g : Footprint [] (list_directory u p g).
Proof. unfold Footprint, list_directory. solve_keeps. Qed.
#[export] Instance fp_get_acl u p : Footprint [] (get_acl u p).
Proof. unfold Footprint, get_acl. solve_keeps. Qed.
#[export] Instance fp_get_operation u o i : Footprint [] (get_operation u o i).
Proof. unfold Footprint, get_operation. solve_keeps. Qed.
#[export] Instance fp_require_ancestors u h : Footprint [] (require_ancestors u h).
Proof. unfold Footprint, require_ancestors. solve_keeps. Qed.
#[export] Instance fp_base_handle u s i : Footprint [] (base_handle u s i).
Proof. unfold Footprint, base_handle. solve_keeps. Qed.
#[export] Instance fp_access_handle u s i : Footprint [] (access_handle u s i).
Proof. unfold Footprint, access_handle. solve_keeps. Qed.
#[export] Instance fp_get_handle u s i : Footprint [] (get_handle u s i).
Proof. unfold Footprint, get_handle. solve_keeps. Qed.
#[export] Instance fp_writable u s i : Footprint [] (writable u s i).
Proof. unfold Footprint, writable. solve_keeps. Qed.
#[export] Instance fp_validate_read h i o l : Footprint [] (validate_read h i o l).
Proof. unfold Footprint, validate_read. solve_keeps. Qed.
#[export] Instance fp_page_cursor g : Footprint [] (page_cursor g).
Proof. unfold Footprint, page_cursor. solve_keeps. Qed.
#[export] Instance fp_base_resolve_blocks u s h sn o l g : Footprint [] (base_resolve_blocks u s h sn o l g).
Proof. unfold Footprint, base_resolve_blocks. solve_keeps. Qed.
#[export] Instance fp_narrow_grant u h b x y r g : Footprint [] (narrow_grant u h b x y r g).
Proof. unfold Footprint, narrow_grant. solve_keeps. Qed.
#[export] Instance fp_range_plan u h z o f r b : Footprint [] (range_plan u h z o f r b).
Proof. unfold Footprint, range_plan. solve_keeps. Qed.
#[export] Instance fp_access_resolve_blocks u s h sn o l g r : Footprint [] (access_resolve_blocks u s h sn o l g r).
Proof. unfold Footprint, access_resolve_blocks. solve_keeps. Qed.
#[export] Instance fp_resolve_blocks u s h sn o l g r : Footprint [] (resolve_blocks u s h sn o l g r).
Proof. unfold Footprint, resolve_blocks. solve_keeps. Qed.
#[export] Instance fp_list_nodes u g : Footprint [] (list_nodes u g).
Proof. unfold Footprint, list_nodes. solve_keeps. Qed.
#[export] Instance fp_copy_status u i : Footprint [] (copy_status u i).
Proof. unfold Footprint, copy_status. solve_keeps. Qed.
#[export] Instance fp_protection_refs u s p o i : Footprint [] (protection_refs u s p o i).
Proof. unfold Footprint, protection_refs. solve_keeps. Qed.
#[export] Instance fp_get_protection u s p o i g : Footprint [] (get_protection u s p o i g).
Proof. unfold Footprint, get_protection. solve_keeps. Qed.

End FpQueries.
Section FpCommands.
Context `{Hash, Unicode, Argon2, Json, Base64, Wire}.
(** ** Commands *)
#[export] Instance fp_bump n : Footprint [KNode] (bump n).
Proof. unfold Footprint, bump. solve_keeps. Qed.
#[export] Instance fp_reserved p n : Footprint [] (reserved p n).
Proof. unfold Footprint, reserved. solve_keeps. Qed.
#[export] Instance fp_mkdir u p : Footprint [KNode] (mkdir u p).
Proof. unfold Footprint, mkdir. solve_keeps. Qed.
#[export] Instance fp_abort_uploads_of f : Footprint [KUpload] (abort_uploads_of f).
Proof. unfold Footprint, abort_uploads_of. solve_keeps. Qed.
#[export] Instance fp_base_remove u c p d : Footprint [KNode; KUpload] (base_remove u c p d).
Proof. unfold Footprint, base_remove. solve_keeps. Qed.
#[export] Instance fp_create_user u n p : Footprint [KUser; KGroup; KNode] (create_user u n p).
Proof. unfold Footprint, create_user. solve_keeps. Qed.
#[export] Instance fp_revoke_sessions i : Footprint [KSession] (revoke_sessions i).
Proof. unfold Footprint, revoke_sessions. solve_keeps. Qed.
#[export] Instance fp_set_user u i d x : Footprint [KUser; KSession] (set_user u i d x).
Proof. unfold Footprint, set_user. solve_keeps. Qed.
#[export] Instance fp_change_password u i p x : Footprint [KUser; KSession] (change_password u i p x).
Proof. unfold Footprint, change_password. solve_keeps. Qed.
#[export] Instance fp_create_group u n : Footprint [KGroup] (create_group u n).
Proof. unfold Footprint, create_group. solve_keeps. Qed.
#[export] Instance fp_set_group_members u g us x : Footprint [KGroup] (set_group_members u g us x).
Proof. unfold Footprint, set_group_members. solve_keeps. Qed.
#[export] Instance fp_set_acl u c p a x : Footprint [KNode] (set_acl u c p a x).
Proof. unfold Footprint, set_acl. solve_keeps. Qed.
#[export] Instance fp_logout s c i : Footprint [KSession] (logout s c i).
Proof. unfold Footprint, logout. solve_keeps. Qed.
#[export] Instance fp_begin_quota u : Footprint [] (begin_quota u).
Proof. unfold Footprint, begin_quota. solve_keeps. Qed.
#[export] Instance fp_upload_base u o x n : Footprint [] (upload_base u o x n).
Proof. unfold Footprint, upload_base. solve_keeps. Qed.
#[export] Instance fp_base_begin_upload u s c p t h o x : Footprint [KUpload] (base_begin_upload u s c p t h o x).
Proof. unfold Footprint, base_begin_upload. solve_keeps. Qed.
#[export] Instance fp_base_operation u s r f : Footprint [] (base_operation u s r f).
Proof. unfold Footprint, base_operation. solve_keeps. Qed.
#[export] Instance fp_access_operation u s r f : Footprint [] (access_operation u s r f).
Proof. unfold Footprint, access_operation. solve_keeps. Qed.
#[export] Instance fp_operation u s r f : Footprint [] (operation u s r f).
Proof. unfold Footprint, operation. solve_keeps. Qed.
#[export] Instance fp_base_renew_upload u s r : Footprint [KUpload] (base_renew_upload u s r).
Proof. unfold Footprint, base_renew_upload. solve_keeps. Qed.
#[export] Instance fp_allocate_one u a r : Footprint [KAssignment; KPlacement; KReplicaPlan; KPolicy] (allocate_one u a r).
Proof. unfold Footprint, allocate_one. solve_keeps. Qed.
#[export] Instance fp_allocate_blocks u s r f b : Footprint [KAssignment; KPlacement; KReplicaPlan; KPolicy; KUpload] (allocate_blocks u s r f b).
Proof. unfold Footprint, allocate_blocks. solve_keeps. Qed.
#[export] Instance fp_check_staged op i bs : Footprint [] (check_staged op i bs).
Proof. unfold Footprint. revert i. induction bs as [|b bs IH]; intros i; simpl; solve_keeps; apply IH. Qed.
#[export] Instance fp_stage_manifest_page u s rq r f i b h : Footprint [KUpload] (stage_manifest_page u s rq r f i b h).
Proof. unfold Footprint, stage_manifest_page. solve_keeps. Qed.
#[export] Instance fp_seal_manifest u s r f p b t h : Footprint [KUpload] (seal_manifest u s r f p b t h).
Proof. unfold Footprint, seal_manifest. solve_keeps. Qed.
#[export] Instance fp_commit_target u op : Footprint [] (commit_target u op).
Proof. unfold Footprint, commit_target. solve_keeps. Qed.
#[export] Instance fp_base_commit_upload u s r f l : Footprint [KSnapshot; KNode; KUpload] (base_commit_upload u s r f l).
Proof. unfold Footprint, base_commit_upload. solve_keeps. Qed.
#[export] Instance fp_cluster_commit_upload u s r f l : Footprint [KSnapshot; KNode; KUpload] (cluster_commit_upload u s r f l).
Proof. unfold Footprint, cluster_commit_upload. solve_keeps. Qed.
#[export] Instance fp_base_abort_upload u s c r : Footprint [KUpload] (base_abort_upload u s c r).
Proof. unfold Footprint, base_abort_upload. solve_keeps. Qed.
#[export] Instance fp_ancestors p : Footprint [] (ancestors p).
Proof. unfold Footprint, ancestors. solve_keeps. Qed.
#[export] Instance fp_base_open u s p m : Footprint [KHandle] (base_open u s p m).
Proof. unfold Footprint, base_open. solve_keeps. Qed.
#[export] Instance fp_base_renew_handle u s h x : Footprint [KHandle] (base_renew_handle u s h x).
Proof. unfold Footprint, base_renew_handle. solve_keeps. Qed.
#[export] Instance fp_base_close u s c h x : Footprint [KHandle] (base_close u s c h x).
Proof. unfold Footprint, base_close. solve_keeps. Qed.

(** ** Access *)
#[export] Instance fp_begin_read u s h n o l : Footprint [KRead; KHandle] (begin_read u s h n o l).
Proof. unfold Footprint, begin_read. solve_keeps. Qed.
#[export] Instance fp_end_read u s c h r : Footprint [KRead; KHandle] (end_read u s c h r).
Proof. unfold Footprint, end_read. solve_keeps. Qed.
#[export] Instance fp_open_quota u : Footprint [] (open_quota u).
Proof. unfold Footprint, open_quota. solve_keeps. Qed.
#[export] Instance fp_resolve_opt u p : Footprint [] (resolve_opt u p).
Proof. unfold Footprint, resolve_opt. solve_keeps. Qed.
#[export] Instance fp_truncate u s m n : Footprint [KLock; KLockSeq] (truncate u s m n).
Proof. unfold Footprint, truncate. solve_keeps. Qed.
#[export] Instance fp_open_creating u s p m : Footprint [KLock; KLockSeq; KSnapshot; KNode] (open_creating u s p m).
Proof. unfold Footprint, open_creating. solve_keeps. Qed.
#[export] Instance fp_access_open u s p m : Footprint [KLock; KLockSeq; KSnapshot; KNode; KHandle] (access_open u s p m).
Proof. unfold Footprint, access_open. solve_keeps. Qed.
#[export] Instance fp_access_renew_handle u s h : Footprint [KHandle; KUpload] (access_renew_handle u s h).
Proof. unfold Footprint, access_renew_handle. solve_keeps. Qed.
#[export] Instance fp_access_close u s c h : Footprint [KHandle; KLock] (access_close u s c h).
Proof. unfold Footprint, access_close. solve_keeps. Qed.
#[export] Instance fp_lock_range n w o l : Footprint [] (lock_range n w o l).
Proof. unfold Footprint, lock_range. solve_keeps. Qed.
#[export] Instance fp_lock_cmd u s h w o l t : Footprint [KLock; KLockSeq] (lock_cmd u s h w o l t).
Proof. unfold Footprint, lock_cmd. solve_keeps. Qed.
#[export] Instance fp_renew_lock u s f : Footprint [KLock] (renew_lock u s f).
Proof. unfold Footprint, renew_lock. solve_keeps. Qed.
#[export] Instance fp_unlock s c f : Footprint [KLock] (unlock s c f).
Proof. unfold Footprint, unlock. solve_keeps. Qed.
#[export] Instance fp_write_operation u s r : Footprint [] (write_operation u s r).
Proof. unfold Footprint, write_operation. solve_keeps. Qed.
#[export] Instance fp_given_locks s h p f : Footprint [] (given_locks s h p f).
Proof. unfold Footprint, given_locks. solve_keeps. Qed.
#[export] Instance fp_own_locks s h p a : Footprint [] (own_locks s h p a).
Proof. unfold Footprint, own_locks. solve_keeps. Qed.
#[export] Instance fp_write_locks s h p f g : Footprint [KLock; KLockSeq] (write_locks s h p f g).
Proof. unfold Footprint, write_locks. solve_keeps. Qed.
#[export] Instance fp_assign_patch o b r : Footprint [KTask; KAssignment] (assign_patch o b r).
Proof. unfold Footprint, assign_patch. solve_keeps. Qed.
#[export] Instance fp_plan_part u n sn a p : Footprint [KAssignment; KPlacement; KReplicaPlan; KPolicy; KTask; KUpload] (plan_part u n sn a p).
Proof. unfold Footprint, plan_part. solve_keeps. Qed.
#[export] Instance fp_begin_checks n c r : Footprint [] (begin_checks n c r).
Proof. unfold Footprint, begin_checks. solve_keeps. Qed.
#[export] Instance fp_access_begin_write u s c r : Footprint [KAssignment; KPlacement; KReplicaPlan; KPolicy; KTask; KUpload; KLock; KLockSeq; KHandle] (access_begin_write u s c r).
Proof. unfold Footprint, access_begin_write. solve_keeps. Qed.
#[export] Instance fp_set_block b i r : Footprint [] (set_block b i r).
Proof. unfold Footprint, set_block. solve_keeps. Qed.
#[export] Instance fp_stored_copy o r b : Footprint [] (stored_copy o r b).
Proof. unfold Footprint, stored_copy. solve_keeps. Qed.
#[export] Instance fp_commit_change o n b p : Footprint [] (commit_change o n b p).
Proof. unfold Footprint, commit_change. solve_keeps. Qed.
#[export] Instance fp_access_commit_write u s r h x f c : Footprint [KSnapshot; KNode; KHandle; KUpload; KLock] (access_commit_write u s r h x f c).
Proof. unfold Footprint, access_commit_write. solve_keeps. Qed.
#[export] Instance fp_abort_write u s c r : Footprint [KUpload; KLock; KHandle] (abort_write u s c r).
Proof. unfold Footprint, abort_write. solve_keeps. Qed.
#[export] Instance fp_access_begin_upload u s c p t h o x : Footprint [KUpload; KLock; KLockSeq] (access_begin_upload u s c p t h o x).
Proof. unfold Footprint, access_begin_upload. solve_keeps. Qed.
#[export] Instance fp_access_renew_upload u s r : Footprint [KUpload; KLock] (access_renew_upload u s r).
Proof. unfold Footprint, access_renew_upload. solve_keeps. Qed.
#[export] Instance fp_access_commit_upload u s r f l : Footprint [KSnapshot; KNode; KUpload; KLock; KHandle] (access_commit_upload u s r f l).
Proof. unfold Footprint, access_commit_upload. solve_keeps. Qed.
#[export] Instance fp_access_abort_upload u s c r : Footprint [KUpload; KLock; KHandle] (access_abort_upload u s c r).
Proof. unfold Footprint, access_abort_upload. solve_keeps. Qed.
#[export] Instance fp_access_remove u c p d : Footprint [KNode; KUpload; KLock; KHandle] (access_remove u c p d).
Proof. unfold Footprint, access_remove. solve_keeps. Qed.

(** ** Protection *)
#[export] Instance fp_capture_policy op : Footprint [KPolicy; KUpload] (capture_policy op).
Proof. unfold Footprint, capture_policy. solve_keeps. Qed.
#[export] Instance fp_policy_result op r : Footprint [KUpload] (policy_result op r).
Proof. unfold Footprint, policy_result. solve_keeps. Qed.
#[export] Instance fp_get_op i : Footprint [] (get_op i).
Proof. unfold Footprint, get_op. solve_keeps. Qed.
#[export] Instance fp_protection_begin_upload u s c p t h o x : Footprint [KUpload; KLock; KLockSeq; KPolicy] (protection_begin_upload u s c p t h o x).
Proof. unfold Footprint, protection_begin_upload. solve_keeps. Qed.
#[export] Instance fp_protection_begin_write u s c r : Footprint [KAssignment; KPlacement; KReplicaPlan; KPolicy; KTask; KUpload; KLock; KLockSeq; KHandle] (protection_begin_write u s c r).
Proof. unfold Footprint, protection_begin_write. solve_keeps. Qed.
#[export] Instance fp_protection_open u s p m : Footprint [KLock; KLockSeq; KSnapshot; KNode; KHandle; KPolicy] (protection_open u s p m).
Proof. unfold Footprint, protection_open. solve_keeps. Qed.
#[export] Instance fp_protection_commit_upload u s r f l : Footprint [KSnapshot; KNode; KUpload; KLock; KHandle] (protection_commit_upload u s r f l).
Proof. unfold Footprint, protection_commit_upload. solve_keeps. Qed.
#[export] Instance fp_protection_commit_write u s r h x f c : Footprint [KSnapshot; KNode; KUpload; KLock; KHandle] (protection_commit_write u s r h x f c).
Proof. unfold Footprint, protection_commit_write. solve_keeps. Qed.
#[export] Instance fp_promote_protection u c p x : Footprint [KPolicy; KUpload; KLock; KHandle] (promote_protection u c p x).
Proof. unfold Footprint, promote_protection. solve_keeps. Qed.
#[export] Instance fp_set_node_authorization u c i n x : Footprint [KNodePolicy; KDatanode; KTask] (set_node_authorization u c i n x).
Proof. unfold Footprint, set_node_authorization. solve_keeps. Qed.
#[export] Instance fp_copy_block u b x y : Footprint [KTask] (copy_block u b x y).
Proof. unfold Footprint, copy_block. solve_keeps. Qed.
#[export] Instance fp_begin_upload u s c p t h o x : Footprint [KUpload; KLock; KLockSeq; KPolicy] (begin_upload u s c p t h o x).
Proof. unfold Footprint, begin_upload. solve_keeps. Qed.
#[export] Instance fp_renew_upload u s r : Footprint [KUpload; KLock] (renew_upload u s r).
Proof. unfold Footprint, renew_upload. solve_keeps. Qed.
#[export] Instance fp_commit_upload u s r f l : Footprint [KSnapshot; KNode; KUpload; KLock; KHandle] (commit_upload u s r f l).
Proof. unfold Footprint, commit_upload. solve_keeps. Qed.
#[export] Instance fp_abort_upload u s c r : Footprint [KUpload; KLock; KHandle] (abort_upload u s c r).
Proof. unfold Footprint, abort_upload. solve_keeps. Qed.
#[export] Instance fp_remove u c p d : Footprint [KNode; KUpload; KLock; KHandle] (remove u c p d).
Proof. unfold Footprint, remove. solve_keeps. Qed.
#[export] Instance fp_open_file u s p m : Footprint [KLock; KLockSeq; KSnapshot; KNode; KHandle; KPolicy] (open_file u s p m).
Proof. unfold Footprint, open_file. solve_keeps. Qed.
#[export] Instance fp_renew_handle u s h x : Footprint [KHandle; KUpload] (renew_handle u s h x).
Proof. unfold Footprint, renew_handle. solve_keeps. Qed.
#[export] Instance fp_close u s c h x : Footprint [KHandle; KLock] (close u s c h x).
Proof. unfold Footprint, close. solve_keeps. Qed.
#[export] Instance fp_begin_write u s c r : Footprint [KAssignment; KPlacement; KReplicaPlan; KPolicy; KTask; KUpload; KLock; KLockSeq; KHandle] (begin_write u s c r).
Proof. unfold Footprint, begin_write. solve_keeps. Qed.
#[export] Instance fp_commit_write u s r h x f c : Footprint [KSnapshot; KNode; KUpload; KLock; KHandle] (commit_write u s r h x f c).
Proof. unfold Footprint, commit_write. solve_keeps. Qed.
#[export] Instance fp_query u s b : Footprint [] (query u s b).
Proof. unfold Footprint, query. solve_keeps. Qed.

End FpCommands.
