(* ===== verification/Tables.v ===== *)
(** * Relations on one table

    A theorem about one table only needs the operations that write it: every
    other operation is covered by its footprint.  [Coarse k R] says that [R] holds
    of any step that leaves the table of [k] alone; then [keeps R] of a handler
    follows from its text and the lemmas of the writers of [k]. *)
From S2P Require Import Prelude Domain Data Store Auth Leases Cluster Placement Requests Queries Commands Access Protection Footprints.

Definition all_kinds : list kind :=
  [KEpoch; KLockSeq; KPlacement; KRate; KLoginResult; KUser; KGroup; KSession; KNode; KSnapshot; KBlock;
   KUpload; KHandle; KLock; KRead; KLedger; KDatanode; KLocation; KAssignment; KTask; KRetirement;
   KNodePolicy; KPolicy; KDurability; KRetired; KReplicaPlan; KRepairRetry; KHealthEvent; KMaintenance;
   KMigrationPin].
Definition others (k : kind) : list kind := filter (λ k', k' ≠ k) all_kinds.

Lemma not_in_others k : k ∉ others k.
Proof. unfold others. rewrite list_elem_of_filter. tauto. Qed.

Class Coarse (k : kind) (R : env → st → st → Prop) := {
  coarse_preorder :: ∀ e, PreOrder (R e);
  coarse_frame e s s' : frame (others k) e s s' → R e s s' }.

Lemma keeps_coarse {k R} `{!Coarse k R} {A} (m : M A) : writes (others k) m → keeps R m.
Proof. intros Hm e s a s' H. eapply coarse_frame. by eapply Hm. Qed.
#[export] Hint Extern 4 (keeps ?R ?m) =>
  lazymatch R with
  | frame _ => fail
  | _ => let C := constr:(ltac:(typeclasses eauto) : Coarse _ R) in
         lazymatch type of C with Coarse ?k _ =>
           apply (keeps_coarse (k := k) m); solve [eauto 2 with keeps nocore]
         end
  end : keeps.

(** The steps of an inverted run that leave the table of [k] alone. *)
Ltac frame_of k H :=
  match type of H with
  | ?m ?e ?s = Ok (?a, ?t) =>
      let F := fresh "F" in
      assert (frame (others k) e s t) as F
        by (refine ((_ : writes (others k) m) e s a t H); solve [solve_keeps])
  end.
Ltac same_table k H :=
  let F := fresh "F" in let T := fresh "T" in let D := fresh "D" in let K := fresh "K" in
  match type of H with
  | ?m ?e ?s = Ok (?a, ?t) =>
      assert (frame (others k) e s t) as F
        by (refine ((_ : writes (others k) m) e s a t H); solve [solve_keeps]);
      destruct F as (T & D & K); specialize (T k (not_in_others k)); clear H
  end.

(** Inverting a run one call at a time, without touching the records it builds. *)
Ltac run1 :=
  first [mrun1 | need_inv | store_inv
    | match goal with
      | H : context [match ?p with (_, _) => _ end] |- _ =>
          lazymatch type of H with _ = Ok _ => destruct p end
      end ].
Ltac runs := repeat (run1; cbn beta iota zeta in * ); bsimpl.

(** ** Tables whose records are drawn, changed by steps and never removed

    [grows k step new]: every record of [k] is still there, changed by [step];
    a record that was not there is [new] and lies under an identity drawn in
    between.  It assumes that draws do not repeat ([uid] is a random UUID). *)
Definition unissued (k : kind) (ids : nat → string) (s : st) : Prop :=
  ∀ n, (s.(s_draws) ≤ n)%nat → s.(s_db) k !! ids n = None.
Definition distinct_draws (ids : nat → string) : Prop := Inj (=) (=) ids.

Section Grows.
Context (k : kind) (step : val k → val k → Prop) (new : val k → Prop).
Context `{!PreOrder step} (new_step : ∀ v v', new v → step v v' → new v').

Record growth (ids : nat → string) (s s' : st) : Prop := mkGrowth {
  gr_unissued : unissued k ids s';
  gr_old i v : s.(s_db) k !! i = Some v → ∃ v', s'.(s_db) k !! i = Some v' ∧ step v v';
  gr_new i v' : s'.(s_db) k !! i = Some v' → s.(s_db) k !! i = None →
    new v' ∧ ∃ n, i = ids n ∧ (s.(s_draws) ≤ n < s'.(s_draws))%nat }.
Definition grows_by (ids : nat → string) (s s' : st) : Prop :=
  (s.(s_draws) ≤ s'.(s_draws))%nat ∧ (keyed s.(s_db) → keyed s'.(s_db))
  ∧ (distinct_draws ids → keyed s.(s_db) → unissued k ids s → growth ids s s').
Definition grows (e : env) : st → st → Prop := grows_by e.(e_uid).

Lemma growth_same ids s s' :
  s'.(s_db) k = s.(s_db) k → (s.(s_draws) ≤ s'.(s_draws))%nat → unissued k ids s → growth ids s s'.
Proof using PreOrder0.
  intros E D Hu. split.
  - intros n Hn. rewrite E. apply Hu. lia.
  - intros i v Hv. rewrite E. exists v. by split.
  - intros i v'. rewrite E. by intros ->.
Qed.
Lemma growth_trans ids s1 s2 s3 :
  (s1.(s_draws) ≤ s2.(s_draws) ≤ s3.(s_draws))%nat → growth ids s1 s2 → growth ids s2 s3 → growth ids s1 s3.
Proof using PreOrder0 new_step.
  intros D [U1 O1 N1] [U2 O2 N2]. split; [done| |].
  - intros i v (v2 & H2 & S2)%O1. apply O2 in H2 as (v3 & H3 & S3). exists v3. split; [done|by etrans].
  - intros i v3 H3 Hi. destruct (s_db s2 k !! i) as [v2|] eqn:H2.
    + destruct (N1 i v2 H2 Hi) as (Hn & n & -> & Hd). destruct (O2 _ _ H2) as (v3' & H3' & S3).
      simplify_eq. split; [by eapply new_step|]. exists n. split; [done|lia].
    + destruct (N2 i v3 H3 H2) as (Hn & n & -> & Hd). split; [done|]. exists n. split; [done|lia].
Qed.
#[export] Instance grows_by_preorder ids : PreOrder (grows_by ids).
Proof using PreOrder0 new_step.
  split.
  - intros s. split_and!; [done|done|]. intros _ _ Hu. by apply growth_same.
  - intros s1 s2 s3 (D1 & K1 & G1) (D2 & K2 & G2). split_and!; [lia|auto|].
    intros He Hk Hu. specialize (G1 He Hk Hu). eapply growth_trans; [|done|apply G2; [done|auto|apply G1]]. lia.
Qed.
#[export] Instance grows_preorder e : PreOrder (grows e) := grows_by_preorder _.
Lemma grows_frame e s s' : frame (others k) e s s' → grows e s s'.
Proof using PreOrder0.
  intros (T & D & K). split_and!; [done|done|]. intros _ _ Hu. apply growth_same; [|done..].
  apply T, not_in_others.
Qed.
Definition grows_coarse : Coarse k grows := {| coarse_preorder := grows_preorder; coarse_frame := grows_frame |}.

(** A record changed by a step. *)
Lemma grows_put e s v v' :
  s.(s_db) k !! key k v' = Some v → step v v' → grows e s (s <| s_db ::= put_db k v' |>).
Proof using PreOrder0.
  intros Hv Hs. split_and!; [done|apply keyed_put|]. intros _ _ Hu. split; simpl.
  - intros n Hn. simpl in *. rewrite put_db_same, lookup_insert_ne; [by apply Hu|]. intros E.
    specialize (Hu n Hn). rewrite <-E, Hv in Hu. done.
  - intros i w Hw. rewrite put_db_same. destruct (decide (key k v' = i)) as [<-|Hne].
    + rewrite lookup_insert_eq. exists v'. split; [done|]. by simplify_eq.
    + rewrite lookup_insert_ne by done. exists w. by split.
  - intros i w. rewrite put_db_same, lookup_insert_Some. intros [[<- _]|[_ Hw]]; congruence.
Qed.
(** A record under an identity drawn since [s]. *)
Lemma grows_put_drawn n e s s1 v :
  grows e s s1 → key k v = e.(e_uid) n → (s.(s_draws) ≤ n < s1.(s_draws))%nat → new v →
  grows e s (s1 <| s_db ::= put_db k v |>).
Proof using PreOrder0.
  intros (D & K & G) Hk Hd Hn. split_and!; [done|intros ?; apply keyed_put; auto|]. intros He Hks Hu.
  destruct (G He Hks Hu) as [U O N]. split; simpl.
  - intros m Hm. simpl in *. rewrite put_db_same, lookup_insert_ne; [by apply U|]. rewrite Hk. intros E%He. lia.
  - intros i w Hw. rewrite put_db_same. destruct (decide (key k v = i)) as [<-|Hne].
    + rewrite Hk, Hu in Hw; [done|lia].
    + rewrite lookup_insert_ne by done. by apply O.
  - intros i w. rewrite put_db_same, lookup_insert_Some. intros [[<- <-]|[_ Hw]] Hi; [|by apply N].
    split; [done|]. rewrite Hk. by eexists.
Qed.
Lemma grows_put_new n e s s1 v :
  frame (others k) e s s1 → key k v = e.(e_uid) n → (s.(s_draws) ≤ n < s1.(s_draws))%nat → new v →
  grows e s (s1 <| s_db ::= put_db k v |>).
Proof using PreOrder0. intros F. apply grows_put_drawn. by apply grows_frame. Qed.
End Grows.

(** *** Tables whose records are drawn, never changed, and may be removed *)
Section Settles.
Context (k : kind).

Record settling (ids : nat → string) (s s' : st) : Prop := mkSettling {
  se_unissued : unissued k ids s';
  se_old i v : s'.(s_db) k !! i = Some v →
    s.(s_db) k !! i = Some v ∨ ∃ n, i = ids n ∧ (s.(s_draws) ≤ n < s'.(s_draws))%nat }.
Definition settles_by (ids : nat → string) (s s' : st) : Prop :=
  (s.(s_draws) ≤ s'.(s_draws))%nat ∧ (keyed s.(s_db) → keyed s'.(s_db))
  ∧ (distinct_draws ids → keyed s.(s_db) → unissued k ids s → settling ids s s').
Definition settles (e : env) : st → st → Prop := settles_by e.(e_uid).

Lemma grows_settles e s s' : grows k eq (λ _, True) e s s' → settles e s s'.
Proof.
  intros (D & K & G). split_and!; [done|done|]. intros He Hk Hu. destruct (G He Hk Hu) as [U O N].
  split; [done|]. intros i v Hv. destruct (s_db s k !! i) as [w|] eqn:Hw.
  - destruct (O _ _ Hw) as (w' & Hw' & <-). simplify_eq. by left.
  - right. by apply (N i v).
Qed.
#[export] Instance settles_by_preorder ids : PreOrder (settles_by ids).
Proof.
  split.
  - intros s. split_and!; [done|done|]. intros _ _ Hu. split; [done|by left].
  - intros s1 s2 s3 (D1 & K1 & G1) (D2 & K2 & G2). split_and!; [lia|auto|].
    intros He Hk Hu. destruct (G1 He Hk Hu) as [U1 O1]. destruct (G2 He (K1 Hk) U1) as [U2 O2].
    split; [done|]. intros i v [Hv|(n & -> & Hd)]%O2; [|right; exists n; split; [done|lia]].
    destruct (O1 i v Hv) as [?|(n & -> & Hd)]; [by left|]. right. exists n. split; [done|lia].
Qed.
#[export] Instance settles_preorder e : PreOrder (settles e) := settles_by_preorder _.
#[export] Instance settles_coarse : Coarse k settles.
Proof.
  split; [apply _|]. intros e s s' F. apply grows_settles, grows_frame; [apply _|done].
Qed.
Lemma settles_del e i s : settles e s (s <| s_db ::= del_db k i |>).
Proof.
  split_and!; [done|apply keyed_del|]. intros _ _ Hu. split; simpl.
  - intros n Hn. simpl in *. rewrite del_db_same, lookup_delete_None. right. by apply Hu.
  - intros j v. rewrite del_db_same, lookup_delete_Some. intros [_ ?]. by left.
Qed.
End Settles.

(** A loop over the records of a table whose body only changes the record it is at. *)
Definition only_at (k : kind) (i : string) (s s' : st) : Prop :=
  ∀ j, j ≠ i → s'.(s_db) k !! j = s.(s_db) k !! j.
Lemma only_at_put k v i s : key k v = i → only_at k i s (s <| s_db ::= put_db k v |>).
Proof. intros <- j Hj. simpl. by rewrite put_db_ne. Qed.
Lemma only_at_same k i s s' : s'.(s_db) k = s.(s_db) k → only_at k i s s'.
Proof. intros E j _. by rewrite E. Qed.
Lemma only_at_trans k i s1 s2 s3 : only_at k i s1 s2 → only_at k i s2 s3 → only_at k i s1 s3.
Proof. intros H1 H2 j Hj. by rewrite H2, H1. Qed.

Lemma NoDup_all_db k d : keyed d → NoDup (map (key k) (all_db k d)).
Proof.
  intros Hd. unfold all_db. pose proof (NoDup_rows (d k)) as Hn.
  replace (map (key k) (rows (d k)).*2) with (rows (d k)).*1; [done|].
  rewrite <-(list_fmap_compose snd (key k)). apply list_fmap_ext. intros j [i v] Hj%list_elem_of_lookup_2.
  apply elem_of_rows in Hj. symmetry. by apply Hd.
Qed.
Lemma for_each_rows k (R : st → st → Prop) `{!PreOrder R} (f : val k → M unit) e l : ∀ s u s',
  (∀ v s u s', s.(s_db) k !! key k v = Some v → f v e s = Ok (u, s') → R s s' ∧ only_at k (key k v) s s') →
  NoDup (map (key k) l) → (∀ v, v ∈ l → s.(s_db) k !! key k v = Some v) →
  for_each l f e s = Ok (u, s') → R s s'.
Proof.
  induction l as [|v l IH]; intros s u s' Hf Hl Hs H; simpl in *.
  - by apply ret_Ok in H as [_ ->].
  - apply bind_Ok in H as (u1 & s1 & H1 & H2). apply list.NoDup_cons in Hl as [Hv Hl].
    destruct (Hf v s u1 s1 (Hs v ltac:(set_solver)) H1) as [R1 O1]. transitivity s1; [done|].
    eapply IH; [done|done| |done]. intros w Hw. rewrite O1; [apply Hs; set_solver|].
    intros E. apply Hv. rewrite <-E. change (key k w ∈ key k <$> l). apply list_elem_of_fmap. by exists w.
Qed.
Lemma for_each_all k (R : st → st → Prop) `{!PreOrder R} (f : val k → M unit) e s u s' :
  (∀ v s u s', s.(s_db) k !! key k v = Some v → f v e s = Ok (u, s') → R s s' ∧ only_at k (key k v) s s') →
  keyed s.(s_db) → for_each (all_db k s.(s_db)) f e s = Ok (u, s') → R s s'.
Proof.
  intros Hf Hk Hr. refine (for_each_rows k R f e _ s u s' Hf (NoDup_all_db k _ Hk) _ Hr). intros v Hv. by apply keyed_all.
Qed.

(** Records stay keyed along a run. *)
Lemma writes_keyed {A} ks (m : M A) e s a t : writes ks m → m e s = Ok (a, t) → keyed s.(s_db) → keyed t.(s_db).
Proof. intros Hm Hr. by destruct (Hm _ _ _ _ Hr) as (_ & _ & K). Qed.

(** The relation is only to be shown where records are keyed and draws are new. *)
Lemma keeps_grows {k step new} {A ks} (m : M A) `{!Footprint ks m} :
  (∀ e s a s', distinct_draws e.(e_uid) → keyed s.(s_db) → unissued k e.(e_uid) s → m e s = Ok (a, s') → grows k step new e s s') →
  keeps (grows k step new) m.
Proof.
  intros Hm e s a s' Hr. destruct (footprint (m := m) e s a s' Hr) as (_ & D & K).
  split_and!; [done|done|]. intros He Hk Hu. by apply (Hm e s a s').
Qed.

(** The loop of a run over the records of table [k], to be shown row by row. *)
Ltac rows_of k :=
  lazymatch goal with
  | Hk : keyed _, Hl : for_each (all_db k _) _ _ _ = Ok (_, _) |- ?R ?e ?s ?s' =>
      refine (for_each_all k (R e) _ e _ _ _ _ Hk Hl); clear Hl
  end.

(** *** Walking back through a run

    [back k] reduces [R e s t] to the writes of table [k] between [s] and [t];
    [found k] brings a lookup in that table back to where it was read. *)
Lemma frame_put k k' v e s : k' ≠ k → frame (others k) e s (s <| s_db ::= put_db k' v |>).
Proof.
  intros Hk. split_and!; [|done|apply keyed_put]. intros k2 Hk2. simpl. apply put_db_kind. intros <-.
  apply Hk2. unfold others. apply list_elem_of_filter. split; [done|]. destruct k'; apply (bool_decide_unpack _); by vm_compute.
Qed.
Lemma frame_del k k' i e s : k' ≠ k → frame (others k) e s (s <| s_db ::= del_db k' i |>).
Proof.
  intros Hk. split_and!; [|done|apply keyed_del]. intros k2 Hk2. simpl. apply del_db_kind. intros <-.
  apply Hk2. unfold others. apply list_elem_of_filter. split; [done|]. destruct k'; apply (bool_decide_unpack _); by vm_compute.
Qed.
Lemma lookup_put k v s : (s <| s_db ::= put_db k v |>).(s_db) k !! key k v = Some v.
Proof. apply put_db_eq. Qed.
Lemma frame_draw k e s : frame (others k) e s (s <| s_draws ::= S |>).
Proof. split_and!; simpl; [done|lia|done]. Qed.
Lemma frame_seals k f e s : frame (others k) e s (s <| s_seals ::= f |>).
Proof. by split_and!. Qed.
Lemma frame_table k e s t : frame (others k) e s t → t.(s_db) k = s.(s_db) k.
Proof. intros (T & _). apply T, not_in_others. Qed.

Ltac step_frame k e t0 t :=
  lazymatch t with
  | upd s_db (put_db ?k' ?v) t0 => refine (frame_put k k' v e t0 _); discriminate
  | upd s_db (del_db ?k' ?i) t0 => refine (frame_del k k' i e t0 _); discriminate
  | upd s_draws _ t0 => exact (frame_draw k e t0)
  | upd s_seals ?f t0 => exact (frame_seals k f e t0)
  | _ => match goal with
         | H : ?m e t0 = Ok (_, t) |- _ => refine ((_ : writes (others k) m) e t0 _ t H); solve [solve_keeps]
         end
  end.
Ltac before t :=
  lazymatch t with
  | upd _ _ ?t0 => t0
  | _ => match goal with H : ?m ?e ?t0 = Ok (_, t) |- _ => t0 end
  end.
Ltac keyed_back :=
  lazymatch goal with
  | |- keyed (s_db (upd s_db (put_db ?k ?v) _)) => refine (keyed_put k v _ _); keyed_back
  | |- keyed (s_db (upd s_db (del_db ?k ?i) _)) => refine (keyed_del k i _ _); keyed_back
  | |- keyed (s_db (upd s_draws _ ?t)) => change (keyed (s_db t)); keyed_back
  | |- keyed (s_db (upd s_seals _ ?t)) => change (keyed (s_db t)); keyed_back
  | |- keyed (s_db ?t) =>
      first [ assumption
            | match goal with H : ?m _ _ = Ok (_, t) |- _ =>
                refine (writes_keyed all_kinds m _ _ _ _ _ H _); [solve [solve_keeps]|]; keyed_back
              end ]
  end.
Ltac frame_back k :=
  lazymatch goal with
  | |- frame _ ?e ?s ?s => reflexivity
  | |- frame _ ?e ?s ?t =>
      let t0 := before t in transitivity t0; [frame_back k|step_frame k e t0 t]
  end.
Ltac found k :=
  lazymatch goal with
  | |- s_db ?t k !! ?i = Some _ =>
      first [ eassumption | exact (lookup_put k _ _)
            | let t0 := before t in
              let E := fresh in
              match goal with |- context [s_db t k] =>
                let e := match goal with H : _ ?e _ = Ok _ |- _ => e | e : env |- _ => e end in
                assert (s_db t k = s_db t0 k) as E by (apply (frame_table k e); step_frame k e t0 t);
                rewrite E; clear E; found k
              end ]
  end.
Ltac back k :=
  lazymatch goal with
  | |- ?R ?e ?s ?s => reflexivity
  | |- ?R ?e ?s ?t =>
      let t0 := before t in
      transitivity t0;
      [ back k
      | first [ refine (coarse_frame (k := k) e _ _ _); step_frame k e t0 t
              | match goal with H : ?m e t0 = Ok (_, t) |- _ => refine ((_ : keeps R m) e t0 _ t H); solve [solve_keeps] end
              | idtac ] ]
  end.

(** Back to the last write of the table; [drawn k d] shows that the record it
    puts lies under the identity drawn at [d]. *)
Ltac peel k :=
  lazymatch goal with
  | |- ?R ?e ?s ?s => reflexivity
  | |- ?R ?e ?s ?t =>
      lazymatch t with
      | upd s_db (put_db k _) _ => idtac
      | _ =>
          let t0 := before t in
          transitivity t0;
          [ peel k
          | first [ refine (coarse_frame (k := k) e _ _ _); step_frame k e t0 t
                  | match goal with H : ?m e t0 = Ok (_, t) |- _ => refine ((_ : keeps R m) e t0 _ t H); solve [solve_keeps] end
                  | idtac ] ]
      end
  end.
Ltac drawn k :=
  lazymatch goal with
  | |- ?R ?e ?s (upd s_db (put_db k ?v) ?t) =>
      let i := eval simpl in (key k v) in
      lazymatch i with
      | e_uid e (s_draws ?d) =>
          transitivity d; [back k|];
          let F := fresh "F" in
          assert (frame (others k) e (d <| s_draws ::= S |>) t) as F by frame_back k;
          eapply (grows_put_new _ _ _ (s_draws d));
          [ transitivity (d <| s_draws ::= S |>); [apply frame_draw|exact F]
          | reflexivity
          | let D := fresh in destruct F as (_ & D & _); simpl in D |- *; lia
          | clear F ]
      end
  end.
Ltac alone k :=
  lazymatch goal with
  | |- only_at k ?i ?s ?s => done
  | |- only_at k ?i ?s ?t =>
      let t0 := before t in
      apply (only_at_trans k i s t0 t);
      [ alone k
      | first [ match goal with e : env |- _ =>
                  apply only_at_same, (frame_table k e); step_frame k e t0 t end
              | by apply (only_at_put k) ] ]
  end.

(** Draws along a run. *)
Lemma writes_draws {A} ks (m : M A) e s a t : writes ks m → m e s = Ok (a, t) → (s.(s_draws) ≤ t.(s_draws))%nat.
Proof. intros Hm Hr. by destruct (Hm _ _ _ _ Hr) as (_ & D & _). Qed.
Ltac draws_back :=
  lazymatch goal with
  | |- (s_draws ?s ≤ s_draws ?s)%nat => reflexivity
  | |- (s_draws ?s ≤ s_draws ?t)%nat =>
      let t0 := before t in
      transitivity (s_draws t0);
      [ draws_back
      | lazymatch t with
        | upd _ _ _ => simpl; lia
        | _ => match goal with H : ?m _ t0 = Ok (_, t) |- _ => refine (writes_draws all_kinds m _ _ _ _ _ H); solve [solve_keeps] end
        end ]
  end.
(** The draw made at [d] lies between [s] and [t]. *)
Ltac drawn_between d :=
  lazymatch goal with
  | |- (s_draws ?s ≤ s_draws d < s_draws ?t)%nat =>
      let D1 := fresh in let D2 := fresh in
      assert (s_draws s ≤ s_draws d)%nat as D1 by draws_back;
      assert (s_draws (d <| s_draws ::= S |>) ≤ s_draws t)%nat as D2 by draws_back;
      clear -D1 D2; simpl in *; lia
  end.
