(* ===== verification/Service.v ===== *)
(** * The control service ([control/monolith.py])

    Authentication of requests, the idempotency ledger, login, the two-phase
    execution of a command, the control part of the block streams, and the
    collector. *)
From S2P Require Import Prelude Domain Data Store Auth Leases Cluster Placement Requests Queries Commands Access Protection.

Section Service.
Context `{Hash, Unicode, Argon2, Aead, Json, Base64, Wire}.

Definition authenticated (token : string) (ctx : RequestContext) : M (user * session) :=
  '(u, s) ← authenticate token;
  _ ← uuid ctx.(rc_request_id);
  sys ← system_of;
  need (bool_decide (ctx.(rc_user_id) = u.(u_id))
        && bool_decide (ctx.(rc_service_epoch) = sys.(sy_epoch))) UNAUTHENTICATED;;
  mret (u, s).

(** ** The ledger of remembered responses *)
Definition ledger_id (e : env) (u : user) (ctx : RequestContext) : string :=
  e.(e_system).(sy_epoch) +:+ ":" +:+ u.(u_id) +:+ ":" +:+ ctx.(rc_request_id).

Definition replay (u : user) (ctx : RequestContext) (b : body) : M (option response) :=
  need (bool_decide (ctx.(rc_intent_sha256) = request_intent b)) INVALID_ARGUMENT;;
  e ← ask;
  o ← get KLedger (ledger_id e u ctx);
  match o with
  | None => mret None
  | Some l =>
      need (bool_decide (l.(l_method) = method_name b)
            && bool_decide (l.(l_digest) = hex (request_intent b))) IDEMPOTENCY_MISMATCH;;
      match password_of b with
      | Some p =>
          v ← some_or_crash l.(l_password_verifier);
          need (matches v p) IDEMPOTENCY_MISMATCH
      | None => mret tt
      end;;
      bytes ← ledger_decrypt l.(l_response);
      r ← some_or_crash (parse (response_type b) bytes);
      mret (Some r)
  end.

(** The stored hash a replayed password must match. *)
Definition verifier_of (b : body) : M (option string) :=
  match b with
  | ChangePassword i _ _ => o ← get KUser i; t ← some_or_crash o; mret (Some t.(u_password))
  | CreateUser n _ =>
      us ← all KUser;
      t ← some_or_crash (List.find (λ t, bool_decide (t.(u_username) = n)) us);
      mret (Some t.(u_password))
  | _ => mret None
  end.
Definition remember (u : user) (ctx : RequestContext) (b : body) (r : response) : M unit :=
  e ← ask;
  sealed ← ledger_encrypt (serialize r);
  v ← verifier_of b;
  put KLedger (mkLedger (ledger_id e u ctx) (method_name b) (hex (request_intent b)) sealed v).

(** ** Login *)
Record LoginRequest := mkLogin { lg_request_id : string; lg_username : string; lg_password : string }.

Fixpoint be_int (acc : Z) (s : string) : Z :=
  match s with
  | EmptyString => acc
  | String c s => be_int (256 * acc + Z.of_nat (nat_of_ascii c)) s
  end.
Definition rate_bucket (username : string) : string :=
  "login-" +:+ str_Z (be_int 0 (String.substring 0 4 (sha256 username)) mod 64).
Definition login_id (rq : LoginRequest) : string :=
  hex (sha256 (rq.(lg_username) +:+ String nul rq.(lg_request_id))).

Definition count_login (window : Z) (bucket : string * Z) : M unit :=
  let '(i, limit) := bucket in
  o ← get KRate i;
  let r := default (mkRate i window 0) o in
  let r := if r.(rt_window) =? window then r else mkRate r.(rt_id) window 0 in
  need (r.(rt_count) <? limit) LIMIT_EXCEEDED;;
  put KRate (r <| rt_count ::= Z.succ |>).
Definition login_rate (rq : LoginRequest) : M unit :=
  t ← now;
  for_each [("login-global", 60); (rate_bucket rq.(lg_username), 10)] (count_login (t / 60000)).

(** The encoded hash that unknown users are checked against. *)
Definition dummy_hash : string :=
  "$argon2id$v=19$m=19456,t=2,p=1$ZGYtc2hhLWR1bW15LXNhbHQ$AoSIjKnHgcYoiDZOGtzyEMrePTYVKYnGNoh++8ucPeE".
Definition login_check (rq : LoginRequest) : M user :=
  us ← all KUser;
  let o := List.find (λ u, bool_decide (u.(u_username) = rq.(lg_username))) us in
  let valid := matches (default dummy_hash (u_password <$> o)) rq.(lg_password) in
  u ← need_some o UNAUTHENTICATED;
  need (negb u.(u_disabled) && valid) UNAUTHENTICATED;;
  mret u.

Definition active_session (t : Z) (s : session) : bool := negb s.(s_revoked) && (t <? s.(s_expires)).
Definition session_message (e : env) (s : session) (token : string) : Session :=
  mkSession s.(s_session_id) s.(s_user) token s.(s_expires) e.(e_system).(sy_epoch).
Definition login_publish (rq : LoginRequest) (u : user) : M response :=
  e ← ask;
  token ← urandom 32;
  i ← uid;
  t ← now;
  let s := mkSessionRec (hex (sha256 token)) i u.(u_id) (t + 3600000) false in
  o ← get KUser u.(u_id);
  cur ← some_or_crash o;
  need (negb cur.(u_disabled) && bool_decide (cur.(u_password) = u.(u_password))) UNAUTHENTICATED;;
  if e.(e_cfg).(c_encrypted) then
    previous ← get KLoginResult (login_id rq);
    match previous with
    | Some p =>
        o ← get KSession p.(lr_session);
        live ← need_some o UNAUTHENTICATED;
        need (active_session t live) UNAUTHENTICATED;;
        ok ← session_live live;
        need ok UNAUTHENTICATED;;
        bytes ← ledger_decrypt p.(lr_response);
        some_or_crash (parse TSession bytes)
    | None =>
        ss ← all KSession;
        let active := List.filter (active_session t) ss in
        need ((zlen active <? 128)
              && (zlen (List.filter (λ s, bool_decide (s.(s_user) = u.(u_id))) active) <? 8)) LIMIT_EXCEEDED;;
        put KSession s;;
        let r := RSession (session_message e s token) in
        sealed ← ledger_encrypt (serialize r);
        put KLoginResult (mkLoginResult (login_id rq) s.(s_id) s.(s_expires) sealed);;
        mret r
    end
  else
    put KSession s;; mret (RSession (session_message e s token)).
(** The units of work of [Login], each in its own transaction: other requests
    may commit between them ([others]). *)
Definition login_form (rq : LoginRequest) : M unit :=
  _ ← uuid rq.(lg_request_id);
  need ((1 <=? slen rq.(lg_username)) && (slen rq.(lg_username) <=? 64)
        && (slen rq.(lg_password) <=? 1024)) UNAUTHENTICATED;;
  e ← ask;
  if e.(e_cfg).(c_encrypted) then login_rate rq else mret tt.
Definition Login (rq : LoginRequest) (others : nat → st → env * st) (e : env) (s : st)
    : result exn response * st :=
  match transaction (login_form rq) e s with
  | (Ok _, s) =>
      let '(e, s) := others 0%nat s in
      match transaction (login_check rq) e s with
      | (Ok u, s) => let '(e, s) := others 1%nat s in transaction (login_publish rq u) e s
      | (Err x, s) => (Err x, s)
      end
  | (Err x, s) => (Err x, s)
  end.

(** ** Queries and commands *)
Definition run_query (token : string) (rq : request) : M response :=
  '(u, s) ← authenticated token rq.(rq_context);
  query u s rq.(rq_body).

(** A repeated [Logout] is answered after its own session was revoked. *)
Definition logout_replay (token : string) (rq : request) : M (option response) :=
  match rq.(rq_body) with
  | Logout _ =>
      o ← get KSession (hex (sha256 token));
      match o with
      | Some old =>
          if old.(s_revoked) then
            ou ← get KUser old.(s_user);
            u ← some_or_crash ou;
            sys ← system_of;
            need (bool_decide (rq.(rq_context).(rc_user_id) = u.(u_id))
                  && bool_decide (rq.(rq_context).(rc_service_epoch) = sys.(sy_epoch))) UNAUTHENTICATED;;
            _ ← uuid rq.(rq_context).(rc_request_id);
            p ← replay u rq.(rq_context) rq.(rq_body);
            r ← need_some p UNAUTHENTICATED;
            mret (Some r)
          else mret None
      | None => mret None
      end
  | _ => mret None
  end.
(** The first look: a remembered response, or who asks. *)
Definition precheck (token : string) (rq : request) : M (response + user * session) :=
  o ← logout_replay token rq;
  match o with
  | Some r => mret (inl r)
  | None =>
      '(u, s) ← authenticated token rq.(rq_context);
      p ← replay u rq.(rq_context) rq.(rq_body);
      mret (match p with Some r => inl r | None => inr (u, s) end)
  end.
Definition publish (token : string) (rq : request) : M response :=
  '(u, s) ← authenticated token rq.(rq_context);
  p ← replay u rq.(rq_context) rq.(rq_body);
  match p with
  | Some r => mret r
  | None =>
      r ← command u s rq.(rq_context) rq.(rq_body);
      remember u rq.(rq_context) rq.(rq_body) r;;
      mret r
  end.

(** Verification of a manifest before it is sealed: the monolith reads every
    block ([content]) and compares the digest of the file; with data nodes
    every block must have a confirmed copy. *)
Definition whole_content (content : BlockRef → option string) (bs : list BlockRef) : option string :=
  foldr (λ b acc, s ← content b; r ← acc; Some (s +:+ r)) (Some "") bs.
Definition monolith_verify_seal (content : BlockRef → option string) (op : upload) (bs : list BlockRef) : M unit :=
  text ← need_some (whole_content content bs) DATA_LOSS;
  need (bool_decide (hex (sha256 text) = op.(o_sha))) CHECKSUM_MISMATCH.
Definition distributed_verify_seal (bs : list BlockRef) : M unit :=
  d ← reading (λ _ d, d);
  for_each bs (λ b,
    need (match d KBlock !! b.(br_block_version_id) with
          | Some r => bool_decide (r.(b_ref) = b)
                      && negb (bool_decide (locations_of_block d b.(br_block_version_id) = []))
          | None => false
          end) DATA_UNAVAILABLE).
Definition verify_seal (content : BlockRef → option string) (us : user * session) (rq : request) : M unit :=
  match rq.(rq_body) with
  | SealManifest ref fence _ _ _ _ =>
      let '(u, s) := us in
      op ← operation u s ref (Some fence);
      bs ← manifest op;
      c ← cfg;
      (if decide (c.(c_profile) = PMonolith) then monolith_verify_seal content op bs
       else distributed_verify_seal bs);;
      modify (λ x, x <| s_seals ::= dset op.(o_id) (manifest_hash bs) |>)
  | _ => mret tt
  end.

Definition unary_once (content : BlockRef → option string) (others : nat → st → env * st)
    (token : string) (rq : request) (e : env) (s : st) : result exn response * st :=
  if is_query rq.(rq_body) then transaction (run_query token rq) e s
  else match transaction (precheck token rq) e s with
  | (Ok (inl r), s) => (Ok r, s)
  | (Ok (inr us), s) =>
      let '(e, s) := others 0%nat s in
      match transaction (verify_seal content us rq) e s with
      | (Ok _, s) => let '(e, s) := others 1%nat s in transaction (publish token rq) e s
      | (Err x, s) => (Err x, s)
      end
  | (Err x, s) => (Err x, s)
  end.

(** ** Block streams of the monolith *)
Definition put_block_check (token : string) (ctx : RequestContext) (ref : OperationRef) (b : BlockRef)
    (fence : Fence) (cap : string) : M (upload + DurableReceipt) :=
  '(u, s) ← authenticated token ctx;
  p ← replay u ctx (PutBlock ref b fence cap);
  match p with
  | Some (RReceipt r) => mret (inr r)
  | Some _ => raise PyError
  | None =>
      op ← operation u s ref (Some fence);
      need (bool_decide (dget b.(br_block_index) op.(o_allocations) = Some b)) VERSION_CONFLICT;;
      expected ← capability u.(u_id) op.(o_id) b.(br_block_version_id) "write";
      need (bool_decide (expected = cap)) PERMISSION_DENIED;;
      o ← get KBlock b.(br_block_version_id);
      need (bool_decide (o = None)) ALREADY_EXISTS;;
      mret (inl op)
  end.
(** [chunks]: every frame continues the last and is as long as it can be. *)
Fixpoint chunks_ok (size total : Z) (frames : list (Z * string)) : bool :=
  match frames with
  | [] => true
  | (offset, data) :: frames =>
      (offset =? total) && (slen data =? Z.min CHUNK (size - total)) && (0 <? slen data)
      && chunks_ok size (total + slen data) frames
  end.
Definition put_block_publish (token : string) (ctx : RequestContext) (ref : OperationRef) (b : BlockRef)
    (fence : Fence) (cap : string) (stored : Z) (digest : string) : M DurableReceipt :=
  i ← uid;
  t ← now;
  sys ← system_of;
  let r := mkDurableReceipt i ref.(or_operation_id) b sys.(sy_node) 1 "local-host" stored digest t in
  '(u, s) ← authenticated token ctx;
  op ← operation u s ref (Some fence);
  put KBlock (mkBlock b.(br_block_version_id) b.(br_file_id) op.(o_id) b stored r);;
  put KUpload (op <| o_reserved ::= λ x, Z.max 0 (x - stored) |>);;
  remember u ctx (PutBlock ref b fence cap) (RReceipt r);;
  mret r.

Definition get_block_check (token : string) (ctx : RequestContext) (handle_id : string) (snap : SnapshotRef)
    (b : BlockRef) (cap : string) (offset length : option Z) : M Z :=
  '(u, s) ← authenticated token ctx;
  '(h, sn) ← get_handle u s handle_id;
  need (bool_decide (snap = sn.(sn_ref))) VERSION_CONFLICT;;
  need (bool_decide (b ∈ sn.(sn_blocks))) PERMISSION_DENIED;;
  expected ← capability u.(u_id) h.(h_id) b.(br_block_version_id) "read";
  need (bool_decide (expected = cap)) PERMISSION_DENIED;;
  need ((default 0 offset =? 0) && (default b.(br_size_bytes) length =? b.(br_size_bytes))) UNSUPPORTED_MODE;;
  mret sn.(sn_ref).(sr_block_size_bytes).
End Service.

(** ** The collector ([Monolith.collect]) *)
Section Collect.
Definition is_write (op : upload) : bool := bool_decide (is_Some op.(o_write)).
Definition expire_op (op : upload) : upload := op <| o_state := EXPIRED |> <| o_reserved := 0 |>.

(** The leases of a range write, without looking at [closed]. *)
Definition write_leases_live (e : env) (d : DB) (op : upload) : bool :=
  match op.(o_write) with
  | Some w =>
      match d KHandle !! w.(we_handle) with
      | Some h => live_handle_at e h
          && forallb (λ i, match d KLock !! i with Some k => live_lock_at e k | None => false end) op.(o_locks)
      | None => false
      end
  | None => true
  end.
Definition expire_write (op : upload) : M unit :=
  live ← reading (λ e d, write_leases_live e d op);
  op ← (if is_write op && preparing op && negb live
        then put KUpload (expire_op op);; mret (expire_op op) else mret op);
  if preparing op then mret tt else release_operation op.
Definition close_dead_handle (h : handle) : M unit :=
  live ← live_handle h;
  if (live : bool) then mret tt else put KHandle (h <| h_closed := true |>).
Definition collect_leases : M unit :=
  os ← all KUpload;
  for_each os expire_write;;
  hs ← all KHandle;
  for_each hs close_dead_handle.

Definition expire_upload (restart : bool) (op : upload) : M unit :=
  live ← reading (λ e d, operation_live e d (Some op));
  if preparing op && (restart || negb live)
  then put KUpload (op <| o_state := if restart then ABORTED else EXPIRED |> <| o_reserved := 0 |>)
  else mret tt.

Definition handle_pinned (e : env) (h : handle) : bool :=
  negb h.(h_closed) && (if has_leases e.(e_cfg) then live_handle_at e h else e.(e_now) <? h.(h_expires)).
Definition pins (e : env) (d : DB) : list string :=
  map h_snapshot (List.filter (handle_pinned e) (all_db KHandle d))
  ++ node_pins d ++ retained_snapshots e d.
Definition task_retained (e : env) (d : DB) : list string :=
  map (λ t, t.(t_block).(br_block_version_id))
    (List.filter (λ t, is_copy t && live_task e t) (all_db KTask d)).
Definition snapshot_retained (ps : list string) (sns : list snapshot) : list string :=
  concat (map (λ sn, versions sn.(sn_blocks)) (List.filter (λ sn, bool_decide (sn.(sn_id) ∈ ps)) sns)).
Definition upload_retained (d : DB) : list string :=
  concat (map (λ op, versions op.(o_allocations).*2) (List.filter preparing (all_db KUpload d))).
Definition retained_blocks (e : env) (d : DB) : list string :=
  task_retained e d ++ snapshot_retained (pins e d) (all_db KSnapshot d) ++ upload_retained d.

Definition monolith_collect (restart : bool) : M (list string) :=
  c ← cfg;
  (if has_leases c then collect_leases else mret tt);;
  os ← all KUpload;
  for_each os (expire_upload restart);;
  ps ← reading pins;
  keep ← reading retained_blocks;
  sns ← all KSnapshot;
  for_each sns (λ sn, if decide (sn.(sn_id) ∈ ps) then mret tt else del KSnapshot sn.(sn_id));;
  bs ← all KBlock;
  for_each bs (λ b, if decide (b.(b_id) ∈ keep) then mret tt else retire_block b);;
  mret keep.
End Collect.
