(* ===== verification/Nodes.v ===== *)
(** * Services for the data nodes ([distributed.py], [patch_authority.py],
    the authorization of [replication.py] and [ha.py])

    Registration, heartbeats, inventories, authorization of block streams, and
    reports of durable blocks and of tasks.  The transport identity of a node is
    the common name of its certificate. *)
From S2P Require Import Prelude Domain Data Store Auth Leases Cluster Placement Requests Queries Commands Access Protection Service.

Record HeartbeatRequest := mkHeartbeat {
  hb_context : RequestContext; hb_node_id : string; hb_boot_generation : Z; hb_sequence : Z;
  hb_free : Z; hb_used : Z; hb_active : Z; hb_reserved : Z; hb_observed_at : Z; hb_counters : list Z }.
Record BlockReportRequest := mkBlockReport {
  bk_context : RequestContext; bk_node_id : string; bk_boot_generation : Z; bk_report_id : string;
  bk_page_index : Z; bk_last_page : bool; bk_receipts : list DurableReceipt }.
Record RegisterRequest := mkRegister {
  rg_context : RequestContext; rg_node : BlockLocation; rg_inventory_id : string;
  rg_capacity_bytes : Z; rg_free_bytes : Z }.
Record AuthorizeRequest := mkAuthorize {
  az_context : RequestContext; az_session_token : string; az_node_id : string; az_action : AccessAction;
  az_operation : OperationRef; az_block : BlockRef; az_fence : Fence; az_capability : string;
  az_handle_id : string; az_read_id : string; az_snapshot : SnapshotRef; az_offset : Z; az_length : Z;
  az_replacement_block_version_id : string; az_delta_sha256 : string }.
Record ReportRequest := mkReport {
  rd_context : RequestContext; rd_client_context : RequestContext; rd_operation : OperationRef;
  rd_fence : Fence; rd_receipt : DurableReceipt; rd_patch : option (RequestContext * body) }.
Record InternalRequest := mkInternal {
  in_context : RequestContext; in_task_id : string; in_block : BlockRef; in_action : AccessAction;
  in_source_node_id : string; in_destination_node_id : string; in_task_capability : string; in_fence : Fence }.
Record TaskReport := mkTaskReport {
  tr_context : RequestContext; tr_node_id : string; tr_boot_generation : Z; tr_task : TaskStatus;
  tr_fence : Fence }.

(** The dictionary forms and sizes of these messages. *)
Class NodeWire := {
  heartbeat_dict : HeartbeatRequest → json;
  report_dict : BlockReportRequest → json;
  report_size : BlockReportRequest → Z;
}.

(** [node_rpc.peer]. *)
Definition peer (names : list string) : M string :=
  match names with
  | [name] => mret name
  | _ => raise (Fault UNAUTHENTICATED)
  end.

Section Nodes.
Context `{Hash, Unicode, Argon2, Aead, Json, Base64, Wire, NodeWire}.

Definition require_node (node_id : string) : M unit :=
  p ← get KNodePolicy node_id;
  c ← cfg;
  need (bool_decide (is_Some (dget node_id c.(c_allowed)))
        && match p with Some p => p.(np_enabled) | None => true end) PERMISSION_DENIED.
Definition is_peer (e : env) (identity node_id : string) : bool :=
  match dget node_id e.(e_cfg).(c_allowed) with
  | Some a => bool_decide (identity = a.(al_identity))
  | None => false
  end.
Definition node_peer (identity : string) (ctx : RequestContext) (node_id : string) : M unit :=
  e ← ask;
  need (is_peer e identity node_id && bool_decide (ctx.(rc_user_id) = node_id)
        && bool_decide (ctx.(rc_service_epoch) = e.(e_system).(sy_epoch))) PERMISSION_DENIED;;
  _ ← uuid ctx.(rc_request_id);
  require_node node_id.

Definition node_lease (e : env) (n : datanode) : NodeLease :=
  mkNodeLease n.(dn_id) n.(dn_location).(bl_boot_generation) (n.(dn_seen) + e.(e_cfg).(c_suspect_ms))
    n.(dn_sequence).
Definition done (ctx : RequestContext) (revision : Z) : MutationResult :=
  mkMutationResult ctx.(rc_request_id) revision.
Definition generation_is (o : option datanode) (g : Z) : bool :=
  match o with Some n => n.(dn_location).(bl_boot_generation) =? g | None => false end.

(** ** Registration and liveness *)
(** A new generation of a node aborts the uploads placed on the old one. *)
Definition abort_assigned (node_id : string) : M unit :=
  assigned ← all KAssignment;
  for_each assigned (λ a,
    if decide (a.(a_node) = node_id) then
      o ← get KUpload a.(a_operation);
      match o with
      | Some op => if preparing op then put KUpload (abort_op op) else mret tt
      | None => mret tt
      end
    else mret tt).
Definition fresh_node (rq : RegisterRequest) (t : Z) : datanode :=
  mkDatanode rq.(rg_node).(bl_node_id) rq.(rg_node) rq.(rg_capacity_bytes) rq.(rg_free_bytes) 0 t 0 false
    rq.(rg_inventory_id) 0 0 false "" [] 0 [].
Definition RegisterNode (identity : string) (rq : RegisterRequest) : M NodeLease :=
  let i := rq.(rg_node).(bl_node_id) in
  node_peer identity rq.(rg_context) i;;
  _ ← uuid rq.(rg_inventory_id);
  e ← ask;
  a ← some_or_crash (dget i e.(e_cfg).(c_allowed));
  need (bool_decide (rq.(rg_node).(bl_client_endpoint) = a.(al_client_endpoint))
        && bool_decide (rq.(rg_node).(bl_private_endpoint) = a.(al_private_endpoint))
        && bool_decide (rq.(rg_node).(bl_failure_domain) = a.(al_failure_domain))
        && (rq.(rg_capacity_bytes) =? a.(al_capacity_bytes))
        && (0 <? rq.(rg_node).(bl_boot_generation))) PERMISSION_DENIED;;
  old ← get KDatanode i;
  require_node i;;
  let g := rq.(rg_node).(bl_boot_generation) in
  let fresh := fresh_node rq e.(e_now) in
  keep ← match old with
    | None => mret None
    | Some n =>
        let g0 := n.(dn_location).(bl_boot_generation) in
        need (g0 <=? g) VERSION_CONFLICT;;
        if g =? g0 then
          need (bool_decide (n.(dn_location) = rq.(rg_node))) VERSION_CONFLICT;;
          if e.(e_cfg).(c_etcd) then
            mret (if decide (n.(dn_inventory_id) = rq.(rg_inventory_id))
                  then Some (n <| dn_seen := e.(e_now) |>) else None)
          else
            need (bool_decide (n.(dn_inventory_id) = rq.(rg_inventory_id))) VERSION_CONFLICT;; mret None
        else abort_assigned i;; mret None
    end;
  let n := default fresh keep in
  put_datanode n;;
  mret (node_lease e n).

Definition Heartbeat (identity : string) (rq : HeartbeatRequest) : M NodeLease :=
  node_peer identity rq.(hb_context) rq.(hb_node_id);;
  e ← ask;
  o ← get KDatanode rq.(hb_node_id);
  n ← need_some o VERSION_CONFLICT;
  need (n.(dn_reconciled) && (n.(dn_location).(bl_boot_generation) =? rq.(hb_boot_generation))
        && (n.(dn_sequence) <=? rq.(hb_sequence))) VERSION_CONFLICT;;
  let digest := hex (intent (heartbeat_dict rq)) in
  if rq.(hb_sequence) =? n.(dn_sequence) then
    need (bool_decide (n.(dn_heartbeat_digest) = digest)) VERSION_CONFLICT;;
    mret (node_lease e n)
  else
    let n := n <| dn_seen := e.(e_now) |> <| dn_sequence := rq.(hb_sequence) |> <| dn_free := rq.(hb_free) |>
               <| dn_used := rq.(hb_used) |> <| dn_active := rq.(hb_active) |>
               <| dn_heartbeat_digest := digest |> <| dn_counters := rq.(hb_counters) |> in
    put_datanode n;;
    mret (node_lease e n).

(** ** Inventories *)
Definition report_form (identity : string) (rq : BlockReportRequest) : M datanode :=
  node_peer identity rq.(bk_context) rq.(bk_node_id);;
  need ((zlen rq.(bk_receipts) <=? 64) && (report_size rq <=? 65536)) INVALID_ARGUMENT;;
  o ← get KDatanode rq.(bk_node_id);
  n ← need_some o VERSION_CONFLICT;
  need ((n.(dn_location).(bl_boot_generation) =? rq.(bk_boot_generation))
        && bool_decide (rq.(bk_report_id) = n.(dn_inventory_id))) VERSION_CONFLICT;;
  mret n.
Definition own_receipt (rq : BlockReportRequest) (r : DurableReceipt) : M unit :=
  need (bool_decide (r.(dr_node_id) = rq.(bk_node_id)) && (slen r.(dr_ciphertext_sha256) =? 32)) INVALID_ARGUMENT.

Definition distributed_report_one (rq : BlockReportRequest) (r : DurableReceipt) : M unit :=
  own_receipt rq r;;
  old ← reading (λ _ d, location_of d r.(dr_block).(br_block_version_id) rq.(bk_node_id));
  match old with
  | Some l =>
      need (bool_decide (l.(lo_receipt) = r)) CHECKSUM_MISMATCH;;
      put KLocation (l <| lo_inventory := rq.(bk_report_id) |>)
  | None => retire_copy r.(dr_block) rq.(bk_node_id)
  end.
Definition unreported (rq : BlockReportRequest) (l : location) : bool :=
  bool_decide (l.(lo_node) = rq.(bk_node_id)) && negb (bool_decide (l.(lo_inventory) = rq.(bk_report_id))).
Definition distributed_BlockReport (identity : string) (rq : BlockReportRequest) : M MutationResult :=
  n ← report_form identity rq;
  need (rq.(bk_page_index) =? n.(dn_page)) VERSION_CONFLICT;;
  for_each rq.(bk_receipts) (distributed_report_one rq);;
  t ← now;
  (if rq.(bk_last_page) then
     ls ← all KLocation;
     for_each ls (λ l, if unreported rq l then del KLocation l.(lo_id) else mret tt)
   else mret tt);;
  put_datanode (n <| dn_page ::= Z.succ |> <| dn_seen := t |> <| dn_reconciled := rq.(bk_last_page) |>);;
  mret (done rq.(bk_context) (rq.(bk_page_index) + 1)).

(** A copy finished by a task whose report was lost. *)
Definition recovered (e : env) (d : DB) (rq : BlockReportRequest) (r : DurableReceipt) : bool :=
  let i := r.(dr_block).(br_block_version_id) in
  match d KBlock !! i, d KTask !! r.(dr_operation_id) with
  | Some b, Some t =>
      is_copy t && bool_decide (t.(t_dest) = rq.(bk_node_id)) && bool_decide (t.(t_block) = r.(dr_block))
      && bool_decide (i ∈ (useful e d).*1)
      && bool_decide (b.(b_receipt).(dr_ciphertext_sha256) = r.(dr_ciphertext_sha256))
  | _, _ => false
  end.
Definition replicated_report_one (rq : BlockReportRequest) (r : DurableReceipt) : M unit :=
  own_receipt rq r;;
  e ← ask; d ← reading (λ _ d, d);
  let i := r.(dr_block).(br_block_version_id) in
  let old := location_of d i rq.(bk_node_id) in
  let gone := bool_decide (is_Some (d KRetired !! i)) in
  if recovered e d rq r && negb gone then confirm_location r rq.(bk_report_id)
  else match old with
  | Some l =>
      if bool_decide (l.(lo_receipt) = r) && negb gone then
        put KLocation (l <| lo_inventory := rq.(bk_report_id) |> <| lo_health := "VERIFIED" |>
                         <| lo_checked_at := e.(e_now) |>)
      else mret tt
  | None =>
      retire_copy r.(dr_block) rq.(bk_node_id);;
      o ← get KRetirement (location_id i rq.(bk_node_id));
      x ← some_or_crash o;
      ot ← get KTask x.(rm_task);
      t ← some_or_crash ot;
      put KTask (t <| t_expected_receipt_id := r.(dr_receipt_id) |>)
  end.
Definition replicated_BlockReport (identity : string) (rq : BlockReportRequest) : M MutationResult :=
  n ← report_form identity rq;
  let digest := hex (intent (report_dict rq)) in
  if rq.(bk_page_index) <? n.(dn_page) then
    need (bool_decide (dget rq.(bk_page_index) n.(dn_report_pages) = Some digest)) VERSION_CONFLICT;;
    mret (done rq.(bk_context) (rq.(bk_page_index) + 1))
  else
    need (rq.(bk_page_index) =? n.(dn_page)) VERSION_CONFLICT;;
    for_each rq.(bk_receipts) (replicated_report_one rq);;
    t ← now;
    (if rq.(bk_last_page) then
       ls ← all KLocation;
       for_each ls (λ l, if unreported rq l then put KLocation (l <| lo_health := "MISSING" |>) else mret tt)
     else mret tt);;
    put_datanode (n <| dn_page ::= Z.succ |> <| dn_seen := t |> <| dn_reconciled := rq.(bk_last_page) |>
                    <| dn_report_pages ::= dset rq.(bk_page_index) digest |>);;
    mret (done rq.(bk_context) (rq.(bk_page_index) + 1)).
Definition BlockReport (identity : string) (rq : BlockReportRequest) : M MutationResult :=
  c ← cfg; if replicated c then replicated_BlockReport identity rq else distributed_BlockReport identity rq.

(** ** Authorization of a client's block stream *)
Definition receipt_of (r : response) : M DurableReceipt :=
  match r with RReceipt r => mret r | _ => raise PyError end.
Definition replayed_receipt (u : user) (ctx : RequestContext) (b : body) : M (option DurableReceipt) :=
  p ← replay u ctx b;
  match p with
  | Some r => r ← receipt_of r; mret (Some r)
  | None => mret None
  end.
Definition assigned_to (n : datanode) (o : option assignment) : bool :=
  match o with
  | Some a => bool_decide (a.(a_node) = n.(dn_id)) && (a.(a_generation) =? n.(dn_location).(bl_boot_generation))
  | None => false
  end.
Definition decision (subject : string) (until size : Z) (replay : option DurableReceipt) (replacement : Z)
    : AuthorizationDecision := mkAuthorizationDecision subject 1 until size replay replacement.

(** What a stream is authorized against: the binding its capability was issued
    for, the block size, the signed action and the expiry. *)
Definition authorize_write (u : user) (s : session) (n : datanode) (rq : AuthorizeRequest)
    : M (binding * Z * string * Z) :=
  op ← operation u s rq.(az_operation) (Some rq.(az_fence));
  a ← get KAssignment rq.(az_block).(br_block_version_id);
  need (assigned_to n a && bool_decide (dget rq.(az_block).(br_block_index) op.(o_allocations) = Some rq.(az_block)))
    PERMISSION_DENIED;;
  need ((rq.(az_offset) =? 0) && (rq.(az_length) =? rq.(az_block).(br_size_bytes))) UNSUPPORTED_MODE;;
  mret (upload_binding op, op.(o_block_size), "write", op.(o_expires)).
Definition authorize_read (u : user) (s : session) (n : datanode) (rq : AuthorizeRequest)
    : M (binding * Z * string * Z) :=
  '(h, sn) ← get_handle u s rq.(az_handle_id);
  c ← cfg;
  let size := sn.(sn_ref).(sr_block_size_bytes) in
  (if has_leases c then
     need (readable h.(h_mode)
           && match h.(h_busy) with Some i => bool_decide (i = rq.(az_read_id)) | None => true end) PERMISSION_DENIED;;
     if empty rq.(az_read_id) then mret tt
     else _ ← validate_read h rq.(az_read_id) (rq.(az_block).(br_block_index) * size + rq.(az_offset)) rq.(az_length);
          mret tt
   else mret tt);;
  l ← reading (λ _ d, location_of d rq.(az_block).(br_block_version_id) n.(dn_id));
  need (bool_decide (sn.(sn_ref) = rq.(az_snapshot)) && bool_decide (rq.(az_block) ∈ sn.(sn_blocks))
        && bool_decide (is_Some l)) PERMISSION_DENIED;;
  if has_leases c then
    need ((rq.(az_offset) <=? rq.(az_block).(br_size_bytes)) && (0 <? rq.(az_length))
          && (rq.(az_length) <=? rq.(az_block).(br_size_bytes) - rq.(az_offset))) INVALID_ARGUMENT;;
    x ← expiry_hint h.(h_deadline);
    mret (handle_binding h, size, read_action rq.(az_offset) rq.(az_length) rq.(az_read_id), x)
  else
    need ((rq.(az_offset) =? 0) && (rq.(az_length) =? rq.(az_block).(br_size_bytes))) UNSUPPORTED_MODE;;
    mret (handle_binding h, size, "read", h.(h_expires)).
Definition authorize_stream (u : user) (s : session) (rq : AuthorizeRequest) (n : datanode)
    (m : M (binding * Z * string * Z)) : M AuthorizationDecision :=
  '(bd, size, action, expiry) ← m;
  expected ← node_capability u.(u_id) bd rq.(az_block) n action;
  need (bool_decide (rq.(az_capability) = expected)) PERMISSION_DENIED;;
  mret (decision u.(u_id) (Z.min s.(s_expires) expiry) size None 0).

(** ** Patches ([patch_authority.py]) *)
Definition validate_header (u : user) (s : session) (n : datanode) (ref : OperationRef) (base : BlockRef)
    (version : string) (offset length : Z) (sha : string) (fence : Fence)
    : M (upload * write_ext * write_part * assignment) :=
  '(op, w, _, _, _) ← write_operation u s ref;
  p ← need_some (List.find (λ p, bool_decide (p.(w_replacement).(br_block_version_id) = version)) w.(we_parts))
        PERMISSION_DENIED;
  need (bool_decide (base = p.(w_base)) && (offset =? p.(w_part).(wp_block_offset))
        && (length =? p.(w_part).(wp_length)) && bool_decide (sha = p.(w_part).(wp_delta_sha256))) IDEMPOTENCY_MISMATCH;;
  need (existsb (λ f, bool_decide (fence_intent fence = fence_intent f)) w.(we_fences)) LOCK_EXPIRED;;
  o ← get KAssignment version;
  a ← need_some o PERMISSION_DENIED;
  need (assigned_to n (Some a) && bool_decide (a.(a_operation) = op.(o_id))) PERMISSION_DENIED;;
  mret (op, w, p, a).

Definition authorize_patch (identity : string) (rq : AuthorizeRequest) : M AuthorizationDecision :=
  e ← ask;
  need (has_leases e.(e_cfg)) UNSUPPORTED_MODE;;
  need (is_peer e identity rq.(az_node_id)) PERMISSION_DENIED;;
  let header := PatchBlock rq.(az_operation) rq.(az_block) rq.(az_replacement_block_version_id)
    rq.(az_offset) rq.(az_length) rq.(az_delta_sha256) rq.(az_fence) rq.(az_capability) in
  '(u, s) ← authenticated rq.(az_session_token) rq.(az_context);
  o ← get KDatanode rq.(az_node_id);
  need (reachable_state (state e o)) DATA_UNAVAILABLE;;
  n ← some_or_crash o;
  previous ← replayed_receipt u rq.(az_context) header;
  match previous with
  | Some r =>
      need (bool_decide (r.(dr_node_id) = n.(dn_id))) PERMISSION_DENIED;;
      mret (mkAuthorizationDecision "" 0 s.(s_expires) 0 (Some r) 0)
  | None =>
      '(op, w, p, _) ← validate_header u s n rq.(az_operation) rq.(az_block) rq.(az_replacement_block_version_id)
                         rq.(az_offset) rq.(az_length) rq.(az_delta_sha256) rq.(az_fence);
      expected ← node_capability u.(u_id) (upload_binding op) p.(w_replacement) n "patch";
      need (bool_decide (rq.(az_capability) = expected)) PERMISSION_DENIED;;
      oh ← get KHandle w.(we_handle);
      h ← some_or_crash oh;
      x ← expiry_hint h.(h_deadline);
      mret (decision u.(u_id) (Z.min s.(s_expires) x) op.(o_block_size) None p.(w_replacement).(br_size_bytes))
  end.

Definition AuthorizeBlock (identity : string) (rq : AuthorizeRequest) : M AuthorizationDecision :=
  require_node rq.(az_node_id);;
  if decide (rq.(az_action) = PATCH_DATA) then authorize_patch identity rq
  else
    e ← ask;
    need (is_peer e identity rq.(az_node_id)) PERMISSION_DENIED;;
    '(u, s) ← authenticated rq.(az_session_token) rq.(az_context);
    o ← get KDatanode rq.(az_node_id);
    need (reachable_state (state e o)) DATA_UNAVAILABLE;;
    n ← some_or_crash o;
    if decide (rq.(az_action) = WRITE_DATA) then
      previous ← replayed_receipt u rq.(az_context)
        (PutBlock rq.(az_operation) rq.(az_block) rq.(az_fence) rq.(az_capability));
      match previous with
      | Some r =>
          need (bool_decide (r.(dr_node_id) = n.(dn_id))) PERMISSION_DENIED;;
          mret (mkAuthorizationDecision u.(u_id) 0 s.(s_expires) 0 (Some r) 0)
      | None => authorize_stream u s rq n (authorize_write u s n rq)
      end
    else if decide (rq.(az_action) = READ_DATA) then authorize_stream u s rq n (authorize_read u s n rq)
    else raise (Fault PERMISSION_DENIED).

(** ** Durable blocks *)
Definition live_session (o : option session) : M session :=
  s ← need_some o UNAUTHENTICATED;
  t ← now;
  need (negb s.(s_revoked) && (t <? s.(s_expires))) UNAUTHENTICATED;;
  mret s.
(** The node, generation and user of a report. *)
Definition report_subject (identity : string) (ctx client : RequestContext) (r : DurableReceipt)
    : M (datanode * user) :=
  node_peer identity ctx r.(dr_node_id);;
  o ← get KDatanode r.(dr_node_id);
  require_node r.(dr_node_id);;
  n ← need_some o VERSION_CONFLICT;
  need (r.(dr_boot_generation) =? n.(dn_location).(bl_boot_generation)) VERSION_CONFLICT;;
  ou ← get KUser client.(rc_user_id);
  u ← need_some ou UNAUTHENTICATED;
  sys ← system_of;
  need (negb u.(u_disabled) && bool_decide (client.(rc_service_epoch) = sys.(sy_epoch))) UNAUTHENTICATED;;
  mret (n, u).
Definition receipt_fits (n : datanode) (r : DurableReceipt) (a : assignment) : bool :=
  bool_decide (r.(dr_failure_domain) = n.(dn_location).(bl_failure_domain))
  && (slen r.(dr_ciphertext_sha256) =? 32)
  && (r.(dr_block).(br_size_bytes) <? r.(dr_stored_size_bytes))
  && (r.(dr_stored_size_bytes) <=? a.(a_reserved)).
Definition record_block (n : datanode) (op : upload) (r : DurableReceipt) : M unit :=
  put KBlock (mkBlock r.(dr_block).(br_block_version_id) r.(dr_block).(br_file_id) op.(o_id) r.(dr_block)
    r.(dr_stored_size_bytes) r);;
  confirm_location r n.(dn_inventory_id).
Definition operation_session (i : string) : M session :=
  o ← get KUpload i;
  os ← get_opt KSession (o_session <$> o);
  live_session os.

Definition report_block (identity : string) (rq : ReportRequest) : M MutationResult :=
  let r := rq.(rd_receipt) in
  let client := rq.(rd_client_context) in
  '(n, u) ← report_subject identity rq.(rd_context) client r;
  _ ← uuid client.(rc_request_id);
  let header := PutBlock rq.(rd_operation) r.(dr_block) rq.(rd_fence) "" in
  previous ← replayed_receipt u client header;
  match previous with
  | Some p => need (bool_decide (p = r)) IDEMPOTENCY_MISMATCH
  | None =>
      s ← operation_session r.(dr_operation_id);
      op ← operation u s rq.(rd_operation) (Some rq.(rd_fence));
      oa ← get KAssignment r.(dr_block).(br_block_version_id);
      a ← need_some oa VERSION_CONFLICT;
      need (assigned_to n (Some a) && bool_decide (a.(a_operation) = op.(o_id))
            && bool_decide (dget r.(dr_block).(br_block_index) op.(o_allocations) = Some r.(dr_block))) VERSION_CONFLICT;;
      need (receipt_fits n r a) CHECKSUM_MISMATCH;;
      record_block n op r;;
      remember u client header (RReceipt r)
  end;;
  mret (done rq.(rd_context) 1).
Definition report_patch (identity : string) (rq : ReportRequest) (client : RequestContext) (header : body)
    : M MutationResult :=
  c ← cfg;
  need (has_leases c) UNSUPPORTED_MODE;;
  let r := rq.(rd_receipt) in
  '(n, u) ← report_subject identity rq.(rd_context) client r;
  previous ← replayed_receipt u client header;
  match previous with
  | Some p => need (bool_decide (p = r)) IDEMPOTENCY_MISMATCH
  | None =>
      s ← operation_session r.(dr_operation_id);
      match header with
      | PatchBlock ref base version offset length sha fence _ =>
          '(op, _, p, a) ← validate_header u s n ref base version offset length sha fence;
          let b := r.(dr_block) in
          let x := p.(w_replacement) in
          need (bool_decide (r.(dr_operation_id) = op.(o_id)) && bool_decide (b.(br_file_id) = x.(br_file_id))
                && bool_decide (b.(br_block_version_id) = x.(br_block_version_id))
                && (b.(br_block_index) =? x.(br_block_index)) && (b.(br_size_bytes) =? x.(br_size_bytes))
                && (slen b.(br_plaintext_sha256) =? 32) && receipt_fits n r a) CHECKSUM_MISMATCH;;
          record_block n op r;;
          remember u client header (RReceipt r)
      | _ => raise PyError
      end
  end;;
  mret (done rq.(rd_context) 1).
Definition ReportDurable (identity : string) (rq : ReportRequest) : M MutationResult :=
  match rq.(rd_patch) with
  | Some (client, header) => report_patch identity rq client header
  | None => report_block identity rq
  end.

(** ** Tasks between nodes *)
Definition task_kind_name (k : task_kind) : string :=
  match k with CopyTask => "copy" | DeleteTask => "delete" end.
Definition task_capability (t : task) : M string :=
  c ← cfg;
  capability t.(t_src) t.(t_id) t.(t_block).(br_block_version_id)
    (join_with ":" (if replicated c
      then [t.(t_dest); task_kind_name t.(t_kind); t.(t_owner); str_Z t.(t_generation)]
      else [t.(t_dest); task_kind_name t.(t_kind)])).

Definition check_task_owner (o : option task) : M unit :=
  m ← maintenance_of;
  need (match o with
        | Some t => (t.(t_generation) =? m.(mt_generation))
                    && bool_decide (t.(t_maintenance_owner) = m.(mt_lease_owner))
        | None => false
        end) LOCK_EXPIRED.
Definition same_boot (l : BlockLocation) : M unit :=
  o ← get KDatanode l.(bl_node_id);
  need (generation_is o l.(bl_boot_generation)) VERSION_CONFLICT.

Definition retired_at_node (e : env) (d : DB) (block node : string) : bool :=
  bool_decide (location_of d block node = None)
  && negb (match d KAssignment !! block with
           | Some a => bool_decide (a.(a_node) = node) && operation_live e d (d KUpload !! a.(a_operation))
           | None => false
           end)
  && negb (existsb (λ t, is_copy t && bool_decide (t.(t_dest) = node)
             && bool_decide (t.(t_block).(br_block_version_id) = block) && live_task e t) (all_db KTask d)).

Definition distributed_AuthorizeInternal (identity : string) (rq : InternalRequest) : M AuthorizationDecision :=
  require_node rq.(in_destination_node_id);;
  (if empty rq.(in_source_node_id) then mret tt else require_node rq.(in_source_node_id));;
  e ← ask; d ← reading (λ _ d, d);
  t ← need_some (d KTask !! rq.(in_task_id)) PERMISSION_DENIED;
  cap ← task_capability t;
  need (live_task e t && bool_decide (rq.(in_block) = t.(t_block)) && bool_decide (rq.(in_task_capability) = cap)
        && bool_decide (rq.(in_source_node_id) = t.(t_src)) && bool_decide (rq.(in_destination_node_id) = t.(t_dest))
        && bool_decide (rq.(in_fence).(fc_lock_id) = t.(t_id))
        && bool_decide (rq.(in_fence).(fc_service_epoch) = e.(e_system).(sy_epoch))) PERMISSION_DENIED;;
  let expected := if decide (rq.(in_action) = READ_REPLICA) then t.(t_src) else t.(t_dest) in
  need (is_peer e identity expected && bool_decide (rq.(in_context).(rc_user_id) = expected)) PERMISSION_DENIED;;
  need (match t.(t_kind) with
        | CopyTask => bool_decide (rq.(in_action) = READ_REPLICA ∨ rq.(in_action) = STORE_REPLICA)
        | DeleteTask => bool_decide (rq.(in_action) = DELETE_RETIRED)
                        && retired_at_node e d rq.(in_block).(br_block_version_id) t.(t_dest)
        end) PERMISSION_DENIED;;
  mret (decision expected t.(t_expires) 0 None 0).
Definition replicated_AuthorizeInternal (identity : string) (rq : InternalRequest) : M AuthorizationDecision :=
  e ← ask; d ← reading (λ _ d, d);
  t ← need_some (d KTask !! rq.(in_task_id)) LOCK_EXPIRED;
  need (bool_decide (t.(t_owner) = e.(e_lease_epoch)) && (t.(t_generation) =? rq.(in_fence).(fc_generation))) LOCK_EXPIRED;;
  need (negb (is_copy t) || bool_decide (rq.(in_block).(br_block_version_id) ∈ (useful e d).*1)) VERSION_CONFLICT;;
  for_each (omap id [t.(t_source); t.(t_destination)]) same_boot;;
  distributed_AuthorizeInternal identity rq.
Definition AuthorizeInternal (identity : string) (rq : InternalRequest) : M AuthorizationDecision :=
  c ← cfg;
  (if is_ha c then o ← get KTask rq.(in_task_id); check_task_owner o else mret tt);;
  if replicated c then replicated_AuthorizeInternal identity rq else distributed_AuthorizeInternal identity rq.

Definition replicated_validate_report (rq : TaskReport) (t : task) (n : datanode) : M unit :=
  e ← ask; d ← reading (λ _ d, d);
  need (bool_decide (t.(t_owner) = e.(e_lease_epoch)) && (rq.(tr_fence).(fc_generation) =? t.(t_generation))
        && bool_decide (rq.(tr_fence).(fc_lock_id) = t.(t_id))) LOCK_EXPIRED;;
  need (negb (is_copy t) || bool_decide (t.(t_block).(br_block_version_id) ∈ (useful e d).*1)) VERSION_CONFLICT;;
  need (active_task t || bool_decide (t.(t_status) = rq.(tr_task))) OPERATION_EXPIRED;;
  if is_copy t then
    need (bool_decide (t.(t_destination) = Some n.(dn_location))) VERSION_CONFLICT;;
    source ← some_or_crash t.(t_source);
    need (generation_is (d KDatanode !! t.(t_src)) source.(bl_boot_generation)) VERSION_CONFLICT
  else mret tt.
Definition validate_task_report (rq : TaskReport) (t : task) (n : datanode) : M unit :=
  c ← cfg;
  (if is_ha c then check_task_owner (Some t) else mret tt);;
  if replicated c then replicated_validate_report rq t n else mret tt.

Definition ReportTask (identity : string) (rq : TaskReport) : M MutationResult :=
  node_peer identity rq.(tr_context) rq.(tr_node_id);;
  ot ← get KTask rq.(tr_task).(ts_task_id);
  require_node rq.(tr_node_id);;
  o ← get KDatanode rq.(tr_node_id);
  t ← need_some ot PERMISSION_DENIED;
  n ← need_some o PERMISSION_DENIED;
  need (bool_decide (t.(t_dest) = rq.(tr_node_id))
        && (n.(dn_location).(bl_boot_generation) =? rq.(tr_boot_generation))) PERMISSION_DENIED;;
  validate_task_report rq t n;;
  if decide (t.(t_status).(ts_state) = FINISHED) then
    need (bool_decide (t.(t_status) = rq.(tr_task))) IDEMPOTENCY_MISMATCH;;
    mret (done rq.(tr_context) 1)
  else
    time ← now;
    need ((time <? t.(t_expires))
          && bool_decide (rq.(tr_task).(ts_state) = FINISHED ∨ rq.(tr_task).(ts_state) = FAILED)) OPERATION_EXPIRED;;
    (if bool_decide (rq.(tr_task).(ts_state) = FINISHED) && is_copy t then
       r ← need_some rq.(tr_task).(ts_receipt) CHECKSUM_MISMATCH;
       x ← some_or_crash t.(t_receipt);
       b ← get KBlock r.(dr_block).(br_block_version_id);
       need (bool_decide (r.(dr_operation_id) = t.(t_id)) && bool_decide (r.(dr_node_id) = n.(dn_id))
             && (r.(dr_boot_generation) =? rq.(tr_boot_generation)) && bool_decide (r.(dr_block) = t.(t_block))
             && (r.(dr_stored_size_bytes) =? x.(dr_stored_size_bytes))
             && bool_decide (r.(dr_ciphertext_sha256) = x.(dr_ciphertext_sha256))
             && bool_decide (is_Some b)) CHECKSUM_MISMATCH;;
       confirm_location r n.(dn_inventory_id)
     else mret tt);;
    put KTask (t <| t_status := rq.(tr_task) |> <| t_reserved := 0 |>);;
    mret (done rq.(tr_context) 1).
End Nodes.
