(* ===== verification/Maintenance.v ===== *)
(** * Maintenance ([collect], [tick], [reconcile], [scrub] of [distributed.py],
    [replication.py] and [ha.py])

    Each pass is a sequence of units of work with calls to data nodes between
    them.  A definition here is one unit of work; what a node answered is its
    argument. *)
From S2P Require Import Prelude Domain Data Store Auth Leases Cluster Placement Requests Queries Commands Access Protection Service Nodes.

Definition failed_status (t : task) : TaskStatus := mkTaskStatus t.(t_id) FAILED None (Some OPERATION_EXPIRED).

(** ** [DistributedControl] *)
(** The second unit of work of [collect]: tasks of dead writes fail, and the
    copies of aborted uploads and failed tasks are retired. *)
Definition fail_dead_write_task (t : task) : M unit :=
  match t.(t_write_operation) with
  | Some i =>
      if active_task t then
        o ← get KUpload i;
        if match o with Some op => preparing op | None => false end then mret tt
        else put KTask (t <| t_status := failed_status t |> <| t_reserved := 0 |>)
      else mret tt
  | None => mret tt
  end.
Definition retire_aborted (a : assignment) : M unit :=
  o ← get KUpload a.(a_operation);
  d ← reading (λ _ d, d);
  match o with
  | Some op =>
      if bool_decide (op.(o_state) = ABORTED ∨ op.(o_state) = EXPIRED)
         && bool_decide (location_of d a.(a_id) a.(a_node) = None)
      then match List.find (λ b, bool_decide (b.(br_block_version_id) = a.(a_id))) op.(o_allocations).*2 with
           | Some b => retire_copy b a.(a_node)
           | None => mret tt
           end
      else mret tt
  | None => mret tt
  end.
Definition collect_tasks : M unit :=
  ts ← all KTask;
  for_each ts fail_dead_write_task;;
  assigned ← all KAssignment;
  for_each assigned retire_aborted;;
  ts ← all KTask;
  for_each ts (λ t,
    if is_copy t && bool_decide (t.(t_status).(ts_state) = FAILED)
    then retire_copy t.(t_block) t.(t_dest) else mret tt).

(** [tick]: the tasks of one pass, and what an expired one becomes. *)
Definition distributed_tick_tasks : M (list task) :=
  ts ← all KTask; mret (take 8 (List.filter active_task ts)).
Definition expire_task (t : task) : M unit :=
  o ← get KTask t.(t_id);
  time ← now;
  cur ← some_or_crash o;
  if active_task cur then
    put KTask (match t.(t_kind) with
               | DeleteTask => cur <| t_expires := time + 300000 |>
               | CopyTask => cur <| t_status := failed_status t |>
               end)
  else mret tt.
(** What [tick] does with one task: wait for its node, expire it, or dispatch it. *)
Inductive tick_step := Waits | Expires | Dispatches.
Definition distributed_tick_step (t : task) : M tick_step :=
  e ← ask;
  o ← get KDatanode t.(t_dest);
  mret (if negb (bool_decide (state e o = READY)) then Waits
        else if t.(t_expires) <=? e.(e_now) then Expires else Dispatches).

(** ** [ReplicatedControl] *)
Definition moved (e : env) (d : DB) (l : BlockLocation) : bool :=
  bool_decide (state e (d KDatanode !! l.(bl_node_id)) = UNAVAILABLE)
  || negb (generation_is (d KDatanode !! l.(bl_node_id)) l.(bl_boot_generation)).
Definition unavailable_task (e : env) (d : DB) (t : task) : bool :=
  existsb (moved e d) (omap id [t.(t_source); t.(t_destination)]).
Definition fail_stale_copy (e : env) (us : list string) (t : task) : M unit :=
  d ← reading (λ _ d, d);
  if is_copy t && active_task t
     && (negb (bool_decide (t.(t_block).(br_block_version_id) ∈ us))
         || negb (bool_decide (t.(t_owner) = e.(e_lease_epoch)))
         || (t.(t_expires) <=? e.(e_now)) || unavailable_task e d t)
  then put KTask (fail_task t) else mret tt.
Definition fail_stale_copies : M unit :=
  e ← ask;
  us ← reading (λ e d, (useful e d).*1);
  ts ← all KTask;
  for_each ts (fail_stale_copy e us).

(** [reconcile]: for each useful block below its target, new copy tasks. *)
Definition covered_domains (e : env) (d : DB) (block : string) : option (list string) :=
  l ← mapM (λ l, domain_of e l.(lo_node)) (eligible e d block);
  t ← mapM (λ t, domain_of e t.(t_dest))
        (List.filter (λ t, is_copy t && bool_decide (t.(t_block).(br_block_version_id) = block) && live_task e t)
           (all_db KTask d));
  Some (remove_dups (l ++ t)).
Definition planned_for (e : env) (d : DB) (block : string) (n : datanode) : bool :=
  match d KReplicaPlan !! block with
  | Some p => bool_decide (n.(dn_id) ∈ p.(rp_destinations)) && operation_live e d (d KUpload !! p.(rp_operation))
  | None => false
  end.
Definition repair_room (e : env) (d : DB) (block : string) (cost : Z) (n : datanode) : bool :=
  let '(used, reserved) := usage e d n in
  (used + reserved + (if planned_for e d block n then 0 else cost) <=? n.(dn_capacity))
  && (reserved + cost <=? n.(dn_free)).
Definition repair_le (e : env) (d : DB) (n m : datanode) : Prop :=
  load_band e d n < load_band e d m
  ∨ (load_band e d n = load_band e d m
     ∧ (n.(dn_active) < m.(dn_active) ∨ (n.(dn_active) = m.(dn_active) ∧ String.le n.(dn_id) m.(dn_id)))).
#[export] Instance repair_le_dec e d : RelDecision (repair_le e d).
Proof. intros n m. unfold repair_le. apply _. Defined.
(** Nodes a repair may use: ready, in a domain without a copy, with room. *)
Definition repair_candidates (e : env) (d : DB) (block : string) (cost : Z) (domains : list string) : list datanode :=
  merge_sort (repair_le e d)
    (List.filter (λ n, bool_decide (state e (Some n) = READY)
       && match domain_of e n.(dn_id) with Some x => negb (bool_decide (x ∈ domains)) | None => false end
       && repair_room e d block cost n) (all_db KDatanode d)).

Definition retry_id (block node : string) : string := block +:+ ":" +:+ node.
Definition retry_delay (attempts : Z) : Z := Z.min 30000 (1000 * 2 ^ Z.min attempts 5).
(** One candidate: skipped while its last failure is recent. *)
Definition repair_on (b : block) (source : location) (cost : Z) (r : Z) (domains : list string) (n : datanode)
    : M (list string) :=
  e ← ask;
  dom ← some_or_crash (domain_of e n.(dn_id));
  if (r <=? zlen domains) || bool_decide (dom ∈ domains) then mret domains
  else
    let i := b.(b_id) in
    o ← get KRepairRetry (retry_id i n.(dn_id));
    let retry := default (mkRepairRetry (retry_id i n.(dn_id)) 0 0) o in
    if e.(e_now) <? retry.(rr_next_run) then mret domains
    else
      os ← get KDatanode source.(lo_node);
      sn ← some_or_crash os;
      t ← new_task CopyTask b.(b_ref) source.(lo_node) n.(dn_id);
      old ← reading (λ _ d, location_of d i n.(dn_id));
      let replaced := match old with
        | Some l => if bool_decide (l.(lo_health) = "CORRUPT") || bool_decide (l.(lo_health) = "MISSING")
                    then l.(lo_receipt).(dr_receipt_id) else ""
        | None => ""
        end in
      put KTask (t <| t_source := Some sn.(dn_location) |> <| t_destination := Some n.(dn_location) |>
                   <| t_receipt := Some source.(lo_receipt) |> <| t_reserved := cost |>
                   <| t_replace_receipt := replaced |>);;
      put KRepairRetry (retry <| rr_attempts ::= Z.succ |>
        <| rr_next_run := e.(e_now) + retry_delay retry.(rr_attempts) |>);;
      mret (dom :: domains).
Definition reconcile_block (q : string * BlockRef) : M unit :=
  let '(i, ref) := q in
  ob ← get KBlock i;
  gone ← get KRetired i;
  match ob, gone with
  | Some b, None =>
      p ← get_policy ref.(br_file_id) false;
      e ← ask; d ← reading (λ _ d, d);
      domains ← some_or_crash (covered_domains e d i);
      match eligible e d i with
      | [] => mret tt
      | source :: _ =>
          if p.(po_r) <=? zlen domains then mret tt
          else
            let cost := storage_cost b.(b_ref).(br_size_bytes) in
            _ ← for_fold (repair_candidates e d i cost domains) domains (repair_on b source cost p.(po_r));
            mret tt
      end
  | _, _ => mret tt
  end.
(** A promotion ends when every block has its target copies, or is blocked when
    its time is over. *)
Definition settle_promotion (us : list (string * BlockRef)) (p : policy) : M unit :=
  if promoting p then
    e ← ask; d ← reading (λ _ d, d);
    let refs := List.filter (λ b, bool_decide (b.(br_file_id) = p.(po_id))) us.*2 in
    let full := forallb (λ b, p.(po_r) <=? zlen (eligible e d b.(br_block_version_id))) refs in
    put KPolicy (if full then p <| po_state := "ACTIVE" |>
                 else if p.(po_until) <=? e.(e_now) then p <| po_state := "PROMOTION_BLOCKED" |> else p)
  else mret tt.
Definition reconcile : M unit :=
  us ← reading useful;
  for_each us reconcile_block;;
  ps ← all KPolicy;
  for_each ps (settle_promotion us).

(** [scrub]: the verified copy checked longest ago, then what its node answered. *)
Inductive verdict := SameReceipt | OtherReceipt | StatusDataLoss | StatusNotFound | StatusOther.
Definition scrub_due (e : env) (d : DB) (l : location) : bool :=
  bool_decide (l.(lo_health) = "VERIFIED") && bool_decide (state e (d KDatanode !! l.(lo_node)) = READY)
  && (l.(lo_checked_at) + e.(e_cfg).(c_scrub_interval_ms) <? e.(e_now)).
Fixpoint oldest (l : location) (ls : list location) : location :=
  match ls with
  | [] => l
  | m :: ls => oldest (if m.(lo_checked_at) <? l.(lo_checked_at) then m else l) ls
  end.
Definition scrub_select : M (option location) :=
  ls ← reading (λ e d, List.filter (scrub_due e d) (all_db KLocation d));
  mret (match ls with [] => None | l :: ls => Some (oldest l ls) end).
Definition health_of (v : verdict) : option string :=
  match v with
  | SameReceipt => Some "VERIFIED"
  | StatusDataLoss => Some "CORRUPT"
  | StatusNotFound => Some "MISSING"
  | OtherReceipt | StatusOther => None
  end.
Definition scrub_record (l : location) (v : verdict) : M unit :=
  match health_of v with
  | None => mret tt
  | Some h =>
      cur ← reading (λ _ d, location_of d l.(lo_block) l.(lo_node));
      t ← now;
      match cur with
      | Some c =>
          if decide (c.(lo_receipt) = l.(lo_receipt)) then
            put KLocation (c <| lo_health := h |> <| lo_checked_at := t |>);;
            if decide (h = "VERIFIED") then mret tt
            else i ← uid; put KHealthEvent (mkHealthEvent i l.(lo_block) l.(lo_node) l.(lo_receipt) h t)
          else mret tt
      | None => mret tt
      end
  end.

(** [clean_orphan_copy]. *)
Definition orphan_select : M (option task) :=
  e ← ask; d ← reading (λ _ d, d);
  let us := (useful e d).*1 in
  mret (head (List.filter (λ t, is_copy t && bool_decide (t.(t_status).(ts_state) = FAILED)
    && negb t.(t_cleanup_checked) && negb (bool_decide (t.(t_block).(br_block_version_id) ∈ us))
    && bool_decide (state e (d KDatanode !! t.(t_dest)) = READY)) (all_db KTask d))).
Definition orphan_record (t : task) (status : TaskStatus) : M unit :=
  us ← reading (λ e d, (useful e d).*1);
  let i := t.(t_block).(br_block_version_id) in
  (match status.(ts_receipt) with
   | Some r =>
       if bool_decide (status.(ts_state) = FINISHED) && bool_decide (r.(dr_block) = t.(t_block))
          && negb (bool_decide (i ∈ us)) then
         retire_copy t.(t_block) t.(t_dest);;
         o ← get KRetirement (location_id i t.(t_dest));
         x ← some_or_crash o;
         ot ← get KTask x.(rm_task);
         dt ← some_or_crash ot;
         put KTask (dt <| t_expected_receipt_id := r.(dr_receipt_id) |>)
       else mret tt
   | None => mret tt
   end);;
  if bool_decide (status.(ts_state) = FINISHED ∨ status.(ts_state) = FAILED) then
    o ← get KTask t.(t_id);
    cur ← some_or_crash o;
    put KTask (cur <| t_cleanup_checked := true |>)
  else mret tt.

(** [tick]: at most one copy and one deletion per pass. *)
Definition urgent_le (e : env) (d : DB) (t u : task) : Prop :=
  let served (t : task) := po_w (policy_at d t.(t_block).(br_file_id))
                           <=? zlen (eligible e d t.(t_block).(br_block_version_id)) in
  (served t = false ∧ served u = true) ∨ (served t = served u ∧ String.le t.(t_id) u.(t_id)).
#[export] Instance urgent_le_dec e d : RelDecision (urgent_le e d).
Proof. intros t u. unfold urgent_le. apply _. Defined.
Definition replicated_tick_tasks : M (list task) :=
  e ← ask; d ← reading (λ _ d, d);
  let active := List.filter (live_task e) (all_db KTask d) in
  let copies := List.filter is_copy active in
  let copies := if e.(e_cfg).(c_etcd) then merge_sort (urgent_le e d) copies else copies in
  let running := List.filter (λ t, t.(t_dispatched)) copies in
  mret (take 1 (if decide (running = []) then copies else running)
        ++ take 1 (List.filter (λ t, negb (is_copy t)) active)).
Definition replicated_tick_ready (t : task) : M bool :=
  e ← ask;
  o ← get KDatanode t.(t_dest);
  mret ((t.(t_next_run) <=? e.(e_now)) && bool_decide (state e o = READY)).
Definition dispatch_delay (attempts : Z) : Z := Z.min 10000 (500 * 2 ^ Z.min attempts 4).
Definition stamp_dispatch (t : task) : M unit :=
  o ← get KTask t.(t_id);
  time ← now;
  cur ← some_or_crash o;
  let cur := cur <| t_attempts ::= Z.succ |> in
  put KTask (cur <| t_dispatched := true |> <| t_next_run := time + dispatch_delay cur.(t_attempts) |>).

(** ** [HAControl] *)
(** Tasks of an earlier maintenance generation fail before anything else. *)
Definition fail_old_generation : M unit :=
  m ← maintenance_of;
  ts ← all KTask;
  for_each ts (λ t,
    if active_task t && negb (t.(t_generation) =? m.(mt_generation)) then put KTask (fail_task t) else mret tt).
(** [install_maintenance_generation]: one increment per owner. *)
Definition install_generation (owner instance : string) : M unit :=
  o ← get KMaintenance "maintenance";
  match o with
  | Some m =>
      if decide (m.(mt_lease_owner) = owner) then mret tt
      else put KMaintenance (mkMaintenance "maintenance" (m.(mt_generation) + 1) owner instance)
  | None => put KMaintenance (mkMaintenance "maintenance" 1 owner instance)
  end.

(** ** [collect], by class: its units of work, in order

    Other requests may commit between two of them.  Before the lease authority
    exists, at start, the replicated control collects as its base class. *)
Definition collect_generation : M unit := c ← cfg; if is_ha c then fail_old_generation else mret tt.
Definition collect_copies : M unit :=
  c ← cfg; if replicated c && has_leases c then fail_stale_copies else mret tt.
Definition collect_base (restart : bool) : M (list string) :=
  c ← cfg; monolith_collect (restart && negb (is_ha c)).
Definition collect_rest : M unit :=
  c ← cfg;
  if bool_decide (c.(c_profile) = PMonolith) || (replicated c && has_leases c) then mret tt else collect_tasks.
Definition collect (restart : bool) : list (M unit) :=
  [ collect_generation; collect_copies; (_ ← collect_base restart; mret tt); collect_rest ].
