(* ===== verification/Startup.v ===== *)
(** * Opening and starting a control ([__init__] of the control classes)

    What a process checks before it owns a store, and the units of work it runs
    before it serves: its locks are gone, its handles closed, its data nodes
    unreconciled and its tasks failed, so nothing of an earlier process is live. *)
From S2P Require Import Prelude Domain Data Store Auth Leases Cluster Placement Requests Queries Commands Access Protection Service Nodes Maintenance.

(** The errors a control refuses to start with: the [RuntimeError]s of
    [Monolith.__init__] and the [Fault] of [need]. *)
Inductive startup_error :=
  | BAD_PROFILE | STORE_NOT_FOUND | MASTER_KEY_MISSING_OR_INVALID | AUTHORITY_MIGRATED
  | PROTECTED_STORE_REQUIRES_REPLICATION_PROFILE | MASTER_KEY_MISMATCH | STORAGE_ALREADY_OPEN.

(** The record [settings/system] as stored: with the digest of the master key and
    the mark a migration leaves. *)
Record authority := mkAuthority { au_system : system; au_key_sha256 : string; au_migrated : bool }.

Section Startup.
Context `{Hash, Unicode, Argon2, Aead, Json, Base64, Wire}.

(** [Monolith.__init__] up to the owner lock: the files and the lock of the
    process are its arguments. *)
Definition open_control (c : config) (sqlite_file : bool) (key : option string)
    (system : option authority) (policies : list policy) (owner_free : bool)
    : result startup_error authority :=
  if negb (bool_decide (c.(c_block_size_bytes) ∈ PROFILES)) then Err BAD_PROFILE
  else if negb (c.(c_etcd) || sqlite_file) then Err STORE_NOT_FOUND
  else match key with
  | None => Err MASTER_KEY_MISSING_OR_INVALID
  | Some k =>
      if negb (slen k =? 32) then Err MASTER_KEY_MISSING_OR_INVALID
      else if match system with Some a => a.(au_migrated) | None => false end then Err AUTHORITY_MIGRATED
      else if negb (replicated c) && bool_decide (Exists (λ p, 1 < p.(po_r)) policies)
      then Err PROTECTED_STORE_REQUIRES_REPLICATION_PROFILE
      else match system with
      | None => Err MASTER_KEY_MISMATCH
      | Some a =>
          if negb (bool_decide (hex (sha256 k) = a.(au_key_sha256))) then Err MASTER_KEY_MISMATCH
          else if negb owner_free then Err STORAGE_ALREADY_OPEN
          else Ok a
      end
  end.

(** [EtcdLeaseAuthority.__init__]: the epoch is shared, not renewed. *)
Definition shared_epoch : M string :=
  o ← get KEpoch epoch_id;
  p ← need_some o NOT_FOUND;
  mret p.(ct_epoch).
(** The lease authority of [DistributedControl.__init__], by class. *)
Definition install_authority : M (option string) :=
  c ← cfg;
  if c.(c_rf3) then Some <$> (if is_ha c then shared_epoch else start_authority) else mret None.

(** The unit of work that closes [DistributedControl.__init__]. *)
Definition reset_nodes : M unit :=
  c ← cfg;
  ns ← (if c.(c_etcd) then mret [] else all KDatanode);
  for_each ns (λ n, put_datanode (n <| dn_seen := 0 |> <| dn_reconciled := false |>)).

(** The unit of work of [ReplicatedControl.__init__]: every file has a policy,
    every location a receipt in the history of its block, no task is live. *)
Definition persist_policies : M unit :=
  ns ← all KNode;
  for_each ns (λ n,
    if decide (n.(n_kind) = File) then
      p ← get_policy n.(n_id) false;
      put KPolicy p
    else mret tt).
Definition restore_history : M unit :=
  ls ← all KLocation;
  for_each ls (λ l,
    o ← get KDurability l.(lo_block);
    let h := default (mkDurability l.(lo_block) []) o in
    put KDurability (h <| du_receipts ::= λ rs,
      match dget l.(lo_node) rs with Some _ => rs | None => dset l.(lo_node) l.(lo_receipt) rs end |>)).
Definition fail_tasks : M unit :=
  c ← cfg;
  ts ← (if c.(c_etcd) then mret [] else all KTask);
  for_each ts (λ t,
    if active_task t then
      put KTask (t <| t_expires := 0 |> <| t_status ::= λ x, x <| ts_state := FAILED |> |> <| t_reserved := 0 |>)
    else mret tt).
Definition replicated_start : M Z :=
  o ← get KEpoch epoch_id;
  boot ← some_or_crash o;
  persist_policies;;
  restore_history;;
  fail_tasks;;
  mret boot.(ct_generation).
(** The check that follows that unit, outside it. *)
Definition domains_declared (c : config) : bool :=
  forallb (λ p, negb (empty p.2.(al_failure_domain))) c.(c_allowed).

(** The first pass of maintenance runs inside [Monolith.__init__], before the
    lease authority exists: handles are then judged by their wall-clock expiry. *)
Definition before_leases {A} (m : M A) : M A := λ e s, m (e <| e_cfg ::= λ c, c <| c_rf3 := false |> |>) s.

(** The units of work of a start, by class, in order.  [HAControl.collect]
    does nothing before the control is ready. *)
Definition start (c : config) : list (M unit) :=
  (if is_ha c then [] else map before_leases (collect true))
  ++ (if bool_decide (c.(c_profile) = PMonolith) then []
      else [ (_ ← install_authority; mret tt); reset_nodes ])
  ++ (if replicated c then [ (_ ← replicated_start; mret tt) ] else []).
End Startup.
