(* ===== verification/UnitFootprints.v ===== *)
(** * Footprints of the units of work

    The tables each unit of work of the services, of maintenance and of a start
    may change. *)
From S2P Require Import Prelude Domain Data Store Auth Leases Cluster Placement Requests Queries Commands Access Protection Footprints Tables Service Nodes Maintenance Startup.

#[global] Hint Opaque start_authority install_authority replicated_start authenticated replay verifier_of remember count_login login_rate login_check login_publish login_form run_query logout_replay precheck monolith_verify_seal distributed_verify_seal verify_seal put_block_check put_block_publish get_block_check expire_write close_dead_handle collect_leases expire_upload monolith_collect peer require_node node_peer abort_assigned RegisterNode Heartbeat report_form own_receipt distributed_report_one distributed_BlockReport replicated_report_one replicated_BlockReport BlockReport receipt_of replayed_receipt authorize_write authorize_read authorize_stream validate_header authorize_patch AuthorizeBlock live_session report_subject record_block operation_session report_block report_patch ReportDurable task_capability check_task_owner same_boot distributed_AuthorizeInternal replicated_AuthorizeInternal AuthorizeInternal replicated_validate_report validate_task_report ReportTask fail_dead_write_task retire_aborted collect_tasks distributed_tick_tasks expire_task distributed_tick_step fail_stale_copy fail_stale_copies repair_on reconcile_block settle_promotion reconcile scrub_select scrub_record orphan_select orphan_record replicated_tick_tasks replicated_tick_ready stamp_dispatch fail_old_generation install_generation collect_generation collect_copies collect_base collect_rest shared_epoch reset_nodes persist_policies restore_history fail_tasks : typeclass_instances.

Lemma writes_seals ks f : writes ks (modify (λ x : st, x <| s_seals ::= f |>) : M unit).
Proof. intros e s a t ->%modify_Ok. by split_and!. Qed.
#[export] Hint Resolve writes_seals : keeps.

Section FpUnits.
Context `{Hash, Unicode, Argon2, Aead, Json, Base64, Wire, NodeWire}.
(** ** The control service *)
#[export] Instance fp_authenticated x0 x1 : Footprint [] (authenticated x0 x1).
Proof. unfold Footprint, authenticated. solve_keeps. Qed.
#[export] Instance fp_replay x0 x1 x2 : Footprint [] (replay x0 x1 x2).
Proof. unfold Footprint, replay. solve_keeps. Qed.
#[export] Instance fp_verifier_of x0 : Footprint [] (verifier_of x0).
Proof. unfold Footprint, verifier_of. solve_keeps. Qed.
#[export] Instance fp_remember x0 x1 x2 x3 : Footprint [KLedger] (remember x0 x1 x2 x3).
Proof. unfold Footprint, remember. solve_keeps. Qed.
#[export] Instance fp_count_login x0 x1 : Footprint [KRate] (count_login x0 x1).
Proof. unfold Footprint, count_login. solve_keeps. Qed.
#[export] Instance fp_login_rate x0 : Footprint [KRate] (login_rate x0).
Proof. unfold Footprint, login_rate. solve_keeps. Qed.
#[export] Instance fp_login_check x0 : Footprint [] (login_check x0).
Proof. unfold Footprint, login_check. solve_keeps. Qed.
#[export] Instance fp_login_publish x0 x1 : Footprint [KSession; KLoginResult] (login_publish x0 x1).
Proof. unfold Footprint, login_publish. solve_keeps. Qed.
#[export] Instance fp_login_form x0 : Footprint [KRate] (login_form x0).
Proof. unfold Footprint, login_form. solve_keeps. Qed.
#[export] Instance fp_run_query x0 x1 : Footprint [] (run_query x0 x1).
Proof. unfold Footprint, run_query. solve_keeps. Qed.
#[export] Instance fp_logout_replay x0 x1 : Footprint [] (logout_replay x0 x1).
Proof. unfold Footprint, logout_replay. solve_keeps. Qed.
#[export] Instance fp_precheck x0 x1 : Footprint [] (precheck x0 x1).
Proof. unfold Footprint, precheck. solve_keeps. Qed.
#[export] Instance fp_monolith_verify_seal x0 x1 x2 : Footprint [] (monolith_verify_seal x0 x1 x2).
Proof. unfold Footprint, monolith_verify_seal. solve_keeps. Qed.
#[export] Instance fp_distributed_verify_seal x0 : Footprint [] (distributed_verify_seal x0).
Proof. unfold Footprint, distributed_verify_seal. solve_keeps. Qed.
#[export] Instance fp_verify_seal x0 x1 x2 : Footprint [] (verify_seal x0 x1 x2).
Proof. unfold Footprint, verify_seal. solve_keeps. Qed.
#[export] Instance fp_put_block_check x0 x1 x2 x3 x4 x5 : Footprint [] (put_block_check x0 x1 x2 x3 x4 x5).
Proof. unfold Footprint, put_block_check. solve_keeps. Qed.
#[export] Instance fp_put_block_publish x0 x1 x2 x3 x4 x5 x6 x7 : Footprint [KBlock; KUpload; KLedger] (put_block_publish x0 x1 x2 x3 x4 x5 x6 x7).
Proof. unfold Footprint, put_block_publish. solve_keeps. Qed.
#[export] Instance fp_get_block_check x0 x1 x2 x3 x4 x5 x6 x7 : Footprint [] (get_block_check x0 x1 x2 x3 x4 x5 x6 x7).
Proof. unfold Footprint, get_block_check. solve_keeps. Qed.
#[export] Instance fp_expire_write x0 : Footprint [KUpload; KLock; KHandle] (expire_write x0).
Proof. unfold Footprint, expire_write. solve_keeps. Qed.
#[export] Instance fp_close_dead_handle x0 : Footprint [KHandle] (close_dead_handle x0).
Proof. unfold Footprint, close_dead_handle. solve_keeps. Qed.
#[export] Instance fp_collect_leases : Footprint [KUpload; KLock; KHandle] (collect_leases).
Proof. unfold Footprint, collect_leases. solve_keeps. Qed.
#[export] Instance fp_expire_upload x0 x1 : Footprint [KUpload] (expire_upload x0 x1).
Proof. unfold Footprint, expire_upload. solve_keeps. Qed.
#[export] Instance fp_monolith_collect x0 : Footprint [KSnapshot; KUpload; KLock; KHandle; KTask; KRetirement; KLocation; KBlock; KRetired] (monolith_collect x0).
Proof. unfold Footprint, monolith_collect. solve_keeps. Qed.
(** ** Services for data nodes *)
#[export] Instance fp_peer x0 : Footprint [] (peer x0).
Proof. unfold Footprint, peer. solve_keeps. Qed.
#[export] Instance fp_require_node x0 : Footprint [] (require_node x0).
Proof. unfold Footprint, require_node. solve_keeps. Qed.
#[export] Instance fp_node_peer x0 x1 x2 : Footprint [] (node_peer x0 x1 x2).
Proof. unfold Footprint, node_peer. solve_keeps. Qed.
#[export] Instance fp_abort_assigned x0 : Footprint [KUpload] (abort_assigned x0).
Proof. unfold Footprint, abort_assigned. solve_keeps. Qed.
#[export] Instance fp_RegisterNode x0 x1 : Footprint [KUpload; KDatanode] (RegisterNode x0 x1).
Proof. unfold Footprint, RegisterNode. solve_keeps. Qed.
#[export] Instance fp_Heartbeat x0 x1 : Footprint [KDatanode] (Heartbeat x0 x1).
Proof. unfold Footprint, Heartbeat. solve_keeps. Qed.
#[export] Instance fp_report_form x0 x1 : Footprint [] (report_form x0 x1).
Proof. unfold Footprint, report_form. solve_keeps. Qed.
#[export] Instance fp_own_receipt x0 x1 : Footprint [] (own_receipt x0 x1).
Proof. unfold Footprint, own_receipt. solve_keeps. Qed.
#[export] Instance fp_distributed_report_one x0 x1 : Footprint [KLocation; KTask; KRetirement] (distributed_report_one x0 x1).
Proof. unfold Footprint, distributed_report_one. solve_keeps. Qed.
#[export] Instance fp_distributed_BlockReport x0 x1 : Footprint [KLocation; KTask; KRetirement; KDatanode] (distributed_BlockReport x0 x1).
Proof. unfold Footprint, distributed_BlockReport. solve_keeps. Qed.
#[export] Instance fp_replicated_report_one x0 x1 : Footprint [KLocation; KTask; KDurability; KRetirement] (replicated_report_one x0 x1).
Proof. unfold Footprint, replicated_report_one. solve_keeps. Qed.
#[export] Instance fp_replicated_BlockReport x0 x1 : Footprint [KLocation; KTask; KDurability; KRetirement; KDatanode] (replicated_BlockReport x0 x1).
Proof. unfold Footprint, replicated_BlockReport. solve_keeps. Qed.
#[export] Instance fp_BlockReport x0 x1 : Footprint [KLocation; KTask; KDurability; KRetirement; KDatanode] (BlockReport x0 x1).
Proof. unfold Footprint, BlockReport. solve_keeps. Qed.
#[export] Instance fp_receipt_of x0 : Footprint [] (receipt_of x0).
Proof. unfold Footprint, receipt_of. solve_keeps. Qed.
#[export] Instance fp_replayed_receipt x0 x1 x2 : Footprint [] (replayed_receipt x0 x1 x2).
Proof. unfold Footprint, replayed_receipt. solve_keeps. Qed.
#[export] Instance fp_authorize_write x0 x1 x2 x3 : Footprint [] (authorize_write x0 x1 x2 x3).
Proof. unfold Footprint, authorize_write. solve_keeps. Qed.
#[export] Instance fp_authorize_read x0 x1 x2 x3 : Footprint [] (authorize_read x0 x1 x2 x3).
Proof. unfold Footprint, authorize_read. solve_keeps. Qed.
#[export] Instance fp_authorize_stream x0 x1 x2 x3 x4 `{!Footprint [] x4} : Footprint [] (authorize_stream x0 x1 x2 x3 x4).
Proof. unfold Footprint, authorize_stream. solve_keeps. Qed.
#[export] Instance fp_validate_header x0 x1 x2 x3 x4 x5 x6 x7 x8 x9 : Footprint [] (validate_header x0 x1 x2 x3 x4 x5 x6 x7 x8 x9).
Proof. unfold Footprint, validate_header. solve_keeps. Qed.
#[export] Instance fp_authorize_patch x0 x1 : Footprint [] (authorize_patch x0 x1).
Proof. unfold Footprint, authorize_patch. solve_keeps. Qed.
#[export] Instance fp_AuthorizeBlock x0 x1 : Footprint [] (AuthorizeBlock x0 x1).
Proof. unfold Footprint, AuthorizeBlock. solve_keeps. Qed.
#[export] Instance fp_live_session x0 : Footprint [] (live_session x0).
Proof. unfold Footprint, live_session. solve_keeps. Qed.
#[export] Instance fp_report_subject x0 x1 x2 x3 : Footprint [] (report_subject x0 x1 x2 x3).
Proof. unfold Footprint, report_subject. solve_keeps. Qed.
#[export] Instance fp_record_block x0 x1 x2 : Footprint [KBlock; KLocation; KDurability] (record_block x0 x1 x2).
Proof. unfold Footprint, record_block. solve_keeps. Qed.
#[export] Instance fp_operation_session x0 : Footprint [] (operation_session x0).
Proof. unfold Footprint, operation_session. solve_keeps. Qed.
#[export] Instance fp_report_block x0 x1 : Footprint [KBlock; KLocation; KDurability; KLedger] (report_block x0 x1).
Proof. unfold Footprint, report_block. solve_keeps. Qed.
#[export] Instance fp_report_patch x0 x1 x2 x3 : Footprint [KBlock; KLocation; KDurability; KLedger] (report_patch x0 x1 x2 x3).
Proof. unfold Footprint, report_patch. solve_keeps. Qed.
#[export] Instance fp_ReportDurable x0 x1 : Footprint [KBlock; KLocation; KDurability; KLedger] (ReportDurable x0 x1).
Proof. unfold Footprint, ReportDurable. solve_keeps. Qed.
#[export] Instance fp_task_capability x0 : Footprint [] (task_capability x0).
Proof. unfold Footprint, task_capability. solve_keeps. Qed.
#[export] Instance fp_check_task_owner x0 : Footprint [] (check_task_owner x0).
Proof. unfold Footprint, check_task_owner. solve_keeps. Qed.
#[export] Instance fp_same_boot x0 : Footprint [] (same_boot x0).
Proof. unfold Footprint, same_boot. solve_keeps. Qed.
#[export] Instance fp_distributed_AuthorizeInternal x0 x1 : Footprint [] (distributed_AuthorizeInternal x0 x1).
Proof. unfold Footprint, distributed_AuthorizeInternal. solve_keeps. Qed.
#[export] Instance fp_replicated_AuthorizeInternal x0 x1 : Footprint [] (replicated_AuthorizeInternal x0 x1).
Proof. unfold Footprint, replicated_AuthorizeInternal. solve_keeps. Qed.
#[export] Instance fp_AuthorizeInternal x0 x1 : Footprint [] (AuthorizeInternal x0 x1).
Proof. unfold Footprint, AuthorizeInternal. solve_keeps. Qed.
#[export] Instance fp_replicated_validate_report x0 x1 x2 : Footprint [] (replicated_validate_report x0 x1 x2).
Proof. unfold Footprint, replicated_validate_report. solve_keeps. Qed.
#[export] Instance fp_validate_task_report x0 x1 x2 : Footprint [] (validate_task_report x0 x1 x2).
Proof. unfold Footprint, validate_task_report. solve_keeps. Qed.
#[export] Instance fp_ReportTask x0 x1 : Footprint [KTask; KLocation; KDurability] (ReportTask x0 x1).
Proof. unfold Footprint, ReportTask. solve_keeps. Qed.
(** ** Maintenance *)
#[export] Instance fp_fail_dead_write_task x0 : Footprint [KTask] (fail_dead_write_task x0).
Proof. unfold Footprint, fail_dead_write_task. solve_keeps. Qed.
#[export] Instance fp_retire_aborted x0 : Footprint [KTask; KRetirement] (retire_aborted x0).
Proof. unfold Footprint, retire_aborted. solve_keeps. Qed.
#[export] Instance fp_collect_tasks : Footprint [KTask; KRetirement] (collect_tasks).
Proof. unfold Footprint, collect_tasks. solve_keeps. Qed.
#[export] Instance fp_distributed_tick_tasks : Footprint [] (distributed_tick_tasks).
Proof. unfold Footprint, distributed_tick_tasks. solve_keeps. Qed.
#[export] Instance fp_expire_task x0 : Footprint [KTask] (expire_task x0).
Proof. unfold Footprint, expire_task. solve_keeps. Qed.
#[export] Instance fp_distributed_tick_step x0 : Footprint [] (distributed_tick_step x0).
Proof. unfold Footprint, distributed_tick_step. solve_keeps. Qed.
#[export] Instance fp_fail_stale_copy x0 x1 x2 : Footprint [KTask] (fail_stale_copy x0 x1 x2).
Proof. unfold Footprint, fail_stale_copy. solve_keeps. Qed.
#[export] Instance fp_fail_stale_copies : Footprint [KTask] (fail_stale_copies).
Proof. unfold Footprint, fail_stale_copies. solve_keeps. Qed.
#[export] Instance fp_repair_on x0 x1 x2 x3 x4 x5 : Footprint [KTask; KRepairRetry] (repair_on x0 x1 x2 x3 x4 x5).
Proof. unfold Footprint, repair_on. solve_keeps. Qed.
#[export] Instance fp_reconcile_block x0 : Footprint [KTask; KRepairRetry] (reconcile_block x0).
Proof. unfold Footprint, reconcile_block. destruct x0 as [i b]. solve_keeps. Qed.
#[export] Instance fp_settle_promotion x0 x1 : Footprint [KPolicy] (settle_promotion x0 x1).
Proof. unfold Footprint, settle_promotion. solve_keeps. Qed.
#[export] Instance fp_reconcile : Footprint [KTask; KRepairRetry; KPolicy] (reconcile).
Proof. unfold Footprint, reconcile. solve_keeps. Qed.
#[export] Instance fp_scrub_select : Footprint [] (scrub_select).
Proof. unfold Footprint, scrub_select. solve_keeps. Qed.
#[export] Instance fp_scrub_record x0 x1 : Footprint [KLocation; KHealthEvent] (scrub_record x0 x1).
Proof. unfold Footprint, scrub_record. solve_keeps. Qed.
#[export] Instance fp_orphan_select : Footprint [] (orphan_select).
Proof. unfold Footprint, orphan_select. solve_keeps. Qed.
#[export] Instance fp_orphan_record x0 x1 : Footprint [KTask; KRetirement] (orphan_record x0 x1).
Proof. unfold Footprint, orphan_record. solve_keeps. Qed.
#[export] Instance fp_replicated_tick_tasks : Footprint [] (replicated_tick_tasks).
Proof. unfold Footprint, replicated_tick_tasks. solve_keeps. Qed.
#[export] Instance fp_replicated_tick_ready x0 : Footprint [] (replicated_tick_ready x0).
Proof. unfold Footprint, replicated_tick_ready. solve_keeps. Qed.
#[export] Instance fp_stamp_dispatch x0 : Footprint [KTask] (stamp_dispatch x0).
Proof. unfold Footprint, stamp_dispatch. solve_keeps. Qed.
#[export] Instance fp_fail_old_generation : Footprint [KTask] (fail_old_generation).
Proof. unfold Footprint, fail_old_generation. solve_keeps. Qed.
#[export] Instance fp_install_generation x0 x1 : Footprint [KMaintenance] (install_generation x0 x1).
Proof. unfold Footprint, install_generation. solve_keeps. Qed.
#[export] Instance fp_collect_generation : Footprint [KTask] (collect_generation).
Proof. unfold Footprint, collect_generation. solve_keeps. Qed.
#[export] Instance fp_collect_copies : Footprint [KTask] (collect_copies).
Proof. unfold Footprint, collect_copies. solve_keeps. Qed.
#[export] Instance fp_collect_base x0 : Footprint [KSnapshot; KUpload; KLock; KHandle; KTask; KRetirement; KLocation; KBlock; KRetired] (collect_base x0).
Proof. unfold Footprint, collect_base. solve_keeps. Qed.
#[export] Instance fp_collect_rest : Footprint [KTask; KRetirement] (collect_rest).
Proof. unfold Footprint, collect_rest. solve_keeps. Qed.
(** ** Startup *)
Lemma fp_before_leases {A} ks (m : M A) : Footprint ks m → Footprint ks (before_leases m).
Proof. intros Hm e s a t Hr. exact (Hm _ _ _ _ Hr). Qed.
#[export] Instance fp_start_authority : Footprint [KEpoch; KHandle; KLock] start_authority.
Proof. unfold Footprint, start_authority. solve_keeps. Qed.
#[export] Instance fp_shared_epoch : Footprint [] (shared_epoch).
Proof. unfold Footprint, shared_epoch. solve_keeps. Qed.
#[export] Instance fp_reset_nodes : Footprint [KDatanode] (reset_nodes).
Proof. unfold Footprint, reset_nodes. solve_keeps. Qed.
#[export] Instance fp_persist_policies : Footprint [KPolicy] (persist_policies).
Proof. unfold Footprint, persist_policies. solve_keeps. Qed.
#[export] Instance fp_restore_history : Footprint [KDurability] (restore_history).
Proof. unfold Footprint, restore_history. solve_keeps. Qed.
#[export] Instance fp_fail_tasks : Footprint [KTask] (fail_tasks).
Proof. unfold Footprint, fail_tasks. solve_keeps. Qed.
#[export] Instance fp_install_authority : Footprint [KEpoch; KHandle; KLock] install_authority.
Proof. unfold Footprint, install_authority. solve_keeps. Qed.
#[export] Instance fp_replicated_start : Footprint [KPolicy; KDurability; KTask] replicated_start.
Proof. unfold Footprint, replicated_start. solve_keeps. Qed.
End FpUnits.
