(* ===== verification/Uploads.v ===== *)
(** * The life of an upload

    Every operation that writes the table of uploads moves each record along the
    state machine of [OperationState], keeps its identity and releases its
    reservation when it ends. *)
From S2P Require Import Prelude Domain Data Store Auth Leases Cluster Placement Requests Queries Commands Access Protection Footprints Tables Service Nodes Maintenance Startup UnitFootprints.

(** A pending upload may end in any state; one that was not committed may still
    be aborted, which changes nothing for one that was. *)
Definition next_state (a b : OperationState) : Prop :=
  a = b ∨ a = PREPARING ∨ (a ≠ COMMITTED ∧ b = ABORTED).
(** An upload that ended holds no reservation. *)
Definition tidy (o : upload) : Prop := o.(o_state) = PREPARING ∨ o.(o_reserved) = 0.
Record upload_step (o o' : upload) : Prop := mkUploadStep {
  us_id : o'.(o_id) = o.(o_id);
  us_operation : o'.(o_operation) = o.(o_operation);
  us_owner : (o'.(o_user), o'.(o_session)) = (o.(o_user), o.(o_session));
  us_target : (o'.(o_file), o'.(o_base), o'.(o_parent), o'.(o_name)) = (o.(o_file), o.(o_base), o.(o_parent), o.(o_name));
  us_state : next_state o.(o_state) o'.(o_state);
  us_tidy : tidy o → tidy o' }.

#[export] Instance upload_step_preorder : PreOrder upload_step.
Proof.
  split.
  - intros o. split; try done. by left.
  - intros o1 o2 o3 [] []. split; try congruence; try tauto. unfold next_state in *. intuition congruence.
Qed.

(** What a new upload may be: closed under the steps, and true of the operation of
    a range write, which always replaces a snapshot. *)
Class Births (new : upload → Prop) := {
  births_step o o' : new o → upload_step o o' → new o';
  births_write o : tidy o → is_Some o.(o_base) → new o }.
#[export] Hint Extern 0 (Births _) => typeclasses eauto : keeps.
Definition replacing (o : upload) : Prop := is_Some o.(o_base).
#[export] Instance births_tidy : Births tidy.
Proof. split; [|done]. intros o o' Hn Hs. by apply (us_tidy o o'). Qed.
#[export] Instance births_replacing : Births replacing.
Proof. split; [|done]. unfold replacing. by intros o o' Hn [_ _ _ [= _ -> _ _] _ _]. Qed.

Abbreviation uploads_grow new := (grows KUpload upload_step new).
#[export] Instance uploads_coarse new `{!Births new} : Coarse KUpload (uploads_grow new) :=
  grows_coarse KUpload upload_step new births_step.
#[export] Instance uploads_preorder new `{!Births new} e : PreOrder (uploads_grow new e) := coarse_preorder e.

(** A step that keeps the state and the reservation. *)
Ltac same_state := split; [done..|by left|done].
Ltac upload_put := eapply (grows_put KUpload upload_step _); [found KUpload|].

Ltac uploads_put := back KUpload; upload_put; same_state.
Section Found.
Context `{Hash, Unicode, Argon2, Aead, Json, Base64, Wire, NodeWire}.
Lemma abort_step o : o.(o_state) ≠ COMMITTED → upload_step o (abort_op o).
Proof. intros Hs. split; try done; [by right; right|by right]. Qed.
Lemma preparing_true o : preparing o = true → o.(o_state) = PREPARING.
Proof. unfold preparing. by rewrite bool_decide_eq_true. Qed.

(** What [operation] finds. *)
Lemma base_operation_found u s ref f e s0 op s1 : base_operation u s ref f e s0 = Ok (op, s1) →
  s0.(s_db) KUpload !! ref.(or_operation_id) = Some op ∧ preparing op = true ∧ op.(o_operation) = ref.
Proof. unfold base_operation. intros Hr. runs. by split_and!. Qed.
Lemma operation_found u s ref f e s0 op s1 : operation u s ref f e s0 = Ok (op, s1) →
  s0.(s_db) KUpload !! ref.(or_operation_id) = Some op ∧ preparing op = true ∧ op.(o_operation) = ref.
Proof.
  unfold operation. intros Hr. runs. destruct (has_leases _); [|by eapply base_operation_found].
  unfold access_operation in *. runs. by eapply base_operation_found.
Qed.
Lemma operation_here u s ref f e s0 op s1 : operation u s ref f e s0 = Ok (op, s1) → keyed s0.(s_db) →
  s0.(s_db) KUpload !! o_id op = Some op ∧ preparing op = true.
Proof. intros (Hl & Hp & _)%operation_found Hk. pose proof (Hk KUpload _ _ Hl) as E. simpl in E. by rewrite E. Qed.
Lemma write_operation_found u s ref e s0 op w h n cur s1 : write_operation u s ref e s0 = Ok ((op, w, h, n, cur), s1) →
  s0.(s_db) KUpload !! ref.(or_operation_id) = Some op ∧ preparing op = true ∧ op.(o_write) = Some w ∧ op.(o_operation) = ref.
Proof. unfold write_operation. intros Hr. runs. by split_and!. Qed.
Lemma write_operation_here u s ref e s0 op w h n cur s1 : write_operation u s ref e s0 = Ok ((op, w, h, n, cur), s1) →
  keyed s0.(s_db) → s0.(s_db) KUpload !! o_id op = Some op ∧ preparing op = true.
Proof. intros (Hl & Hp & _)%write_operation_found Hk. pose proof (Hk KUpload _ _ Hl) as E. simpl in E. by rewrite E. Qed.
End Found.
Ltac states :=
  repeat match goal with Hp : preparing _ = true |- _ => apply preparing_true in Hp end; congruence.

Ltac here :=
  repeat match goal with Hl : Some _ = s_db _ _ !! _ |- _ => symmetry in Hl end;
  repeat match goal with Hl : s_db ?s KUpload !! _ = Some _ |- _ =>
    lazymatch goal with _ : keyed (s_db s) |- _ => fail | _ => idtac end;
    assert (keyed (s_db s)) by keyed_back end;
  repeat match goal with Ho : operation _ _ _ _ _ ?s = Ok _ |- _ =>
    lazymatch goal with _ : keyed (s_db s) |- _ => fail | _ => idtac end;
    assert (keyed (s_db s)) by keyed_back end;
  repeat match goal with
  | Ho : operation _ _ _ _ ?e ?s = Ok (?op, _), Hk : keyed (s_db ?s) |- _ =>
      lazymatch goal with
      | _ : s_db s KUpload !! o_id op = Some op |- _ => fail
      | _ => destruct (operation_here _ _ _ _ _ _ _ _ Ho Hk)
      end
  | Ho : write_operation _ _ _ ?e ?s = Ok ((?op, _, _, _, _), _), Hk : keyed (s_db ?s) |- _ =>
      lazymatch goal with
      | _ : s_db s KUpload !! o_id op = Some op |- _ => fail
      | _ => destruct (write_operation_here _ _ _ _ _ _ _ _ _ _ _ Ho Hk)
      end
  | Hl : s_db ?s KUpload !! ?i = Some ?op, Hk : keyed (s_db ?s) |- _ =>
      lazymatch goal with
      | _ : s_db s KUpload !! o_id op = Some op |- _ => fail
      | _ => let E := fresh in pose proof (Hk KUpload i op Hl) as E; change (o_id op = i) in E;
             assert (s_db s KUpload !! o_id op = Some op) by (by rewrite E); clear E
      end
  end.
Ltac begin := refine (keeps_grows _ _); intros e s0 x0 t0 _ Hk _ Hr.

Ltac ends := split; [done..|right; left; by apply preparing_true|by right].

Section Uploads.
Context `{Hash, Unicode, Argon2, Aead, Json, Base64, Wire, NodeWire} (new : upload → Prop) `{BN : !Births new}.
Set Default Proof Using "Type*".

Lemma up_abort_uploads_of f : keeps (uploads_grow new) (abort_uploads_of f).
Proof.
  refine (keeps_grows _ _). intros e s u s' _ Hk _ Hr. unfold abort_uploads_of in Hr. runs. rows_of KUpload. clear Hk. intros o s0 u0 s1 Ho Hr. destruct (_ && _) eqn:E; runs; [|by split].
  split; [|by apply (only_at_put KUpload)]. upload_put. apply abort_step. states.
Qed.

Lemma up_base_renew_upload u s ref : keeps (uploads_grow new) (base_renew_upload u s ref).
Proof. begin. unfold base_renew_upload in Hr. runs. here. back KUpload. upload_put; same_state. Qed.
Lemma allocate_step u op bs acc e s acc' s' :
  upload_step op acc.1 → for_fold bs acc (allocate_one u) e s = Ok (acc', s') → upload_step op acc'.1.
Proof.
  intros Ho Hr. revert Ho Hr. apply (for_fold_inv (λ acc, upload_step op acc.1)).
  clear. intros [op1 ps] b s [op2 ps'] s' Hop Hr. simpl in *. transitivity op1; [done|].
  unfold allocate_one in Hr. runs. destruct (dget _ _); runs; [done|same_state].
Qed.
Lemma up_allocate_blocks u s ref f bs : keeps (uploads_grow new) (allocate_blocks u s ref f bs).
Proof.
  begin. unfold allocate_blocks in Hr. runs. here.
  match goal with Hf : for_fold _ _ _ _ _ = _ |- _ =>
    pose proof (allocate_step _ _ _ _ _ _ _ _ (reflexivity v) Hf) as Hs end.
  simpl in Hs. back KUpload. eapply (grows_put KUpload upload_step new); [|done]. simpl. rewrite (us_id _ _ Hs). found KUpload.
Qed.
Lemma up_stage_manifest_page u s rq ref f i bs h : keeps (uploads_grow new) (stage_manifest_page u s rq ref f i bs h).
Proof. begin. unfold stage_manifest_page in Hr. runs. here. back KUpload. upload_put; same_state. Qed.
Lemma up_seal_manifest u s ref f p b t h : keeps (uploads_grow new) (seal_manifest u s ref f p b t h).
Proof. begin. unfold seal_manifest in Hr. runs. here. back KUpload. upload_put; same_state. Qed.
Lemma up_base_abort_upload u s c ref : keeps (uploads_grow new) (base_abort_upload u s c ref).
Proof. begin. unfold base_abort_upload in Hr. runs. here. back KUpload. upload_put; by apply abort_step. Qed.

Lemma up_base_commit_upload u s ref f l : keeps (uploads_grow new) (base_commit_upload u s ref f l).
Proof. begin. unfold base_commit_upload in Hr. runs. here. back KUpload. upload_put. ends. Qed.
Hint Resolve up_base_renew_upload up_allocate_blocks up_stage_manifest_page up_seal_manifest up_base_abort_upload
  up_base_commit_upload up_abort_uploads_of : keeps.
Lemma up_cluster_commit_upload u s ref f l : keeps (uploads_grow new) (cluster_commit_upload u s ref f l).
Proof. unfold cluster_commit_upload. solve_keeps. Qed.
Lemma up_base_remove u c p d : keeps (uploads_grow new) (base_remove u c p d).
Proof. unfold base_remove. solve_keeps. Qed.
Hint Resolve up_cluster_commit_upload up_base_remove : keeps.

Lemma up_access_renew_handle u s h : keeps (uploads_grow new) (access_renew_handle u s h).
Proof.
  begin. unfold access_renew_handle in Hr. runs.
  destruct (_ ≫= _) as [op|] eqn:Hop; [apply bind_Some in Hop as (i & _ & Hop)|]; here; [|runs; back KUpload].
  destruct (_ && _) eqn:E; runs; back KUpload. upload_put. same_state.
Qed.
Hint Resolve up_access_renew_handle : keeps.
Lemma up_access_renew_upload u s ref : keeps (uploads_grow new) (access_renew_upload u s ref).
Proof. unfold access_renew_upload. solve_keeps. Qed.
Lemma up_access_commit_upload u s ref f l : keeps (uploads_grow new) (access_commit_upload u s ref f l).
Proof. begin. unfold access_commit_upload in Hr. runs. here. back KUpload. upload_put. same_state. Qed.
Lemma up_access_abort_upload u s c ref : keeps (uploads_grow new) (access_abort_upload u s c ref).
Proof. unfold access_abort_upload. solve_keeps. Qed.
Lemma up_access_remove u c p d : keeps (uploads_grow new) (access_remove u c p d).
Proof. unfold access_remove. solve_keeps. Qed.
Lemma up_abort_write u s c ref : keeps (uploads_grow new) (abort_write u s c ref).
Proof. begin. unfold abort_write in Hr. runs. here. back KUpload. upload_put. by apply abort_step. Qed.
Hint Resolve up_access_renew_upload up_access_commit_upload up_access_abort_upload up_access_remove up_abort_write : keeps.

Lemma up_access_commit_write u s ref h x fs cs : keeps (uploads_grow new) (access_commit_write u s ref h x fs cs).
Proof. begin. unfold access_commit_write in Hr. runs. here. back KUpload. upload_put. ends. Qed.

(** Planning keeps the operation it was given at its place. *)
Definition planned_at (op0 : upload) (acc : upload * write_ext * list PlannedBlock) (s : st) : Prop :=
  s.(s_db) KUpload !! acc.1.1.(o_id) = Some acc.1.1 ∧ upload_step op0 acc.1.1
  ∧ (acc.1.1.(o_state), acc.1.1.(o_reserved)) = (op0.(o_state), op0.(o_reserved)).
Lemma plan_part_at u n sn op0 acc p e s acc' s' :
  planned_at op0 acc s → plan_part u n sn acc p e s = Ok (acc', s') → planned_at op0 acc' s' ∧ uploads_grow new e s s'.
Proof.
  destruct acc as [[op w] l]. intros (Ho & Hs & Hp) Hr. cbn [fst snd] in *. unfold plan_part in Hr. runs. split.
  - split_and!; [apply (lookup_put KUpload)| |simpl; congruence]. etrans; [exact Hs|]. same_state.
  - back KUpload. upload_put. same_state.
Qed.
Lemma plan_parts_at u n sn op0 acc ps e s acc' s' :
  planned_at op0 acc s → for_fold ps acc (plan_part u n sn) e s = Ok (acc', s') → planned_at op0 acc' s' ∧ uploads_grow new e s s'.
Proof.
  apply (for_fold_run (planned_at op0) (uploads_grow new e)). intros b p s1 b' s2. apply plan_part_at.
Qed.
Lemma up_access_begin_write u s c rq : keeps (uploads_grow new) (access_begin_write u s c rq).
Proof.
  begin. unfold access_begin_write in Hr. runs.
  match goal with Hf : for_fold _ (?o, _, _) _ _ ?sp = Ok _ |- _ =>
    assert (uploads_grow new e s0 sp) as H1s by (peel KUpload; drawn KUpload; apply births_write; [by left|done]);
    apply (plan_parts_at _ _ _ o) in Hf as ((Hat & Hst & Hop) & Hg); [|by split_and!; [apply (lookup_put KUpload)|..]] end.
  cbn [fst snd] in *. injection Hop as Hstate Hres.
  transitivity s11; [by etrans|]. clear H1s Hg.
  destruct (negb _); runs; back KUpload; upload_put; [same_state|].
  split; [done..|by right; left|by right].
Qed.
Hint Resolve up_access_commit_write up_access_begin_write : keeps.

(** ** Protected commands *)
Lemma up_protection_begin_write u s c rq : keeps (uploads_grow new) (protection_begin_write u s c rq).
Proof.
  begin. unfold protection_begin_write, capture_policy, policy_result, get_op in Hr. runs. here.
  case_decide; runs; here; back KUpload; upload_put; same_state.
Qed.
Lemma up_protection_open u s p m : keeps (uploads_grow new) (protection_open u s p m).
Proof. unfold protection_open. solve_keeps. Qed.
Lemma up_protection_commit_upload u s r f l : keeps (uploads_grow new) (protection_commit_upload u s r f l).
Proof. begin. unfold protection_commit_upload, policy_result, get_op in Hr. runs. here. uploads_put. Qed.
Lemma up_protection_commit_write u s r h x f cs : keeps (uploads_grow new) (protection_commit_write u s r h x f cs).
Proof. begin. unfold protection_commit_write, policy_result, get_op in Hr. runs. here. uploads_put. Qed.
Lemma up_promote_protection u c p x : keeps (uploads_grow new) (promote_protection u c p x).
Proof.
  begin. unfold promote_protection in Hr. runs. destruct (_ && _); runs; back KUpload.
  match goal with |- _ _ ?s1 _ => assert (keyed (s_db s1)) as Hk1 by keyed_back end. clear Hk.
  rows_of KUpload. clear -BN. intros o s0 u0 s1 Ho Hr. destruct (_ && _) eqn:E; runs; [|by split]. split.
  - back KUpload. upload_put. apply abort_step. states.
  - alone KUpload.
Qed.
Hint Resolve up_protection_begin_write up_protection_open up_protection_commit_upload
  up_protection_commit_write up_promote_protection : keeps.


(** ** Units of work *)
Lemma up_put_block_publish token ctx ref b f cap n h : keeps (uploads_grow new) (put_block_publish token ctx ref b f cap n h).
Proof.
  begin. unfold put_block_publish in Hr. runs. here. back KUpload. upload_put. split; try done; [by left|].
  intros _. left. by apply preparing_true.
Qed.
Lemma up_abort_assigned i : keeps (uploads_grow new) (abort_assigned i).
Proof.
  unfold abort_assigned. apply keeps_bind; [apply _|solve_keeps|]. intros l. apply keeps_for_each; [apply _|]. intros x.
  case_decide; [|solve_keeps]. unshelve refine (keeps_grows (ks := [KUpload]) _ _); [unfold Footprint; solve_keeps|].
  intros e s0 u t _ Hk _ Hr. runs. destruct (s_db s0 KUpload !! a_operation x) as [op|] eqn:Hop; [|runs; reflexivity].
  destruct (preparing op) eqn:Hp; runs; [|reflexivity]. here. back KUpload. upload_put. apply abort_step. states.
Qed.
Hint Resolve up_put_block_publish up_abort_assigned : keeps.
Lemma up_RegisterNode i rq : keeps (uploads_grow new) (RegisterNode i rq).
Proof. unfold RegisterNode. solve_keeps. Qed.

(** The collector ends uploads that are no longer live. *)
Lemma expire_step o : preparing o = true → upload_step o (expire_op o).
Proof. intros Hp%preparing_true. split; try done; [by right; left|by right]. Qed.
Lemma up_expire_write o e s u s' : s.(s_db) KUpload !! o_id o = Some o → expire_write o e s = Ok (u, s') →
  uploads_grow new e s s' ∧ only_at KUpload (o_id o) s s'.
Proof.
  intros Ho Hr. unfold expire_write in Hr. runs. destruct (_ && _) eqn:Hc; runs; (split; [back KUpload|alone KUpload]).
  upload_put. by apply expire_step.
Qed.
Lemma up_expire_upload r o e s u s' : s.(s_db) KUpload !! o_id o = Some o → expire_upload r o e s = Ok (u, s') →
  uploads_grow new e s s' ∧ only_at KUpload (o_id o) s s'.
Proof.
  intros Ho Hr. unfold expire_upload in Hr. runs. destruct (_ && _) eqn:Hc; runs; (split; [back KUpload|alone KUpload]).
  upload_put. split; try done; [right; left; by apply preparing_true|by right].
Qed.
Lemma up_collect_leases : keeps (uploads_grow new) collect_leases.
Proof.
  begin. unfold collect_leases in Hr. runs.
  match goal with Hw : for_each _ expire_write e s0 = Ok (_, ?s1) |- _ =>
    transitivity s1; [|clear Hw; back KUpload] end.
  rows_of KUpload. intros o sa ua sb Ho. by apply up_expire_write.
Qed.
Hint Resolve up_RegisterNode up_collect_leases : keeps.
Lemma up_monolith_collect r : keeps (uploads_grow new) (monolith_collect r).
Proof.
  begin. unfold monolith_collect in Hr. runs.
  match goal with Hc : _ e s0 = Ok (_, ?s1), Hw : for_each _ (expire_upload r) e ?s1 = Ok (_, ?s2) |- _ =>
    assert (keyed (s_db s1)) as Hk1 by keyed_back;
    transitivity s1; [clear Hw; refine ((_ : keeps _ _) e s0 _ s1 Hc); solve_keeps|];
    transitivity s2; [|clear Hw Hc; back KUpload] end.
  clear Hk. rows_of KUpload. intros o sa ua sb Ho. by apply up_expire_upload.
Qed.
End Uploads.
#[export] Hint Resolve up_abort_uploads_of up_base_renew_upload up_allocate_blocks up_stage_manifest_page up_seal_manifest
  up_base_abort_upload up_base_commit_upload up_cluster_commit_upload up_base_remove up_access_renew_handle
  up_access_renew_upload up_access_commit_upload up_access_abort_upload up_access_remove up_abort_write
  up_access_commit_write up_access_begin_write up_protection_begin_write up_protection_open
  up_protection_commit_upload up_protection_commit_write up_promote_protection up_put_block_publish up_abort_assigned
  up_RegisterNode up_collect_leases up_monolith_collect : keeps.

(** ** The units of work that begin an upload *)
Section Begins.
Context `{Hash, Unicode, Argon2, Aead, Json, Base64, Wire, NodeWire}.
Abbreviation new := tidy.

Lemma up_base_begin_upload u s c p t h o x : keeps (uploads_grow new) (base_begin_upload u s c p t h o x).
Proof. begin. unfold base_begin_upload in Hr. runs. here. peel KUpload. drawn KUpload. by left. Qed.
Hint Resolve up_base_begin_upload : keeps.
Lemma up_access_begin_upload u s c p t h o x : keeps (uploads_grow new) (access_begin_upload u s c p t h o x).
Proof. begin. unfold access_begin_upload in Hr. runs. here. back KUpload. upload_put. same_state. Qed.
Hint Resolve up_access_begin_upload : keeps.
Lemma up_protection_begin_upload u s c p t h o x : keeps (uploads_grow new) (protection_begin_upload u s c p t h o x).
Proof. begin. unfold protection_begin_upload, capture_policy, get_op in Hr. runs. here. uploads_put. Qed.
Hint Resolve up_protection_begin_upload : keeps.

(** Every command moves uploads along their state machine. *)
Lemma up_command u s c b : keeps (uploads_grow new) (command u s c b).
Proof.
  unfold command, begin_upload, renew_upload, commit_upload, abort_upload, remove, open_file, renew_handle, close,
    begin_write, commit_write, with_access, with_cluster, by_class, missing.
  destruct b; solve_keeps.
Qed.
Hint Resolve up_command : keeps.
Lemma up_publish token rq : keeps (uploads_grow new) (publish token rq).
Proof. unfold publish. solve_keeps. Qed.
End Begins.
#[export] Hint Resolve up_command up_publish : keeps.
