(* ===== verification/System.v ===== *)
(** * The control as a system of units of work

    Every way a control changes its store is one of these units of work, in any
    order and with any arguments; each runs at its own instant and under its own
    configuration.  What a unit of work promises of the step it takes is then a
    promise about every run of the system. *)
From S2P Require Import Prelude Domain Data Store Auth Leases Cluster Placement Requests Queries Commands Access Protection Footprints Tables Service Nodes Maintenance Startup UnitFootprints Uploads.

Section System.
Context `{Hash, Unicode, Argon2, Aead, Json, Base64, Wire, NodeWire}.

Inductive unit_of_work : ∀ {A}, M A → Prop :=
  (* requests of clients *)
  | w_query token rq : unit_of_work (run_query token rq)
  | w_login_form rq : unit_of_work (login_form rq)
  | w_login_check rq : unit_of_work (login_check rq)
  | w_login_publish rq u : unit_of_work (login_publish rq u)
  | w_precheck token rq : unit_of_work (precheck token rq)
  | w_verify_seal content us rq : unit_of_work (verify_seal content us rq)
  | w_publish token rq : unit_of_work (publish token rq)
  | w_put_check token ctx ref b f cap : unit_of_work (put_block_check token ctx ref b f cap)
  | w_put_publish token ctx ref b f cap n h : unit_of_work (put_block_publish token ctx ref b f cap n h)
  | w_get_check token ctx h sn b cap o l : unit_of_work (get_block_check token ctx h sn b cap o l)
  (* data nodes *)
  | w_register i rq : unit_of_work (RegisterNode i rq)
  | w_heartbeat i rq : unit_of_work (Heartbeat i rq)
  | w_report i rq : unit_of_work (BlockReport i rq)
  | w_authorize i rq : unit_of_work (AuthorizeBlock i rq)
  | w_durable i rq : unit_of_work (ReportDurable i rq)
  | w_internal i rq : unit_of_work (AuthorizeInternal i rq)
  | w_task i rq : unit_of_work (ReportTask i rq)
  (* maintenance *)
  | w_collect r m : m ∈ collect r → unit_of_work m
  | w_tick_tasks : unit_of_work distributed_tick_tasks
  | w_tick_step t : unit_of_work (distributed_tick_step t)
  | w_expire t : unit_of_work (expire_task t)
  | w_replicated_tick : unit_of_work replicated_tick_tasks
  | w_replicated_ready t : unit_of_work (replicated_tick_ready t)
  | w_stamp t : unit_of_work (stamp_dispatch t)
  | w_reconcile : unit_of_work reconcile
  | w_scrub_select : unit_of_work scrub_select
  | w_scrub_record l v : unit_of_work (scrub_record l v)
  | w_orphan_select : unit_of_work orphan_select
  | w_orphan_record t v : unit_of_work (orphan_record t v)
  | w_generation o i : unit_of_work (install_generation o i)
  (* a start *)
  | w_start c m : m ∈ start c → unit_of_work m.

(** A committed unit of work in an environment of [E]; [ids] are the identifiers
    [uid()] draws. *)
Definition moves_in (E : env → Prop) (s s' : st) : Prop :=
  ∃ e A (m : M A) a, E e ∧ unit_of_work m ∧ m e s = Ok (a, s').
Definition moves (ids : nat → string) : st → st → Prop := moves_in (λ e, e.(e_uid) = ids).

Section Runs.
Context (E : env → Prop) (R : env → st → st → Prop) (P : st → st → Prop) `{!PreOrder P}.
Hypothesis (R_units : ∀ A (m : M A), unit_of_work m → keeps R m).
Hypothesis (R_step : ∀ e s s', E e → R e s s' → P s s').

Lemma runs_keep s s' : rtc (moves_in E) s s' → P s s'.
Proof using All.
  induction 1 as [s|s1 s2 s3 (e & A & m & a & He & Hm & Hr) _ IH]; [done|].
  transitivity s2; [|done]. apply (R_step e); [done|]. by eapply R_units.
Qed.
End Runs.

(** The units of the collector and of a start, for a relation that does not depend
    on the configuration. *)
Section Units.
Context (R : env → st → st → Prop) `{HR : ∀ e, PreOrder (R e)}.
Hypothesis (R_cfg : ∀ e s s', R (e <| e_cfg ::= λ c, c <| c_rf3 := false |> |>) s s' → R e s s').
Hypothesis (R_collect : ∀ r, keeps R (monolith_collect r)).

Lemma keeps_drop {A} (m : M A) : keeps R m → keeps R (_ ← m; mret tt).
Proof using HR. intros Hm. apply keeps_bind; [apply _|done|]. intros _. by apply keeps_ret. Qed.
Lemma keeps_before_leases {A} (m : M A) : keeps R m → keeps R (before_leases m).
Proof using R_cfg. intros Hm e s a s' Hr. eapply R_cfg. by eapply Hm. Qed.
Lemma keeps_collect r m :
  keeps R collect_generation → keeps R collect_copies → keeps R collect_rest → m ∈ collect r → keeps R m.
Proof using HR R_collect.
  intros Hg Hc Hr. unfold collect. rewrite !elem_of_cons, elem_of_nil. intros [->|[->|[->|[->|[]]]]]; try done.
  apply keeps_drop. unfold collect_base. apply keeps_bind; [apply _| |done].
  by intros e s c s' [-> ->]%cfg_Ok.
Qed.
Lemma keeps_start c m :
  keeps R collect_generation → keeps R collect_copies → keeps R collect_rest → keeps R install_authority →
  keeps R reset_nodes → keeps R replicated_start → m ∈ start c → keeps R m.
Proof using Type*.
  intros Hg Hc Hr Hi Hn Hs. unfold start. rewrite !elem_of_app. intros [Hm|[Hm|Hm]].
  - destruct (is_ha c); [by apply elem_of_nil in Hm|]. apply list_elem_of_fmap in Hm as (m' & -> & Hm').
    apply keeps_before_leases. by eapply keeps_collect.
  - case_bool_decide; [by apply elem_of_nil in Hm|]. rewrite !elem_of_cons, elem_of_nil in Hm.
    destruct Hm as [->|[->|[]]]; [by apply keeps_drop|done].
  - destruct (replicated c); [|by apply elem_of_nil in Hm]. apply list_elem_of_singleton in Hm as ->. by apply keeps_drop.
Qed.
End Units.

(** Runs of the system, for a table whose records are drawn and never removed. *)
Lemma runs_grow k step new `{!PreOrder step} ids s s' :
  (∀ v v', new v → step v v' → new v') → (∀ A (m : M A), unit_of_work m → keeps (grows k step new) m) →
  distinct_draws ids → keyed s.(s_db) → unissued k ids s → rtc (moves ids) s s' → growth k step new ids s s'.
Proof.
  intros Hn Hu He Hk Hi Hr.
  assert (grows_by k step new ids s s') as (_ & _ & G); [|by apply G].
  pose proof (grows_by_preorder k step new Hn ids).
  apply (runs_keep (λ e, e.(e_uid) = ids) (grows k step new) (grows_by k step new ids)); [done| |done]. by intros e s1 s2 <-.
Qed.

(** ** Uploads *)
Lemma up_units A (m : M A) : unit_of_work m → keeps (uploads_grow tidy) m.
Proof.
  destruct 1; try solve [solve_keeps].
  - by eapply (keeps_collect (uploads_grow tidy)); try solve [solve_keeps].
  - by eapply (keeps_start (uploads_grow tidy)); try solve [solve_keeps].
Qed.

(** C1: Every run of the system moves each upload along its life and nothing else.
    An upload is never lost; its identity, owner and target never change; a
    committed upload stays committed, an aborted one stays aborted, an expired one
    can only be aborted; one that ended holds no reservation; and every upload that
    appears does so under an identity drawn during the run. *)
Theorem upload_lifecycle ids s s' :
  distinct_draws ids → keyed s.(s_db) → unissued KUpload ids s → rtc (moves ids) s s' →
  growth KUpload upload_step tidy ids s s'.
Proof.
  intros He Hk Hu Hr. refine (runs_grow KUpload upload_step tidy ids s s' _ up_units He Hk Hu Hr).
  intros v v' Hn Hs. by apply (us_tidy v v').
Qed.
End System.
