(* ===== verification/Snapshots.v ===== *)
(** * Snapshots are immutable

    A published snapshot is never changed: a commit publishes another one under
    an identity of its own, and only the collector removes one. *)
From S2P Require Import Prelude Domain Data Store Auth Leases Cluster Placement Requests Queries Commands Access Protection Footprints Tables Service Nodes Maintenance Startup UnitFootprints System.

Abbreviation snapshots_grow := (grows KSnapshot eq (λ _, True)).
Abbreviation snapshots_settle := (settles KSnapshot).
#[export] Instance snapshots_coarse : Coarse KSnapshot snapshots_grow :=
  grows_coarse KSnapshot eq (λ _, True) (λ _ _ _ _, I).
#[export] Instance snapshots_preorder e : PreOrder (snapshots_grow e) := coarse_preorder e.

Section Snapshots.
Context `{Hash, Unicode, Argon2, Aead, Json, Base64, Wire, NodeWire}.

(** What [base_commit_upload] publishes, and where. *)
Lemma base_commit_root u s ref f l e s0 r s1 : base_commit_upload u s ref f l e s0 = Ok (r, s1) →
  snapshots_grow e s0 s1
  ∧ ∃ n, r.(cr_snapshot).(sr_manifest_root) = e.(e_uid) n ∧ (s0.(s_draws) ≤ n < s1.(s_draws))%nat.
Proof.
  intros Hr. unfold base_commit_upload in Hr. runs. split.
  - peel KSnapshot. drawn KSnapshot. done.
  - cbn [cr_snapshot sr_manifest_root]. eexists. split; [reflexivity|].
    match goal with |- (_ ≤ s_draws ?d < _)%nat => drawn_between d end.
Qed.
Lemma cluster_commit_root u s ref f l e s0 r s1 : cluster_commit_upload u s ref f l e s0 = Ok (r, s1) →
  snapshots_grow e s0 s1
  ∧ ∃ n, r.(cr_snapshot).(sr_manifest_root) = e.(e_uid) n ∧ (s0.(s_draws) ≤ n < s1.(s_draws))%nat.
Proof.
  intros Hr. unfold cluster_commit_upload in Hr. runs.
  match goal with Hb : base_commit_upload _ _ _ _ _ e ?t0 = _ |- _ =>
    assert (s_draws s0 ≤ s_draws t0)%nat by (clear Hb; draws_back);
    destruct (base_commit_root _ _ _ _ _ _ _ _ _ Hb) as (G & n & Hn & Hd);
    split; [transitivity t0; [clear Hb; back KSnapshot|done]|exists n; split; [done|lia]] end.
Qed.
Lemma sn_open_creating u s p m : keeps snapshots_grow (open_creating u s p m).
Proof. intros e s0 a t Hr. unfold open_creating in Hr. runs. peel KSnapshot. drawn KSnapshot. done. Qed.
Lemma sn_base_commit_upload u s ref f l : keeps snapshots_grow (base_commit_upload u s ref f l).
Proof. intros e s0 a t Hr. by destruct (base_commit_root _ _ _ _ _ _ _ _ _ Hr). Qed.
Lemma sn_cluster_commit_upload u s ref f l : keeps snapshots_grow (cluster_commit_upload u s ref f l).
Proof. intros e s0 a t Hr. by destruct (cluster_commit_root _ _ _ _ _ _ _ _ _ Hr). Qed.
Lemma sn_access_commit_write u s ref h x fs cs : keeps snapshots_grow (access_commit_write u s ref h x fs cs).
Proof. intros e s0 a t Hr. unfold access_commit_write in Hr. runs. peel KSnapshot. drawn KSnapshot. done. Qed.
Lemma sn_access_commit_upload u s ref f l : keeps snapshots_grow (access_commit_upload u s ref f l).
Proof.
  refine (keeps_grows _ _). intros e s0 a t _ Hk _ Hr. unfold access_commit_upload in Hr. runs. peel KSnapshot.
  match goal with Hc : cluster_commit_upload _ _ _ _ _ _ _ = Ok (_, ?s1), Hl : Some ?sn = s_db ?s1 KSnapshot !! _ |- _ =>
    assert (keyed (s_db s1)) as Hk1 by keyed_back; symmetry in Hl; apply (Hk1 KSnapshot) in Hl;
    apply cluster_commit_root in Hc as (G & n & Hn & Hd);
    apply (grows_put_drawn KSnapshot eq (λ _, True) n); [done| |done|done]; exact (eq_trans Hl Hn) end.
Qed.
Hint Resolve sn_open_creating sn_base_commit_upload sn_cluster_commit_upload sn_access_commit_write sn_access_commit_upload : keeps.
Lemma sn_access_open u s p m : keeps snapshots_grow (access_open u s p m).
Proof. unfold access_open. solve_keeps. Qed.
Hint Resolve sn_access_open : keeps.
Lemma sn_protection_open u s p m : keeps snapshots_grow (protection_open u s p m).
Proof. unfold protection_open. solve_keeps. Qed.
Lemma sn_protection_commit_upload u s r f l : keeps snapshots_grow (protection_commit_upload u s r f l).
Proof. unfold protection_commit_upload. solve_keeps. Qed.
Lemma sn_protection_commit_write u s r h x f cs : keeps snapshots_grow (protection_commit_write u s r h x f cs).
Proof. unfold protection_commit_write. solve_keeps. Qed.
Hint Resolve sn_protection_open sn_protection_commit_upload sn_protection_commit_write : keeps.
Lemma sn_command u s c b : keeps snapshots_grow (command u s c b).
Proof.
  unfold command, commit_upload, open_file, commit_write, with_access, with_cluster, by_class, missing.
  destruct b; solve_keeps.
Qed.
Hint Resolve sn_command : keeps.
Lemma sn_publish token rq : keeps snapshots_grow (publish token rq).
Proof. unfold publish. solve_keeps. Qed.

(** Among the units of work only the collector removes snapshots. *)
Lemma se_publish token rq : keeps snapshots_settle (publish token rq).
Proof. intros e s a t Hr. by eapply grows_settles, sn_publish. Qed.
Lemma se_del i : keeps snapshots_settle (del KSnapshot i).
Proof. intros e s a t ->%del_Ok. apply settles_del. Qed.
Hint Resolve se_publish se_del : keeps.
Lemma se_monolith_collect r : keeps snapshots_settle (monolith_collect r).
Proof. unfold monolith_collect. solve_keeps. Qed.
Hint Resolve se_monolith_collect : keeps.
Lemma se_units A (m : M A) : unit_of_work m → keeps snapshots_settle m.
Proof.
  destruct 1; try solve [solve_keeps].
  - by eapply (keeps_collect snapshots_settle); try solve [solve_keeps].
  - by eapply (keeps_start snapshots_settle); try solve [solve_keeps].
Qed.

(** C4: A published snapshot is immutable.  In every run of the system the record of a
    snapshot, with its reference and its blocks, is the same at every instant at
    which it is in the store; only its collection can remove it, and then its
    identity is never used again. *)
Theorem snapshots_immutable ids s t s' i sn :
  distinct_draws ids → keyed s.(s_db) → unissued KSnapshot ids s → rtc (moves ids) s t → rtc (moves ids) t s' →
  s.(s_db) KSnapshot !! i = Some sn →
  (t.(s_db) KSnapshot !! i = Some sn ∨ t.(s_db) KSnapshot !! i = None)
  ∧ (t.(s_db) KSnapshot !! i = None → s'.(s_db) KSnapshot !! i = None).
Proof.
  intros He Hk Hu Ht Hs Hi.
  assert (∀ s1 s2, rtc (moves ids) s1 s2 → settles_by KSnapshot ids s1 s2) as Hruns.
  { intros s1 s2. apply (runs_keep (λ e, e.(e_uid) = ids) snapshots_settle); [apply _|exact se_units|]. by intros e ? ? <-. }
  destruct (Hruns _ _ Ht) as (D1 & K1 & G1). destruct (G1 He Hk Hu) as [U1 O1].
  destruct (Hruns _ _ Hs) as (_ & _ & G2). destruct (G2 He (K1 Hk) U1) as [_ O2].
  assert (∀ n, (s.(s_draws) ≤ n)%nat → i ≠ ids n) as Hne by (intros n Hn ->; by rewrite Hu in Hi).
  split.
  - destruct (s_db t KSnapshot !! i) as [v|] eqn:Hv; [left|by right].
    destruct (O1 i v Hv) as [?|(n & -> & Hd)]; [congruence|]. by destruct (Hne n ltac:(lia)).
  - intros Hn. destruct (s_db s' KSnapshot !! i) as [v|] eqn:Hv; [|done].
    destruct (O2 i v Hv) as [?|(n & -> & Hd)]; [congruence|]. by destruct (Hne n ltac:(lia)).
Qed.
End Snapshots.
