(* ===== verification/Locks.v ===== *)
(** * Locks exclude each other

    At every instant two live locks on one file that belong to different owners
    do not conflict, whatever sequence of units of work ran. *)
From S2P Require Import Prelude Domain Data Store Auth Leases Cluster Placement Requests Queries Commands Access Protection Footprints Tables Service Nodes Maintenance Startup UnitFootprints System.

Definition owner_key (k : lock) : string * string := (k.(k_session), k.(k_handle)).
Definition conflict (k l : lock) : bool := conflicts k.(k_indices) k.(k_whole) k.(k_size) l.
Definition exclusive (e : env) (s : st) : Prop := ∀ i j k l,
  s.(s_db) KLock !! i = Some k → s.(s_db) KLock !! j = Some l → live_lock_at e k = true → live_lock_at e l = true →
  k.(k_file) = l.(k_file) → owner_key k ≠ owner_key l → conflict k l = false.

(** A lock changed in place: what it covers and whose it is stay, and it is not
    revived. *)
Record lock_step (e : env) (k k' : lock) : Prop := mkLockStep {
  ls_owner : (k'.(k_file), owner_key k') = (k.(k_file), owner_key k);
  ls_cover : (k'.(k_indices), k'.(k_whole), k'.(k_size)) = (k.(k_indices), k.(k_whole), k.(k_size));
  ls_live : live_lock_at e k' = true → live_lock_at e k = true }.

Lemma overlap_sym a b : overlap a b = overlap b a.
Proof. unfold overlap. apply bool_decide_ext. rewrite !list.Exists_exists. split; intros (i & ? & ?); by exists i. Qed.
Lemma conflict_sym k l : conflict k l = conflict l k.
Proof.
  unfold conflict, conflicts. rewrite (overlap_sym (k_indices k)).
  destruct (k_whole k), (k_whole l), (k_size k), (k_size l); done.
Qed.
Lemma conflict_step e k k' l l' : lock_step e k k' → lock_step e l l' → conflict k' l' = conflict k l.
Proof. intros [_ [= A1 A2 A3] _] [_ [= B1 B2 B3] _]. unfold conflict, conflicts. congruence. Qed.

(** *** The relation of one unit of work *)
Definition locks_keep (e : env) (s s' : st) : Prop :=
  (s.(s_draws) ≤ s'.(s_draws))%nat ∧ (keyed s.(s_db) → keyed s'.(s_db))
  ∧ (distinct_draws e.(e_uid) → keyed s.(s_db) → unissued KLock e.(e_uid) s →
     unissued KLock e.(e_uid) s' ∧ (exclusive e s → exclusive e s')).
#[export] Instance locks_preorder e : PreOrder (locks_keep e).
Proof.
  split; [intros s; by split_and!|]. intros s1 s2 s3 (D1 & K1 & G1) (D2 & K2 & G2). split_and!; [lia|auto|].
  intros He Hk Hu. destruct (G1 He Hk Hu) as [U1 X1]. destruct (G2 He (K1 Hk) U1) as [U2 X2]. auto.
Qed.
Lemma unissued_same k ids s s' :
  s'.(s_db) k = s.(s_db) k → (s.(s_draws) ≤ s'.(s_draws))%nat → unissued k ids s → unissued k ids s'.
Proof. intros E D Hu n Hn. rewrite E. apply Hu. lia. Qed.
#[export] Instance locks_coarse : Coarse KLock locks_keep.
Proof.
  split; [apply _|]. intros e s s' (T & D & K). specialize (T KLock (not_in_others KLock)). split_and!; [done|done|].
  intros _ _ Hu. split; [by eapply unissued_same|]. unfold exclusive. by rewrite T.
Qed.

(** A lock that no live lock of another owner conflicts with. *)
Definition free (e : env) (s : st) (k : lock) : Prop := ∀ j l,
  s.(s_db) KLock !! j = Some l → live_lock_at e l = true → k.(k_file) = l.(k_file) → owner_key k ≠ owner_key l →
  conflict k l = false.
Lemma locks_put_free e s k :
  (distinct_draws e.(e_uid) → unissued KLock e.(e_uid) s → ∀ n, (s.(s_draws) ≤ n)%nat → k_id k ≠ e.(e_uid) n) →
  (exclusive e s → live_lock_at e k = true → free e s k) →
  locks_keep e s (s <| s_db ::= put_db KLock k |>).
Proof.
  intros Hi Hf. split_and!; [done|apply keyed_put|]. intros He _ Hu. split.
  - intros n Hn. simpl. rewrite put_db_same, lookup_insert_ne; [by apply Hu|]. by apply Hi.
  - intros X i j a b. simpl. rewrite put_db_same, !lookup_insert_Some.
    intros [[<- <-]|[_ Ha]] [[<- <-]|[_ Hb]] La Lb Hfile Ho; [done|by eapply Hf| |by eapply (X i j)].
    rewrite conflict_sym. by eapply Hf.
Qed.
Lemma locks_put e s k k' : s.(s_db) KLock !! k_id k' = Some k → lock_step e k k' →
  locks_keep e s (s <| s_db ::= put_db KLock k' |>).
Proof.
  intros Hk Hs. apply locks_put_free.
  - intros _ Hu n Hn E. rewrite E in Hk. discriminate (eq_trans (eq_sym Hk) (Hu n Hn)).
  - intros X La j l Hl Lb Hf Ho. pose proof (ls_owner _ _ _ Hs) as [= A1 A2 A3].
    rewrite (conflict_step e k k' l l Hs); [|done]. apply (X (k_id k') j); try done.
    + by apply (ls_live _ _ _ Hs).
    + congruence.
    + unfold owner_key in *. congruence.
Qed.
Lemma locks_del e i s : locks_keep e s (s <| s_db ::= del_db KLock i |>).
Proof.
  split_and!; [done|apply keyed_del|]. intros _ _ Hu. split.
  - intros n Hn. simpl. rewrite del_db_same, lookup_delete_None. right. by apply Hu.
  - intros X i1 i2 k l. simpl. rewrite del_db_same, !lookup_delete_Some. intros [_ H1] [_ H2]. by eapply X.
Qed.
Lemma lk_del i : keeps locks_keep (del KLock i).
Proof. intros e s u t ->%del_Ok. apply locks_del. Qed.
#[export] Hint Resolve lk_del : keeps.

(** *** [acquire] *)
Lemma live_lock_Ok k e s b s' : live_lock k e s = Ok (b, s') ↔ b = live_lock_at e k ∧ s' = s.
Proof. unfold live_lock. naive_solver. Qed.
Definition no_conflict (e : env) (o : lock_owner) (indices : list Z) (whole size : bool) (k : lock) : Prop :=
  live_lock_at e k = true → k.(k_file) = o.(ow_file) → owner_key k ≠ (o.(ow_session), o.(ow_id)) →
  conflicts indices whole size k = false.
Record acquired (e : env) (o : lock_owner) (s s' : st) (k : lock) : Prop := mkAcquired {
  aq_table : s'.(s_db) KLock = <[k_id k := k]> (s.(s_db) KLock);
  aq_drawn : ∃ n, k_id k = e.(e_uid) n ∧ (s.(s_draws) ≤ n < s'.(s_draws))%nat;
  aq_owner : (k.(k_file), owner_key k) = (o.(ow_file), (o.(ow_session), o.(ow_id)));
  aq_free : free e s' k }.
Lemma checked_locks o indices whole size ls e s u s' :
  for_each ls (λ k,
    l ← live_lock k;
    if negb l || negb (bool_decide (k.(k_file) = o.(ow_file))) then mret tt
    else if negb (other_owner o k) then mret tt
    else need (negb (conflicts indices whole size k)) LOCK_CONFLICT) e s = Ok (u, s') →
  Forall (no_conflict e o indices whole size) ls.
Proof.
  apply for_each_Forall. intros k s1 u1 s2 Hr Hl Hf Ho. apply bind_Ok in Hr as (l & s3 & [-> ->]%live_lock_Ok & Hr).
  rewrite Hl, Hf, bool_decide_true in Hr by done. unfold other_owner in Hr. rewrite bool_decide_false in Hr by done.
  simpl in Hr. runs. done.
Qed.
Lemma acquire_locks o indices whole size auto e s k s' :
  acquire o indices whole size auto e s = Ok (k, s') → keyed s.(s_db) →
  locks_keep e s s' ∧ acquired e o s s' k.
Proof.
  unfold acquire. intros Hr Hk. runs.
  match goal with Hl : for_each _ _ e s = Ok _ |- _ =>
    pose proof (checked_locks _ _ _ _ _ _ _ _ _ Hl) as Hall end.
  match goal with |- context [upd s_db (put_db KLock ?k0) ?sp] => set (new := k0); set (t := sp) in * end.
  assert (frame (others KLock) e s t) as F by (subst t; clear Hall new; frame_back KLock).
  pose proof (frame_table _ _ _ _ F) as T.
  assert (free e t new) as Hfree.
  { intros j l. rewrite T. intros Hl Lb Hf Ho. rewrite list.Forall_forall in Hall.
    apply (Hall l); [exact (proj2 (elem_of_all KLock _ l) (ex_intro _ j Hl))|done..|]. intros E. apply Ho. by rewrite E. }
  assert (∃ n, k_id new = e.(e_uid) n ∧ (s.(s_draws) ≤ n < t.(s_draws))%nat) as Hid.
  { match goal with Hc : lease_clock e (upd s_draws _ ?d) = _ |- _ =>
      exists (s_draws d); split; [done|]; subst t; clear Hall Hfree T F; drawn_between d end. }
  split; [|split].
  - transitivity t; [by apply (coarse_frame (k := KLock))|].
    apply locks_put_free; [|done]. intros He _ n Hn E. destruct Hid as (m & Hm & Hd). rewrite Hm in E. apply He in E. lia.
  - rewrite <-T. simpl. by rewrite put_db_same.
  - done.
  - done.
  - intros j l. simpl. rewrite put_db_same, lookup_insert_Some. intros [[<- <-]|[_ Hl]]; [done|exact (Hfree j l Hl)].
Qed.

Section Locks.
Context `{Hash, Unicode, Argon2, Aead, Json, Base64, Wire, NodeWire}.

Lemma lk_acquire o i w z a : keeps locks_keep (acquire o i w z a).
Proof.
  intros e s k s' Hr. assert (keyed s.(s_db) → locks_keep e s s') as G by (intros Hk; by apply (acquire_locks _ _ _ _ _ _ _ _ _ Hr)).
  destruct (fp_acquire _ _ _ _ _ _ _ _ _ Hr) as (_ & D & K). split_and!; [done|done|]. intros He Hk. by apply G.
Qed.
Hint Resolve lk_acquire : keeps.

(** A lock changed in what it is used by. *)
Lemma active_step e k l : lock_step e k (k <| k_active := l |>).
Proof. by split. Qed.
Lemma deadline_step e k d : live_lock_at e k = true → lock_step e k (k <| k_deadline := d |>).
Proof. by split. Qed.
Lemma validate_found u f e s k s' : validate u f e s = Ok (k, s') →
  s.(s_db) KLock !! f.(fc_lock_id) = Some k ∧ live_lock_at e k = true.
Proof.
  unfold validate. intros Hr. runs. split; [done|].
  match goal with Hl : live_lock _ _ _ = _ |- _ => by apply live_lock_Ok in Hl as [<- _] end.
Qed.
Lemma validate_here u f e s k s' : validate u f e s = Ok (k, s') → keyed s.(s_db) →
  s.(s_db) KLock !! k_id k = Some k ∧ live_lock_at e k = true.
Proof. intros [Hl Hv]%validate_found Hk. split; [|done]. pose proof (Hk KLock _ _ Hl) as E. simpl in E. by rewrite E. Qed.

(** What is to be shown of a run from a store whose records are keyed. *)
Lemma keeps_locks {A ks} (m : M A) `{!Footprint ks m} :
  (∀ e s a s', distinct_draws e.(e_uid) → unissued KLock e.(e_uid) s → keyed s.(s_db) → m e s = Ok (a, s') → locks_keep e s s') →
  keeps locks_keep m.
Proof.
  intros Hm e s a s' Hr. destruct (footprint (m := m) e s a s' Hr) as (_ & D & K).
  split_and!; [done|done|]. intros He Hk Hu. by apply (Hm e s a s').
Qed.
Ltac begin := refine (keeps_locks _ _); intros e s0 x0 t0 _ _ Hk Hr.
Ltac lock_put := eapply locks_put; [found KLock|].
(** The record of a lock that a run read, where records are keyed. *)
Lemma lock_here s i k : s.(s_db) KLock !! i = Some k → keyed s.(s_db) → s.(s_db) KLock !! k_id k = Some k.
Proof. intros Hl Hk. pose proof (Hk KLock _ _ Hl) as E. simpl in E. by rewrite E. Qed.
Lemma lk_release_operation op : keeps locks_keep (release_operation op).
Proof.
  unfold release_operation. apply keeps_bind; [apply _| |solve_keeps]. apply keeps_for_each; [apply _|]. intros i.
  unshelve refine (keeps_locks (ks := [KLock]) _ _); [unfold Footprint; solve_keeps|].
  intros e s u t _ _ Hk Hr. runs. destruct (s_db s KLock !! i) as [k|] eqn:Hl; [|runs; reflexivity].
  case_decide; [|runs; reflexivity]. destruct (k_automatic k); runs; [apply locks_del|].
  eapply locks_put; [exact (lock_here s i k Hl Hk)|]. apply active_step.
Qed.
Hint Resolve lk_release_operation : keeps.
Lemma lk_renew_lock u s f : keeps locks_keep (renew_lock u s f).
Proof.
  begin. unfold renew_lock in Hr. runs.
  match goal with Hv : validate _ _ e ?t = _ |- _ => destruct (validate_here _ _ _ _ _ _ Hv ltac:(keyed_back)) end.
  back KLock. lock_put. by apply deadline_step.
Qed.
Lemma lk_unlock u c f : keeps locks_keep (unlock u c f).
Proof. unfold unlock. solve_keeps. Qed.
Lemma lk_truncate u s m n : keeps locks_keep (truncate u s m n).
Proof. unfold truncate. solve_keeps. Qed.
Lemma lk_access_close u s c h : keeps locks_keep (access_close u s c h).
Proof. unfold access_close. solve_keeps. Qed.
Lemma lk_lock_cmd u s h w o l t : keeps locks_keep (lock_cmd u s h w o l t).
Proof. unfold lock_cmd. solve_keeps. Qed.
Lemma lk_start_authority : keeps locks_keep start_authority.
Proof. unfold start_authority. solve_keeps. Qed.
Lemma locks_put_free_of e s k k' : s.(s_db) KLock !! k_id k' = Some k → free e s k →
  (k'.(k_file), owner_key k', k'.(k_indices), k'.(k_whole), k'.(k_size))
  = (k.(k_file), owner_key k, k.(k_indices), k.(k_whole), k.(k_size)) →
  locks_keep e s (s <| s_db ::= put_db KLock k' |>).
Proof.
  intros Hl Hf [= E1 E2 E3 E4 E5 E6]. apply locks_put_free.
  - intros _ Hu n Hn E. rewrite E in Hl. discriminate (eq_trans (eq_sym Hl) (Hu n Hn)).
  - intros _ _ j l Hj Lb Hfile Ho. unfold conflict. rewrite E4, E5, E6. unfold owner_key in *.
    apply (Hf j l Hj Lb); unfold owner_key in *; congruence.
Qed.
Lemma lk_access_begin_upload u s c p t h o x : keeps locks_keep (access_begin_upload u s c p t h o x).
Proof.
  begin. unfold access_begin_upload in Hr. runs.
  match goal with Ha : acquire _ _ _ _ _ _ ?t = Ok (_, ?t1) |- _ =>
    destruct (acquire_locks _ _ _ _ _ _ _ _ _ Ha ltac:(keyed_back)) as [G [Ht _ Ho Hf]] end.
  back KLock.
  match goal with Hc : lease_clock _ ?t1 = Ok (_, ?t2) |- _ =>
    assert (frame (others KLock) e t1 t2) as F%frame_table by (refine ((_ : writes _ lease_clock) e t1 _ t2 Hc); solve_keeps) end.
  match goal with Ha : acquire _ _ _ _ _ _ _ = Ok (?k, _) |- _ => apply (locks_put_free_of _ _ k); [| |done] end.
  - rewrite F, Ht. exact (lookup_insert_eq _ _ _).
  - intros j l. rewrite F. apply Hf.
Qed.
Lemma lk_access_renew_upload u s ref : keeps locks_keep (access_renew_upload u s ref).
Proof.
  begin. unfold access_renew_upload in Hr. runs.
  match goal with Hv : validate _ _ e ?t = _ |- _ => destruct (validate_here _ _ _ _ _ _ Hv ltac:(keyed_back)) end.
  back KLock. lock_put. by apply deadline_step.
Qed.

(** [BeginWrite] counts itself among the users of the locks it gathered. *)
Definition held (s : st) (k : lock) : Prop := s.(s_db) KLock !! k_id k = Some k.
Lemma held_frame s s' k : s'.(s_db) KLock = s.(s_db) KLock → held s k → held s' k.
Proof. unfold held. by intros ->. Qed.
Lemma given_locks_held u h ps fs e s acc s' : given_locks u h ps fs e s = Ok (acc, s') → keyed s.(s_db) →
  Forall (held s') acc.1.1.
Proof.
  intros Hr Hk. unfold given_locks in Hr.
  apply (for_fold_run (λ acc s1, keyed s1.(s_db) ∧ Forall (held s1) acc.1.1) (frame (others KLock) e)) in Hr;
    [by destruct Hr as [[_ ?] _]| |by split; [|apply list.Forall_nil_2]].
  clear. intros [[ls cs] b] f s [[ls' cs'] b'] s' [Hk Hl] Hr. cbn [fst snd] in *. frame_of KLock Hr.
  pose proof F as (_ & _ & K). split; [|done]. split; [by apply K|]. apply frame_table in F.
  runs. match goal with E : _ = cover _ _ _ |- _ => injection E as -> -> -> end. apply list.Forall_app. split.
  - eapply list.Forall_impl; [exact Hl|]. intros k. by apply held_frame.
  - apply list.Forall_singleton. eapply held_frame; [exact F|].
    match goal with Hv : validate _ _ e _ = _ |- _ => by apply validate_here in Hv as [??] end.
Qed.
Lemma cover_locks ps ls : ∀ (acc : coverage) (b : coverage → lock → bool) k,
  k ∈ (fold_left (λ acc k, if b acc k then cover ps acc k else acc) ls acc).1.1 → k ∈ acc.1.1 ∨ k ∈ ls.
Proof.
  induction ls as [|l ls IH]; intros [[xs cs] z] b k; simpl; [by left|]. intros [Hk|Hk]%IH; [|right; by right].
  destruct (b _ l); simpl in Hk; [|by left]. apply elem_of_app in Hk as [?|Hk%list_elem_of_singleton]; [by left|].
  right. subst. by left.
Qed.
Lemma own_locks_held u h ps acc e s acc' s' : own_locks u h ps acc e s = Ok (acc', s') → keyed s.(s_db) →
  Forall (held s) acc.1.1 → Forall (held s') acc'.1.1 ∧ frame (others KLock) e s s'.
Proof.
  intros Hr Hk Hl. unfold own_locks in Hr. runs. split; [|done]. apply list.Forall_forall. intros k Hin.
  apply cover_locks in Hin as [Hin|Hin].
  - by eapply (proj1 (list.Forall_forall _ _) Hl).
  - exact (proj1 (keyed_all KLock _ k Hk) Hin).
Qed.
Lemma acquired_held e o s s' k ls : acquired e o s s' k → unissued KLock e.(e_uid) s →
  Forall (held s) ls → Forall (held s') (ls ++ [k]).
Proof.
  intros [Ht (n & Hn & Hd) _ _] Hu Hl. apply list.Forall_app. split.
  - eapply list.Forall_impl; [exact Hl|]. intros l Hk. unfold held in *. rewrite Ht, lookup_insert_ne; [done|].
    intros E. rewrite <-E, Hn in Hk. discriminate (eq_trans (eq_sym Hk) (Hu n ltac:(lia))).
  - apply list.Forall_singleton. unfold held. rewrite Ht. exact (lookup_insert_eq _ _ _).
Qed.
Lemma write_locks_held u h ps fs g e s ls s' : write_locks u h ps fs g e s = Ok (ls, s') →
  unissued KLock e.(e_uid) s → keyed s.(s_db) → Forall (held s') ls.
Proof.
  intros Hr Hu Hk. unfold write_locks in Hr. apply bind_Ok in Hr as (v & s0 & Hg & Hr).
  apply bind_Ok in Hr as (acc & s1 & Ho & Hr). pose proof Hg as Hf0. frame_of KLock Hf0.
  pose proof F as (_ & D & K). apply given_locks_held in Hg; [|done].
  apply own_locks_held in Ho as [Hl F1]; [|by apply K|done]. pose proof F1 as (_ & D1 & K1).
  destruct acc as [[locks covered] size]. destruct (_ || _); runs; [|done].
  match goal with Ha : acquire _ _ _ _ _ _ _ = _ |- _ => apply acquire_locks in Ha as [_ Ha]; [|by apply K1, K] end.
  eapply acquired_held; [done| |done]. intros n Hn. apply frame_table in F, F1. rewrite F1, F. apply Hu. lia.
Qed.
Lemma lk_write_locks u h ps fs g : keeps locks_keep (write_locks u h ps fs g).
Proof. unfold write_locks. solve_keeps. Qed.

(** Each lock of the list is in the table, but for who uses it. *)
Definition used (s : st) (k : lock) : Prop :=
  ∃ k0, s.(s_db) KLock !! k_id k = Some k0 ∧ k0 <| k_active := [] |> = k <| k_active := [] |>.
Lemma idle_step e k0 k : k0 <| k_active := [] |> = k <| k_active := [] |> → lock_step e k0 k.
Proof.
  intros E. split.
  - exact (eq_sym (f_equal (λ k, (k_file k, owner_key k)) E)).
  - exact (eq_sym (f_equal (λ k, (k_indices k, k_whole k, k_size k)) E)).
  - intros Hl. rewrite <-Hl. exact (f_equal (live_lock_at e) E).
Qed.
Lemma lock_step_trans e k1 k2 k3 : lock_step e k1 k2 → lock_step e k2 k3 → lock_step e k1 k3.
Proof. intros [A1 B1 C1] [A2 B2 C2]. split; [congruence|congruence|auto]. Qed.
Lemma use_locks i ls e : ∀ s u s', Forall (used s) ls →
  for_each ls (λ k, put KLock (k <| k_active ::= λ l, l ++ [i] |>)) e s = Ok (u, s') → locks_keep e s s'.
Proof.
  induction ls as [|k ls IH]; intros s u s' Hl Hr; simpl in Hr; [by apply ret_Ok in Hr as [_ ->]|].
  apply list.Forall_cons in Hl as [(k0 & Hk0 & E) Hl].
  apply bind_Ok in Hr as (u1 & s1 & ->%put_Ok & Hr). etrans; [|eapply IH; [|done]].
  - eapply locks_put; [exact Hk0|]. eapply lock_step_trans; [by apply idle_step|apply active_step].
  - eapply list.Forall_impl; [exact Hl|]. intros l (l0 & Hl0 & El). unfold used. simpl. rewrite put_db_same.
    destruct (decide (k_id k = k_id l)) as [Ei|Hne].
    + exists (k <| k_active ::= λ l, l ++ [i] |>). split; [rewrite <-Ei; exact (lookup_insert_eq _ _ _)|].
      rewrite Ei in Hk0. assert (k0 = l0) as <- by (injection (eq_trans (eq_sym Hk0) Hl0); auto).
      exact (eq_trans (eq_sym E) El).
    + exists l0. split; [|done]. rewrite <-Hl0. exact (lookup_insert_ne _ _ _ _ Hne).
Qed.
Lemma lk_access_begin_write u s c rq : keeps locks_keep (access_begin_write u s c rq).
Proof.
  refine (keeps_locks _ _). intros e s0 x0 t0 He Hu Hk Hr. unfold access_begin_write in Hr. runs.
  match goal with Hw : write_locks _ _ _ _ _ _ ?s1 = Ok (?ls, ?s2), Hl : for_each _ _ _ ?s3 = Ok (_, ?s4) |- _ =>
    transitivity s3; [clear Hl; back KLock|transitivity s4; [|clear Hw; destruct (negb _); runs; back KLock]];
    apply (use_locks _ _ _ _ _ _) in Hl; [done|];
    assert (frame (others KLock) e s0 s1) as F1 by (clear Hl; frame_back KLock);
    assert (frame (others KLock) e s2 s3) as F2 by (clear Hl; frame_back KLock);
    pose proof F1 as (_ & D1 & K1); apply frame_table in F1, F2;
    apply write_locks_held in Hw; [|by apply (unissued_same KLock _ s0)|by apply K1] end.
  match goal with Hw : Forall (held _) _ |- _ => eapply list.Forall_impl; [exact Hw|] end.
  intros k Hheld. exists k. split; [|done]. by eapply held_frame.
Qed.
Hint Resolve lk_acquire lk_renew_lock lk_unlock lk_truncate lk_access_close lk_lock_cmd lk_start_authority
  lk_access_begin_upload lk_access_renew_upload lk_access_begin_write : keeps.

(** *** Commands and units of work *)
Lemma lk_open_creating u s p m : keeps locks_keep (open_creating u s p m).
Proof. unfold open_creating. solve_keeps. Qed.
Hint Resolve lk_open_creating : keeps.
Lemma lk_access_open u s p m : keeps locks_keep (access_open u s p m).
Proof. unfold access_open. solve_keeps. Qed.
Lemma lk_access_commit_upload u s r f l : keeps locks_keep (access_commit_upload u s r f l).
Proof. unfold access_commit_upload. solve_keeps. Qed.
Lemma lk_access_abort_upload u s c r : keeps locks_keep (access_abort_upload u s c r).
Proof. unfold access_abort_upload. solve_keeps. Qed.
Lemma lk_access_remove u c p d : keeps locks_keep (access_remove u c p d).
Proof. unfold access_remove. solve_keeps. Qed.
Lemma lk_access_commit_write u s r h x fs cs : keeps locks_keep (access_commit_write u s r h x fs cs).
Proof. unfold access_commit_write. solve_keeps. Qed.
Lemma lk_abort_write u s c r : keeps locks_keep (abort_write u s c r).
Proof. unfold abort_write. solve_keeps. Qed.
Hint Resolve lk_access_open lk_access_commit_upload lk_access_abort_upload lk_access_remove lk_access_commit_write
  lk_abort_write : keeps.
Lemma lk_protection_open u s p m : keeps locks_keep (protection_open u s p m).
Proof. unfold protection_open. solve_keeps. Qed.
Lemma lk_protection_begin_upload u s c p t h o x : keeps locks_keep (protection_begin_upload u s c p t h o x).
Proof. unfold protection_begin_upload. solve_keeps. Qed.
Lemma lk_protection_begin_write u s c rq : keeps locks_keep (protection_begin_write u s c rq).
Proof. unfold protection_begin_write. solve_keeps. Qed.
Lemma lk_protection_commit_upload u s r f l : keeps locks_keep (protection_commit_upload u s r f l).
Proof. unfold protection_commit_upload. solve_keeps. Qed.
Lemma lk_protection_commit_write u s r h x f cs : keeps locks_keep (protection_commit_write u s r h x f cs).
Proof. unfold protection_commit_write. solve_keeps. Qed.
Hint Resolve lk_protection_open lk_protection_begin_upload lk_protection_begin_write lk_protection_commit_upload
  lk_protection_commit_write : keeps.
Lemma lk_promote_protection u c p x : keeps locks_keep (promote_protection u c p x).
Proof. unfold promote_protection. solve_keeps. Qed.
Hint Resolve lk_promote_protection : keeps.
Lemma lk_command u s c b : keeps locks_keep (command u s c b).
Proof.
  unfold command, begin_upload, renew_upload, commit_upload, abort_upload, remove, open_file, renew_handle, close,
    begin_write, commit_write, with_access, with_cluster, by_class, missing.
  destruct b; solve_keeps.
Qed.
Hint Resolve lk_command : keeps.
Lemma lk_publish token rq : keeps locks_keep (publish token rq).
Proof. unfold publish. solve_keeps. Qed.
Lemma lk_expire_write o : keeps locks_keep (expire_write o).
Proof. unfold expire_write. solve_keeps. Qed.
Hint Resolve lk_publish lk_expire_write : keeps.
Lemma lk_collect_leases : keeps locks_keep collect_leases.
Proof. unfold collect_leases. solve_keeps. Qed.
Hint Resolve lk_collect_leases : keeps.
Lemma lk_monolith_collect r : keeps locks_keep (monolith_collect r).
Proof. unfold monolith_collect. solve_keeps. Qed.
Hint Resolve lk_monolith_collect : keeps.
Lemma lk_units A (m : M A) : unit_of_work m → keeps locks_keep m.
Proof.
  destruct 1; try solve [solve_keeps].
  - by eapply (keeps_collect locks_keep); try solve [solve_keeps].
  - by eapply (keeps_start locks_keep); try solve [solve_keeps].
Qed.

(** *** Runs in time

    Between two units of work the clock of the authority does not go back and
    keys of etcd only expire, or a new control epoch began, under which no lock
    was granted yet. *)
Inductive later (e : env) (s : st) (e' : env) : Prop :=
  | same_epoch :
      e'.(e_cfg).(c_profile) = e.(e_cfg).(c_profile) → e'.(e_lease_epoch) = e.(e_lease_epoch) →
      lease_clock_of e ≤ lease_clock_of e' →
      (∀ i k, s.(s_db) KLock !! i = Some k → e'.(e_lease_live) KLock (k_id k) = true → e.(e_lease_live) KLock (k_id k) = true) →
      later e s e'
  | new_epoch :
      (∀ i k, s.(s_db) KLock !! i = Some k → k.(k_control_epoch) ≠ e'.(e_lease_epoch)) → later e s e'.
Inductive timed (ids : nat → string) : env * st → env * st → Prop :=
  | timed_step e s e' A (m : M A) a s' :
      later e s e' → e'.(e_uid) = ids → unit_of_work m → m e' s = Ok (a, s') → timed ids (e, s) (e', s').

Lemma later_live e s e' i k : later e s e' → s.(s_db) KLock !! i = Some k →
  live_lock_at e' k = true → live_lock_at e k = true.
Proof.
  unfold live_lock_at. rewrite !andb_true_iff, !orb_true_iff, !negb_true_iff, bool_decide_eq_true, !bool_decide_eq_false, !Z.ltb_lt.
  intros [Hp Hep Hc Hl|Hep] Hk [[He Hd] Hx].
  - rewrite Hp in Hx. split_and!; [apply bool_decide_eq_true; congruence|lia|]. destruct Hx; [by left|right; eauto].
  - by destruct (Hep i k Hk).
Qed.
Lemma exclusive_later e s e' : later e s e' → exclusive e s → exclusive e' s.
Proof. intros L X i j k l Hk Hl Lk Ll. apply (X i j); [done|done|by eapply later_live..]. Qed.

(** C3: Locks exclude each other.  Along every run of the system in time, at every
    instant two live locks on one file that belong to different owners do not
    conflict: neither covers the whole file, they share no block, and not both cover
    the size. *)
Theorem locks_exclusive ids e s e' s' :
  distinct_draws ids → keyed s.(s_db) → unissued KLock ids s → exclusive e s →
  rtc (timed ids) (e, s) (e', s') → exclusive e' s'.
Proof.
  intros He Hk Hu X Hr.
  refine (proj2 (proj2 (rtc_ind_r (λ p, keyed p.2.(s_db) ∧ unissued KLock ids p.2 ∧ exclusive p.1 p.2) (e, s) _ _ (e', s') Hr))).
  - done.
  - intros [e1 s1] [e2 s2] _ Ht (Hk1 & Hu1 & X1). simpl in *. inversion Ht as [? ? ? A m a ? L Hids Hm Hrun]; subst.
    destruct (lk_units A m Hm e2 s1 a s2 Hrun) as (_ & K & G). destruct (G He Hk1 Hu1) as [U2 X2].
    split_and!; [by apply K|done|]. apply X2. by eapply exclusive_later.
Qed.
End Locks.
