(* ===== verification/Paths.v ===== *)
(** * Paths

    How a path is cut into names, and what the walk along them visits: [parent]
    and [resolve] agree on every path both accept. *)
From S2P Require Import Prelude Domain Data Store Auth Leases Cluster Placement Requests Queries Commands Access Protection Footprints Tables.

(** ** Texts *)
Lemma has_char_app c a b : has_char c (a +:+ b) = has_char c a || has_char c b.
Proof. induction a as [|c' a IH]; simpl; [done|]. by rewrite IH, orb_assoc. Qed.
Lemma split_none c s : has_char c s = false → split_on c s = [s].
Proof.
  induction s as [|c' s IH]; simpl; [done|]. intros [Hc Hs]%orb_false_iff. rewrite IH by done.
  apply bool_decide_eq_false in Hc. by rewrite decide_False.
Qed.
Lemma split_app c a b : split_on c (a +:+ String c b) = split_on c a ++ split_on c b.
Proof.
  induction a as [|c' a IH]; simpl; [by rewrite decide_True|]. case_decide; [by rewrite IH|]. rewrite IH.
  pose proof (split_on_nonempty c a) as Hn. by destruct (split_on c a).
Qed.
Lemma rpartition_char c s : has_char c s = true →
  s = (rpartition c s).1 +:+ String c (rpartition c s).2 ∧ has_char c (rpartition c s).2 = false.
Proof.
  induction s as [|c' s IH]; simpl; [done|]. intros Hs. destruct (has_char c s) eqn:E.
  - destruct (IH eq_refl) as [E1 E2]. destruct (rpartition c s) as [h t]; simpl in *. by rewrite <-E1.
  - rewrite orb_false_r in Hs. apply bool_decide_eq_true in Hs as <-. rewrite decide_True by done. by split.
Qed.
Lemma rstrip_split c s : ∃ k, split_on c s = split_on c (rstrip c s) ++ replicate k "".
Proof.
  induction s as [|c' s [k IH]]; simpl; [by exists 0%nat|].
  destruct (decide (c = c' ∧ rstrip c s = "")) as [[<- E]|Hd].
  - exists (S k). rewrite IH, E. by rewrite decide_True.
  - simpl. rewrite IH. case_decide as Hc; [by exists k|].
    pose proof (split_on_nonempty c (rstrip c s)) as Hn. destruct (split_on c (rstrip c s)); [done|]. by exists k.
Qed.
Lemma starts_slash_rstrip s : starts_with "/" s = true → rstrip slash s ≠ "" → has_char slash (rstrip slash s) = true.
Proof.
  destruct s as [|c s]; [done|]. unfold starts_with. cbn [String.prefix].
  destruct (ascii_dec "/" c) as [<-|]; [|done]. intros _. cbn [rstrip]. case_decide as Hd; [done|]. intros _. reflexivity.
Qed.

Lemma rstrip_end c s : ∀ a, rstrip c s ≠ a +:+ String c "".
Proof.
  induction s as [|c' s IH]; intros [|x a]; simpl; try done; case_decide as Hd; try done.
  - intros [= -> E]. by destruct Hd.
  - intros [= _ E]. by apply (IH a).
Qed.

Section Paths.
Context `{Hash, Unicode, Json, Base64, Wire}.

(** ** Components *)
Lemma components_rstrip s : components (rstrip slash s) = components s.
Proof.
  unfold components. destruct (rstrip_split slash s) as [k ->]. rewrite List.filter_app.
  replace (List.filter _ (replicate k "")) with (@nil string); [by rewrite app_nil_r|]. by induction k.
Qed.
Lemma components_snoc a b : has_char slash b = false → b ≠ "" → components (a +:+ String slash b) = components a ++ [b].
Proof.
  intros Hb Hn. unfold components. rewrite split_app, List.filter_app, (split_none slash b) by done. simpl.
  unfold empty. by rewrite bool_decide_false.
Qed.

(** ** The walk *)
Lemma require_cases u n b e s :
  require u n b e s = Ok (tt, s) ∨ require u n b e s = Err (Fault PERMISSION_DENIED).
Proof.
  unfold require, mbind, sm_bind, system_of, all, need, guard_or.
  destruct (u_admin u && _); [by left|]. destruct (_ =? _); [by left|by right].
Qed.
Lemma require_Ok u n b e s v s' : require u n b e s = Ok (v, s') → s' = s.
Proof. destruct (require_cases u n b e s) as [-> | ->]; [by intros [= _ ->]|done]. Qed.
Lemma walk_from_Ok u ps : ∀ n e s m s', walk_from u n ps e s = Ok (m, s') → s' = s.
Proof.
  induction ps as [|p ps IH]; intros n e s m s' Hr; simpl in Hr; [by apply ret_Ok in Hr as [_ ->]|].
  runs. match goal with Hq : require _ _ _ _ _ = _ |- _ => apply require_Ok in Hq as -> end.
  case_decide; [by eapply IH|]. case_decide; [destruct (n_parent n) as [i|]|]; runs; by eapply IH.
Qed.
Lemma walk_from_snoc u q ps : ∀ n e s,
  walk_from u n (ps ++ [q]) e s =
  match walk_from u n ps e s with Ok (m, s') => walk_from u m [q] e s' | Err x => Err x end.
Proof.
  induction ps as [|p ps IH]; intros n e s; [done|]. cbn [app walk_from].
  unfold mbind, sm_bind. destruct (need _ _ e s) as [[? s1]|]; [|done]. destruct (require u n 1 e s1) as [[? s2]|]; [|done].
  destruct (decide (p = ".")); [by rewrite IH|]. destruct (decide (p = "..")).
  - destruct (n_parent n); [|by rewrite IH]. destruct (get _ _ e s2) as [[o s3]|]; [|done].
    destruct o as [m|]; [exact (IH m e s3)|done].
  - destruct (children _ e s2) as [[ns s3]|]; [|done]. destruct (child_named p ns) as [m|]; [exact (IH m e s3)|done].
Qed.
Lemma walk_found u q e s n s' : walk u q e s = Ok (n, s') →
  s' = s ∧ ∃ top, s.(s_db) KNode !! e.(e_system).(sy_root) = Some top
    ∧ walk_from u top (map nfc (components q)) e s = Ok (n, s).
Proof.
  unfold walk. intros Hr. runs. match goal with Hw : walk_from _ _ _ _ _ = _ |- _ => pose proof Hw as ->%walk_from_Ok end.
  split; [done|]. by eexists.
Qed.
Lemma full_path_Ok u r e s p s' : full_path u r e s = Ok (p, s') → s' = s.
Proof.
  unfold full_path. intros Hr. runs. destruct (starts_with _ _); runs; [done|].
  match goal with Hc : catch _ _ _ _ = Ok _ |- _ => rewrite catch_Ok in Hc; destruct Hc as [Hw|(x & _ & Hx)] end.
  - by apply walk_found in Hw as [-> _].
  - by destruct (decide _).
Qed.
(** Where [parent] puts a name: below the directory that the walk along all but
    the last component reaches. *)
Record parent_of (u : user) (r : PathRef) (e : env) (s : st) (p : node) (name : string) : Prop := mkParentOf {
  pa_directory : is_directory p = true;
  pa_name : name ∉ [""; "."; ".."];
  pa_require : require u p 3 e s = Ok (tt, s);
  pa_walk : ∃ q top ps, full_path u r e s = Ok (q, s) ∧ s.(s_db) KNode !! e.(e_system).(sy_root) = Some top
    ∧ walk_from u top ps e s = Ok (p, s) ∧ (starts_with "/" q = true → map nfc (components q) = ps ++ [name]) }.
Lemma parent_found u r e s p name s' : parent u r e s = Ok ((p, name), s') → s' = s ∧ parent_of u r e s p name.
Proof.
  unfold parent. intros Hr. apply bind_Ok in Hr as (q & s1 & Hq & Hr). pose proof Hq as ->%full_path_Ok.
  set (t := rstrip slash q) in *. destruct (rpartition slash t) as [pp last] eqn:Hpart.
  runs. match goal with Hw : walk _ _ _ _ = _ |- _ => apply walk_found in Hw as (-> & top & Htop & Hwalk) end.
  match goal with Hq : require _ _ _ _ _ = Ok (?x, _) |- _ => destruct x; pose proof Hq as ->%require_Ok end.
  split; [done|]. split; [done|done|done|]. exists q, top, (map nfc (components pp)). split_and!; [done|done| |].
  - rewrite <-Hwalk. do 2 f_equal. unfold empty. case_bool_decide as Hpp; [by rewrite Hpp|done].
  - intros Hs. pose proof (components_rstrip q) as Hc. fold t in Hc. rewrite <-Hc.
    assert (has_char slash t = true) as Ht.
    { apply starts_slash_rstrip; [done|]. fold t. intros E. by rewrite E in *. }
    apply rpartition_char in Ht as [Et Hlast]. rewrite Hpart in *. simpl in *.
    rewrite Et, components_snoc; [by rewrite map_app|done|]. intros ->. by eapply (rstrip_end slash q).
Qed.
Lemma walk_missing u q e s top : walk u q e s = Err (Fault NOT_FOUND) →
  s.(s_db) KNode !! e.(e_system).(sy_root) = Some top →
  starts_with "/" q = true ∧ walk_from u top (map nfc (components q)) e s = Err (Fault NOT_FOUND).
Proof.
  unfold walk, mbind, sm_bind, need, guard_or, system_of, get. intros Hw Htop.
  destruct (starts_with "/" q); [|done]. destruct (_ && _); [|done]. destruct (_ && _); [|done].
  unfold mret, sm_ret in Hw. cbv beta iota in Hw.
  destruct (s_db s KNode !! _) as [n|] eqn:E in Hw; [|by discriminate (eq_trans (eq_sym E) Htop)].
  injection (eq_trans (eq_sym E) Htop) as ->. by split.
Qed.
Lemma walk_one u p name e s : is_directory p = true → name ∉ [""; "."; ".."] →
  walk_from u p [name] e s = Err (Fault NOT_FOUND) → child_named name (children_db p.(n_id) s.(s_db)) = None.
Proof.
  intros Hd Hn. cbn [walk_from]. unfold mbind, sm_bind, need, guard_or. rewrite Hd. cbn.
  destruct (require_cases u p 1 e s) as [-> | ->]; [|done]. rewrite !decide_False by set_solver. cbn.
  by destruct (child_named _ _).
Qed.
Lemma resolve_missing u r e s p name : parent_of u r e s p name → resolve u r e s = Err (Fault NOT_FOUND) →
  child_named name (children_db p.(n_id) s.(s_db)) = None.
Proof.
  intros [Hd Hn _ (q & top & ps & Hq & Htop & Hp & Hc)] Hr. unfold resolve, mbind, sm_bind in Hr. rewrite Hq in Hr.
  destruct (walk_missing _ _ _ _ _ Hr Htop) as [Hs Hw]. rewrite (Hc Hs), walk_from_snoc, Hp in Hw. by eapply walk_one.
Qed.
Lemma walk_one_found u p name e s n s' : name ∉ [""; "."; ".."] → walk_from u p [name] e s = Ok (n, s') →
  child_named name (children_db p.(n_id) s.(s_db)) = Some n.
Proof.
  intros Hn Hr. cbn [walk_from] in Hr. runs.
  match goal with Hq : require _ _ _ _ _ = _ |- _ => apply require_Ok in Hq as -> end.
  rewrite !decide_False in * by set_solver. runs. by symmetry.
Qed.
Lemma resolve_found u r e s n s' : resolve u r e s = Ok (n, s') →
  s' = s ∧ ∃ top ps, s.(s_db) KNode !! e.(e_system).(sy_root) = Some top ∧ walk_from u top ps e s = Ok (n, s).
Proof.
  unfold resolve. intros Hr. apply bind_Ok in Hr as (q & s1 & Hq & Hr). apply full_path_Ok in Hq as ->.
  apply walk_found in Hr as (-> & top & Htop & Hw). split; [done|]. by eexists _, _.
Qed.

(** C30: [parent] and [resolve] agree on where a path leads: when both accept it, the
    node that [resolve] gives is the live child of that name of the directory that
    [parent] gives, and when [resolve] finds nothing there is no such child.  So a
    command that creates at a path never hides a node that a query of the same path
    would find. *)
Theorem resolve_agrees u r e s p name s1 :
  parent u r e s = Ok ((p, name), s1) →
  (∀ n s2, resolve u r e s = Ok (n, s2) → child_named name (children_db p.(n_id) s.(s_db)) = Some n)
  ∧ (resolve u r e s = Err (Fault NOT_FOUND) → child_named name (children_db p.(n_id) s.(s_db)) = None).
Proof.
  intros [_ Hp]%parent_found. split; [|by apply resolve_missing].
  destruct Hp as [Hd Hn _ (q & top & ps & Hq & Htop & Hp & Hc)]. intros n s2 Hr. unfold resolve in Hr.
  apply bind_Ok in Hr as (q' & s3 & Hq' & Hr). rewrite Hq in Hq'. injection Hq' as <- <-.
  assert (starts_with "/" q = true) as Hs by (unfold walk in Hr; by runs).
  apply walk_found in Hr as (-> & top' & Htop' & Hw). rewrite Htop in Htop'. injection Htop' as <-.
  rewrite (Hc Hs), walk_from_snoc, Hp in Hw. by eapply walk_one_found.
Qed.
End Paths.
