(* ===== verification/Tree.v ===== *)
(** * The tree of nodes

    The table of nodes is a tree below the root: parents exist and are live
    directories, live siblings have distinct names, files have a snapshot and
    directories none, and no chain of parents repeats. *)
From S2P Require Import Prelude Domain Data Store Auth Leases Cluster Placement Requests Queries Commands Access Protection Footprints Tables Service Nodes Maintenance Startup UnitFootprints Uploads System.

Section Shape.
Context `{Unicode}.

(** A pending upload of a new file: the file it will create is drawn with it, and
    is not in the table before its commit. *)
Definition pending_new (o : upload) : Prop := o.(o_state) = PREPARING ∧ o.(o_base) = None.
Record reserved_file (ids : nat → string) (draws : nat) (N : gmap string node) (o : upload) : Prop := mkReservedFile {
  rf_drawn : ∃ n, o.(o_id) = ids n ∧ o.(o_file) = ids (S n) ∧ (S n < draws)%nat;
  rf_absent : N !! o.(o_file) = None;
  rf_name : o.(o_name) ∉ [""; "."; ".."];
  rf_parent : ∃ p m, o.(o_parent) = Some p ∧ N !! p = Some m ∧ m.(n_kind) = Directory }.

(** What holds other nodes: a directory, or a file at [/home], where [CreateUser]
    does not ask. *)
Definition container (root : string) (m : node) : Prop :=
  m.(n_kind) = Directory ∨ (m.(n_kind) = File ∧ m.(n_parent) = Some root ∧ m.(n_name) = nfc "home").

Record tree (root : string) (N : gmap string node) : Prop := mkTree {
  tr_root : ∃ n, N !! root = Some n ∧ n.(n_kind) = Directory ∧ n.(n_alive) = true ∧ n.(n_parent) = None;
  tr_orphan i n : N !! i = Some n → n.(n_parent) = None → i = root;
  tr_parent i n p : N !! i = Some n → n.(n_parent) = Some p →
    ∃ m, N !! p = Some m ∧ container root m
         ∧ (m.(n_kind) = Directory → n.(n_alive) = true → m.(n_alive) = true);
  tr_name i n : N !! i = Some n → is_Some n.(n_parent) → n.(n_name) ∉ [""; "."; ".."];
  tr_unique i j n m : N !! i = Some n → N !! j = Some m → n.(n_alive) = true → m.(n_alive) = true →
    is_Some n.(n_parent) → n.(n_parent) = m.(n_parent) → n.(n_name) = m.(n_name) → i = j;
  tr_content i n : N !! i = Some n → (n.(n_kind) = File ↔ is_Some n.(n_snapshot));
  tr_rank : ∃ r : string → nat, ∀ i n p, N !! i = Some n → n.(n_parent) = Some p → (r p < r i)%nat }.

(** What the tree depends on of a node. *)
Definition shape (n : node) := (n.(n_parent), n.(n_name), n.(n_kind), n.(n_alive), bool_decide (is_Some n.(n_snapshot))).

Lemma shape_content n n' : shape n = shape n' → is_Some n.(n_snapshot) ↔ is_Some n'.(n_snapshot).
Proof.
  intros [= _ _ _ _ E]. rewrite <-(bool_decide_eq_true (is_Some (n_snapshot n))), <-(bool_decide_eq_true (is_Some (n_snapshot n'))).
  by rewrite E.
Qed.
Lemma container_shape root m m' : shape m = shape m' → container root m → container root m'.
Proof. intros [= E1 E2 E3 _ _]. unfold container. congruence. Qed.

(** A node changed in what the tree does not depend on. *)
Lemma tree_update root N n c i : tree root N → N !! i = Some c → shape n = shape c → tree root (<[i := n]> N).
Proof.
  intros T Hc E. pose proof E as [= E1 E2 E3 E4 _]. apply shape_content in E as Es.
  assert (∀ j m, <[i := n]> N !! j = Some m → ∃ m', N !! j = Some m' ∧ shape m = shape m') as back.
  { intros j m [[<- <-]|[_ Hm]]%lookup_insert_Some; [by exists c|by exists m]. }
  assert (∀ j m, N !! j = Some m → ∃ m', <[i := n]> N !! j = Some m' ∧ shape m' = shape m) as forth.
  { intros j m Hm. destruct (decide (i = j)) as [<-|Hne].
    - exists n. rewrite lookup_insert_eq. rewrite Hc in Hm. injection Hm as <-. by split.
    - exists m. by rewrite lookup_insert_ne. }
  split.
  - destruct (tr_root _ _ T) as (m & Hm & A & B & C). destruct (forth _ _ Hm) as (m' & Hm' & [= F1 F2 F3 F4 _]).
    exists m'. split_and!; congruence.
  - intros j m (m' & Hm & [= F1 _ _ _ _])%back Hp. rewrite F1 in Hp. by eapply tr_orphan.
  - intros j m p (m' & Hm & [= F1 F2 F3 F4 _])%back Hp. rewrite F1 in Hp.
    destruct (tr_parent _ _ T _ _ _ Hm Hp) as (q & Hq & Hcont & Ha). destruct (forth _ _ Hq) as (q' & Hq' & F).
    exists q'. split_and!; [done|by eapply container_shape|]. injection F as G1 G2 G3 G4 _. by rewrite G3, G4, F4.
  - intros j m (m' & Hm & [= F1 F2 F3 F4 _])%back Hp. rewrite F1 in Hp. rewrite F2. by eapply tr_name.
  - intros j k m m2 (m' & Hm & [= F1 F2 F3 F4 _])%back (m2' & Hm2 & [= G1 G2 G3 G4 _])%back.
    rewrite F1, F2, F4, G1, G2, G4. by eapply tr_unique.
  - intros j m (m' & Hm & F)%back. rewrite (shape_content _ _ F). injection F as F1 F2 F3 F4 _. rewrite F3. by eapply tr_content.
  - destruct (tr_rank _ _ T) as [r Hr]. exists r. intros j m p (m' & Hm & [= F1 _ _ _ _])%back Hp.
    rewrite F1 in Hp. by eapply Hr.
Qed.
(** A node added below a container. *)
Lemma tree_insert root N n i p m : tree root N → N !! i = None → n.(n_parent) = Some p → N !! p = Some m →
  container root m → m.(n_alive) = true → n.(n_name) ∉ [""; "."; ".."] →
  (∀ j c, N !! j = Some c → c.(n_alive) = true → c.(n_parent) = Some p → c.(n_name) ≠ n.(n_name)) →
  (n.(n_kind) = File ↔ is_Some n.(n_snapshot)) → tree root (<[i := n]> N).
Proof.
  intros T Hi Hp Hm Hcont Halive Hname Huniq Hcontent.
  assert (∀ j c, N !! j = Some c → <[i := n]> N !! j = Some c) as old.
  { intros j c Hc. rewrite lookup_insert_ne; [done|]. intros ->. congruence. }
  split.
  - destruct (tr_root _ _ T) as (q & Hq & A). exists q. split; [by apply old|done].
  - intros j c [[<- <-]|[_ Hc]]%lookup_insert_Some; [congruence|by eapply tr_orphan].
  - intros j c q [[<- <-]|[_ Hc]]%lookup_insert_Some Hq.
    + rewrite Hp in Hq. injection Hq as <-. exists m. split_and!; [by apply old|done|done].
    + destruct (tr_parent _ _ T _ _ _ Hc Hq) as (a & Ha & A). exists a. split; [by apply old|done].
  - intros j c [[<- <-]|[_ Hc]]%lookup_insert_Some Hs; [done|by eapply tr_name].
  - intros j k a b [[<- <-]|[_ Ha]]%lookup_insert_Some [[<- <-]|[_ Hb]]%lookup_insert_Some La Lb Hs Epar Ename.
    + done.
    + rewrite Hp in Epar. by destruct (Huniq k b).
    + rewrite Hp in Epar. by destruct (Huniq j a).
    + by eapply (tr_unique _ _ T j k a b).
  - intros j c [[<- <-]|[_ Hc]]%lookup_insert_Some; [done|by eapply tr_content].
  - destruct (tr_rank _ _ T) as [r Hr]. exists (λ j, if decide (j = i) then S (r p) else r j).
    intros j c q [[<- <-]|[Hne Hc]]%lookup_insert_Some Hq.
    + rewrite Hp in Hq. injection Hq as <-. rewrite decide_False, decide_True by (try done; intros ->; congruence). lia.
    + destruct (tr_parent _ _ T _ _ _ Hc Hq) as (a & Ha & _). rewrite !decide_False by (try done; intros ->; congruence).
      by eapply Hr.
Qed.

(** A node that is no longer live: a file, or a directory without live children. *)
Lemma tree_remove root N n n' i : tree root N → N !! i = Some n → is_Some n.(n_parent) →
  (n.(n_kind) = Directory → ∀ j c, N !! j = Some c → c.(n_alive) = true → c.(n_parent) ≠ Some i) →
  shape n' = shape (n <| n_alive := false |>) → tree root (<[i := n']> N).
Proof.
  intros T Hi Hs Hkids E. rewrite <-(insert_insert_eq N i n' (n <| n_alive := false |>)).
  eapply tree_update; [|apply lookup_insert_eq|done]. clear n' E. set (n' := n <| n_alive := false |>).
  assert (∀ j m, <[i := n']> N !! j = Some m → ∃ m', N !! j = Some m' ∧ (m = m' ∨ (j = i ∧ m = n'))) as back.
  { intros j m [[<- <-]|[_ Hm]]%lookup_insert_Some; [exists n; auto|exists m; auto]. }
  split.
  - destruct (tr_root _ _ T) as (m & Hm & A & B & C). exists m. rewrite lookup_insert_ne; [done|]. intros ->. simplify_eq.
    rewrite C in Hs. by destruct Hs.
  - intros j c [[<- <-]|[_ Hc]]%lookup_insert_Some Hp; [|by eapply tr_orphan]. eapply (tr_orphan _ _ T i n); done.
  - intros j c p Hc Hp.
    assert (∃ c', N !! j = Some c' ∧ c'.(n_parent) = Some p ∧ (c.(n_alive) = true → c'.(n_alive) = true)) as (c' & Hc' & Hp' & Ha').
    { destruct (back _ _ Hc) as (c' & Hc' & [->|[-> ->]]); [by exists c'|]. exists n. by simplify_eq. }
    destruct (tr_parent _ _ T _ _ _ Hc' Hp') as (m & Hm & Hcont & Ha). destruct (decide (i = p)) as [<-|Hne].
    + exists n'. rewrite lookup_insert_eq. simplify_eq. split_and!; [done|done|]. intros Hk Hcl.
      destruct (Hkids Hk j c'); auto.
    + exists m. rewrite lookup_insert_ne by done. split_and!; auto.
  - intros j c (c' & Hc' & [->|[-> ->]])%back Hp; [by eapply tr_name|]. by apply (tr_name _ _ T i n).
  - intros j k a b (a' & Ha' & [->|[-> ->]])%back (b' & Hb' & [->|[-> ->]])%back; try done. by eapply tr_unique.
  - intros j c (c' & Hc' & [->|[-> ->]])%back; [by eapply tr_content|]. by apply (tr_content _ _ T i n).
  - destruct (tr_rank _ _ T) as [r Hr]. exists r. intros j c p (c' & Hc' & [->|[-> ->]])%back Hp; [by eapply Hr|].
    by apply (Hr i n).
Qed.

Lemma parent_ne root N i n p : tree root N → N !! i = Some n → n.(n_parent) = Some p → i ≠ p.
Proof. intros T Hi Hp <-. destruct (tr_rank _ _ T) as [r Hr]. specialize (Hr _ _ _ Hi Hp). lia. Qed.

(** ** Nodes and uploads together *)
Record names (root : string) (ids : nat → string) (draws : nat) (N : gmap string node) (U : gmap string upload) : Prop := mkNames {
  nm_nodes n : (draws ≤ n)%nat → N !! ids n = None;
  nm_uploads n : (draws ≤ n)%nat → U !! ids n = None;
  nm_tree : tree root N;
  nm_pending i o : U !! i = Some o → pending_new o → i = o.(o_id) ∧ reserved_file ids draws N o }.

Section Names.
Context (root : string) (ids : nat → string).
Implicit Types (N : gmap string node) (U : gmap string upload).

Lemma names_draw d d' N U : (d ≤ d')%nat → names root ids d N U → names root ids d' N U.
Proof.
  intros Hd [A B C D]. split; [|..|done|].
  - intros n Hn. apply A. lia.
  - intros n Hn. apply B. lia.
  - intros i o Ho Hp. destruct (D i o Ho Hp) as [E [(n & F) G I J]]. split; [done|]. split; [|done..]. exists n. intuition lia.
Qed.
Definition target (o : upload) := (o.(o_id), o.(o_file), o.(o_parent), o.(o_name)).
Lemma names_uploads d N U U' : names root ids d N U → (∀ n, (d ≤ n)%nat → U' !! ids n = None) →
  (∀ i o', U' !! i = Some o' → pending_new o' → ∃ o, U !! i = Some o ∧ pending_new o ∧ target o' = target o) →
  names root ids d N U'.
Proof.
  intros [A B C D] Hu Hback. split; [done..|]. intros i o' Ho' Hp'.
  destruct (Hback i o' Ho' Hp') as (o & Ho & Hp & [= E1 E2 E3 E4]). destruct (D i o Ho Hp) as [E [F G I J]].
  split; [congruence|]. split; rewrite ?E1, ?E2, ?E3, ?E4; done.
Qed.
Lemma names_node d N U i n : names root ids d N U → tree root (<[i := n]> N) → (∀ m, (d ≤ m)%nat → i ≠ ids m) →
  (∀ c, N !! i = Some c → c.(n_kind) = n.(n_kind)) →
  (N !! i = None → ∀ j o, U !! j = Some o → pending_new o → o.(o_file) ≠ i) →
  names root ids d (<[i := n]> N) U.
Proof.
  intros [A B C D] T Hi Hk Hf. split; [|done..|].
  - intros m Hm. rewrite lookup_insert_ne; [by apply A|by apply Hi].
  - intros j o Ho Hp. destruct (D j o Ho Hp) as [E [F G I (p & m & Hop & Hm & Hd)]]. split; [done|]. split; [done| |done|].
    + rewrite lookup_insert_ne; [done|]. intros ->. by eapply (Hf G j o).
    + destruct (decide (i = p)) as [->|Hne].
      * exists p, n. rewrite lookup_insert_eq. split_and!; [done..|]. by rewrite <-(Hk m Hm).
      * exists p, m. by rewrite lookup_insert_ne.
Qed.
Lemma names_update d N U i n c : names root ids d N U → N !! i = Some c → shape n = shape c →
  names root ids d (<[i := n]> N) U.
Proof.
  intros HN Hc E. apply names_node; [done| | | |].
  - eapply tree_update; [by eapply nm_tree|done..].
  - intros m Hm ->. by rewrite (nm_nodes _ _ _ _ _ HN m Hm) in Hc.
  - intros c'. rewrite Hc. intros [= <-]. injection E. congruence.
  - by rewrite Hc.
Qed.
Lemma names_update2 d N U i j n n' p p' : names root ids d N U → N !! i = Some n → N !! j = Some p →
  shape n' = shape n → shape p' = shape p → names root ids d (<[j := p']> (<[i := n']> N)) U.
Proof.
  intros HN Hi Hj En Ep. assert (names root ids d (<[i := n']> N) U) as HN' by (by eapply names_update).
  destruct (decide (i = j)) as [<-|Hne].
  - eapply names_update; [done|apply lookup_insert_eq|]. congruence.
  - eapply names_update; [done|by rewrite lookup_insert_ne|done].
Qed.
Lemma names_remove d N U i n n' : names root ids d N U → N !! i = Some n → is_Some n.(n_parent) →
  (n.(n_kind) = Directory → ∀ j c, N !! j = Some c → c.(n_alive) = true → c.(n_parent) ≠ Some i) →
  shape n' = shape (n <| n_alive := false |>) → names root ids d (<[i := n']> N) U.
Proof.
  intros HN Hi Hs Hkids E. apply names_node; [done| | | |by rewrite Hi].
  - eapply tree_remove; [by eapply nm_tree|done..].
  - intros m Hm ->. by rewrite (nm_nodes _ _ _ _ _ HN m Hm) in Hi.
  - intros c. rewrite Hi. intros [= <-]. injection E. congruence.
Qed.
Lemma names_end d N U i o o' : names root ids d N U → U !! i = Some o → ¬ pending_new o' →
  names root ids d N (<[i := o']> U).
Proof.
  intros HN Hi Ho. eapply names_uploads; [done| |].
  - intros n Hn. rewrite lookup_insert_ne; [by eapply nm_uploads|]. intros ->. by rewrite (nm_uploads _ _ _ _ _ HN n Hn) in Hi.
  - intros j x [[<- <-]|[_ Hx]]%lookup_insert_Some Hp; [done|by exists x].
Qed.
(** A pending upload of a new file that commits puts the file below its parent. *)
Lemma names_commit d N U i o o' n p m : names root ids d N U → distinct_draws ids → U !! i = Some o → pending_new o →
  ¬ pending_new o' → n.(n_parent) = Some p → o.(o_parent) = Some p → n.(n_name) = o.(o_name) → N !! p = Some m →
  m.(n_alive) = true →
  (∀ j c, N !! j = Some c → c.(n_alive) = true → c.(n_parent) = Some p → c.(n_name) ≠ n.(n_name)) →
  (n.(n_kind) = File ↔ is_Some n.(n_snapshot)) → names root ids d (<[o.(o_file) := n]> N) (<[i := o']> U).
Proof.
  intros HN He Hi Hp Hp' Hnp Hop Hnm Hm Ha Hu Hs.
  destruct (nm_pending _ _ _ _ _ HN i o Hi Hp) as [Ei [(k & Hk & Hf & Hkd) Habs Hname (q & m' & Hq & Hm' & Hd)]].
  simplify_eq. apply names_node.
  - by eapply names_end.
  - eapply tree_insert; [by eapply nm_tree|done|done|done|by left|done|by rewrite Hnm|done|done].
  - rewrite Hf. intros j Hj E%He. lia.
  - by rewrite Habs.
  - intros _ j x [[<- <-]|[Hne Hx]]%lookup_insert_Some Hxp; [done|].
    destruct (nm_pending _ _ _ _ _ HN j x Hx Hxp) as [Ej [(a & Ha' & Hf' & _) _ _ _]].
    rewrite Hf, Hf'. intros [=E%He]. congruence.
Qed.
Lemma names_add d d' k N U n p m : names root ids d N U → distinct_draws ids → (d ≤ k < d')%nat →
  n.(n_parent) = Some p → N !! p = Some m → container root m → m.(n_alive) = true → n.(n_name) ∉ [""; "."; ".."] →
  (∀ j c, N !! j = Some c → c.(n_alive) = true → c.(n_parent) = Some p → c.(n_name) ≠ n.(n_name)) →
  (n.(n_kind) = File ↔ is_Some n.(n_snapshot)) → names root ids d' (<[ids k := n]> N) U.
Proof.
  intros HN He Hk Hp Hm Hc Ha Hnm Hu Hs. pose proof (nm_nodes _ _ _ _ _ HN k ltac:(lia)) as Hnone.
  pose proof (nm_tree _ _ _ _ _ HN) as T.
  apply names_node; [apply (names_draw d d'); [lia|done]| | |by rewrite Hnone|].
  - by eapply tree_insert.
  - intros j Hj E%He. lia.
  - intros _ j o Ho Hpo. destruct (nm_pending _ _ _ _ _ HN j o Ho Hpo) as [_ [(x & _ & -> & Hx) _ _ _]]. intros E%He. lia.
Qed.
Lemma names_root d d' k N U n : N = ∅ → U = ∅ → distinct_draws ids → (d ≤ k < d')%nat → root = ids k → n.(n_parent) = None →
  n.(n_kind) = Directory → n.(n_alive) = true → n.(n_snapshot) = None → names root ids d' (<[root := n]> N) U.
Proof.
  intros -> -> He Hk Er Hp Hd Ha Hs. split.
  - intros m Hm. rewrite lookup_insert_ne; [done|]. rewrite Er. intros E%He. lia.
  - done.
  - split.
    + exists n. by rewrite lookup_insert_eq.
    + intros i c [[<- <-]|[_ Hc]]%lookup_insert_Some; [done|by rewrite lookup_empty in Hc].
    + intros i c p [[<- <-]|[_ Hc]]%lookup_insert_Some; [congruence|by rewrite lookup_empty in Hc].
    + intros i c [[<- <-]|[_ Hc]]%lookup_insert_Some; [rewrite Hp; by intros []|by rewrite lookup_empty in Hc].
    + intros i j a b [[<- <-]|[_ Hc]]%lookup_insert_Some; [rewrite Hp; by intros _ _ _ []|by rewrite lookup_empty in Hc].
    + intros i c [[<- <-]|[_ Hc]]%lookup_insert_Some; [rewrite Hd, Hs; by split; [|intros []]|by rewrite lookup_empty in Hc].
    + exists (λ _, 0%nat). intros i c p [[<- <-]|[_ Hc]]%lookup_insert_Some; [congruence|by rewrite lookup_empty in Hc].
  - intros i o. by rewrite lookup_empty.
Qed.
Lemma names_begin d d' N U i o : names root ids d N U → (d ≤ d')%nat → i = o.(o_id) →
  (∃ n, i = ids n ∧ (d ≤ n < d')%nat) → distinct_draws ids →
  (pending_new o → reserved_file ids d' N o) → names root ids d' N (<[i := o]> U).
Proof.
  intros HN Hd -> (n & Hi & Hn) He Hr. apply (names_draw d d') in HN; [|done]. destruct HN as [A B C D]. split; [done| |done|].
  - intros m Hm. rewrite lookup_insert_ne; [by apply B|]. rewrite Hi. intros E%He. lia.
  - intros j o' [[<- <-]|[_ Ho]]%lookup_insert_Some Hp; [split; auto|by apply D].
Qed.
End Names.
End Shape.
