(* ===== verification/Namespace.v ===== *)
(** * The namespace of the control

    Every unit of work keeps the table of nodes a tree below the root, and keeps
    the file of each pending upload out of it until it commits. *)
From S2P Require Import Prelude Domain Data Store Auth Leases Cluster Placement Requests Queries Commands Access Protection Footprints Tables Service Nodes Maintenance Startup UnitFootprints Uploads System Paths Tree.

Section Namespace.
Context `{Hash, Unicode, Argon2, Aead, Json, Base64, Wire, NodeWire}.

Definition named (e : env) (s : st) : Prop :=
  names e.(e_system).(sy_root) e.(e_uid) s.(s_draws) (s.(s_db) KNode) (s.(s_db) KUpload).
Definition ns_keep (e : env) (s s' : st) : Prop :=
  (s.(s_draws) ≤ s'.(s_draws))%nat ∧ (keyed s.(s_db) → keyed s'.(s_db))
  ∧ (distinct_draws e.(e_uid) → keyed s.(s_db) → named e s → named e s').
#[export] Instance ns_preorder e : PreOrder (ns_keep e).
Proof.
  split; [intros s; by split_and!|]. intros s1 s2 s3 (D1 & K1 & G1) (D2 & K2 & G2). split_and!; [lia|auto|auto].
Qed.
Lemma keeps_ns {A ks} (m : M A) `{!Footprint ks m} :
  (∀ e s a s', distinct_draws e.(e_uid) → keyed s.(s_db) → named e s → m e s = Ok (a, s') → named e s') → keeps ns_keep m.
Proof.
  intros Hm e s a s' Hr. destruct (footprint (m := m) e s a s' Hr) as (_ & D & K). split_and!; [done|done|].
  intros He Hk Hn. by apply (Hm e s a s').
Qed.

(** *** Steps that leave the nodes alone and begin no upload of a new file *)
Lemma upload_step_pending o o' : upload_step o o' → pending_new o' → pending_new o ∧ target o' = target o.
Proof.
  intros [E1 _ _ [= F1 F2 F3 F4] Hs _] [P1 P2]. unfold pending_new, target, next_state in *.
  split; [|congruence]. split; [intuition congruence|congruence].
Qed.
Lemma ns_calm e s s' : uploads_grow replacing e s s' → frame (others KNode) e s s' → ns_keep e s s'.
Proof.
  intros (D & K & G) F. split_and!; [done|done|]. intros He Hk Hn. apply frame_table in F.
  destruct (G He Hk) as [U O N]; [exact (nm_uploads _ _ _ _ _ Hn)|]. unfold named in *. rewrite F.
  apply (names_draw _ _ (s_draws s) (s_draws s')) in Hn; [|done]. eapply names_uploads; [done|done|].
  intros i o' Ho' Hp. destruct (s_db s KUpload !! i) as [o|] eqn:Ho.
  - destruct (O i o Ho) as (o2 & Ho2 & Hs). injection (eq_trans (eq_sym Ho2) Ho') as ->.
    apply upload_step_pending in Hs as [??]; [|done]. by exists o.
  - destruct (N i o' Ho' Ho) as [[b Hb] _]. destruct Hp as [_ Hp]. congruence.
Qed.
Lemma keeps_calm {A} (m : M A) : keeps (uploads_grow replacing) m → writes (others KNode) m → keeps ns_keep m.
Proof. intros Hu Hw e s a s' Hr. apply ns_calm; [by eapply Hu|by eapply Hw]. Qed.

(** *** What a walk visits *)
Inductive rooted (N : gmap string node) (root : string) : node → Prop :=
  | rooted_root n : N !! root = Some n → rooted N root n
  | rooted_below n m : rooted N root m → m.(n_kind) = Directory → N !! n.(n_id) = Some n → n.(n_alive) = true →
      n.(n_parent) = Some m.(n_id) → rooted N root n.
Lemma node_here s i n : keyed s.(s_db) → s.(s_db) KNode !! i = Some n → s.(s_db) KNode !! n.(n_id) = Some n.
Proof. intros Hk Hn. pose proof (Hk KNode _ _ Hn) as E. simpl in E. by rewrite E. Qed.
Lemma rooted_here s root n : keyed s.(s_db) → tree root (s.(s_db) KNode) → rooted (s.(s_db) KNode) root n →
  s.(s_db) KNode !! n.(n_id) = Some n ∧ n.(n_alive) = true.
Proof.
  intros Hk T [m Hm|m p _ _ Hm Ha _]; [|done]. split; [by eapply node_here|].
  destruct (tr_root _ _ T) as (r & Hr & _ & Ha & _). congruence.
Qed.
Lemma elem_child s i n : keyed s.(s_db) → n ∈ children_db i s.(s_db) →
  s.(s_db) KNode !! n.(n_id) = Some n ∧ n.(n_alive) = true ∧ n.(n_parent) = Some i.
Proof. intros Hk ((j & Hj) & Ha & Hp)%elem_of_children. split; [by eapply node_here|done]. Qed.
Lemma child_named_found name ns n : child_named name ns = Some n → n ∈ ns ∧ n.(n_name) = name.
Proof.
  unfold child_named. intros Hf. apply find_some in Hf as [Hin Hb]. apply bool_decide_eq_true in Hb.
  split; [by apply list_elem_of_In|done].
Qed.
Lemma walk_rooted u root ps : ∀ n e s m s', walk_from u n ps e s = Ok (m, s') → keyed s.(s_db) →
  tree root (s.(s_db) KNode) → rooted (s.(s_db) KNode) root n → rooted (s.(s_db) KNode) root m.
Proof.
  induction ps as [|p ps IH]; intros n e s m s' Hr Hk T Hn; simpl in Hr; [by apply ret_Ok in Hr as [-> ->]|].
  runs. match goal with Hq : require _ _ _ _ _ = _ |- _ => apply require_Ok in Hq as -> end.
  case_decide; [by eapply IH|]. case_decide.
  - destruct (n_parent n) as [i|] eqn:Hp; runs; [|by eapply IH].
    eapply IH; [done..|]. destruct Hn as [n Hn|n q Hq _ _ _ Hpar].
    + destruct (tr_root _ _ T) as (r & Hr & _ & _ & Hnone). congruence.
    + rewrite Hpar in Hp. injection Hp as <-. destruct (rooted_here s root q Hk T Hq) as [Hq' _].
      match goal with Hl : Some _ = s_db s KNode !! _ |- _ => injection (eq_trans Hl Hq') as -> end. done.
  - runs. match goal with Hc : child_named _ _ = Some _ |- _ => apply child_named_found in Hc as [Hin _] end.
    destruct (elem_child s _ _ Hk Hin) as (Hl & Ha & Hpar). eapply IH; [done..|].
    eapply rooted_below; [done| |done..]. match goal with Hd : is_directory n = true |- _ => by apply bool_decide_eq_true in Hd end.
Qed.
Lemma walk_from_root u ps e s top m s' : walk_from u top ps e s = Ok (m, s') → keyed s.(s_db) → named e s →
  s.(s_db) KNode !! e.(e_system).(sy_root) = Some top →
  s.(s_db) KNode !! m.(n_id) = Some m ∧ m.(n_alive) = true.
Proof.
  intros Hw Hk Hn Ht. pose proof (nm_tree _ _ _ _ _ Hn) as T. eapply rooted_here; [done|done|].
  eapply walk_rooted; [done..|]. by apply rooted_root.
Qed.
Lemma parent_live u r e s p name s' : parent u r e s = Ok ((p, name), s') → keyed s.(s_db) → named e s →
  s' = s ∧ s.(s_db) KNode !! p.(n_id) = Some p ∧ p.(n_alive) = true ∧ p.(n_kind) = Directory ∧ name ∉ [""; "."; ".."].
Proof.
  intros [-> [Hd Hnm _ (q & top & ps & _ & Ht & Hw & _)]]%parent_found Hk Hn.
  destruct (walk_from_root _ _ _ _ _ _ _ Hw Hk Hn Ht) as [Hl Ha]. split_and!; try done. by apply bool_decide_eq_true in Hd.
Qed.
Lemma resolve_live u r e s n s' : resolve u r e s = Ok (n, s') → keyed s.(s_db) → named e s →
  s' = s ∧ s.(s_db) KNode !! n.(n_id) = Some n ∧ n.(n_alive) = true.
Proof.
  intros (-> & top & ps & Ht & Hw)%resolve_found Hk Hn. split; [done|]. by eapply walk_from_root.
Qed.
End Namespace.
#[export] Hint Extern 5 (keeps ns_keep _) =>
  apply keeps_calm; [solve [eauto 2 with keeps nocore]|solve [eauto 2 with keeps nocore]] : keeps.

(** The table of [k] after a run, by its writes since the store the run started from. *)
Lemma put_table k v s : (s <| s_db ::= put_db k v |>).(s_db) k = <[key k v := v]> (s.(s_db) k).
Proof. apply put_db_same. Qed.
Ltac table1 e :=
  match goal with
  | |- context [s_db (upd s_db (put_db ?k ?v) ?t) ?k] => rewrite (put_table k v t)
  | |- context [s_db ?t ?k] =>
      let t0 := before t in let E := fresh in
      assert (s_db t k = s_db t0 k) as E by (apply (frame_table k e); step_frame k e t0 t); rewrite E; clear E
  end.
Ltac tables e := unfold named; repeat table1 e.
Lemma absent_ne {A} (N : gmap string A) i j n : N !! i = None → N !! j = Some n → i ≠ j.
Proof. intros Hi Hj ->. congruence. Qed.
Lemma no_child s name i j c : keyed s.(s_db) → has_child name (children_db i s.(s_db)) = false →
  s.(s_db) KNode !! j = Some c → c.(n_alive) = true → c.(n_parent) = Some i → c.(n_name) ≠ name.
Proof.
  intros Hk Hh Hc Ha Hp E. apply not_true_iff_false in Hh. apply Hh. unfold has_child. apply existsb_exists. exists c.
  rewrite <-list_elem_of_In, elem_of_children, bool_decide_eq_true. eauto.
Qed.

Section Handlers.
Context `{Hash, Unicode, Argon2, Aead, Json, Base64, Wire, NodeWire}.

(** A node below a live container, whose revision then advances. *)
Lemma added_below e s d D n p p' : named e s → keyed s.(s_db) → distinct_draws e.(e_uid) → (s.(s_draws) ≤ d < D)%nat →
  n.(n_parent) = Some p.(n_id) → s.(s_db) KNode !! p.(n_id) = Some p → container e.(e_system).(sy_root) p →
  p.(n_alive) = true → n.(n_name) ∉ [""; "."; ".."] → has_child n.(n_name) (children_db p.(n_id) s.(s_db)) = false →
  shape p' = shape p → (n.(n_kind) = File ↔ is_Some n.(n_snapshot)) →
  names e.(e_system).(sy_root) e.(e_uid) D (<[p.(n_id) := p']> (<[e.(e_uid) d := n]> (s.(s_db) KNode))) (s.(s_db) KUpload).
Proof.
  intros Hn Hk He Hd Hp Hl Hc Ha Hnm Hch Hs Hct.
  pose proof (nm_nodes _ _ _ _ _ Hn d ltac:(lia)) as Hnone.
  eapply names_update; [|exact (eq_trans (lookup_insert_ne _ _ _ _ (absent_ne _ _ _ _ Hnone Hl)) Hl)|done].
  eapply names_add; [exact Hn|done|exact Hd|exact Hp|exact Hl|done..| |done].
  intros j c' Hc' Hca Hcp. by eapply no_child.
Qed.
Ltac begin := refine (keeps_ns _ _); intros e s0 x0 t0 He Hk Hn Hr.
Lemma ns_set_acl u c p a x : keeps ns_keep (set_acl u c p a x).
Proof.
  begin. unfold set_acl in Hr. runs.
  match goal with Hq : resolve _ _ _ _ = _ |- _ => pose proof (resolve_live _ _ _ _ _ _ Hq Hk Hn) as (-> & Hl & _) end.
  unfold bump in *. runs. apply (names_draw _ _ (s_draws s0)); [draws_back|]. tables e.
  eapply names_update; [exact Hn|exact Hl|done].
Qed.
Lemma ns_mkdir u p : keeps ns_keep (mkdir u p).
Proof.
  begin. unfold mkdir in Hr. runs.
  match goal with Hq : parent _ _ _ _ = _ |- _ => pose proof (parent_live _ _ _ _ _ _ _ Hq Hk Hn) as (-> & Hl & Ha & Hd & Hnm) end.
  unfold bump, new_node in *. runs. tables e.
  match goal with |- context [e_uid e (s_draws ?d)] =>
    apply (added_below e s0 (s_draws d) _ _ n); [done..|drawn_between d|done|exact Hl|by left|exact Ha|exact Hnm|done|done|] end.
  by split; [|intros []].
Qed.
Lemma ns_base_remove u c p d : keeps ns_keep (base_remove u c p d).
Proof.
  begin. unfold base_remove in Hr. runs.
  match goal with Hq : resolve _ _ _ _ = _ |- _ => pose proof (resolve_live _ _ _ _ _ _ Hq Hk Hn) as (-> & Hl & Ha) end.
  unfold bump in *. runs.
  match goal with Ha : abort_uploads_of _ e ?a = Ok (_, ?b) |- _ =>
    assert (named e b) as Hn' by (apply (ns_calm e s0 b); [back KUpload|frame_back KNode|done..]);
    assert (s_db b KNode = s_db s0 KNode) as E by (apply (frame_table KNode e); frame_back KNode) end.
  match goal with Hp : Some ?q = s_db s0 KNode !! ?i |- _ =>
    symmetry in Hp; rename Hp into Hpar; pose proof (Hk KNode _ _ Hpar) as Ei; simpl in Ei end.
  assert (v.(n_kind) = Directory → ∀ j m, s_db s0 KNode !! j = Some m → n_alive m = true → n_parent m ≠ Some (n_id v)) as Hkids.
  { intros Hd j m Hm Hma Hmp. destruct d; [|by rewrite (bool_decide_eq_true_1 _ H8) in Hd].
    runs. match goal with Hc : children_db _ _ = [] |- _ => assert (m ∈ children_db (n_id v) (s_db s0)) as Hin end.
    { apply elem_of_children. eauto. }
    match goal with Hq : require _ _ _ _ s0 = _ |- _ => apply require_Ok in Hq as -> end.
    match goal with Hc : children_db _ _ = [] |- _ => rewrite Hc in Hin end. by apply elem_of_nil in Hin. }
  tables e. unfold named in Hn'. rewrite E in Hn'.
  eapply names_update; [eapply names_remove; [exact Hn'|exact Hl|by eexists|exact Hkids|reflexivity]| |].
  - rewrite <-Ei in Hpar. refine (eq_trans (lookup_insert_ne _ _ _ _ _) Hpar). rewrite Ei.
    by apply (parent_ne _ _ _ _ _ (nm_tree _ _ _ _ _ Hn) Hl).
  - done.
Qed.
Lemma home_container u e s h s' : walk u "/home" e s = Ok (h, s') → keyed s.(s_db) → named e s →
  s' = s ∧ s.(s_db) KNode !! h.(n_id) = Some h ∧ h.(n_alive) = true ∧ container e.(e_system).(sy_root) h.
Proof.
  intros (-> & top & Ht & Hw)%walk_found Hk Hn. pose proof (nm_tree _ _ _ _ _ Hn) as T.
  destruct (walk_from_root _ _ _ _ _ _ _ Hw Hk Hn Ht) as [Hl Ha]. split_and!; [done..|].
  destruct (tr_root _ _ T) as (r & Hr & Hd & _ & Hnone). injection (eq_trans (eq_sym Ht) Hr) as ->. pose proof (Hk KNode _ _ Hr) as Er. simpl in Er.
  change (map nfc (components "/home")) with [nfc "home"] in Hw. cbn [walk_from] in Hw. rewrite Hnone in Hw. runs.
  case_decide; [runs; by left|]. case_decide; [runs; by left|]. runs.
  match goal with Hc : child_named _ _ = Some _ |- _ => apply child_named_found in Hc as [Hin Hname] end.
  destruct (elem_child _ _ _ Hk Hin) as (_ & _ & Hpar).
  unfold container. rewrite Hpar, Er, Hname. match goal with |- n_kind ?h = _ ∨ _ => destruct (n_kind h) end; [by left|by right].
Qed.
Lemma valid_name_ok nm : valid_name nm = true → nm ∉ [""; "."; ".."].
Proof. intros Hv. rewrite !elem_of_cons, elem_of_nil. by intros [->|[->|[->|[]]]]. Qed.
Ltac cut_at a := let a' := fresh "a" in set (a' := a) in *; clearbody a'.
Lemma ns_create_user u n p : keeps ns_keep (create_user u n p).
Proof.
  begin. unfold create_user in Hr. runs.
  match goal with Hw : walk _ _ _ ?a = _ |- _ =>
    assert (named e a) as Hn' by (apply (ns_calm e s0 a); [back KUpload|frame_back KNode|done..]);
    assert (keyed (s_db a)) as Hk' by keyed_back;
    pose proof (home_container _ _ _ _ _ Hw Hk' Hn') as (-> & Hl & Ha & Hc); cut_at a end.
  unfold bump, new_node in *. runs. tables e.
  match goal with Hl : s_db a KNode !! _ = Some ?h |- _ =>
    apply (added_below e a (s_draws a) _ _ h); [done..|drawn_between a|done|exact Hl|done|done|by apply valid_name_ok|done|done|] end.
  by split; [|intros []].
Qed.

(** *** Publishing a file *)
Lemma resolve_opt_found u p e s o s' : resolve_opt u p e s = Ok (o, s') →
  match o with Some n => resolve u p e s = Ok (n, s') | None => s' = s ∧ resolve u p e s = Err (Fault NOT_FOUND) end.
Proof.
  unfold resolve_opt. rewrite catch_Ok. intros [Hr|(x & Hx & Hr)].
  - apply bind_Ok in Hr as (n & s1 & Hr & [-> ->]%ret_Ok). done.
  - case_decide as Ex; [|done]. apply ret_Ok in Hr as [-> ->]. subst x. split; [done|].
    unfold mbind, sm_bind in Hx. destruct (resolve u p e s) as [[n s1]|]; [done|congruence].
Qed.
Lemma no_named name ns : child_named name ns = None → has_child name ns = false.
Proof.
  intros Hf. apply not_true_iff_false. unfold has_child. rewrite existsb_exists. intros (n & Hin & Hb).
  apply (find_none _ _ Hf) in Hin. congruence.
Qed.
Lemma ns_open_creating u s p m : keeps ns_keep (open_creating u s p m).
Proof.
  begin. unfold open_creating in Hr. apply bind_Ok in Hr as (o & s1 & Hq & Hr). apply resolve_opt_found in Hq.
  pose proof (nm_tree _ _ _ _ _ Hn) as T. destruct o as [n|].
  - pose proof (resolve_live _ _ _ _ _ _ Hq Hk Hn) as (-> & Hl & Ha). unfold truncate, bump in Hr. runs.
    match goal with Hx : Some ?q = n_parent n ≫= _ |- _ =>
      symmetry in Hx; apply bind_Some in Hx as (i & _ & Hpar); pose proof (node_here _ _ _ Hk Hpar) as Hp end.
    match goal with Hs : Some _ = n_snapshot n ≫= _ |- _ =>
      symmetry in Hs; apply bind_Some in Hs as (j & Hsnap & _) end.
    apply (names_draw _ _ (s_draws s0)); [draws_back|]. tables e.
    eapply names_update2; [exact Hn|exact Hl|exact Hp| |done]. unfold shape. simpl. by rewrite Hsnap.
  - destruct Hq as [-> Hq]. apply bind_Ok in Hr as ([p0 name] & s2 & Hpar & Hr).
    pose proof (parent_live _ _ _ _ _ _ _ Hpar Hk Hn) as (-> & Hl & Ha & Hd & Hnm).
    apply parent_found in Hpar as [_ Hpar]. pose proof (no_named _ _ (resolve_missing _ _ _ _ _ _ Hpar Hq)) as Hno.
    unfold bump, new_node in Hr. runs. tables e.
    match goal with Hv : reserved _ _ _ _ = Ok (_, ?d) |- _ =>
      apply (added_below e s0 (s_draws d) _ _ p0); [done..|drawn_between d|done|exact Hl|by left|exact Ha|exact Hnm|done|done|] end.
    simpl. split; [by eexists|done].
Qed.
Lemma base_operation_nodes u s ref f e s0 op s1 : base_operation u s ref f e s0 = Ok (op, s1) →
  ∃ p m, op.(o_parent) = Some p ∧ s0.(s_db) KNode !! p = Some m ∧ m.(n_alive) = true
  ∧ ∀ b, op.(o_base) = Some b → ∃ n, s0.(s_db) KNode !! op.(o_file) = Some n ∧ n.(n_snapshot) = Some b.
Proof.
  unfold base_operation. intros Hr. runs.
  match goal with Hx : Some ?q = o_parent _ ≫= _ |- _ => symmetry in Hx; apply bind_Some in Hx as (p & Hp & Hm); exists p, q end.
  split_and!; [done..|]. intros b Hb.
  match goal with Hq : require _ _ _ _ _ = _ |- _ => apply require_Ok in Hq as -> end. rewrite Hb in *. runs. by eexists.
Qed.
Lemma operation_nodes u s ref f e s0 op s1 : operation u s ref f e s0 = Ok (op, s1) →
  ∃ p m, op.(o_parent) = Some p ∧ s0.(s_db) KNode !! p = Some m ∧ m.(n_alive) = true
  ∧ ∀ b, op.(o_base) = Some b → ∃ n, s0.(s_db) KNode !! op.(o_file) = Some n ∧ n.(n_snapshot) = Some b.
Proof.
  unfold operation, access_operation. intros Hr. runs.
  destruct (has_leases _); runs; by eapply base_operation_nodes.
Qed.
Lemma writable_node u s i e s0 h sn n cur s1 : writable u s i e s0 = Ok ((h, sn, n, cur), s1) →
  s0.(s_db) KNode !! h.(h_file) = Some n ∧ is_Some n.(n_snapshot).
Proof.
  unfold writable. intros Hr. runs.
  match goal with Hx : Some _ = n_snapshot _ ≫= _ |- _ => symmetry in Hx; apply bind_Some in Hx as (j & -> & _) end.
  match goal with Hl : Some _ = s_db ?t KNode !! _ |- _ =>
    assert (s_db t KNode = s_db s0 KNode) as E by (apply (frame_table KNode e); frame_back KNode);
    split; [rewrite <-E; by symmetry|done] end.
Qed.
Lemma write_operation_node u s ref e s0 op w h n cur s1 : write_operation u s ref e s0 = Ok ((op, w, h, n, cur), s1) →
  s0.(s_db) KNode !! h.(h_file) = Some n ∧ is_Some n.(n_snapshot).
Proof.
  unfold write_operation. intros Hr. runs. match goal with Hw : writable _ _ _ _ ?t = _ |- _ =>
    assert (s_db t KNode = s_db s0 KNode) as E by (apply (frame_table KNode e); frame_back KNode);
    rewrite <-E; by apply writable_node in Hw end.
Qed.
Lemma ns_access_commit_write u s ref h x fs cs : keeps ns_keep (access_commit_write u s ref h x fs cs).
Proof.
  begin. unfold access_commit_write in Hr. runs.
  match goal with Hw : write_operation _ _ _ _ _ = _ |- _ =>
    pose proof (write_operation_here _ _ _ _ _ _ _ _ _ _ _ Hw Hk) as [Hu _];
    destruct (write_operation_node _ _ _ _ _ _ _ _ _ _ _ Hw) as [Hl [b Hs]]; apply node_here in Hl; [|done] end.
  unfold bump in *. runs. apply (names_draw _ _ (s_draws s0)); [draws_back|]. tables e.
  eapply names_update; [eapply names_end; [exact Hn|exact Hu|by intros []]|exact Hl|].
  unfold shape. simpl. by rewrite Hs.
Qed.
Lemma commit_target_cases u op e s n s' : commit_target u op e s = Ok (n, s') →
  (is_Some op.(o_base) ∧ s.(s_db) KNode !! op.(o_file) = Some n)
  ∨ ((op.(o_base) = None ∨ s.(s_db) KNode !! op.(o_file) = None)
     ∧ has_child op.(o_name) (children_db (default "" op.(o_parent)) s.(s_db)) = false
     ∧ n.(n_id) = op.(o_file) ∧ n.(n_parent) = op.(o_parent) ∧ n.(n_name) = op.(o_name) ∧ n.(n_kind) = File
     ∧ n.(n_alive) = true).
Proof.
  unfold commit_target. intros Hr. apply bind_Ok in Hr as (o & s1 & Ho & Hr).
  assert (s1 = s ∧ o = match op.(o_base) with Some _ => s.(s_db) KNode !! op.(o_file) | None => None end) as [-> ->]
    by (destruct (o_base op); by runs).
  destruct (o_base op) as [b|] eqn:Hb.
  - destruct (s_db s KNode !! o_file op) as [n0|] eqn:Hl; [runs; by left; split|]. right. unfold new_node in Hr. runs.
    split_and!; auto.
  - right. unfold new_node in Hr. runs. split_and!; auto.
Qed.
Lemma ns_base_commit_upload u s ref f l : keeps ns_keep (base_commit_upload u s ref f l).
Proof.
  begin. unfold base_commit_upload in Hr. runs.
  match goal with Ho : operation _ _ _ _ _ _ = Ok (?op, _) |- _ =>
    pose proof (operation_here _ _ _ _ _ _ _ _ Ho Hk) as [Hu Hp%preparing_true];
    pose proof (operation_nodes _ _ _ _ _ _ _ _ Ho) as (p & m & Hop & Hm & Ha & Hbase); rename op into opn end.
  pose proof (Hk KNode _ _ Hm) as Em. simpl in Em. subst p. unfold bump in *. runs.
  match goal with Hc : commit_target _ _ _ ?t = Ok (?n, _), Hx : Some ?q = o_parent _ ≫= _ |- _ =>
    assert (s_db t KNode = s_db s0 KNode) as E by (apply (frame_table KNode e); frame_back KNode);
    rewrite Hop in Hx; simpl in Hx; rewrite E in Hx; injection (eq_trans Hx Hm) as ->;
    pose proof (commit_target_cases _ _ _ _ _ _ Hc) as Hn'; rename n into nd end.
  apply (names_draw _ _ (s_draws s0)); [draws_back|]. tables e. rewrite E in Hn'.
  destruct Hn' as [[[b Hb] Hl]|(Hnew & Hch & Hid & Hpar & Hname & Hkind & Hal)].
  - destruct (Hbase b Hb) as (n' & Hl' & Hs). injection (eq_trans (eq_sym Hl') Hl) as ->.
    pose proof (node_here _ _ _ Hk Hl) as Hln.
    eapply names_update2; [eapply names_end; [exact Hn|exact Hu|by intros []]|exact Hln|exact Hm| |done].
    unfold shape. simpl. by rewrite Hs.
  - assert (o_base opn = None) as Hnone.
    { destruct Hnew as [Hb|Hb]; [done|]. destruct (o_base opn) as [b|] eqn:Eb; [|done].
      destruct (Hbase b eq_refl) as (n' & Hl' & _). by discriminate (eq_trans (eq_sym Hl') Hb). }
    destruct (nm_pending _ _ _ _ _ Hn _ _ Hu (conj Hp Hnone)) as [_ [_ Habs _ _]].
    match goal with |- names _ _ _ (<[_ := _]> (<[?k := ?n']> _)) _ =>
      change k with (n_id nd); rewrite Hid;
      eapply (names_update _ _ _ _ _ _ _ m); [|exact (eq_trans (lookup_insert_ne _ _ _ _ (absent_ne _ _ _ _ Habs Hm)) Hm)|done];
      eapply (names_commit _ _ _ _ _ _ opn _ n' (n_id m) m); try done end.
    + by intros [].
    + simpl. congruence.
    + intros j c Hc Hca Hcp. simpl. rewrite Hname. rewrite Hop in Hch. simpl in Hch. rewrite <-E in Hc.
      eapply no_child; [|exact Hch|exact Hc|done|done]. keyed_back.
Qed.
Lemma ns_base_begin_upload u s c p t h o x : keeps ns_keep (base_begin_upload u s c p t h o x).
Proof.
  begin. unfold base_begin_upload in Hr. runs.
  match goal with Hq : parent _ _ _ ?a = _ |- _ =>
    assert (named e a) as Hn' by (apply (ns_calm e s0 a); [back KUpload|frame_back KNode|done..]);
    assert (keyed (s_db a)) as Hk' by keyed_back;
    pose proof (parent_live _ _ _ _ _ _ _ Hq Hk' Hn') as (-> & Hl & Ha & Hd & Hnm); cut_at a end.
  match goal with Hv : reserve_upload _ _ _ _ = Ok (_, ?d) |- _ =>
    assert (s_draws a ≤ s_draws d)%nat as D1 by draws_back; rename d into dr end.
  destruct (child_named _ _) as [old|] eqn:Hold; runs; tables e;
    match goal with |- names _ _ ?D _ _ => assert (s_draws (dr <| s_draws ::= S |>) ≤ D)%nat as D2 by draws_back; simpl in D2 end.
  - eapply (names_begin _ _ (s_draws a)); [exact Hn'|lia|done|exists (s_draws dr); split; [done|lia]|done|].
    intros [_ Hb]. simpl in Hb. match goal with Hb' : upload_base _ _ _ _ _ _ = _ |- _ => unfold upload_base in Hb' end.
    runs. rewrite Hb in *. done.
  - match goal with |- names _ _ ?D _ _ => assert (S (S (s_draws dr)) ≤ D)%nat as D3 end.
    { match goal with |- (_ ≤ s_draws ?t)%nat =>
        assert (s_draws (dr <| s_draws ::= S |> <| s_draws ::= S |>) ≤ s_draws t)%nat as D3 by draws_back; exact D3 end. }
    eapply (names_begin _ _ (s_draws a)); [exact Hn'|lia|done|exists (s_draws dr); split; [done|lia]|done|].
    intros _. split; simpl.
    + exists (s_draws dr). split_and!; [done|done|lia].
    + apply (nm_nodes _ _ _ _ _ Hn'). lia.
    + done.
    + by eexists _, _.
Qed.

(** *** Commands that wrap these and record a result in the upload *)
Lemma ns_frame e s s' : frame (others KNode) e s s' → frame (others KUpload) e s s' → ns_keep e s s'.
Proof. intros Fn Fu. apply ns_calm; [|done]. by apply (coarse_frame (k := KUpload)). Qed.
Lemma ns_put_upload e s o o' : s.(s_db) KUpload !! o_id o' = Some o → upload_step o o' →
  ns_keep e s (s <| s_db ::= put_db KUpload o' |>).
Proof. intros Ho Hs. apply ns_calm; [by apply (grows_put KUpload upload_step replacing e s o)|by apply frame_put]. Qed.
Ltac ns_back :=
  lazymatch goal with
  | |- ns_keep ?e ?s ?s => reflexivity
  | |- ns_keep ?e ?s ?t =>
      let t0 := before t in
      transitivity t0;
      [ ns_back
      | first [ apply ns_frame; [step_frame KNode e t0 t|step_frame KUpload e t0 t]
              | match goal with Hx : ?m e t0 = Ok (_, t) |- _ => refine ((_ : keeps ns_keep m) e t0 _ t Hx); solve [solve_keeps] end
              | eapply ns_put_upload; [found KUpload|same_state] ] ]
  end.
Ltac wraps s0 := here; match goal with |- named ?e ?t => assert (ns_keep e s0 t) as (_ & _ & G) by ns_back; by apply G end.
Hint Resolve ns_base_begin_upload : keeps.
Lemma ns_access_begin_upload u s c p t h o x : keeps ns_keep (access_begin_upload u s c p t h o x).
Proof. begin. unfold access_begin_upload in Hr. runs. wraps s0. Qed.
Hint Resolve ns_base_commit_upload ns_access_commit_write : keeps.
Hint Resolve ns_access_begin_upload : keeps.
Lemma ns_protection_begin_upload u s c p t h o x : keeps ns_keep (protection_begin_upload u s c p t h o x).
Proof. begin. unfold protection_begin_upload, capture_policy, get_op in Hr. runs. wraps s0. Qed.
Lemma ns_cluster_commit_upload u s r f l : keeps ns_keep (cluster_commit_upload u s r f l).
Proof. unfold cluster_commit_upload. solve_keeps. Qed.
Hint Resolve ns_cluster_commit_upload : keeps.
Lemma ns_access_commit_upload u s r f l : keeps ns_keep (access_commit_upload u s r f l).
Proof. begin. unfold access_commit_upload in Hr. runs. wraps s0. Qed.
Hint Resolve ns_access_commit_upload : keeps.
Lemma ns_protection_commit_upload u s r f l : keeps ns_keep (protection_commit_upload u s r f l).
Proof. begin. unfold protection_commit_upload, policy_result, get_op in Hr. runs. wraps s0. Qed.
Lemma ns_protection_commit_write u s r h x f cs : keeps ns_keep (protection_commit_write u s r h x f cs).
Proof. begin. unfold protection_commit_write, policy_result, get_op in Hr. runs. wraps s0. Qed.

(** *** Every unit of work *)
Hint Resolve ns_set_acl ns_mkdir ns_base_remove ns_create_user ns_open_creating ns_protection_begin_upload
  ns_protection_commit_upload ns_protection_commit_write : keeps.
Lemma ns_access_open u s p m : keeps ns_keep (access_open u s p m).
Proof. unfold access_open. solve_keeps. Qed.
Lemma ns_access_remove u c p d : keeps ns_keep (access_remove u c p d).
Proof. unfold access_remove. solve_keeps. Qed.
Hint Resolve ns_access_open ns_access_remove : keeps.
Lemma ns_protection_open u s p m : keeps ns_keep (protection_open u s p m).
Proof. unfold protection_open. solve_keeps. Qed.
Hint Resolve ns_protection_open : keeps.
Lemma ns_command u s c b : keeps ns_keep (command u s c b).
Proof.
  unfold command, begin_upload, renew_upload, commit_upload, abort_upload, remove, open_file, renew_handle, close,
    begin_write, commit_write, with_access, with_cluster, by_class, missing.
  destruct b; solve_keeps.
Qed.
Hint Resolve ns_command : keeps.
Lemma ns_publish token rq : keeps ns_keep (publish token rq).
Proof. unfold publish. solve_keeps. Qed.
Hint Resolve ns_publish : keeps.
Lemma ns_units A (m : M A) : unit_of_work m → keeps ns_keep m.
Proof.
  destruct 1; try solve [solve_keeps].
  - by eapply (keeps_collect ns_keep); try solve [solve_keeps].
  - by eapply (keeps_start ns_keep); try solve [solve_keeps].
Qed.

(** ** Runs *)
Definition at_root (ids : nat → string) (root : string) (e : env) : Prop :=
  e.(e_uid) = ids ∧ e.(e_system).(sy_root) = root.
Definition namespace (root : string) (ids : nat → string) (s : st) : Prop :=
  names root ids s.(s_draws) (s.(s_db) KNode) (s.(s_db) KUpload).
Definition ns_by (ids : nat → string) (root : string) (s s' : st) : Prop :=
  (keyed s.(s_db) → keyed s'.(s_db))
  ∧ (distinct_draws ids → keyed s.(s_db) → namespace root ids s → namespace root ids s').
Lemma ns_runs ids root s s' : rtc (moves_in (at_root ids root)) s s' → ns_by ids root s s'.
Proof.
  assert (PreOrder (ns_by ids root)).
  { split; [by intros x; split|]. intros s1 s2 s3 [K1 G1] [K2 G2]. split; auto. }
  apply (runs_keep (at_root ids root) ns_keep); [done|exact ns_units|]. intros e s1 s2 [<- <-] (_ & K & G). by split.
Qed.

(** C2: The nodes stay a tree.  In every run of the system from a store whose nodes
    are a tree below the root, they are one at the end: every parent is in the table
    and is a directory (or the node at /home) that is live while its child is, live
    siblings have distinct names, a file has a snapshot and a directory has none,
    the parents of a node never repeat, only the root has none, and the file of a
    pending upload is not in the table before its commit. *)
Theorem namespace_stays_tree ids root s s' :
  distinct_draws ids → keyed s.(s_db) → namespace root ids s →
  rtc (moves_in (at_root ids root)) s s' → namespace root ids s'.
Proof. intros He Hk Hn Hr. by apply (ns_runs ids root s s'). Qed.

(** *** What a tree gives the operations *)
Lemma ancestors_step fuel (d : DB) q (n : val KNode) : d KNode !! q = Some n →
  ancestors_from (S fuel) d (Some q) = l ← ancestors_from fuel d n.(n_parent); Some (q :: l).
Proof.
  intros Hn. exact (f_equal (λ o : option node, n ← o; l ← ancestors_from fuel d n.(n_parent); Some (q :: l)) Hn).
Qed.
Lemma ancestors_fuel root (d : DB) r :
  tree root (d KNode) → (∀ i n p, d KNode !! i = Some n → n.(n_parent) = Some p → (r p < r i)%nat) →
  ∀ fuel p, (∀ q, p = Some q → is_Some (d KNode !! q)
     ∧ (size (filter (λ j, r j ≤ r q)%nat (dom (d KNode))) ≤ fuel)%nat) →
  is_Some (ancestors_from fuel d p).
Proof.
  intros T Hr. induction fuel as [|fuel IH]; intros [q|] Hq; [|by eexists| |by eexists].
  - destruct (Hq q eq_refl) as [[n Hn] Hs].
    assert (q ∈ filter (λ j, r j ≤ r q)%nat (dom (d KNode))) as Hin.
    { apply elem_of_filter. split; [lia|]. apply elem_of_dom. by eexists. }
    assert (size (filter (λ j, r j ≤ r q)%nat (dom (d KNode))) ≠ 0%nat); [|lia].
    apply size_non_empty_iff. set_solver.
  - destruct (Hq q eq_refl) as [[n Hn] Hs]. rewrite (ancestors_step _ _ _ n Hn).
    destruct (IH n.(n_parent)) as [l Hl]; [|rewrite Hl; by eexists]. intros p Hp.
    destruct (tr_parent _ _ T _ _ _ Hn Hp) as (m & Hm & _). split; [by eexists|]. specialize (Hr _ _ _ Hn Hp).
    enough (size (filter (λ j, r j ≤ r p)%nat (dom (d KNode))) < size (filter (λ j, r j ≤ r q)%nat (dom (d KNode))))%nat by lia.
    apply subset_size. split.
    + intros j. rewrite !elem_of_filter. intros [? ?]. split; [lia|done].
    + intros Hsub. assert (q ∈ filter (λ j, r j ≤ r p)%nat (dom (d KNode))) as Hin.
      { apply Hsub, elem_of_filter. split; [lia|]. apply elem_of_dom. by eexists. }
      apply elem_of_filter in Hin as [? _]. lia.
Qed.

Lemma ancestors_last root (d : DB) fuel : tree root (d KNode) → ∀ q l,
  is_Some (d KNode !! q) → ancestors_from fuel d (Some q) = Some l → list_last l = Some root.
Proof.
  intros T. induction fuel as [|fuel IH]; intros q l [n Hn] Hl; [done|]. rewrite (ancestors_step _ _ _ n Hn) in Hl.
  destruct (n_parent n) as [p|] eqn:Hp.
  - apply bind_Some in Hl as (l' & Hl' & [= <-]). destruct (tr_parent _ _ T _ _ _ Hn Hp) as (m & Hm & _).
    specialize (IH p l' ltac:(by eexists) Hl'). unfold list_last in *. simpl. by destruct (rev l').
  - assert (ancestors_from fuel d None = Some []) as E by (by destruct fuel). rewrite E in Hl. injection Hl as <-.
    unfold list_last. simpl. f_equal. by apply (tr_orphan _ _ T q n).
Qed.

(** C31: The loop of [Open] over the parents of a node ends.  In a tree the chain of
    parents of any node but the root reaches the root within as many steps as there
    are nodes, so the bound of the model is never met and a handle gets all its
    ancestors. *)
Theorem ancestors_total root e s i n :
  tree root (s.(s_db) KNode) → s.(s_db) KNode !! i = Some n →
  ∃ l, ancestors n.(n_parent) e s = Ok (l, s) ∧ (i = root ∨ list_last l = Some root).
Proof.
  intros T Hn. destruct (tr_rank _ _ T) as [r Hr].
  assert (is_Some (ancestors_from (size (s.(s_db) KNode)) s.(s_db) n.(n_parent))) as [l Hl].
  { apply (ancestors_fuel root _ r); [done|done|]. intros q Hq.
    destruct (tr_parent _ _ T _ _ _ Hn Hq) as (m & Hm & _). split; [by eexists|].
    rewrite <-size_dom. apply subseteq_size. set_solver. }
  exists l. split.
  - unfold ancestors, reading, mbind, sm_bind. by rewrite Hl.
  - destruct (n_parent n) as [p|] eqn:Hp; [right|left; by eapply tr_orphan].
    destruct (tr_parent _ _ T _ _ _ Hn Hp) as (m & Hm & _). eapply ancestors_last; [done| |exact Hl]. by eexists.
Qed.

(** The names from the root to a live node, through directories. *)
Inductive path_to (N : gmap string node) (root : string) : list string → node → Prop :=
  | path_root n : N !! root = Some n → path_to N root [] n
  | path_below ps m n : path_to N root ps m → m.(n_kind) = Directory → N !! n.(n_id) = Some n → n.(n_alive) = true →
      n.(n_parent) = Some m.(n_id) → path_to N root (ps ++ [n.(n_name)]) n.
Lemma child_found root s m n : tree root (s.(s_db) KNode) → keyed s.(s_db) → s.(s_db) KNode !! n.(n_id) = Some n →
  n.(n_alive) = true → n.(n_parent) = Some m → child_named n.(n_name) (children_db m s.(s_db)) = Some n.
Proof.
  intros T Hk Hn Ha Hp. destruct (child_named _ _) as [n'|] eqn:Hc.
  - apply child_named_found in Hc as [Hin Hnm]. destruct (elem_child s _ _ Hk Hin) as (Hl & Ha' & Hp').
    assert (n_id n' = n_id n) as E by (apply (tr_unique _ _ T _ _ n' n); [done..|by rewrite Hp'|congruence|done]).
    rewrite E in Hl. f_equal. injection (eq_trans (eq_sym Hl) Hn). auto.
  - apply no_named in Hc. exfalso. eapply no_child; [exact Hk|exact Hc|exact Hn|done..].
Qed.

Lemma admin_search u n e s : u.(u_admin) = true → n.(n_kind) = Directory → require u n 1 e s = Ok (tt, s).
Proof.
  intros Hu Hd. unfold require, mbind, sm_bind, system_of. rewrite Hu, bool_decide_true by done. simpl.
  by rewrite orb_true_r.
Qed.


Lemma initialize_names name password e s root s' :
  distinct_draws e.(e_uid) → s.(s_db) KNode = ∅ → s.(s_db) KUpload = ∅ →
  initialize name password e s = Ok (root, s') → namespace root e.(e_uid) s'.
Proof.
  intros He HN HU Hr. unfold initialize, new_node in Hr. runs. unfold namespace. tables e. simpl.
  rewrite HN, HU. set (D := s_draws s1). clearbody D.
  match goal with Hv : valid_name name = true |- _ => apply valid_name_ok in Hv as Hok end.
  assert (∀ i j, e_uid e i = e_uid e j → i = j) as inj by (intros i j; apply He).
  eapply (names_add _ _ (S (S (S D))) _ (S (S (S D))));
    [eapply (names_add _ _ (S (S D)) _ (S (S D)));
     [eapply (names_root _ _ (S D) _ (S D)); try done; lia|done|lia|reflexivity|apply lookup_insert_eq|by left|done| | |]
    |done|lia|reflexivity|apply lookup_insert_eq|by left|done|done| |].
  - simpl. rewrite !elem_of_cons, elem_of_nil. by intros [?|[?|[?|[]]]].
  - intros j c [[<- <-]|[_ Hc]]%lookup_insert_Some; [done|by rewrite lookup_empty in Hc].
  - by split; [|intros []].
  - intros j c [[<- <-]|[_ [[<- <-]|[_ Hc]]%lookup_insert_Some]]%lookup_insert_Some; [|done|by rewrite lookup_empty in Hc].
    intros _ [= E%inj]. lia.
  - by split; [|intros []].
Qed.

(** A new store is a tree.  [initialize] on empty tables makes the root, /home and
    the home of the administrator below it, keeps every record under its identity
    and draws identities that no upload or node has. *)
Theorem initialize_tree name password e s root s' :
  distinct_draws e.(e_uid) → keyed s.(s_db) → s.(s_db) KNode = ∅ → s.(s_db) KUpload = ∅ →
  initialize name password e s = Ok (root, s') → keyed s'.(s_db) ∧ namespace root e.(e_uid) s'.
Proof.
  intros He Hk HN HU Hr. split; [|by eapply initialize_names].
  refine (writes_keyed all_kinds _ _ _ _ _ _ Hr Hk). unfold initialize. solve_keeps.
Qed.

(** *** The root has no parent to create below *)

(** Opening the root for writing does not answer IS_DIRECTORY: [Open] with a
    creating mode reads the parent of what is at the path before it asks for its
    kind, and subscripts the missing parent of the root. *)
Theorem open_root_crashes u s path m e s0 n :
  resolve u path e s0 = Ok (n, s0) → n.(n_parent) = None → exclusive_mode m = false →
  open_creating u s path m e s0 = Err PyError.
Proof.
  intros Hr Hp Hm. unfold open_creating, resolve_opt, catch, mbind, sm_bind. rewrite Hr.
  cbv beta iota delta [mret sm_ret]. rewrite Hp. unfold get_opt, need, guard_or. by rewrite Hm.
Qed.
End Handlers.
