(* ===== verification/Migration.v ===== *)
(** * Moving an installation to etcd ([control/migration.py])

    Offline: the SQLite authority is copied, disabled, and its records are
    rewritten so that nothing of the old process is live; a staged import is read
    back before one conditional write makes it the authority. *)
From S2P Require Import Prelude Domain Data Store Auth Leases Cluster Startup.

(** ** The rewriting of the records *)
Definition rewrite_epoch (epoch : string) (c : counter) : counter :=
  if decide (c.(ct_id) = epoch_id) then c <| ct_epoch := epoch |> <| ct_generation ::= Z.succ |> else c.
Definition rewrite_session (s : session) : session := s <| s_revoked := true |>.
Definition rewrite_upload (o : upload) : upload :=
  if decide (o.(o_state) = PREPARING) then o <| o_state := ABORTED |> <| o_reserved := 0 |> else o.
Definition rewrite_task (t : task) : task :=
  if active_task t then
    t <| t_expires := 0 |> <| t_reserved := 0 |> <| t_status ::= λ x, x <| ts_state := FAILED |> |>
  else t.
Definition rewrite_datanode (n : datanode) : datanode := n <| dn_seen := 0 |> <| dn_reconciled := false |>.
(** The snapshots open handles were reading stay pinned. *)
Definition pins_of (hs : list handle) : list migration_pin :=
  omap (λ h, if h.(h_closed) then None else Some (mkMigrationPin h.(h_snapshot) h.(h_snapshot))) hs.
Definition pin_table (d : DB) : gmap string migration_pin :=
  foldl (λ m p, <[p.(mp_id) := p]> m) (d KMigrationPin) (pins_of (all_db KHandle d)).
(** The epoch record of an installation that had none. *)
Definition epoch_table (epoch : string) (d : DB) : gmap string counter :=
  let m := rewrite_epoch epoch <$> d KEpoch in
  match m !! epoch_id with Some _ => m | None => <[epoch_id := mkCounter epoch_id 1 epoch]> m end.

Definition migrate_db (epoch : string) (d : DB) : DB := λ k,
  match k return gmap string (val k) with
  | KEpoch => epoch_table epoch d
  | KSession => rewrite_session <$> d KSession
  | KUpload => rewrite_upload <$> d KUpload
  | KTask => rewrite_task <$> d KTask
  | KDatanode => rewrite_datanode <$> d KDatanode
  | KHandle => ∅
  | KLock => ∅
  | KRead => ∅
  | KMigrationPin => pin_table d
  | k => d k
  end.

(** ** [migrate] *)
Inductive migration_error := NOT_EMPTY | OWNER_HELD | ALREADY_DISABLED | VERIFICATION_FAILED | OTHER_AUTHORITY.

(** The two authorities: SQLite until its record is marked, etcd once its root
    key exists. *)
Record authorities := mkAuthorities {
  as_sqlite : authority; as_root : option (system * DB) }.
#[export] Instance eta_authorities : Eta authorities := λ r, mkAuthorities r.(as_sqlite) r.(as_root).
#[export] Instance eta_authority : Eta authority := λ r, mkAuthority r.(au_system) r.(au_key_sha256) r.(au_migrated).
#[export] Instance eta_system : Eta system := λ r, mkSystem r.(sy_epoch) r.(sy_root) r.(sy_node) r.(sy_strict).

(** [migrate(source, backup, destination)]: whether the backup exists, whether
    the owner lock is free, the records of the source, the [uuid4] drawn, what
    the destination reads back, and whether another authority won the
    conditional write.  It returns the error, if any, and what is left. *)
Definition migrate (backup_exists owner_free : bool) (d : DB) (epoch : string) (reads_back rival : bool)
    (a : authorities) : option migration_error * authorities :=
  if backup_exists || bool_decide (is_Some a.(as_root)) then (Some NOT_EMPTY, a)
  else if negb owner_free then (Some OWNER_HELD, a)
  else if a.(as_sqlite).(au_migrated) then (Some ALREADY_DISABLED, a)
  else
    let sys := a.(as_sqlite).(au_system) <| sy_epoch := epoch |> in
    let a := a <| as_sqlite ::= λ s, s <| au_migrated := true |> |> in
    if negb reads_back then (Some VERIFICATION_FAILED, a)
    else if rival then (Some OTHER_AUTHORITY, a)
    else (None, a <| as_root := Some (sys, migrate_db epoch d) |>).

(** ** What a migration keeps *)
Lemma pin_table_spec d i p :
  pin_table d !! i = Some p →
  d KMigrationPin !! i = Some p ∨ (i = p.(mp_id) ∧ p ∈ pins_of (all_db KHandle d)).
Proof.
  unfold pin_table. generalize (pins_of (all_db KHandle d)) as ps. generalize (d KMigrationPin : gmap string migration_pin) as m.
  intros m ps. revert m. induction ps as [|q ps IH]; intros m; simpl; [by left|].
  intros [Hm|[-> Hp]]%IH; [|right; set_solver]. apply lookup_insert_Some in Hm as [[<- <-]|[_ Hm]]; [right; set_solver|by left].
Qed.
Lemma pin_table_pinned d h i :
  d KHandle !! i = Some h → h.(h_closed) = false →
  ∃ p, pin_table d !! h.(h_snapshot) = Some p ∧ p.(mp_id) = h.(h_snapshot).
Proof.
  intros Hi Hc. unfold pin_table.
  assert (mkMigrationPin (h_snapshot h) (h_snapshot h) ∈ pins_of (all_db KHandle d)) as Hin.
  { apply list_elem_of_omap. exists h. split; [apply (elem_of_all KHandle d h); by exists i|by rewrite Hc]. }
  revert Hin. generalize (pins_of (all_db KHandle d)) as ps. generalize (d KMigrationPin : gmap string migration_pin) as m.
  intros m ps. assert (∀ ps (m : gmap string migration_pin), (∃ p, m !! h_snapshot h = Some p ∧ mp_id p = h_snapshot h) →
    ∃ p, foldl (λ m p, <[mp_id p := p]> m) m ps !! h_snapshot h = Some p ∧ mp_id p = h_snapshot h) as Hkeep.
  { clear. induction ps as [|q ps IH]; intros m Hm; simpl; [done|]. apply IH.
    destruct (decide (mp_id q = h_snapshot h)) as [<-|Hne]; [exists q; by rewrite lookup_insert_eq|].
    by rewrite lookup_insert_ne. }
  revert m. induction ps as [|q ps IH]; intros m; [by intros ?%elem_of_nil|].
  intros [<-|Hin]%elem_of_cons; simpl; [|by apply IH]. apply Hkeep. eexists. by rewrite lookup_insert_eq.
Qed.

(** C35: A migration moves the content and nothing that was live.  In the migrated
    tables every user, group, node, snapshot, block and policy is the original
    record; no session is usable, no upload is open, no task runs, no lock and no
    handle exists, no data node counts as reconciled; and every snapshot an open
    handle was reading is pinned. *)
Theorem migration_keeps_content epoch d :
  (∀ k, k ∈ [KUser; KGroup; KNode; KSnapshot; KBlock; KPolicy; KLocation; KLedger] → migrate_db epoch d k = d k)
  ∧ (∀ i s, migrate_db epoch d KSession !! i = Some s → s.(s_revoked) = true)
  ∧ (∀ i o, migrate_db epoch d KUpload !! i = Some o → o.(o_state) ≠ PREPARING)
  ∧ (∀ i t, migrate_db epoch d KTask !! i = Some t → active_task t = false)
  ∧ migrate_db epoch d KLock = ∅ ∧ migrate_db epoch d KHandle = ∅
  ∧ (∀ i n, migrate_db epoch d KDatanode !! i = Some n → n.(dn_reconciled) = false)
  ∧ (∀ i h, d KHandle !! i = Some h → h.(h_closed) = false →
       ∃ p, migrate_db epoch d KMigrationPin !! h.(h_snapshot) = Some p ∧ p.(mp_id) = h.(h_snapshot)).
Proof.
  split_and!; [set_solver| | | |done|done| |intros i h; apply pin_table_pinned].
  - intros i s (s' & <- & _)%lookup_fmap_Some. done.
  - intros i o (o' & <- & _)%lookup_fmap_Some. unfold rewrite_upload. by case_decide.
  - intros i t (t' & <- & _)%lookup_fmap_Some. unfold rewrite_task. by destruct (active_task t') eqn:E.
  - intros i n (n' & <- & _)%lookup_fmap_Some. done.
Qed.

(** At no exit of a migration are both authorities active: whenever etcd holds a
    root that the migration activated, the SQLite record is marked; and a failure
    never activates etcd. *)
Theorem one_authority backup_exists owner_free d epoch reads_back rival a :
  let '(err, a') := migrate backup_exists owner_free d epoch reads_back rival a in
  match err with
  | None => a'.(as_sqlite).(au_migrated) = true
            ∧ ∃ s, a'.(as_root) = Some (s, migrate_db epoch d) ∧ s.(sy_epoch) = epoch
                   ∧ s.(sy_root) = a.(as_sqlite).(au_system).(sy_root)
  | Some _ => a'.(as_root) = a.(as_root)
  end.
Proof.
  unfold migrate. repeat (case_match; simplify_eq; try done). split; [done|]. eexists. by split_and!.
Qed.
