(* ===== verification/Process.v ===== *)
(** * Effects of a process that serves streams and calls others

    The handlers of a data node and of the client interleave local
    transactions, file operations and calls, and an exception keeps what was
    done before it: a run returns its result together with the state it leaves.
    Every external operation takes one tick, which indexes what the world
    answers; at any tick the process may stop ([os._exit], a crash), and then
    neither [except] nor [finally] runs. *)
From S2P Require Import Prelude Domain.

(** An error of a call: its status code, and the reason its trailing metadata
    carry. *)
Record rpc_error := mkRpcError { re_code : Grpc.StatusCode; re_reason : option reason }.
#[export] Instance rpc_error_eq_dec : EqDecision rpc_error.
Proof. solve_decision. Defined.
(** What ends a run early: an exception of the program, an error of a call, the
    end of the process. *)
Inductive failure :=
  | Raised (x : exn)
  | RpcError (e : rpc_error)
  | Exit.
#[export] Instance failure_eq_dec : EqDecision failure.
Proof. solve_decision. Defined.

(** The worlds and states of a process. *)
Class Process (W S : Type) := {
  stops : W → nat → bool;
  ticks : S → nat;
  ticked : S → S;
}.

Definition PM (W S A : Type) : Type := W → S → result failure A * S.

Section Effects.
Context {W S : Type}.
Implicit Types (w : W) (s : S).

#[export] Instance pm_ret : MRet (PM W S) := λ A a w s, (Ok a, s).
#[export] Instance pm_bind : MBind (PM W S) := λ A B f m w s,
  match m w s with
  | (Ok a, s') => f a w s'
  | (Err x, s') => (Err x, s')
  end.

Definition fail {A} (x : failure) : PM W S A := λ w s, (Err x, s).
Definition refuse {A} (r : reason) : PM W S A := fail (Raised (Fault r)).
Definition demand (b : bool) (r : reason) : PM W S unit := if b then mret tt else refuse r.
Definition demand_some {A} (o : option A) (r : reason) : PM W S A :=
  match o with Some a => mret a | None => refuse r end.
Definition of_result {A} (r : result exn A) : PM W S A :=
  match r with Ok a => mret a | Err x => fail (Raised x) end.
Definition asks {A} (f : W → A) : PM W S A := λ w s, (Ok (f w), s).
Definition gets {A} (f : S → A) : PM W S A := λ w s, (Ok (f s), s).
Definition sets (f : S → S) : PM W S unit := λ w s, (Ok tt, f s).

(** [try: m finally: f]; an exception of [f] replaces the one of [m]. *)
Definition try_finally {A} (m : PM W S A) (f : PM W S unit) : PM W S A := λ w s,
  match m w s with
  | (Err Exit, s1) => (Err Exit, s1)
  | (r, s1) =>
      match f w s1 with
      | (Ok _, s2) => (r, s2)
      | (Err x, s2) => (Err x, s2)
      end
  end.
(** [try: m except ...: h]; [h] re-raises what it does not handle. *)
Definition try_except {A} (m : PM W S A) (h : failure → PM W S A) : PM W S A := λ w s,
  match m w s with
  | (Err Exit, s1) => (Err Exit, s1)
  | (Err x, s1) => h x w s1
  | r => r
  end.
Fixpoint each {A} (l : list A) (f : A → PM W S unit) : PM W S unit :=
  match l with
  | [] => mret tt
  | a :: l => f a;; each l f
  end.
Fixpoint fold {A B} (l : list A) (b : B) (f : B → A → PM W S B) : PM W S B :=
  match l with
  | [] => mret b
  | a :: l => b' ← f b a; fold l b' f
  end.

(** One external operation: the index of its answer. *)
Definition tick `{!Process W S} : PM W S nat := λ w s,
  if stops w (ticks s) then (Err Exit, s) else (Ok (ticks s), ticked s).
(** What the world answers to a query, or to a call that may fail. *)
Definition query `{!Process W S} {A} (f : W → nat → A) : PM W S A := i ← tick; asks (λ w, f w i).
Definition call `{!Process W S} {A} (f : W → nat → result rpc_error A) : PM W S A :=
  r ← query f;
  match r with Ok a => mret a | Err x => fail (RpcError x) end.

(** ** Inversion *)
Lemma pm_bind_Ok {A B} (m : PM W S A) (f : A → PM W S B) w s b s' :
  (m ≫= f) w s = (Ok b, s') ↔ ∃ a s1, m w s = (Ok a, s1) ∧ f a w s1 = (Ok b, s').
Proof.
  unfold mbind, pm_bind. destruct (m w s) as [[a|x] s1]; [naive_solver|]. split; [done|by intros (? & ? & ? & ?)].
Qed.
Lemma pm_bind_run {A B} {m : PM W S A} {f : A → PM W S B} {w s a s1} :
  m w s = (Ok a, s1) → (m ≫= f) w s = f a w s1.
Proof. unfold mbind, pm_bind. by intros ->. Qed.
Lemma pm_ret_Ok {A} (a b : A) w s s' : (mret a : PM W S A) w s = (Ok b, s') ↔ b = a ∧ s' = s.
Proof. unfold mret, pm_ret. naive_solver. Qed.
Lemma fail_Ok {A} x w s (a : A) s' : fail x w s = (Ok a, s') ↔ False.
Proof. done. Qed.
Lemma demand_Ok b r w s u s' : demand b r w s = (Ok u, s') ↔ b = true ∧ s' = s.
Proof. destruct b, u; cbv; naive_solver. Qed.
Lemma demand_some_Ok {A} (o : option A) r w s a s' : demand_some o r w s = (Ok a, s') ↔ o = Some a ∧ s' = s.
Proof. destruct o; cbv; naive_solver. Qed.
Lemma of_result_Ok {A} (r : result exn A) w s a s' : of_result r w s = (Ok a, s') ↔ r = Ok a ∧ s' = s.
Proof. destruct r; cbv; naive_solver. Qed.
Lemma asks_Ok {A} (f : W → A) w s a s' : asks f w s = (Ok a, s') ↔ a = f w ∧ s' = s.
Proof. unfold asks. naive_solver. Qed.
Lemma gets_Ok {A} (f : S → A) w s a s' : gets f w s = (Ok a, s') ↔ a = f s ∧ s' = s.
Proof. unfold gets. naive_solver. Qed.
Lemma sets_Ok f w s u s' : sets f w s = (Ok u, s') ↔ s' = f s.
Proof. unfold sets. destruct u. naive_solver. Qed.
Lemma finally_Ok {A} (m : PM W S A) f w s a s' :
  try_finally m f w s = (Ok a, s') ↔ ∃ s1, m w s = (Ok a, s1) ∧ f w s1 = (Ok tt, s').
Proof.
  unfold try_finally. destruct (m w s) as [[b|x] s1].
  - split.
    + destruct (f w s1) as [[[]|y] s2] eqn:Hf; [|done]. intros [= <- <-]. eauto.
    + by intros (? & [= -> <-] & ->).
  - split; [|by intros (? & ? & ?)]. destruct x; try done; by destruct (f w s1) as [[]].
Qed.
Lemma query_Ok `{!Process W S} {A} (f : W → nat → A) w s a s' :
  query f w s = (Ok a, s') ↔ stops w (ticks s) = false ∧ a = f w (ticks s) ∧ s' = ticked s.
Proof.
  unfold query, tick, mbind, pm_bind. destruct (stops w (ticks s)); [naive_solver|]. cbv [asks]. naive_solver.
Qed.
Lemma query_Err `{!Process W S} {A} (f : W → nat → A) w s x s' :
  query f w s = (Err x, s') → x = Exit ∧ s' = s.
Proof. unfold query, tick, mbind, pm_bind. destruct (stops w (ticks s)); [|done]. by intros [= <- <-]. Qed.
Lemma call_Ok `{!Process W S} {A} (f : W → nat → result rpc_error A) w s a s' :
  call f w s = (Ok a, s') ↔ stops w (ticks s) = false ∧ f w (ticks s) = Ok a ∧ s' = ticked s.
Proof.
  unfold call. rewrite pm_bind_Ok. split.
  - intros (r & s1 & (Hs & -> & ->)%query_Ok & H). destruct (f w (ticks s)); [|done].
    apply pm_ret_Ok in H as [-> ->]. done.
  - intros (Hs & Hf & ->). exists (Ok a), (ticked s). rewrite query_Ok. done.
Qed.

Lemma run_eq {A} (m : PM W S A) w s a : (m w s).1 = Ok a → m w s = (Ok a, (m w s).2).
Proof. by destruct (m w s) as [? ?]; simpl; intros ->. Qed.

(** ** What every run keeps

    [preserves R m]: whatever the outcome, the start and the end are related;
    [restores R m]: the same of the runs that the process survives. *)
Section Kept.
Context (R : S → S → Prop) `{HR : !PreOrder R}.
Definition preserves {A} (m : PM W S A) : Prop := ∀ w s, R s (m w s).2.
Definition restores {A} (m : PM W S A) : Prop := ∀ w s, (m w s).1 ≠ Err Exit → R s (m w s).2.

Lemma preserves_restores {A} (m : PM W S A) : preserves m → restores m.
Proof using Type. intros H w s _. apply H. Qed.

Lemma preserves_ret {A} (a : A) : preserves (mret a).
Proof using HR. intros w s. simpl. reflexivity. Qed.
Lemma preserves_fail {A} x : preserves (fail x : PM W S A).
Proof using HR. intros w s. simpl. reflexivity. Qed.
Lemma preserves_demand b r : preserves (demand b r).
Proof using HR. destruct b; [apply preserves_ret|apply preserves_fail]. Qed.
Lemma preserves_demand_some {A} (o : option A) r : preserves (demand_some o r).
Proof using HR. destruct o; [apply preserves_ret|apply preserves_fail]. Qed.
Lemma preserves_of_result {A} (r : result exn A) : preserves (of_result r).
Proof using HR. destruct r; [apply preserves_ret|apply preserves_fail]. Qed.
Lemma preserves_asks {A} (f : W → A) : preserves (asks f).
Proof using HR. intros w s. simpl. reflexivity. Qed.
Lemma preserves_gets {A} (f : S → A) : preserves (gets f).
Proof using HR. intros w s. simpl. reflexivity. Qed.
Lemma preserves_sets f : (∀ s, R s (f s)) → preserves (sets f).
Proof using Type. intros H w s. apply H. Qed.
Lemma preserves_bind {A B} (m : PM W S A) (f : A → PM W S B) :
  preserves m → (∀ a, preserves (f a)) → preserves (m ≫= f).
Proof using HR.
  intros Hm Hf w s. unfold mbind, pm_bind. specialize (Hm w s).
  destruct (m w s) as [[a|x] s1]; simpl in *; [|done]. etrans; [done|apply Hf].
Qed.
Lemma run_then {A B} (m : PM W S A) (f : A → PM W S B) w s :
  R s (m w s).2 → (∀ a, preserves (f a)) → R s ((m ≫= f) w s).2.
Proof using HR.
  intros Hm Hf. unfold mbind, pm_bind. destruct (m w s) as [[a|x] s1]; simpl in *; [|done].
  etrans; [done|apply Hf].
Qed.
Lemma preserves_finally {A} (m : PM W S A) f : preserves m → preserves f → preserves (try_finally m f).
Proof using HR.
  intros Hm Hf w s. unfold try_finally. specialize (Hm w s). destruct (m w s) as [r s1]. simpl in Hm.
  specialize (Hf w s1). destruct (f w s1) as [[|] s2]; simpl in Hf.
  all: destruct r as [|[]]; simpl; try done; etrans; done.
Qed.
Lemma preserves_except {A} (m : PM W S A) h : preserves m → (∀ x, preserves (h x)) → preserves (try_except m h).
Proof using HR.
  intros Hm Hh w s. unfold try_except. specialize (Hm w s). destruct (m w s) as [[a|[]] s1]; simpl in *; try done.
  all: etrans; [done|apply Hh].
Qed.
Lemma preserves_each {A} (l : list A) f : (∀ a, preserves (f a)) → preserves (each l f).
Proof using HR. intros Hf. induction l; simpl; [apply preserves_ret|by apply preserves_bind]. Qed.
Lemma preserves_fold {A B} (l : list A) (b : B) f : (∀ b a, preserves (f b a)) → preserves (fold l b f).
Proof using HR.
  intros Hf. revert b. induction l as [|a l IH]; intros b; simpl; [apply preserves_ret|].
  apply preserves_bind; [done|intros; apply IH].
Qed.

Lemma restores_bind {A B} (m : PM W S A) (f : A → PM W S B) :
  restores m → (∀ a, restores (f a)) → restores (m ≫= f).
Proof using HR.
  intros Hm Hf w s. unfold mbind, pm_bind. specialize (Hm w s).
  destruct (m w s) as [[a|x] s1]; simpl in *; intros Hx.
  - etrans; [by apply Hm|by apply Hf].
  - apply Hm. congruence.
Qed.
Lemma restores_finally {A} (m : PM W S A) f : restores m → restores f → restores (try_finally m f).
Proof using HR.
  intros Hm Hf w s. unfold try_finally. specialize (Hm w s). destruct (m w s) as [r s1]. simpl in Hm.
  specialize (Hf w s1). destruct (f w s1) as [q s2]; simpl in Hf.
  destruct r as [a|[]], q as [u|]; simpl; intros Hx; try done;
    (etrans; [by apply Hm|]; apply Hf; try done; congruence).
Qed.
Lemma restores_except {A} (m : PM W S A) h : restores m → (∀ x, restores (h x)) → restores (try_except m h).
Proof using HR.
  intros Hm Hh w s. unfold try_except. specialize (Hm w s). destruct (m w s) as [[a|[]] s1]; simpl in *; intros Hx; try done.
  1: by apply Hm. all: etrans; [by apply Hm|by apply Hh].
Qed.
Lemma restores_each {A} (l : list A) f : (∀ a, restores (f a)) → restores (each l f).
Proof using HR.
  intros Hf. induction l; simpl; [apply preserves_restores, preserves_ret|by apply restores_bind].
Qed.
End Kept.
(** ** Assertions

    [ensures P m Q]: a run of [m] from a state in [P] that returns satisfies
    [Q], and one that fails with [x] leaves a state in [I x]. *)
Section Ensures.
Context (I : failure → S → Prop) (w : W).
Definition ensures {A} (P : S → Prop) (m : PM W S A) (Q : A → S → Prop) : Prop :=
  ∀ s, P s → match m w s with (Ok a, s') => Q a s' | (Err x, s') => I x s' end.

Lemma ensures_ret {A} (P : S → Prop) (a : A) Q : (∀ s, P s → Q a s) → ensures P (mret a) Q.
Proof. intros H s Hs. by apply H. Qed.
Lemma ensures_fail {A} (P : S → Prop) x (Q : A → S → Prop) : (∀ s, P s → I x s) → ensures P (fail x) Q.
Proof. intros H s Hs. by apply H. Qed.
Lemma ensures_weaken {A} (P P' : S → Prop) (m : PM W S A) (Q Q' : A → S → Prop) :
  ensures P' m Q' → (∀ s, P s → P' s) → (∀ a s, Q' a s → Q a s) → ensures P m Q.
Proof. intros H HP HQ s Hs. specialize (H s (HP s Hs)). destruct (m w s) as [[a|x] s']; [by apply HQ|done]. Qed.
Lemma ensures_bind {A B} (P : S → Prop) (m : PM W S A) (f : A → PM W S B) Q Q' :
  ensures P m Q → (∀ a, ensures (Q a) (f a) Q') → ensures P (m ≫= f) Q'.
Proof.
  intros Hm Hf s Hs. unfold mbind, pm_bind. specialize (Hm s Hs).
  destruct (m w s) as [[a|x] s']; [by apply Hf|done].
Qed.
Lemma ensures_demand (P : S → Prop) b r : (∀ x s, P s → I x s) → ensures P (demand b r) (λ _ s, P s ∧ b = true).
Proof. intros H s Hs. destruct b; [done|by apply H]. Qed.
Lemma ensures_demand_some {A} (P : S → Prop) (o : option A) r :
  (∀ x s, P s → I x s) → ensures P (demand_some o r) (λ a s, P s ∧ o = Some a).
Proof. intros H s Hs. destruct o; [done|by apply H]. Qed.
Lemma ensures_of_result {A} (P : S → Prop) (r : result exn A) :
  (∀ x s, P s → I x s) → ensures P (of_result r) (λ a s, P s ∧ r = Ok a).
Proof. intros H s Hs. destruct r; [done|by apply H]. Qed.
Lemma ensures_gets {A} (P : S → Prop) (f : S → A) : ensures P (gets f) (λ a s, P s ∧ a = f s).
Proof. by intros s Hs. Qed.
Lemma ensures_asks {A} (P : S → Prop) (f : W → A) : ensures P (asks f) (λ a s, P s ∧ a = f w).
Proof. by intros s Hs. Qed.
Lemma ensures_sets (P : S → Prop) f (Q : unit → S → Prop) : (∀ s, P s → Q tt (f s)) → ensures P (sets f) Q.
Proof. intros H s Hs. by apply H. Qed.
Lemma ensures_finally {A} (P : S → Prop) (m : PM W S A) f (Q Q' : A → S → Prop) :
  ensures P m Q → (∀ a, ensures (Q a) f (λ _, Q' a)) → (∀ x, x ≠ Exit → ensures (I x) f (λ _, I x)) → ensures P (try_finally m f) Q'.
Proof.
  intros Hm Hf Hi s Hs. unfold try_finally. specialize (Hm s Hs). destruct (m w s) as [[a|x] s1].
  - specialize (Hf a s1 Hm). by destruct (f w s1) as [[u|y] s2].
  - destruct (decide (x = Exit)) as [->|Hx]; [done|]. specialize (Hi x Hx s1 Hm).
    destruct x; try done; by destruct (f w s1) as [[u|y] s2].
Qed.
Lemma ensures_except {A} (P : S → Prop) (m : PM W S A) h (Q : A → S → Prop) :
  ensures P m Q → (∀ x, x ≠ Exit → ensures (I x) (h x) Q) → ensures P (try_except m h) Q.
Proof.
  intros Hm Hh s Hs. unfold try_except. specialize (Hm s Hs). destruct (m w s) as [[a|x] s1]; [done|].
  destruct x; try done; by apply Hh.
Qed.
Lemma ensures_try {A} (J : failure → S → Prop) (P : S → Prop) (m : PM W S A) h (Q : A → S → Prop) :
  (∀ s, P s → match m w s with (Ok a, s') => Q a s' | (Err x, s') => J x s' end) →
  (∀ s, J Exit s → I Exit s) → (∀ x, x ≠ Exit → ensures (J x) (h x) Q) → ensures P (try_except m h) Q.
Proof.
  intros Hm HE Hh s Hs. unfold try_except. specialize (Hm s Hs). destruct (m w s) as [[a|x] s1]; [done|].
  destruct x; try (by apply Hh); by apply HE.
Qed.
Lemma ensures_fold {A B} (P : B → S → Prop) (l : list A) (f : B → A → PM W S B) : ∀ b,
  (∀ b a, ensures (P b) (f b a) P) → ensures (P b) (fold l b f) P.
Proof.
  induction l as [|a l IH]; intros b Hf; simpl; [by apply ensures_ret|].
  eapply ensures_bind; [apply Hf|intros b'; by apply IH].
Qed.
Lemma ensures_tick `{!Process W S} (P : S → Prop) :
  (∀ s, P s → P (ticked s)) → (∀ s, P s → I Exit s) → ensures P tick (λ _, P).
Proof. intros HP HI s Hs. unfold tick. destruct (stops w (ticks s)); auto. Qed.
Lemma ensures_pure {A} (P : S → Prop) (φ : Prop) (m : PM W S A) Q :
  (φ → ensures P m Q) → ensures (λ s, P s ∧ φ) m Q.
Proof. intros H s [Hs Hφ]. by apply H. Qed.
(** What does not touch an assertion keeps it. *)
Lemma ensures_kept {A} (R : S → S → Prop) (P : S → Prop) (m : PM W S A) :
  preserves R m → (∀ s s', R s s' → P s → P s') → (∀ x s, P s → I x s) → ensures P m (λ _, P).
Proof.
  intros Hm HR HI s Hs. specialize (Hm w s). destruct (m w s) as [[a|x] s'] eqn:E; simpl in Hm; [|apply HI]; eauto.
Qed.
Lemma ensures_each {A} (P : S → Prop) (l : list A) (f : A → PM W S unit) :
  (∀ x s, P s → I x s) → (∀ a, a ∈ l → ensures P (f a) (λ _, P)) → ensures P (each l f) (λ _, P).
Proof.
  intros HI. induction l as [|a l IH]; intros Hf; simpl; [by apply ensures_ret|].
  eapply ensures_bind; [apply Hf; set_solver|]. intros u. apply IH. intros b Hb. apply Hf. set_solver.
Qed.
End Ensures.
Lemma ensures_loosen {A} (I I' : failure → S → Prop) w (P : S → Prop) (m : PM W S A) Q :
  (∀ x s, I x s → I' x s) → ensures I w P m Q → ensures I' w P m Q.
Proof. intros HI Hm s Hs. specialize (Hm s Hs). destruct (m w s) as [[a|x] s']; auto. Qed.
End Effects.

Create HintDb kept discriminated.
(** Follow the shape of a handler; the leaves are in the hint database. *)
Ltac preserves_step :=
  first
    [ apply preserves_ret; apply _ | apply preserves_fail; apply _ | apply preserves_demand; apply _
    | apply preserves_demand_some; apply _ | apply preserves_of_result; apply _
    | apply preserves_asks; apply _ | apply preserves_gets; apply _
    | match goal with
      | |- preserves _ (_ ≫= _) => apply preserves_bind; [apply _| |intros ?]
      | |- preserves _ (try_finally _ _) => apply preserves_finally; [apply _| |]
      | |- preserves _ (try_except _ _) => apply preserves_except; [apply _| |intros ?]
      | |- preserves _ (each _ _) => apply preserves_each; [apply _|intros ?]
      | |- preserves _ (fold _ _ _) => apply preserves_fold; [apply _|intros ? ?]
      | |- preserves _ (match ?x with _ => _ end) => destruct x
      | |- preserves _ ((match ?x with _ => _ end) _) => destruct x
      | |- preserves _ (let _ := _ in _) => cbv zeta
      | |- ∀ _, _ => intros ?
      end ].
Ltac solve_preserves := repeat first [ solve [eauto 2 with kept nocore] | preserves_step ].
Ltac restores_step :=
  first
    [ match goal with
      | |- restores _ (_ ≫= _) => apply restores_bind; [apply _| |intros ?]
      | |- restores _ (try_finally _ _) => apply restores_finally; [apply _| |]
      | |- restores _ (try_except _ _) => apply restores_except; [apply _| |intros ?]
      | |- restores _ (each _ _) => apply restores_each; [apply _|intros ?]
      | |- restores _ (match ?x with _ => _ end) => destruct x
      | |- restores _ ((match ?x with _ => _ end) _) => destruct x
      | |- restores _ (let _ := _ in _) => cbv zeta
      | |- ∀ _, _ => intros ?
      end
    | apply preserves_restores; solve [solve_preserves] ].
Ltac solve_restores := repeat first [ solve [eauto 2 with kept nocore] | restores_step ].

(** Invert a run that returned. *)
Ltac prun1 :=
  match goal with
  | H : (_ ≫= _) _ _ = (Ok _, _) |- _ =>
      let a := fresh "v" in let s := fresh "s" in let H1 := fresh "H" in let H2 := fresh "H" in
      apply pm_bind_Ok in H as (a & s & H1 & H2)
  | H : mret _ _ _ = (Ok _, _) |- _ => apply pm_ret_Ok in H as [? ?]; subst
  | H : fail _ _ _ = (Ok _, _) |- _ => apply fail_Ok in H; destruct H
  | H : refuse _ _ _ = (Ok _, _) |- _ => apply fail_Ok in H; destruct H
  | H : demand _ _ _ _ = (Ok _, _) |- _ => apply demand_Ok in H as [? ?]; subst
  | H : demand_some _ _ _ _ = (Ok _, _) |- _ => apply demand_some_Ok in H as [? ?]; subst
  | H : of_result _ _ _ = (Ok _, _) |- _ => apply of_result_Ok in H as [? ?]; subst
  | H : asks _ _ _ = (Ok _, _) |- _ => apply asks_Ok in H as [? ?]; subst
  | H : gets _ _ _ = (Ok _, _) |- _ => apply gets_Ok in H as [? ?]; subst
  | H : sets _ _ _ = (Ok _, _) |- _ => apply sets_Ok in H; subst
  end.
Ltac prun := repeat prun1.
