(* ===== verification/Protected.v ===== *)
(** * Authenticated metadata envelopes ([common/protected.py])

    What a key seals opens with the same key in the same context, and nothing
    else opens. *)
From Stdlib Require String.
From S2P Require Import Prelude Domain Data Store Auth.

(** [HKDF(SHA256, length=64, salt=None, info=b'dfsha-metadata-v1')]. *)
Class Kdf := {
  hkdf : string → string;
  hkdf_length k : slen (hkdf k) = 64;
}.

(** ** Slices of byte strings *)
Definition sub (lo hi : nat) (s : string) : string := String.substring lo (hi - lo) s.
Definition from (lo : nat) (s : string) : string := String.substring lo (String.length s - lo) s.

Lemma substring_app_l n a b : n = String.length a → String.substring 0 n (a +:+ b) = a.
Proof.
  intros ->. induction a as [|c a IH]; simpl; [by destruct b|by rewrite IH].
Qed.
Lemma substring_app_r n m a b :
  n = String.length a → String.substring n m (a +:+ b) = String.substring 0 m b.
Proof. intros ->. induction a as [|c a IH]; simpl; [done|]. by rewrite IH. Qed.
Lemma substring_full s : String.substring 0 (String.length s) s = s.
Proof. induction s as [|c s IH]; simpl; [done|by rewrite IH]. Qed.
Lemma length_append a b : String.length (a +:+ b) = (String.length a + String.length b)%nat.
Proof. induction a as [|c a IH]; simpl; [done|by rewrite IH]. Qed.
Lemma from_app n a b : n = String.length a → from n (a +:+ b) = b.
Proof.
  intros ->. unfold from. rewrite substring_app_r, length_append by done.
  replace (_ + _ - _)%nat with (String.length b) by lia. apply substring_full.
Qed.
Lemma sub_app n m a b c :
  n = String.length a → m = (n + String.length b)%nat → sub n m (a +:+ (b +:+ c)) = b.
Proof.
  intros -> ->. unfold sub. rewrite substring_app_r by done. apply substring_app_l. lia.
Qed.
Lemma append_assoc a b c : a +:+ (b +:+ c) = (a +:+ b) +:+ c.
Proof. induction a as [|x a IH]; simpl; [done|]. by rewrite IH. Qed.
Lemma substring_0_all n s : (String.length s ≤ n)%nat → String.substring 0 n s = s.
Proof. revert n. induction s as [|c s IH]; intros [|n] Hn; simpl in *; [done|done|lia|]. f_equal. apply IH. lia. Qed.
Lemma split_at n s : (n ≤ String.length s)%nat → s = String.substring 0 n s +:+ from n s.
Proof.
  unfold from. revert n. induction s as [|c s IH]; intros [|n] Hn; simpl in *; try done; try lia.
  - by rewrite substring_full.
  - f_equal. apply IH. lia.
Qed.
Lemma length_from n s : (n ≤ String.length s)%nat → String.length (from n s) = (String.length s - n)%nat.
Proof.
  unfold from. revert n. induction s as [|c s IH]; intros [|n] Hn; simpl in *; try done; try lia.
  - by rewrite substring_full.
  - apply IH. lia.
Qed.
Lemma length_prefix n s : (n ≤ String.length s)%nat → String.length (String.substring 0 n s) = n.
Proof. revert n. induction s as [|c s IH]; intros [|n] Hn; simpl in *; try done; try lia. f_equal. apply IH. lia. Qed.

Definition MAGIC : string := "DFSHAM01".

Section Protected.
Context `{Hash, Aead, Kdf}.

(** [MetadataCipher(key)]; [None] for a key that is not 32 bytes. *)
Record MetadataCipher := mkCipher { mc_aead_key : string; mc_index_key : string; mc_key_id : string }.
Definition metadata_cipher (key : string) : option MetadataCipher :=
  if slen key =? 32 then
    let material := hkdf key in
    Some (mkCipher (sub 0 32 material) (from 32 material) (sha256 key))
  else None.

Definition address (c : MetadataCipher) (data : string) : string := hex (hmac_sha256 c.(mc_index_key) data).

(** [seal], with the nonce [os.urandom(12)] drew. *)
Definition seal (c : MetadataCipher) (nonce data context : string) : string :=
  let header := MAGIC +:+ (c.(mc_key_id) +:+ nonce) in
  header +:+ aead_encrypt c.(mc_aead_key) nonce data (header +:+ context).

Definition open_envelope (c : MetadataCipher) (data context : string) : result exn string :=
  if (68 <=? slen data) && bool_decide (sub 0 8 data = MAGIC) then
    if decide (sub 8 40 data = c.(mc_key_id)) then
      match aead_decrypt c.(mc_aead_key) (sub 40 52 data) (from 52 data) (sub 0 52 data +:+ context) with
      | Some p => Ok p
      | None => Err (Fault DATA_LOSS)
      end
    else Err (Fault DATA_LOSS)
  else Err (Fault DATA_LOSS).

Lemma cipher_key_id key c : metadata_cipher key = Some c → String.length c.(mc_key_id) = 32%nat.
Proof.
  unfold metadata_cipher. case_match; [|done]. intros [= <-]. simpl.
  pose proof (sha256_length key) as Hs. unfold slen in Hs. lia.
Qed.

Lemma header_length c n :
  String.length c.(mc_key_id) = 32%nat → String.length n = 12%nat →
  String.length (MAGIC +:+ (c.(mc_key_id) +:+ n)) = 52%nat.
Proof. intros Hk Hn. rewrite !length_append, Hk, Hn. done. Qed.

Lemma seal_length c nonce data context : String.length c.(mc_key_id) = 32%nat → slen nonce = 12 →
  slen (seal c nonce data context) = 68 + slen data.
Proof.
  intros Hk Hn. assert (String.length nonce = 12%nat) as Hn' by (unfold slen in Hn; lia).
  unfold seal, slen. rewrite length_append, header_length by done.
  pose proof (aead_length c.(mc_aead_key) nonce data ((MAGIC +:+ (c.(mc_key_id) +:+ nonce)) +:+ context)) as Hb.
  unfold slen in Hb. lia.
Qed.
Lemma seal_opens key c nonce data context :
  metadata_cipher key = Some c → slen nonce = 12 →
  open_envelope c (seal c nonce data context) context = Ok data.
Proof.
  intros Hc Hn. apply cipher_key_id in Hc as Hk. assert (String.length nonce = 12%nat) as Hn' by (unfold slen in Hn; lia).
  pose proof (header_length c nonce Hk Hn') as Hh.
  pose proof (seal_length c nonce data context Hk Hn) as Hl. unfold open_envelope, seal in *.
  set (header := MAGIC +:+ (c.(mc_key_id) +:+ nonce)) in *. set (body := aead_encrypt _ _ _ _) in *.
  rewrite Hl, (proj2 (Z.leb_le _ _)) by (unfold slen; lia).
  assert (sub 0 52 (header +:+ body) = header) as H52 by (by apply substring_app_l).
  assert (from 52 (header +:+ body) = body) as Hb by (by apply from_app).
  assert (sub 0 8 (header +:+ body) = MAGIC) as H8.
  { subst header. rewrite <- append_assoc. by apply substring_app_l. }
  assert (sub 8 40 (header +:+ body) = c.(mc_key_id)) as Hid.
  { subst header. rewrite <- !append_assoc. apply sub_app; [done|]. by rewrite Hk. }
  assert (sub 40 52 (header +:+ body) = nonce) as Hno.
  { subst header. rewrite (append_assoc MAGIC), <- append_assoc. apply sub_app.
    - by rewrite length_append, Hk.
    - by rewrite Hn'. }
  rewrite H8, bool_decide_true by done. cbn [andb]. rewrite decide_True by done.
  rewrite Hno, Hb, H52. subst body. by rewrite aead_decrypt_encrypt.
Qed.

(** C14: What a cipher seals, with any twelve-byte nonce, the same cipher opens in the
    same context as exactly the data that was sealed. *)
Theorem open_seal key c nonce data context :
  metadata_cipher key = Some c → slen nonce = 12 →
  open_envelope c (seal c nonce data context) context = Ok data.
Proof. apply seal_opens. Qed.

(** C15: Only sealed data opens: an envelope that opens in a context is byte for byte
    the seal of the plaintext it gives, made by a cipher of the same key with the
    nonce it carries, in that context; it is 68 bytes longer than the plaintext. *)
Theorem open_only_sealed c data context p :
  open_envelope c data context = Ok p →
  data = seal c (sub 40 52 data) p context ∧ slen data = 68 + slen p.
Proof.
  unfold open_envelope. destruct ((68 <=? slen data) && _) eqn:E; [|done].
  destruct (decide (sub 8 40 data = _)) as [Hk|]; [|done].
  destruct (aead_decrypt _ _ _ _) as [q|] eqn:D; [|done]. intros [= ->].
  bsimpl. apply aead_decrypt_only in D.
  assert (52 ≤ String.length data)%nat as Hlen by (unfold slen in *; lia).
  pose proof (split_at 52 data Hlen) as Hs.
  assert (sub 0 52 data = MAGIC +:+ (c.(mc_key_id) +:+ sub 40 52 data)) as Hh.
  { assert (sub 0 8 data = MAGIC) as Hm by done. rewrite <- Hk, <- Hm. clear -Hlen.
    unfold sub. do 52 (destruct data as [|? data]; [simpl in Hlen; lia|]). by destruct data. }
  split.
  - unfold seal. rewrite <- Hh, <- D. exact Hs.
  - rewrite D in Hs. apply (f_equal slen) in Hs. unfold slen in *. rewrite length_append in Hs.
    pose proof (aead_length c.(mc_aead_key) (sub 40 52 data) p (sub 0 52 data +:+ context)) as Ha.
    unfold slen in Ha. rewrite length_prefix in Hs by lia. unfold sub in *. simpl in *. lia.
Qed.
End Protected.
