(* ===== verification/Ledger.v ===== *)
(** * The answers of the control

    Every answer is a message of the type its method declares, and a command that
    was answered is never executed again: whatever the control does in between,
    the same request gets the remembered response or an error, and changes
    nothing. *)
From Stdlib Require String.
From S2P Require Import Prelude Domain Data Store Auth Leases Cluster Placement Requests Queries Commands Access Protection Footprints Tables Service Nodes Maintenance Startup UnitFootprints Protected System.

(** ** Types of responses *)
Definition typed (t : message_type) (m : M response) : Prop :=
  ∀ e s r s', m e s = Ok (r, s') → type_of r = t.
Lemma typed_ret t r : type_of r = t → typed t (mret r).
Proof. by intros Ht e s r' s' [-> _]%ret_Ok. Qed.
Lemma typed_raise t x : typed t (raise x).
Proof. by intros e s r s' []%raise_Ok. Qed.
Lemma typed_fmap {A} t (f : A → response) (m : M A) : (∀ a, type_of (f a) = t) → typed t (f <$> m).
Proof. intros Hf e s r s' (a & _ & ->)%fmap_Ok. apply Hf. Qed.
Lemma typed_bind {A} t (m : M A) (f : A → M response) : (∀ a, typed t (f a)) → typed t (m ≫= f).
Proof. intros Hf e s r s' (a & s1 & _ & Hr)%bind_Ok. by eapply Hf. Qed.
Lemma typed_then t (m : M response) (f : response → M response) :
  typed t m → (∀ r, type_of r = t → typed t (f r)) → typed t (m ≫= f).
Proof. intros Hm Hf e s r s' (a & s1 & H1 & Hr)%bind_Ok. eapply Hf; [|done]. by eapply Hm. Qed.
Create HintDb typed discriminated.
#[export] Hint Resolve typed_raise : typed.
Ltac solve_typed :=
  repeat first
    [ solve [eauto 1 with typed nocore]
    | apply typed_ret; first [reflexivity|assumption]
    | apply typed_fmap; intros; reflexivity
    | apply typed_then; [solve [eauto 1 with typed nocore]|intros]
    | apply typed_bind; intros
    | match goal with |- typed _ (match ?x with _ => _ end) => destruct x end ].

(** ** What the ledger keeps

    A remembered response stays, unless a block stream is remembered under its
    identity: [put_block_publish] does not look whether there is one. *)
Definition of_stream (l : ledger) : Prop := l.(l_method) = "PutBlock" ∨ l.(l_method) = "PatchBlock".
Definition remembers (e : env) (s s' : st) : Prop :=
  ∀ i, s.(s_db) KLedger !! i = None ∨ s'.(s_db) KLedger !! i = s.(s_db) KLedger !! i
       ∨ ∃ l : val KLedger, s'.(s_db) KLedger !! i = Some l ∧ of_stream l.
#[export] Instance remembers_preorder e : PreOrder (remembers e).
Proof.
  split; [intros s i; by right; left|]. intros s1 s2 s3 R1 R2 i.
  destruct (R1 i) as [?|[E1|(l & E1 & Hl)]]; [by left| |].
  - rewrite <-E1. apply R2.
  - right. destruct (R2 i) as [E2|[E2|?]]; [by rewrite E1 in E2| |by right]. right. exists l. by rewrite E2.
Qed.
#[export] Instance remembers_coarse : Coarse KLedger remembers.
Proof.
  split; [apply _|]. intros e s s' (T & _ & _) i. right. left. by rewrite (T KLedger (not_in_others KLedger)).
Qed.
Lemma remembers_put e s l : s.(s_db) KLedger !! l_id l = None ∨ of_stream l → remembers e s (s <| s_db ::= put_db KLedger l |>).
Proof.
  intros Hl i. cbn. rewrite put_db_same. destruct (decide (l_id l = i)) as [<-|Hne].
  - destruct Hl as [?|?]; [by left|]. right. right. exists l. split; [apply lookup_insert_eq|done].
  - right. left. by apply lookup_insert_ne.
Qed.

Section Ledger.
Context `{Hash, Unicode, Argon2, Aead, Json, Base64, Wire, NodeWire}.

Lemma typed_base_remove u c p d : typed TMutation (base_remove u c p d).
Proof. unfold base_remove. solve_typed. Qed.
Hint Resolve typed_base_remove : typed.
Lemma typed_access_remove u c p d : typed TMutation (access_remove u c p d).
Proof. unfold access_remove. solve_typed. Qed.
Lemma typed_base_abort u s c r : typed TMutation (base_abort_upload u s c r).
Proof. unfold base_abort_upload. solve_typed. Qed.
Hint Resolve typed_access_remove typed_base_abort : typed.
Lemma typed_access_abort u s c r : typed TMutation (access_abort_upload u s c r).
Proof. unfold access_abort_upload. solve_typed. Qed.
Lemma typed_set_acl u c p a x : typed TMutation (set_acl u c p a x).
Proof. unfold set_acl. solve_typed. Qed.
Lemma typed_logout s c i : typed TMutation (logout s c i).
Proof. unfold logout. solve_typed. Qed.
Lemma typed_base_close u s c h x : typed TMutation (base_close u s c h x).
Proof. unfold base_close. solve_typed. Qed.
Lemma typed_access_close u s c h : typed TMutation (access_close u s c h).
Proof. unfold access_close. solve_typed. Qed.
Lemma typed_end_read u s c h r : typed TMutation (end_read u s c h r).
Proof. unfold end_read. solve_typed. Qed.
Lemma typed_unlock s c f : typed TMutation (unlock s c f).
Proof. unfold unlock. solve_typed. Qed.
Lemma typed_abort_write u s c r : typed TMutation (abort_write u s c r).
Proof. unfold abort_write. solve_typed. Qed.
Lemma typed_promote u c p x : typed TMutation (promote_protection u c p x).
Proof. unfold promote_protection. solve_typed. Qed.
Lemma typed_authorization u c i en x : typed TMutation (set_node_authorization u c i en x).
Proof. unfold set_node_authorization. solve_typed. Qed.
Hint Resolve typed_access_abort typed_set_acl typed_logout typed_base_close typed_access_close typed_end_read typed_unlock
  typed_abort_write typed_promote typed_authorization : typed.
Lemma typed_command u s c b : typed (response_type b) (command u s c b).
Proof.
  unfold command, remove, abort_upload, close, with_access, with_cluster, by_class, missing.
  destruct b; cbn [response_type]; solve_typed.
Qed.
Lemma typed_query u s b : typed (response_type b) (query u s b).
Proof. unfold query, with_cluster, by_class, missing. destruct b; cbn [response_type]; solve_typed. Qed.

(** A replay gives what the ledger holds under the identity of the request, and
    changes nothing. *)
Lemma replay_Ok u c b e s o s' : replay u c b e s = Ok (o, s') →
  s' = s ∧ c.(rc_intent_sha256) = request_intent b ∧
  match s.(s_db) KLedger !! ledger_id e u c with
  | None => o = None
  | Some l => l.(l_method) = method_name b ∧ ∃ bytes r,
      ledger_decrypt l.(l_response) e s = Ok (bytes, s) ∧ parse (response_type b) bytes = Some r ∧ o = Some r
  end.
Proof.
  unfold replay. intros Hr. apply bind_Ok in Hr as (u0 & s0 & H10 & Hr). need_inv. bsimpl.
  apply bind_Ok in Hr as (e' & s1 & [-> ->]%ask_Ok & Hr).
  apply bind_Ok in Hr as (o' & s1 & Hg & Hr). store_inv.
  destruct (s_db s KLedger !! _) as [l|]; [|by apply ret_Ok in Hr as [-> ->]].
  apply bind_Ok in Hr as (u1 & s2 & H11 & Hr); need_inv; bsimpl.
  apply bind_Ok in Hr as (u2 & s3 & H12 & Hr).
  assert (s3 = s) as -> by (destruct (password_of b); runs; done).
  apply bind_Ok in Hr as (bytes & s4 & Hb & Hr).
  assert (s4 = s) as -> by (clear Hr; unfold ledger_decrypt in Hb; runs; done).
  apply bind_Ok in Hr as (r & s5 & H13 & Hr); need_inv; apply ret_Ok in Hr as [-> ->].
  split_and!; try done. by eexists _, _.
Qed.
Lemma replay_typed u c b e s r s' : replay u c b e s = Ok (Some r, s') → type_of r = response_type b.
Proof.
  intros (_ & _ & Hl)%replay_Ok. destruct (s_db s KLedger !! _) as [l|]; [|done].
  destruct Hl as (_ & bytes & r' & _ & Hp & [= ->]). by eapply parse_type.
Qed.
Lemma precheck_typed token rq e s r s' : precheck token rq e s = Ok (inl r, s') → type_of r = response_type rq.(rq_body).
Proof.
  unfold precheck. intros (o & s1 & Ho & Hr)%bind_Ok. destruct o as [r'|].
  - apply ret_Ok in Hr as [[= ->] ->]. unfold logout_replay in Ho. destruct (rq_body rq) eqn:Hb; try by apply ret_Ok in Ho as [? _].
    apply bind_Ok in Ho as (os & s2 & Hg & Ho). destruct os as [old|]; [|by apply ret_Ok in Ho as [? _]].
    destruct (s_revoked old); [|by apply ret_Ok in Ho as [? _]].
    do 3 (apply bind_Ok in Ho as (? & ? & _ & Ho); cbv beta in Ho).
    do 2 (apply bind_Ok in Ho as (? & ? & _ & Ho); cbv beta in Ho).
    apply bind_Ok in Ho as (p & s3 & Hp & Ho). apply bind_Ok in Ho as (q & s4 & Hn & Ho). need_inv.
    apply ret_Ok in Ho as [[= ->] _]. by eapply (replay_typed _ _ (Logout _)).
  - apply bind_Ok in Hr as ([u se] & s2 & _ & Hr). apply bind_Ok in Hr as (p & s3 & Hp & Hr).
    apply ret_Ok in Hr as [Heq _]. destruct p as [r'|]; [|done]. injection Heq as ->. by eapply replay_typed.
Qed.
Lemma typed_publish token rq : typed (response_type rq.(rq_body)) (publish token rq).
Proof.
  unfold publish. apply typed_bind. intros [u se] e s r s' (o & s1 & Ho & Hr)%bind_Ok. destruct o as [r'|].
  - apply ret_Ok in Hr as [-> _]. by eapply replay_typed.
  - apply bind_Ok in Hr as (r' & s2 & Hc & Hr). apply bind_Ok in Hr as (? & ? & _ & Hr). apply ret_Ok in Hr as [-> _].
    by eapply typed_command.
Qed.
(** C28: every answer of the control is a message of the type that its method
    declares, whether the handler of the running profile made it, the ledger
    replayed it, or other requests committed in between. *)
Theorem answers_typed content between token rq e s r s' :
  unary_once content between token rq e s = (Ok r, s') → type_of r = response_type rq.(rq_body).
Proof.
  unfold unary_once, transaction. destruct (is_query (rq_body rq)).
  - destruct (run_query token rq e s) as [[r' s1]|] eqn:Hr; [|done]. intros [= -> _].
    unfold run_query in Hr. apply bind_Ok in Hr as ([u se] & s2 & _ & Hr). by eapply typed_query.
  - destruct (precheck token rq e s) as [[[r'|us] s1]|] eqn:Hp; [|destruct (between 0%nat s1) as [e1 s2]|done].
    + intros [= -> _]. by eapply precheck_typed.
    + destruct (verify_seal content us rq e1 s2) as [[u s3]|] eqn:Hv; [|done]. destruct (between 1%nat s3) as [e2 s4].
      destruct (publish token rq e2 s4) as [[r' s5]|] eqn:Hr; [|done]. intros [= -> _]. by eapply typed_publish.
Qed.

(** ** The writers of the ledger *)
Lemma remember_Ok u c b r e s x s' : remember u c b r e s = Ok (x, s') → ∃ nonce v s1,
  nonce = e.(e_random) s.(s_draws) 12 ∧ s1 = s <| s_draws ::= S |> ∧ verifier_of b e s1 = Ok (v, s1) ∧
  s' = s1 <| s_db ::= put_db KLedger (mkLedger (ledger_id e u c) (method_name b) (hex (request_intent b))
    (b64encode (nonce +:+ aead_encrypt e.(e_key) nonce (serialize r) ledger_aad)) v) |>.
Proof.
  unfold remember. intros Hr. apply bind_Ok in Hr as (e' & s0 & [-> ->]%ask_Ok & Hr).
  apply bind_Ok in Hr as (sealed & s1 & Hs & Hr). apply bind_Ok in Hr as (v & s2 & Hv & Hr). store_inv.
  unfold ledger_encrypt in Hs. runs. eexists _, v, _. split; [done|]. split; [done|].
  assert (s2 = s <| s_draws ::= S |>) as -> by (unfold verifier_of in Hv; destruct b; runs; done). done.
Qed.
Lemma rem_remember u c b r e s x s' : remember u c b r e s = Ok (x, s') →
  s.(s_db) KLedger !! ledger_id e u c = None ∨ method_name b = "PutBlock" ∨ method_name b = "PatchBlock" →
  remembers e s s'.
Proof.
  intros (n & v & s1 & _ & -> & _ & ->)%remember_Ok Hl. transitivity (s <| s_draws ::= S |>); [intros i; by right; left|].
  by apply remembers_put.
Qed.
Lemma command_frame u se c b : writes (others KLedger) (command u se c b).
Proof.
  unfold command, commit_upload, open_file, commit_write, with_access, with_cluster, by_class, missing.
  destruct b; solve_keeps.
Qed.
Lemma rem_publish token rq : keeps remembers (publish token rq).
Proof.
  unfold publish. apply keeps_bind; [apply _|solve_keeps|]. intros [u se] e s r s' (o & s1 & Ho & Hr)%bind_Ok.
  apply replay_Ok in Ho as (-> & _ & Hl). destruct o as [r'|]; [by apply ret_Ok in Hr as [-> ->]|].
  destruct (s_db s KLedger !! _) as [l|] eqn:Hn; [by destruct Hl as (? & ? & ? & ? & ? & ?)|].
  apply bind_Ok in Hr as (r' & s2 & Hc & Hr). apply bind_Ok in Hr as (x & s3 & Hm & Hr). apply ret_Ok in Hr as [-> ->].
  apply command_frame in Hc as F. transitivity s2; [by apply (coarse_frame (k := KLedger))|].
  apply rem_remember in Hm; [done|left]. destruct F as (T & _ & _). by rewrite (T KLedger (not_in_others KLedger)).
Qed.
Lemma rem_stream u c ref b f cap r : keeps remembers (remember u c (PutBlock ref b f cap) r).
Proof. intros e s x s' Hr. eapply rem_remember; [done|]. by right; left. Qed.
Lemma rem_patch u c ref b v o n h f cap r : keeps remembers (remember u c (PatchBlock ref b v o n h f cap) r).
Proof. intros e s x s' Hr. eapply rem_remember; [done|]. by right; right. Qed.
Hint Resolve rem_publish rem_stream rem_patch : keeps.
Lemma rem_units A (m : M A) : unit_of_work m → keeps remembers m.
Proof.
  destruct 1; try solve [solve_keeps].
  - unfold ReportDurable, report_patch, report_block. solve_keeps.
  - by eapply (keeps_collect remembers); try solve [solve_keeps].
  - by eapply (keeps_start remembers); try solve [solve_keeps].
Qed.

(** ** A remembered answer *)
(** The ledger answers [b] with [r] under the identity [i]. *)
Definition recalled (master i : string) (b : body) (r : response) (s : st) : Prop :=
  ∃ l : val KLedger, s.(s_db) KLedger !! i = Some l ∧ l.(l_method) = method_name b ∧ l.(l_digest) = hex (request_intent b)
    ∧ (∀ p, password_of b = Some p → ∃ v, l.(l_password_verifier) = Some v ∧ matches v p = true)
    ∧ ∃ data bytes, b64decode l.(l_response) = Some data
      ∧ aead_decrypt master (String.substring 0 12 data) (String.substring 12 (String.length data - 12) data) ledger_aad = Some bytes
      ∧ parse (response_type b) bytes = Some r.
Lemma recalled_replay u c b r e s : recalled e.(e_key) (ledger_id e u c) b r s → c.(rc_intent_sha256) = request_intent b →
  replay u c b e s = Ok (Some r, s).
Proof.
  intros (l & Hl & Hm & Hd & Hp & data & bytes & H64 & Ha & Hr) Hi. unfold replay.
  rewrite Hi, bool_decide_true by done. apply bind_Ok. exists tt, s. split; [done|].
  apply bind_Ok. exists e, s. split; [done|]. apply bind_Ok. exists (Some l), s. split; [by apply (get_Ok KLedger)|].
  rewrite Hm, Hd, !bool_decide_true by done. apply bind_Ok. exists tt, s. split; [done|].
  apply bind_Ok. exists tt, s. split.
  { destruct (password_of b) as [p|]; [|done]. destruct (Hp p eq_refl) as (v & -> & Hv).
    apply bind_Ok. exists v, s. split; [done|]. by rewrite Hv. }
  apply bind_Ok. exists bytes, s. split; [|by rewrite Hr].
  apply bind_Ok. exists e, s. split; [done|]. apply bind_Ok. exists data, s. split; [by rewrite H64|by rewrite Ha].
Qed.
Lemma replay_recalled u c b e s r : replay u c b e s = Ok (Some r, s) → recalled e.(e_key) (ledger_id e u c) b r s.
Proof.
  unfold replay. intros Hr. apply bind_Ok in Hr as (u0 & s0 & H10 & Hr). need_inv. bsimpl.
  apply bind_Ok in Hr as (e' & s1 & [-> ->]%ask_Ok & Hr).
  apply bind_Ok in Hr as (o' & s1 & Hg & Hr). store_inv.
  destruct (s_db s KLedger !! _) as [l|] eqn:Hl; [|by apply ret_Ok in Hr as [? _]].
  apply bind_Ok in Hr as (u1 & s2 & H11 & Hr); need_inv; bsimpl.
  apply bind_Ok in Hr as (u2 & s3 & H12 & Hr). apply bind_Ok in Hr as (bytes & s4 & Hb & Hr).
  apply bind_Ok in Hr as (q & s5 & H13 & Hr); need_inv; apply ret_Ok in Hr as [[= ->] _].
  exists l. split_and!; [exact Hl|done|done| |].
  - intros p Hp. rewrite Hp in H12. runs. by eexists.
  - unfold ledger_decrypt in Hb. runs. by eexists _, _.
Qed.

(** The verifier remembered with a command that sets a password accepts it. *)
Lemma hash_matches p e s v s' : password_hash p e s = Ok (v, s') → matches v p = true ∧ frame [] e s s'.
Proof.
  intros Hr. split; [|by apply (writes_password_hash [] p e s v)]. unfold password_hash in Hr. runs.
  unfold matches. rewrite argon2_verify_hash. by rewrite (proj2 (Z.leb_le _ _)) by lia.
Qed.
Lemma user_table ks {A} (m : M A) e s a s' : writes ks m → KUser ∉ ks → m e s = Ok (a, s') → s'.(s_db) KUser = s.(s_db) KUser.
Proof. intros Hw Hk Hr. by destruct (Hw e s a s' Hr) as (T & _ & _); apply T. Qed.
Lemma changed_verifier u i p x e s a s' : keyed s.(s_db) → change_password u i p x e s = Ok (a, s') →
  ∃ t, s'.(s_db) KUser !! i = Some t ∧ matches t.(u_password) p = true.
Proof.
  intros Hk. unfold change_password. intros Hr.
  apply bind_Ok in Hr as (x0 & s0 & H10 & Hr). need_inv.
  apply bind_Ok in Hr as (o & s1 & H11 & Hr). store_inv.
  apply bind_Ok in Hr as (t & s2 & H12 & Hr). need_inv.
  apply bind_Ok in Hr as (x2 & s3 & H13 & Hr). need_inv. bsimpl.
  apply bind_Ok in Hr as (v & s5 & [Hm (T & _ & _)]%hash_matches & Hr). cbn zeta in Hr.
  apply bind_Ok in Hr as (x3 & s6 & H15 & Hr). store_inv.
  apply bind_Ok in Hr as (x4 & s7 & H16 & Hr). apply ret_Ok in Hr as [-> ->].
  exists (t <| u_password := v |> <| u_revision ::= Z.succ |>). split; [|exact Hm].
  rewrite (user_table [KSession] _ _ _ _ _ (fp_revoke_sessions _) ltac:(set_solver) H16). cbn.
  rewrite put_db_same. cbn. replace i with (u_id t); [apply lookup_insert_eq|].
  by apply (Hk KUser).
Qed.
Lemma created_verifier u n p e s a s' : create_user u n p e s = Ok (a, s') →
  ∀ t, t ∈ all_db KUser s'.(s_db) → t.(u_username) = n → matches t.(u_password) p = true.
Proof.
  unfold create_user. intros Hr.
  apply bind_Ok in Hr as (x0 & s0 & H10 & Hr). need_inv.
  apply bind_Ok in Hr as (x1 & s1 & H11 & Hr). need_inv.
  apply bind_Ok in Hr as (us & s2 & H12 & Hr). store_inv.
  apply bind_Ok in Hr as (x2 & s3 & H13 & Hr). need_inv. bsimpl.
  apply bind_Ok in Hr as (i & s4 & H14 & Hr). store_inv.
  apply bind_Ok in Hr as (v & s5 & [Hm (T & _ & _)]%hash_matches & Hr).
  apply bind_Ok in Hr as (x3 & s6 & H15 & Hr). store_inv.
  apply (user_table [KGroup; KNode]) in Hr; [|solve_keeps|set_solver].
  intros t Ht Hn. apply elem_of_all in Ht as [j Hj]. rewrite Hr in Hj. cbn in Hj. rewrite put_db_same in Hj.
  apply lookup_insert_Some in Hj as [[_ <-]|[_ Hj]]; [exact Hm|]. exfalso.
  rewrite T in Hj by set_solver. cbn in Hj.
  apply not_true_iff_false in H9. apply H9, existsb_exists. exists t. split; [|by apply bool_decide_eq_true].
  apply list_elem_of_In, (elem_of_all KUser). by exists j.
Qed.
Lemma command_verifier u se c b e s r s1 v s2 : keyed s.(s_db) → command u se c b e s = Ok (r, s1) →
  verifier_of b e (s1 <| s_draws ::= S |>) = Ok (v, s2) →
  ∀ p, password_of b = Some p → ∃ w, v = Some w ∧ matches w p = true.
Proof.
  intros Hk Hc Hv p Hp. destruct b; try done; injection Hp as <-; cbn in Hc; unfold verifier_of in Hv; runs.
  - match goal with Hu : create_user _ _ _ _ _ = _, Hf : List.find _ _ = Some _ |- _ =>
      apply List.find_some in Hf as [Hin Hn]; rewrite <- list_elem_of_In in Hin;
      eexists; split; [done|]; eapply (created_verifier _ _ _ _ _ _ _ Hu); [exact Hin|by apply bool_decide_eq_true in Hn] end.
  - match goal with Hu : change_password _ _ _ _ _ _ = _ |- _ =>
      destruct (changed_verifier _ _ _ _ _ _ _ _ Hk Hu) as (t & Ht & Hm) end.
    eexists. split; [done|]. match goal with Hl : Some _ = s_db _ KUser !! _ |- _ => pose proof (eq_trans Hl Ht) as E; by injection E as -> end.
Qed.

(** Who asks, and the identity of the request in the ledger. *)
Definition entry_of (c : RequestContext) : string :=
  c.(rc_service_epoch) +:+ ":" +:+ c.(rc_user_id) +:+ ":" +:+ c.(rc_request_id).
Lemma authenticated_Ok token c e s u se s' : authenticated token c e s = Ok ((u, se), s') →
  s' = s ∧ ledger_id e u c = entry_of c.
Proof.
  unfold authenticated. intros Hr. apply bind_Ok in Hr as ([u1 se1] & s1 & Ha & Hr).
  apply bind_Ok in Hr as (x & s2 & Hu & Hr). apply bind_Ok in Hr as (sys & s3 & Hs & Hr). store_inv.
  apply bind_Ok in Hr as (x3 & s4 & Hn & Hr). need_inv. apply ret_Ok in Hr as [[= -> ->] ->]. bsimpl.
  split; [|by unfold ledger_id, entry_of; rewrite H7, H8].
  assert (s2 = s1) as -> by (unfold uuid in Hu; runs; done).
  unfold authenticate, session_live in Ha. clear -Ha. runs; done.
Qed.
(** What a published command leaves in the ledger. *)
Lemma publish_recalled token rq e s r s' :
  keyed s.(s_db) → (∀ n, slen (e.(e_random) n 12) = 12) → representable r = true → publish token rq e s = Ok (r, s') →
  recalled e.(e_key) (entry_of rq.(rq_context)) rq.(rq_body) r s' ∧ rq.(rq_context).(rc_intent_sha256) = request_intent rq.(rq_body).
Proof.
  intros Hk Hrand Hrep Hr. unfold publish in Hr. apply bind_Ok in Hr as ([u se] & s1 & [-> Hid]%authenticated_Ok & Hr).
  apply bind_Ok in Hr as (o & s1 & Ho & Hr). destruct (replay_Ok _ _ _ _ _ _ _ Ho) as (-> & Hi & _). split; [|done].
  rewrite <- Hid. destruct o as [r'|].
  { apply ret_Ok in Hr as [-> ->]. by apply replay_recalled. }
  apply bind_Ok in Hr as (r' & s2 & Hc & Hr). apply bind_Ok in Hr as (x & s3 & Hm & Hr). apply ret_Ok in Hr as [-> ->].
  apply remember_Ok in Hm as (nonce & v & s4 & -> & -> & Hv & ->).
  eexists. cbn [s_db]. split; [apply (put_db_eq KLedger)|]. cbn. split; [done|]. split; [done|]. split.
  { intros p Hp. by eapply (command_verifier _ _ _ _ _ _ _ _ _ _ Hk Hc Hv). }
  assert (String.length (e_random e (s_draws s2) 12) = 12%nat) as Hlen by (specialize (Hrand (s_draws s2)); unfold slen in Hrand; lia).
  eexists _, (serialize r'). split; [apply b64decode_encode|]. split.
  - rewrite substring_app_l by done. change (String.substring 12 ?n ?d) with (from 12 d).
    rewrite from_app by done. apply aead_decrypt_encrypt.
  - rewrite <- (typed_command _ _ _ _ _ _ _ _ Hc). by apply parse_serialize.
Qed.
Lemma recalled_later master i b r e s s' : recalled master i b r s → remembers e s s' →
  recalled master i b r s' ∨ ∃ l : val KLedger, s'.(s_db) KLedger !! i = Some l ∧ of_stream l.
Proof.
  intros (l & Hl & Hrest) Hm. destruct (Hm i) as [Hn|[Hs|?]]; [congruence| |by right].
  left. exists l. by rewrite Hs.
Qed.

(** ** The request again *)
Definition is_stream (b : body) : bool :=
  match b with PutBlock _ _ _ _ | PatchBlock _ _ _ _ _ _ _ _ => true | _ => false end.
Definition answered (master : string) (rq : request) (r : response) (s : st) : Prop :=
  let i := entry_of rq.(rq_context) in
  recalled master i rq.(rq_body) r s ∨ ∃ l : val KLedger, s.(s_db) KLedger !! i = Some l ∧ of_stream l.
Lemma replay_again rq r u e s : answered e.(e_key) rq r s → ledger_id e u rq.(rq_context) = entry_of rq.(rq_context) →
  rq.(rq_context).(rc_intent_sha256) = request_intent rq.(rq_body) → is_stream rq.(rq_body) = false →
  replay u rq.(rq_context) rq.(rq_body) e s = Ok (Some r, s)
  ∨ replay u rq.(rq_context) rq.(rq_body) e s = Err (Fault IDEMPOTENCY_MISMATCH).
Proof.
  intros [Hr|(l & Hl & Hs)] Hid Hi Hb; [left; apply recalled_replay; [by rewrite Hid|done]|]. right.
  unfold replay. rewrite Hi, bool_decide_true by done. cbn [need]. rewrite (bind_run (a := tt) (s1 := s)) by done.
  rewrite (bind_run (a := e) (s1 := s)) by done.
  rewrite (bind_run (a := Some l) (s1 := s)) by (rewrite Hid; by apply (get_Ok KLedger)).
  rewrite (bool_decide_false (l_method l = _)); [done|]. intros Hm.
  destruct Hs as [Hs|Hs]; rewrite Hs in Hm; by destruct (rq_body rq).
Qed.
(** A session that was revoked authenticates nothing but the replay of a [Logout]. *)
Lemma revoked_not_authenticated token c e s old : s.(s_db) KSession !! hex (sha256 token) = Some old → old.(s_revoked) = true →
  ∀ us s', authenticated token c e s ≠ Ok (us, s').
Proof.
  intros Hs Hr us s' Ha. unfold authenticated in Ha. apply bind_Ok in Ha as (us1 & s1 & Ha & _). unfold authenticate in Ha.
  rewrite (bind_run (a := Some old) (s1 := s)), (bind_run (a := old) (s1 := s)), (bind_run (a := e_now e) (s1 := s)) in Ha
    by first [done|by apply (get_Ok KSession)].
  by rewrite Hr in Ha.
Qed.
Lemma logout_again token rq r e s : answered e.(e_key) rq r s →
  rq.(rq_context).(rc_intent_sha256) = request_intent rq.(rq_body) → is_stream rq.(rq_body) = false →
  logout_replay token rq e s = Ok (None, s)
  ∨ logout_replay token rq e s = Ok (Some r, s)
  ∨ ∃ f, logout_replay token rq e s = Err f ∧ ∀ us s', authenticated token rq.(rq_context) e s ≠ Ok (us, s').
Proof.
  intros Ha Hi Hb. unfold logout_replay. destruct (rq_body rq) eqn:Hbody; try by left.
  rewrite (bind_run (a := s_db s KSession !! hex (sha256 token)) (s1 := s)) by done.
  destruct (s_db s KSession !! hex (sha256 token)) as [old|] eqn:Hold; [|by left].
  destruct (s_revoked old) eqn:Hrev; [|by left]. right.
  pose proof (revoked_not_authenticated token (rq_context rq) e s old Hold Hrev) as Hna.
  rewrite (bind_run (a := s_db s KUser !! s_user old) (s1 := s)) by done.
  destruct (s_db s KUser !! s_user old) as [u|]; [|right; by eexists].
  rewrite (bind_run (a := u) (s1 := s)), (bind_run (a := e_system e) (s1 := s)) by done.
  destruct (bool_decide (rc_user_id (rq_context rq) = u_id u) && bool_decide (rc_service_epoch (rq_context rq) = sy_epoch (e_system e)))
    eqn:Hn; [|right; by eexists].
  rewrite (bind_run (a := tt) (s1 := s)) by done.
  destruct (is_uuid (rc_request_id (rq_context rq))) eqn:Hu; [|right; eexists; split; [|done]; unfold uuid; by rewrite Hu].
  rewrite (bind_run (a := rc_request_id (rq_context rq)) (s1 := s)) by (unfold uuid; by rewrite Hu).
  apply andb_true_iff in Hn as [Hn1%bool_decide_eq_true Hn2%bool_decide_eq_true].
  assert (ledger_id e u (rq_context rq) = entry_of (rq_context rq)) as Hid by (unfold ledger_id, entry_of; by rewrite Hn1, Hn2).
  rewrite <- Hbody in *. destruct (replay_again rq r u e s Ha Hid Hi Hb) as [Hr|Hr].
  - left. by rewrite (bind_run Hr).
  - right. eexists. split; [unfold mbind, sm_bind; by rewrite Hr|done].
Qed.
Lemma precheck_again token rq r e s : answered e.(e_key) rq r s →
  rq.(rq_context).(rc_intent_sha256) = request_intent rq.(rq_body) → is_stream rq.(rq_body) = false →
  precheck token rq e s = Ok (inl r, s) ∨ ∃ f, precheck token rq e s = Err f
    ∧ ((∃ us s', authenticated token rq.(rq_context) e s = Ok (us, s')) → f = Fault IDEMPOTENCY_MISMATCH).
Proof.
  intros Ha Hi Hb. unfold precheck.
  assert (logout_replay token rq e s = Ok (None, s)
    ∨ logout_replay token rq e s = Ok (Some r, s)
    ∨ ∃ f, logout_replay token rq e s = Err f ∧ ∀ us s', authenticated token rq.(rq_context) e s ≠ Ok (us, s')) as [Hl|[Hl|(f & Hl & Hf)]].
  { by apply logout_again. }
  - rewrite (bind_run Hl). destruct (authenticated token (rq_context rq) e s) as [[[u se] s1]|f] eqn:Hu.
    + rewrite (bind_run Hu). apply authenticated_Ok in Hu as [-> Hid].
      destruct (replay_again rq r u e s Ha Hid Hi Hb) as [Hr|Hr].
      * left. by rewrite (bind_run Hr).
      * right. exists (Fault IDEMPOTENCY_MISMATCH). split; [|done]. unfold mbind, sm_bind. by rewrite Hr.
    + right. exists f. split; [unfold mbind, sm_bind; by rewrite Hu|]. by intros (us & s' & ?).
  - left. by rewrite (bind_run Hl).
  - right. exists f. split; [unfold mbind, sm_bind; by rewrite Hl|]. intros (us & s' & Hu). by destruct (Hf us s').
Qed.

(** C5: a command is executed at most once.  After a command was published with
    the response [r], in every later state of every run, whatever the control was
    asked, collected or restarted in between, the same request with whatever token
    changes nothing: it gets [r] again or an error.  When it authenticates, it gets
    [r], unless a block stream was remembered under its identity, which is
    [IDEMPOTENCY_MISMATCH].  Passwords are checked again against what the command
    stored. *)
Theorem answered_once content between token token' rq e e' s r s1 s2 :
  keyed s.(s_db) → (∀ n, slen (e.(e_random) n 12) = 12) → representable r = true →
  is_query rq.(rq_body) = false → is_stream rq.(rq_body) = false →
  publish token rq e s = Ok (r, s1) → rtc (moves_in (λ _, True)) s1 s2 → e'.(e_key) = e.(e_key) →
  ∃ x, unary_once content between token' rq e' s2 = (x, s2) ∧ (x = Ok r ∨ ∃ f, x = Err f)
    ∧ ((∃ us s', authenticated token' rq.(rq_context) e' s2 = Ok (us, s')) → x = Ok r ∨ x = Err (Fault IDEMPOTENCY_MISMATCH)).
Proof.
  intros Hk Hrand Hrep Hq Hb Hp Hrun Hkey. destruct (publish_recalled _ _ _ _ _ _ Hk Hrand Hrep Hp) as [Hrec Hi].
  assert (∀ e, remembers e s1 s2) as Hrem.
  { intros e0. refine (runs_keep (λ _, True) remembers (remembers e0) rem_units _ s1 s2 Hrun). by intros. }
  assert (answered (e_key e') rq r s2) as Ha by (rewrite Hkey; exact (recalled_later _ _ _ _ e _ _ Hrec (Hrem e))).
  unfold unary_once, transaction. rewrite Hq.
  destruct (precheck_again token' rq r e' s2 Ha Hi Hb) as [Hpre|(f & Hpre & Hf)]; rewrite Hpre.
  - exists (Ok r). split; [done|]. split; by left.
  - exists (Err f). split; [done|]. split; [right; by exists f|]. intros Hu. right. by rewrite (Hf Hu).
Qed.
End Ledger.
