(* ===== verification/Gateway.v ===== *)
(** * Requests at the door of the control ([Monolith.unary], [Monolith.register])

    A request for a lock may wait: it is tried again until it gets its answer,
    the wait is over or the caller has gone.  Every request has a deadline, and
    every exception of a handler becomes the status and the reason that the
    caller gets. *)
From Stdlib Require String.
From S2P Require Import Prelude Domain Data Store Auth Leases Cluster Placement Requests Queries Commands Access Protection Service Process.

(** ** Waiting for a lock *)
Section Waiting.
(** One attempt; the instant it ends at and whether the caller still waits; what
    others do during the pause. *)
Context (once : nat → env → st → result exn response * st).
Context (clock : nat → Z) (active : nat → bool) (others : nat → st → env * st).
Definition conflict (r : result exn response) : bool := match r with Err (Fault LOCK_CONFLICT) => true | _ => false end.
Fixpoint attempts (fuel i : nat) (stop : Z) (e : env) (s : st) : option (result exn response * st) :=
  match fuel with
  | O => None
  | S fuel =>
      let '(r, s) := once i e s in
      if conflict r then
        if stop <=? clock i then Some (r, s)
        else if active i then let '(e, s) := others i s in attempts fuel (S i) stop e s
        else Some (Err (Fault DEADLINE_EXCEEDED), s)
      else Some (r, s)
  end.
(** The attempts before the last one: each found a conflict in time. *)
Inductive tried (stop : Z) : nat → env → st → nat → env → st → Prop :=
  | tried_none i e s : tried stop i e s i e s
  | tried_one i e s r s1 e2 s2 k e' s' : once i e s = (r, s1) → conflict r = true → clock i < stop → active i = true →
      others i s1 = (e2, s2) → tried stop (S i) e2 s2 k e' s' → tried stop i e s k e' s'.
Lemma attempts_end fuel : ∀ i stop e s k, (i ≤ k < i + fuel)%nat → stop ≤ clock k → is_Some (attempts fuel i stop e s).
Proof using Type.
  induction fuel as [|fuel IH]; intros i stop e s k Hk Hs; [lia|]. cbn. destruct (once i e s) as [r s1].
  destruct (conflict r); [|by eexists]. destruct (Z.leb_spec stop (clock i)); [by eexists|]. destruct (active i); [|by eexists].
  destruct (others i s1) as [e2 s2]. apply (IH _ _ _ _ k); [|done]. destruct (decide (i = k)) as [->|]; lia.
Qed.
Lemma attempts_answer fuel : ∀ i stop e s r s', attempts fuel i stop e s = Some (r, s') →
  ∃ k e1 s1 r', tried stop i e s k e1 s1 ∧ once k e1 s1 = (r', s') ∧
    (r = r' ∧ (conflict r' = true → stop ≤ clock k)
     ∨ r = Err (Fault DEADLINE_EXCEEDED) ∧ conflict r' = true ∧ clock k < stop ∧ active k = false).
Proof using Type.
  induction fuel as [|fuel IH]; intros i stop e s r s'; [done|]. cbn. destruct (once i e s) as [r1 s1] eqn:E.
  destruct (conflict r1) eqn:Hc; [|intros [= -> ->]; exists i, e, s, r; split; [constructor|]; split; [done|by left; rewrite Hc]].
  destruct (Z.leb_spec stop (clock i)) as [Hs|Hs]; [intros [= -> ->]; exists i, e, s, r; split; [constructor|]; split; [done|by left]|].
  destruct (active i) eqn:Ha.
  2: { intros [= <- ->]. exists i, e, s, r1. split; [constructor|]. split; [done|by right]. }
  destruct (others i s1) as [e2 s2] eqn:Ho. intros (k & e1 & s3 & r' & Ht & Hk)%IH. exists k, e1, s3, r'. split; [|done].
  by eapply tried_one.
Qed.
End Waiting.

Section Gateway.
Context `{Hash, Unicode, Argon2, Aead, Json, Base64, Wire}.
(** [unary]: only a lock waits, at most five seconds ([started] is the instant of
    the request in milliseconds). *)
Definition unary (content : BlockRef → option string) (between : nat → nat → st → env * st)
    (clock : nat → Z) (active : nat → bool) (others : nat → st → env * st)
    (fuel : nat) (started : Z) (token : string) (rq : request) (e : env) (s : st) : option (result exn response * st) :=
  match rq.(rq_body) with
  | Lock _ _ _ _ wait =>
      if has_leases e.(e_cfg) then
        if wait <=? 5000 then
          attempts (λ i, unary_once content (between i) token rq) clock active others fuel 0 (started + wait) e s
        else Some (Err (Fault INVALID_ARGUMENT), s)
      else Some (unary_once content (between 0%nat) token rq e s)
  | _ => Some (unary_once content (between 0%nat) token rq e s)
  end.

(** ** Deadlines and errors *)
(** How long a caller may be willing to wait, in milliseconds; [timeout] is the
    configured limit of a call in seconds. *)
Definition longest (timeout : Z) (b : body) : Z :=
  match b with SealManifest _ _ _ _ _ _ => 302000 | _ => (timeout + 2) * 1000 end.
(** [abort]; what is not caught reaches the caller without a reason (errors of
    SQLite and of files, which are UNAVAILABLE, do not occur in the tables here). *)
Definition abort (code : Grpc.StatusCode) (r : reason) : rpc_error := mkRpcError code (Some r).
Definition error_of (x : exn) : rpc_error :=
  match x with Fault r => abort (fault_code r) r | PyError => mkRpcError Grpc.UNKNOWN None end.
Definition invoke (timeout : Z) (remaining : option Z)
    (handler : env → st → option (result exn response * st)) (rq : request) (e : env) (s : st)
    : option (result rpc_error response * st) :=
  match remaining with
  | Some r =>
      if r <=? longest timeout rq.(rq_body) then
        '(a, s) ← handler e s;
        Some (match a with Ok a => Ok a | Err x => Err (error_of x) end, s)
      else Some (Err (error_of (Fault INVALID_ARGUMENT)), s)
  | None => Some (Err (error_of (Fault INVALID_ARGUMENT)), s)
  end.

(** A request for a lock with leases ends once the clock has passed its wait; it
    has then the answer of its last attempt, which is a conflict only when the wait
    is over, or the caller had gone; and nothing but the attempts and what others
    did between them touched the tables. *)
Theorem lock_waits content between clock active others fuel started token h whole offset length wait ctx e s k :
  let rq := mkRequest ctx (Lock h whole offset length wait) in
  let once i := unary_once content (between i) token rq in
  has_leases e.(e_cfg) = true → wait ≤ 5000 → (k < fuel)%nat → started + wait ≤ clock k →
  ∃ r s', unary content between clock active others fuel started token rq e s = Some (r, s')
    ∧ ∃ j e1 s1 r', tried once clock active others (started + wait) 0 e s j e1 s1 ∧ once j e1 s1 = (r', s')
      ∧ (r = r' ∧ (conflict r' = true → started + wait ≤ clock j)
         ∨ r = Err (Fault DEADLINE_EXCEEDED) ∧ conflict r' = true ∧ clock j < started + wait ∧ active j = false).
Proof.
  intros rq once Hl Hw Hk Hc. unfold unary. cbn [rq rq_body]. rewrite Hl, (proj2 (Z.leb_le _ _)) by done.
  destruct (attempts_end once clock active others fuel 0 (started + wait) e s k) as [[r s'] E]; [lia|done|].
  exists r, s'. split; [exact E|]. by apply attempts_answer in E.
Qed.
End Gateway.
