(* ===== verification/Local.v ===== *)
(** * Local admission and explicit failover ([common/local.py], [common/failover.py])

    Four units of weight shared by the streams of a process, and a channel that
    sends one request to its endpoints in turn. *)
From S2P Require Import Prelude Domain Data.

(** ** [LocalCoordinator]: four units of weight shared by the streams *)
Module LocalCoordinator.
(** [(1, 2, 4)[PROFILES.index(block_size)]]; [None] is the [ValueError]. *)
Fixpoint index_of (x : Z) (l : list Z) : option nat :=
  match l with
  | [] => None
  | y :: l => if decide (x = y) then Some O else S <$> index_of x l
  end.
Definition weight (block_size : Z) : option Z := index_of block_size PROFILES ≫= λ i, [1; 2; 4] !! i.
Definition UNITS : Z := 4.

(** The free units and the weights of the streams inside [admit]. *)
Record coordinator := mkCoordinator { units : Z; inside : list Z }.
Definition start : coordinator := mkCoordinator UNITS [].

(** A waiter takes its weight when there is room, and gives it back when it
    leaves; [notify_all] wakes the others, whose turn is the scheduler's. *)
Inductive step : coordinator → coordinator → Prop :=
  | step_enter c w bs : weight bs = Some w → w ≤ c.(units) →
      step c (mkCoordinator (c.(units) - w) (w :: c.(inside)))
  | step_leave c w l1 l2 : c.(inside) = l1 ++ w :: l2 →
      step c (mkCoordinator (c.(units) + w) (l1 ++ l2)).

(** One pass of the [while] loop at time [t]: enter, wait, or give up. *)
Inductive turn := Enter (units : Z) | Wait (left : Z) | GiveUp.
Definition try_admit (units weight t until : Z) : turn :=
  if weight <=? units then Enter (units - weight)
  else if until - t <=? 0 then GiveUp else Wait (until - t).

Fixpoint total (l : list Z) : Z := match l with [] => 0 | w :: l => w + total l end.
Lemma total_app l1 l2 : total (l1 ++ l2) = total l1 + total l2.
Proof. induction l1; simpl; lia. Qed.
Lemma weight_range bs w : weight bs = Some w → 1 ≤ w ≤ 4.
Proof.
  unfold weight, PROFILES. simpl. repeat (case_decide; simpl); intros; simplify_eq; lia.
Qed.

Definition balanced (c : coordinator) : Prop :=
  0 ≤ c.(units) ∧ c.(units) + total c.(inside) = UNITS ∧ Forall (λ w, 1 ≤ w) c.(inside).
Lemma step_balanced c c' : step c c' → balanced c → balanced c'.
Proof.
  intros [? w bs Hw Hle|? w l1 l2 Hl] (H0 & Hs & Hf); unfold balanced; simpl.
  - apply weight_range in Hw as ?. split_and!; [lia|lia|constructor; [lia|done]].
  - rewrite Hl in Hs, Hf. rewrite total_app in *. simpl in Hs.
    apply list.Forall_app in Hf as [Hf1 Hf2]. apply Forall_cons_1 in Hf2 as [Hw Hf2].
    split_and!; [lia|lia|by apply Forall_app_2].
Qed.

Lemma total_length l : Forall (λ w, 1 ≤ w) l → Z.of_nat (length l) ≤ total l.
Proof. induction 1; simpl; lia. Qed.

(** Admission conserves its four units: in every reachable state the free units and
    the weights inside add up to four, none is negative, and at most four
    streams are inside; a 128 MiB stream is inside only alone. *)
Theorem admission_conserves c :
  rtc step start c →
  0 ≤ c.(units) ∧ c.(units) + total c.(inside) = UNITS
  ∧ (length c.(inside) ≤ 4)%nat ∧ (weight 134217728 = Some 4 → 4 ∈ c.(inside) → c.(inside) = [4]).
Proof.
  intros Hr. assert (balanced c) as (H0 & Hs & Hf).
  { revert c Hr. apply rtc_ind_r; [by repeat split; try constructor|].
    intros y z _ Hst Hb. by eapply step_balanced. }
  pose proof (total_length _ Hf). unfold UNITS in *. split_and!; [lia|lia|lia|].
  intros _ (l1 & l2 & Hl)%list_elem_of_split. rewrite Hl in *. rewrite total_app in Hs. simpl in Hs.
  apply list.Forall_app in Hf as [Hf1 Hf2]. apply Forall_cons_1 in Hf2 as [_ Hf2].
  pose proof (total_length _ Hf1). pose proof (total_length _ Hf2).
  destruct l1, l2; simpl in *; [done|lia..].
Qed.
Lemma admission_conserves_witness :
  0 ≤ 0 ∧ 0 + total [4] = UNITS ∧ (length [4] ≤ 4)%nat ∧ (weight 134217728 = Some 4 → 4 ∈ [4] → [4] = [4]).
Proof.
  apply (admission_conserves (mkCoordinator 0 [4])).
  eapply rtc_l; [|apply rtc_refl]. apply (step_enter start 4 134217728); [reflexivity|done].
Defined.
End LocalCoordinator.

(** ** [FailoverChannel]: one pass over the endpoints, the request unchanged

    An attempt takes some time and answers or fails with a status code.  Time is
    in milliseconds. *)
Module Failover.
Inductive outcome (A : Type) :=
  | Answer (a : A)
  | Failure (code : Grpc.StatusCode) (with_detail : bool).
Arguments Answer {A} a.
Arguments Failure {A} code with_detail.

(** What a call returns: a response, an error of the last endpoint, the
    [RuntimeError] of an exhausted budget. *)
Inductive reply (A : Type) :=
  | Replied (a : A)
  | Raised (code : Grpc.StatusCode)
  | Exhausted.
Arguments Replied {A} a.
Arguments Raised {A} code.
Arguments Exhausted {A}.

Definition GET_PROTECTION : string := "/dfsha.v1.ClusterAdministrationService/GetProtection".
(** A failure after which the next endpoint is tried. *)
Definition retryable (method : string) (closed : bool) (code : Grpc.StatusCode) (with_detail : bool) : bool :=
  bool_decide (code = Grpc.UNAVAILABLE) || bool_decide (code = Grpc.DEADLINE_EXCEEDED)
  || (bool_decide (code = Grpc.CANCELLED) && bool_decide (method = GET_PROTECTION)
      && negb closed && negb with_detail).

Section Invoke.
Context {A : Type}.
(** What endpoint [i] answers when called at time [t] with budget [b], and when. *)
Variable call : nat → Z → Z → outcome A * Z.
Variables (method : string) (closed : bool) (endpoints start : nat) (timeout deadline : Z).

(** The time one attempt may take. *)
Definition budget (attempt : nat) (remaining : Z) : Z :=
  if Nat.ltb attempt (endpoints - 1) then Z.min remaining (Z.max 1000 (timeout * 7 / 10)) else remaining.

Arguments budget : simpl never.
(** The loop, from attempt [k] on; the trace records endpoints and budgets. *)
Fixpoint attempts (n k : nat) (t : Z) (error : option Grpc.StatusCode) (index : nat) (trace : list (nat * Z))
    : reply A * nat * list (nat * Z) :=
  let stop := (match error with Some c => Raised c | None => Exhausted end, index, trace) in
  match n with
  | O => stop
  | S n =>
      let i := ((start + k) mod endpoints)%nat in
      let remaining := deadline - t in
      if remaining <=? 0 then stop
      else
        let b := budget k remaining in
        let trace := trace ++ [(i, b)] in
        match call i t b with
        | (Answer a, _) => (Replied a, i, trace)
        | (Failure c det, t') =>
            if retryable method closed c det then attempts n (S k) t' (Some c) index trace
            else (Raised c, index, trace)
        end
  end.
Definition invoke (t : Z) : reply A * nat * list (nat * Z) := attempts endpoints 0 t None start [].

Lemma attempts_trace n k t err ix tr :
  ∃ m l, (attempts n k t err ix tr).2 = tr ++ l ∧ (m ≤ n)%nat
    ∧ map fst l = map (λ j, (start + j) mod endpoints)%nat (seq k m).
Proof.
  revert k t err tr. induction n as [|n IH]; intros k t err tr; simpl.
  { exists O, []. by rewrite app_nil_r. }
  case_match; simpl; [exists O, []; rewrite app_nil_r; split_and!; [done|lia|done]|].
  destruct (call _ t _) as [[a|c det] t'].
  { exists 1%nat, [(((start + k) mod endpoints)%nat, budget k (deadline - t))].
    split_and!; [done|lia|done]. }
  set (p := (((start + k) mod endpoints)%nat, budget k (deadline - t))).
  destruct (retryable _ _ _ _); [|exists 1%nat, [p]; split_and!; [done|lia|done]].
  destruct (IH (S k) t' (Some c) (tr ++ [p])) as (m & l & -> & Hm & Hl).
  exists (S m), (p :: l). rewrite <- app_assoc. split_and!; [done|lia|].
  simpl. by rewrite Hl.
Qed.

Lemma attempts_reply n k t err ix tr :
  match attempts n k t err ix tr with
  | (Replied a, i, _) => ∃ j t b t', (k ≤ j < k + n)%nat ∧ i = ((start + j) mod endpoints)%nat
      ∧ call i t b = (Answer a, t') ∧ 0 < deadline - t
  | (_, i, _) => i = ix
  end.
Proof.
  revert k t err tr. induction n as [|n IH]; intros k t err tr; simpl; [by destruct err|].
  destruct (deadline - t <=? 0) eqn:E; [by destruct err|]. bsimpl.
  destruct (call _ t _) as [[a|c det] t'] eqn:Hc.
  { exists k, t, (budget k (deadline - t)), t'. split_and!; [lia|lia|done|done|lia]. }
  destruct (retryable _ _ _ _); [|done].
  specialize (IH (S k) t' (Some c) (tr ++ [(((start + k) mod endpoints)%nat, budget k (deadline - t))])).
  case_match. destruct p as [[a|c'|] i]; [|done|done].
  destruct IH as (j & t1 & b & t2 & Hj & Hi & Hcall & Ht).
  exists j, t1, b, t2. split_and!; [lia|lia|done|done|done].
Qed.

Lemma NoDup_endpoints m : (m ≤ endpoints)%nat → (start < endpoints)%nat →
  NoDup (map (λ j, (start + j) mod endpoints)%nat (seq 0 m)).
Proof.
  intros Hm Hs. apply NoDup_fmap_2_strong; [|apply NoDup_seq].
  intros x y Hx%elem_of_seq Hy%elem_of_seq Hxy.
  rewrite <- (Nat2Z.id x), <- (Nat2Z.id y). f_equal. apply (f_equal Z.of_nat) in Hxy.
  rewrite !Nat2Z.inj_mod, !Nat2Z.inj_add in Hxy.
  pose proof (Z.div_mod (Z.of_nat start + Z.of_nat x) (Z.of_nat endpoints) ltac:(lia)).
  pose proof (Z.div_mod (Z.of_nat start + Z.of_nat y) (Z.of_nat endpoints) ltac:(lia)).
  assert ((Z.of_nat start + Z.of_nat x) / Z.of_nat endpoints = (Z.of_nat start + Z.of_nat y) / Z.of_nat endpoints
          ∨ Z.abs (Z.of_nat x - Z.of_nat y) >= Z.of_nat endpoints) by nia.
  nia.
Qed.

(** A call through the failover channel sends the request to each endpoint at
    most once, starting from the one that answered last; when it returns a
    response, that endpoint produced it within the deadline and becomes the
    next start, and any error leaves the start unchanged. *)
Theorem invoke_once t :
  (start < endpoints)%nat →
  let '(r, i, trace) := invoke t in
  NoDup trace.*1 ∧ (length trace ≤ endpoints)%nat ∧ (∀ p, head trace = Some p → p.1 = start)
  ∧ match r with
    | Replied a => ∃ t' b t'', call i t' b = (Answer a, t'') ∧ t' < deadline
    | _ => i = start
    end.
Proof.
  intros Hs. unfold invoke.
  destruct (attempts_trace endpoints 0 t None start []) as (m & l & Htr & Hm & Hl).
  pose proof (attempts_reply endpoints 0 t None start []) as Hr.
  destruct (attempts _ _ _ _ _ _) as [[r i] trace]. simpl in *. subst trace.
  assert (length l = m) as Hlen by (apply (f_equal length) in Hl; by rewrite !length_map, length_seq in Hl).
  split_and!.
  - change (NoDup (map fst l)). rewrite Hl. by apply NoDup_endpoints.
  - lia.
  - intros p Hp. destruct l as [|q l]; [done|]. simpl in Hp. injection Hp as <-.
    rewrite <- Hlen in Hl. simpl in Hl.
    injection Hl as Hq _. rewrite Hq, Nat.add_0_r. by apply Nat.mod_small.
  - destruct r; [|done|done]. destruct Hr as (j & t1 & b & t2 & _ & _ & Hc & Ht). exists t1, b, t2. split; [done|lia].
Qed.
End Invoke.
(** Two endpoints: the first is unavailable, the second answers. *)
Definition sample_call (i : nat) (t b : Z) : outcome Z * Z :=
  match i with O => (Failure Grpc.UNAVAILABLE false, t + 10) | _ => (Answer 7, t + 20) end.
Lemma invoke_once_witness :
  invoke sample_call "m" false 2 0 5000 5000 0 = (Replied 7, 1%nat, [(0%nat, 3500); (1%nat, 4990)])
  ∧ let '(r, i, trace) := invoke sample_call "m" false 2 0 5000 5000 0 in
    NoDup trace.*1 ∧ (length trace ≤ 2)%nat ∧ (∀ p, head trace = Some p → p.1 = 0%nat)
    ∧ match r with
      | Replied a => ∃ t' b t'', sample_call i t' b = (Answer a, t'') ∧ t' < 5000
      | _ => i = 0%nat
      end.
Proof. split; [reflexivity|]. apply (invoke_once sample_call "m" false 2 0 5000 5000 0). lia. Defined.
End Failover.
