(* ===== verification/Blocks.v ===== *)
(** * The encrypted block container ([datanode/blocks.py])

    One file per block version: a magic, a canonical JSON header, then AES-GCM
    records of at most [CHUNK] bytes.  A file system is a map from the file and
    block identity to the bytes under the final name; staging files exist only
    inside [put] and [import_ciphertext], which rename or unlink them. *)
From Stdlib Require String.
From S2P Require Import Prelude Domain Data Store Auth Protected.

(** AES key wrap (RFC 3394): unwrapping what the same key wrapped. *)
Class KeyWrap := {
  key_wrap : string → string → string;
  key_unwrap : string → string → option string;
  key_unwrap_wrap k d : key_unwrap k (key_wrap k d) = Some d;
}.

(** [struct.pack('>I', n)] and [struct.unpack]. *)
Definition byte_of (n : Z) : ascii := ascii_of_N (Z.to_N (n mod 256)).
Definition byte_val (c : ascii) : Z := Z.of_N (N_of_ascii c).
Definition be32 (n : Z) : string :=
  String (byte_of (n / 16777216)) (String (byte_of (n / 65536)) (String (byte_of (n / 256)) (String (byte_of n) ""))).
Definition be32_val (s : string) : Z :=
  match s with
  | String a (String b (String c (String d _))) =>
      16777216 * byte_val a + 65536 * byte_val b + 256 * byte_val c + byte_val d
  | _ => 0
  end.

Lemma byte_val_of n : byte_val (byte_of n) = n mod 256.
Proof.
  unfold byte_val, byte_of. pose proof (Z.mod_pos_bound n 256 ltac:(lia)).
  rewrite N_ascii_embedding by lia. lia.
Qed.
Lemma be32_val_be32 n r : 0 ≤ n < 2 ^ 32 → be32_val (be32 n +:+ r) = n.
Proof.
  intros Hn. simpl. rewrite !byte_val_of.
  rewrite (Z.mod_small (n / 16777216)) by (split; [apply Z.div_pos; lia|apply Z.div_lt_upper_bound; lia]).
  pose proof (Z.div_mod n 256 ltac:(lia)). pose proof (Z.div_mod (n / 256) 256 ltac:(lia)).
  pose proof (Z.div_mod (n / 65536) 256 ltac:(lia)).
  replace (n / 65536) with (n / 256 / 256) in * by (rewrite Z.div_div; [done|lia..]).
  replace (n / 16777216) with (n / 256 / 256 / 256) by (rewrite !Z.div_div; [done|lia..]). lia.
Qed.
Lemma be32_val_id n : 0 ≤ n < 2 ^ 32 → be32_val (be32 n) = n.
Proof. exact (be32_val_be32 n ""). Qed.

Section Blocks.
Context `{Hash, Aead, Json, Base64, KeyWrap}.

(** [EncryptedBlockStore]: the key it writes with, the keys it can read. *)
Record block_store := mkBlockStore {
  bs_key : string; bs_keys : list (string * string); bs_files : gmap (string * string) string }.
#[export] Instance eta_block_store : Eta block_store := λ r, mkBlockStore r.(bs_key) r.(bs_keys) r.(bs_files).
Definition key_id (k : string) : string := hex (sha256 k).
Definition open_store (key : string) (read_keys : list string) (files : gmap (string * string) string) : block_store :=
  mkBlockStore key (map (λ k, (key_id k, k)) (key :: read_keys)) files.

Definition BLOCK_MAGIC : string := "DFSHAB01".
Definition header_fields (bs : block_store) (b : BlockRef) (dek prefix : string) : list (string * json) :=
  [("version", JNum 1); ("file_id", JStr b.(br_file_id)); ("block_id", JStr b.(br_block_version_id));
   ("size", JNum b.(br_size_bytes)); ("block_index", JNum b.(br_block_index));
   ("sha256", JStr (hex b.(br_plaintext_sha256))); ("key_id", JStr (key_id bs.(bs_key)));
   ("wrapped_dek", JStr (b64encode (key_wrap bs.(bs_key) dek))); ("nonce_prefix", JStr (b64encode prefix))].
Definition header_of (bs : block_store) (b : BlockRef) (dek prefix : string) : string :=
  canonical (JObj (header_fields bs b dek prefix)).

(** Record [index]: its length, then its ciphertext, bound to the header, the
    index and the plaintext length. *)
Definition record_aad (header : string) (index len : Z) : string := header +:+ be32 index +:+ be32 len.
Definition seal_record (dek prefix header : string) (index : Z) (chunk : string) : string :=
  let c := aead_encrypt dek (prefix +:+ be32 index) chunk (record_aad header index (slen chunk)) in
  be32 (slen c) +:+ c.
Fixpoint seal_records (dek prefix header : string) (index : Z) (chunks : list string) : string :=
  match chunks with
  | [] => ""
  | c :: cs => seal_record dek prefix header index c +:+ seal_records dek prefix header (index + 1) cs
  end.
Fixpoint cat (ss : list string) : string := match ss with [] => "" | s :: ss => s +:+ cat ss end.

(** The checks of the loop of [put]. *)
Fixpoint chunks_fit (size total : Z) (chunks : list string) : bool :=
  match chunks with
  | [] => true
  | c :: cs => (0 <? slen c) && (slen c <=? CHUNK) && (total + slen c <=? size)
               && chunks_fit size (total + slen c) cs
  end.
Definition path_ok (b : BlockRef) : bool := is_uuid b.(br_file_id) && is_uuid b.(br_block_version_id).
Definition path_of (b : BlockRef) : string * string := (b.(br_file_id), b.(br_block_version_id)).
Definition is_content (b : BlockRef) (text : string) : bool :=
  (slen text =? b.(br_size_bytes)) && bool_decide (sha256 text = b.(br_plaintext_sha256)).
Definition container (header body : string) : string := BLOCK_MAGIC +:+ be32 (slen header) +:+ header +:+ body.

(** [put(block, chunks)] with the key and nonce prefix [os.urandom] drew: the
    store with the object, its size and its digest. *)
Definition put_object (bs : block_store) (b : BlockRef) (chunks : list string) (dek prefix : string)
    : result exn (block_store * Z * string) :=
  if negb (path_ok b) then Err (Fault INVALID_ARGUMENT)
  else if negb (chunks_fit b.(br_size_bytes) 0 chunks) then Err (Fault INVALID_ARGUMENT)
  else if negb (is_content b (cat chunks)) then Err (Fault CHECKSUM_MISMATCH)
  else if decide (is_Some (bs.(bs_files) !! path_of b)) then Err (Fault ALREADY_EXISTS)
  else
    let header := header_of bs b dek prefix in
    let content := container header (seal_records dek prefix header 0 chunks) in
    Ok (bs <| bs_files ::= <[path_of b := content]> |>, slen content, sha256 content).

(** The generator [records] over the bytes after the header; [None] stands for
    every failure, which the reader reports as lost data.  Each record takes at
    least four bytes, so the length of the stream bounds the iterations. *)
Fixpoint read_records (fuel : nat) (dek prefix header : string) (index : Z) (s : string) : option (list string) :=
  match s with
  | EmptyString => Some []
  | _ =>
      match fuel with
      | O => None
      | S fuel =>
          let raw := String.substring 0 4 s in
          let len := be32_val raw in
          if negb (slen raw =? 4) || negb ((16 <? len) && (len <=? CHUNK + 16)) then None
          else
            let rest := from 4 s in
            let data := String.substring 0 (Z.to_nat len) rest in
            if negb (slen data =? len) then None
            else
              c ← aead_decrypt dek (prefix +:+ be32 index) data (record_aad header index (len - 16));
              cs ← read_records fuel dek prefix header (index + 1) (from (Z.to_nat len) rest);
              Some (c :: cs)
      end
  end.

Definition str_field (k : string) (l : list (string * json)) : option string :=
  match dget k l with Some (JStr s) => Some s | _ => None end.
Definition num_field (k : string) (l : list (string * json)) : option Z :=
  match dget k l with Some (JNum n) => Some n | _ => None end.
(** The header's checks; it gives the data key and the nonce prefix. *)
Definition read_header (bs : block_store) (b : BlockRef) (header : string) : option (string * string) :=
  j ← json_loads header;
  l ← match j with JObj l => Some l | _ => None end;
  v ← num_field "version" l; f ← str_field "file_id" l; i ← str_field "block_id" l;
  n ← num_field "size" l; h ← str_field "sha256" l; kid ← str_field "key_id" l;
  let index := default b.(br_block_index) (num_field "block_index" l) in
  if (v =? 1) && bool_decide (f = b.(br_file_id)) && bool_decide (i = b.(br_block_version_id))
     && (n =? b.(br_size_bytes)) && (index =? b.(br_block_index)) && bool_decide (h = hex b.(br_plaintext_sha256))
  then
    k ← dget kid bs.(bs_keys);
    w ← str_field "wrapped_dek" l; w ← b64decode w; dek ← key_unwrap k w;
    p ← str_field "nonce_prefix" l; prefix ← b64decode p;
    if slen prefix =? 8 then Some (dek, prefix) else None
  else None.
Definition read_object (bs : block_store) (b : BlockRef) (s : string) : option (list string) :=
  if negb (bool_decide (String.substring 0 8 s = BLOCK_MAGIC)) then None
  else
    let raw := String.substring 0 4 (from 8 s) in
    let len := be32_val raw in
    if negb (slen raw =? 4) || negb ((0 <? len) && (len <=? 4096)) then None
    else
      let rest := from 4 (from 8 s) in
      let header := String.substring 0 (Z.to_nat len) rest in
      let body := from (Z.to_nat len) rest in
      '(dek, prefix) ← read_header bs b header;
      cs ← read_records (String.length body) dek prefix header 0 body;
      if is_content b (cat cs) then Some cs else None.
(** [read_verified]: the whole object is verified before any plaintext is
    released; the second pass then yields the same records. *)
Definition read_verified (bs : block_store) (b : BlockRef) : result exn (list string) :=
  if negb (path_ok b) then Err (Fault INVALID_ARGUMENT)
  else match bs.(bs_files) !! path_of b with
  | Some s => match read_object bs b s with Some cs => Ok cs | None => Err (Fault DATA_LOSS) end
  | None => Err (Fault DATA_LOSS)
  end.

(** [import_ciphertext]: a replica is kept only when its bytes are the
    announced ones and its object verifies with this node's keys. *)
Definition import_ciphertext (bs : block_store) (b : BlockRef) (chunks : list string) (length : Z) (digest : string)
    : result exn block_store :=
  if negb (path_ok b) then Err (Fault INVALID_ARGUMENT)
  else if negb (chunks_fit length 0 chunks) then Err (Fault INVALID_ARGUMENT)
  else if negb ((slen (cat chunks) =? length) && bool_decide (sha256 (cat chunks) = digest)) then Err (Fault CHECKSUM_MISMATCH)
  else match read_object bs b (cat chunks) with
  | None => Err (Fault DATA_LOSS)
  | Some _ =>
      if decide (is_Some (bs.(bs_files) !! path_of b)) then Err (Fault ALREADY_EXISTS)
      else Ok (bs <| bs_files ::= <[path_of b := cat chunks]> |>)
  end.

(** [collect(retained)]: objects neither retained nor in use are unlinked. *)
Definition kept (retained active : list string) (p : string * string) : bool :=
  negb (is_uuid p.1) || bool_decide (p.2 ∈ retained) || bool_decide (p.2 ∈ active).
Definition collect_objects (bs : block_store) (retained active : list string) : block_store :=
  bs <| bs_files ::= filter (λ q, kept retained active q.1 = true) |>.

(** ** Reading back what was written *)
Lemma slen_app a b : slen (a +:+ b) = slen a + slen b.
Proof. unfold slen. rewrite length_append. lia. Qed.
Lemma slen_nonneg s : 0 ≤ slen s.
Proof. unfold slen. lia. Qed.
Lemma prefix_append n a b : Z.of_nat n = slen a → String.substring 0 n (a +:+ b) = a.
Proof. unfold slen. intros Hn. apply substring_app_l. lia. Qed.
Lemma from_append n a b : Z.of_nat n = slen a → from n (a +:+ b) = b.
Proof. unfold slen. intros Hn. apply from_app. lia. Qed.

Lemma read_seal_records dek prefix header size chunks :
  ∀ total index fuel, 0 ≤ index → index + Z.of_nat (length chunks) ≤ 2 ^ 32 →
  chunks_fit size total chunks = true →
  (String.length (seal_records dek prefix header index chunks) ≤ fuel)%nat →
  read_records fuel dek prefix header index (seal_records dek prefix header index chunks) = Some chunks.
Proof.
  induction chunks as [|c cs IH]; intros total index fuel Hi Hn Hfit Hfuel; [by destruct fuel|].
  cbn [seal_records chunks_fit length] in *. apply andb_true_iff in Hfit as [Hfit Htail]. bsimpl.
  rewrite Nat2Z.inj_succ in Hn.
  set (e := aead_encrypt dek (prefix +:+ be32 index) c (record_aad header index (slen c))) in *.
  unfold seal_record in *. fold e in Hfuel |- *. rewrite <- append_assoc in Hfuel |- *.
  set (rest := e +:+ seal_records dek prefix header (index + 1) cs) in *.
  pose proof (aead_length dek (prefix +:+ be32 index) c (record_aad header index (slen c))) as He. fold e in He.
  assert (CHUNK = 262144) as Hchunk by done.
  assert (0 ≤ slen e < 2 ^ 32) as Hr by lia.
  destruct fuel as [|fuel]; [simpl in Hfuel; lia|].
  assert (be32 (slen e) +:+ rest = String (byte_of (slen e / 16777216))
            (String (byte_of (slen e / 65536)) (String (byte_of (slen e / 256)) (String (byte_of (slen e)) rest)))) as Hb by done.
  rewrite Hb. cbn [read_records]. rewrite <- Hb.
  rewrite (prefix_append 4 (be32 (slen e)) rest) by done.
  rewrite (from_append 4 (be32 (slen e)) rest) by done.
  rewrite be32_val_id by done.
  change (slen (be32 (slen e)) =? 4) with true. simpl negb at 1.
  rewrite (proj2 (Z.ltb_lt _ _)), (proj2 (Z.leb_le _ _)) by lia. cbn [negb andb orb].
  subst rest. rewrite (prefix_append (Z.to_nat (slen e))), (from_append (Z.to_nat (slen e))) by lia.
  rewrite Z.eqb_refl. cbn [negb]. replace (slen e - 16) with (slen c) by lia.
  unfold e at 1. rewrite aead_decrypt_encrypt. cbn.
  rewrite (IH (total + slen c)) by (try done; try lia; rewrite !length_append in Hfuel; simpl in Hfuel; lia). done.
Qed.

Lemma read_header_of key rk files b dek prefix :
  json_ok (header_fields (open_store key rk files) b dek prefix) = true → slen prefix = 8 →
  ∀ bs, bs.(bs_keys) = (open_store key rk files).(bs_keys) →
  read_header bs b (header_of (open_store key rk files) b dek prefix) = Some (dek, prefix).
Proof.
  intros Hok Hp bs Hbs. unfold read_header, header_of.
  destruct (json_loads_canonical _ Hok) as (l & -> & Hl).
  { unfold header_fields. cbn. apply (bool_decide_unpack _). by vm_compute. }
  assert (∀ k v, dget k (header_fields (open_store key rk files) b dek prefix) = Some v → dget k l = Some v) as Hget
    by (intros k v; by rewrite Hl).
  unfold num_field, str_field. cbn [mbind option_bind].
  erewrite !Hget by reflexivity. cbn [mbind option_bind default].
  rewrite !bool_decide_true by done. rewrite !Z.eqb_refl. cbn [andb from_option id].
  rewrite Hbs. cbn [open_store bs_keys bs_key map dget]. rewrite decide_True by done. cbn [mbind option_bind].
  rewrite !b64decode_encode. cbn [mbind option_bind]. rewrite key_unwrap_wrap. cbn [mbind option_bind].
  by rewrite (proj2 (Z.eqb_eq _ _)).
Qed.

Lemma read_container bs b header body :
  0 < slen header ≤ 4096 →
  read_object bs b (container header body) =
    ('(dek, prefix) ← read_header bs b header;
     cs ← read_records (String.length body) dek prefix header 0 body;
     if is_content b (cat cs) then Some cs else None).
Proof.
  intros Hh. unfold read_object, container.
  rewrite (prefix_append 8 BLOCK_MAGIC) by done. rewrite bool_decide_true by done. cbn [negb].
  rewrite (from_append 8 BLOCK_MAGIC) by done.
  rewrite (prefix_append 4 (be32 (slen header))) by done.
  rewrite (from_append 4 (be32 (slen header))) by done.
  rewrite be32_val_id by lia. change (slen (be32 (slen header)) =? 4) with true.
  rewrite (proj2 (Z.ltb_lt _ _)), (proj2 (Z.leb_le _ _)) by lia. cbn [negb andb orb].
  by rewrite prefix_append, from_append by lia.
Qed.

(** The object that [put] wrote, read with the reader's own checks. *)
Lemma put_reads key rk files b chunks dek prefix bs size digest :
  put_object (open_store key rk files) b chunks dek prefix = Ok (bs, size, digest) →
  json_ok (header_fields (open_store key rk files) b dek prefix) = true →
  slen prefix = 8 → slen (header_of (open_store key rk files) b dek prefix) ≤ 4096 →
  Z.of_nat (length chunks) ≤ 2 ^ 32 →
  read_verified bs b = Ok chunks
  ∧ (∃ s, bs.(bs_files) = <[path_of b := s]> files ∧ size = slen s ∧ digest = sha256 s)
  ∧ files !! path_of b = None.
Proof.
  unfold put_object. intros Hput Hok Hp Hh Hn.
  destruct (path_ok b) eqn:Hpath; [|done]. destruct (chunks_fit _ _ _) eqn:Hfit; [|done].
  destruct (is_content b _) eqn:Hc; [|done]. cbn [negb] in Hput.
  case_decide as Hex; [done|]. injection Hput as <- <- <-. apply eq_None_not_Some in Hex.
  split_and!; [|by eexists|done].
  unfold read_verified. rewrite Hpath. cbn [negb]. set (content := container _ _).
  match goal with |- context [bs_files ?t !! _] =>
    assert (bs_files t !! path_of b = Some content) as -> by apply lookup_insert_eq end.
  subst content. rewrite read_container.
  2:{ split; [unfold header_of, slen; simpl; lia|done]. }
  rewrite (read_header_of key rk files b dek prefix Hok Hp) by done. cbn [mbind option_bind].
  rewrite (read_seal_records dek prefix _ b.(br_size_bytes) chunks 0) by (done || lia).
  cbn [mbind option_bind]. by rewrite Hc.
Qed.

(** C12: A block that [put] accepts reads back, fully verified, as exactly the chunks
    that were written, whatever further read keys the store is opened with;
    [put] changed no other object and returned the size and digest of the
    bytes it stored.  The header must be representable and at most 4096 bytes
    long, as the reader demands. *)
Theorem put_then_read key rk files b chunks dek prefix bs size digest :
  put_object (open_store key rk files) b chunks dek prefix = Ok (bs, size, digest) →
  json_ok (header_fields (open_store key rk files) b dek prefix) = true →
  slen prefix = 8 → slen (header_of (open_store key rk files) b dek prefix) ≤ 4096 →
  Z.of_nat (length chunks) ≤ 2 ^ 32 →
  read_verified bs b = Ok chunks
  ∧ (∃ s, bs.(bs_files) = <[path_of b := s]> files ∧ size = slen s ∧ digest = sha256 s)
  ∧ files !! path_of b = None.
Proof. apply put_reads. Qed.

(** C13: Whatever the files hold, [read_verified] releases only text of the
    announced size and digest of the block, and [import_ciphertext] stores an
    object only if it reads back that way. *)
Theorem read_is_content bs b cs :
  (read_verified bs b = Ok cs → slen (cat cs) = b.(br_size_bytes) ∧ sha256 (cat cs) = b.(br_plaintext_sha256))
  ∧ (∀ chunks n h bs', import_ciphertext bs b chunks n h = Ok bs' →
       ∃ cs', read_verified bs' b = Ok cs' ∧ sha256 (cat cs') = b.(br_plaintext_sha256)
              ∧ bs.(bs_files) !! path_of b = None).
Proof.
  assert (∀ bs s cs, read_object bs b s = Some cs → is_content b (cat cs) = true) as Hobj.
  { clear. intros bs s cs. unfold read_object. case_match; [done|]. case_match; [done|].
    destruct (read_header _ _ _) as [[dek prefix]|]; [|done]. cbn [mbind option_bind].
    destruct (read_records _ _ _ _ _ _) as [cs'|]; [|done]. cbn [mbind option_bind].
    case_match; [|done]. by intros [= <-]. }
  unfold is_content in Hobj. split.
  - unfold read_verified. case_match; [done|]. case_match; [|done].
    destruct (read_object _ _ _) eqn:Ho; [|done]. intros [= <-]. apply Hobj in Ho. by bsimpl.
  - intros chunks n h bs'. unfold import_ciphertext. destruct (path_ok b) eqn:Hp; [|done].
    cbn [negb]. case_match; [done|]. case_match; [done|]. destruct (read_object _ _ _) as [cs'|] eqn:Ho; [|done].
    destruct (decide (is_Some (bs_files bs !! path_of b))) as [|Hex]; [done|].
    intros [= <-]. apply eq_None_not_Some in Hex. exists cs'.
    unfold read_verified. rewrite Hp. cbn [negb].
    match goal with |- context [bs_files ?t !! _] =>
      assert (bs_files t !! path_of b = Some (cat chunks)) as -> by apply lookup_insert_eq end.
    match goal with |- context [read_object ?t b _] =>
      assert (read_object t b (cat chunks) = Some cs') as -> by exact Ho end.
    apply Hobj in Ho. by bsimpl.
Qed.

(** The collector of a node unlinks exactly the objects that are neither
    retained nor in use: those it keeps are unchanged, and a block version it
    must keep stays readable. *)
Theorem collect_objects_exact bs retained active p :
  (collect_objects bs retained active).(bs_files) !! p =
    (if kept retained active p then bs.(bs_files) !! p else None).
Proof.
  cbn. destruct (kept retained active p) eqn:Hk.
  - destruct (bs_files bs !! p) as [s|] eqn:Hs.
    + by apply map_lookup_filter_Some.
    + apply map_lookup_filter_None. by left.
  - apply map_lookup_filter_None. right. intros s Hs. simpl. by rewrite Hk.
Qed.
End Blocks.

(** ** Pins ([pin]): readers share a block version, a writer has it alone *)
Module Pins.
Record pins := mkPins { active : gmap string nat; writers : gset string }.
Definition count (p : pins) (i : string) : nat := default 0%nat (p.(active) !! i).

(** Entering and leaving the context manager. *)
Definition pin (i : string) (exclusive : bool) (p : pins) : result exn pins :=
  if bool_decide (i ∉ p.(writers)) && (negb exclusive || bool_decide (p.(active) !! i = None))
  then Ok (mkPins (<[i := S (count p i)]> p.(active))
             (if exclusive then {[i]} ∪ p.(writers) else p.(writers)))
  else Err (Fault LOCK_BUSY).
Definition unpin (i : string) (p : pins) : pins :=
  let n := Nat.pred (count p i) in
  mkPins (if decide (n = 0%nat) then delete i p.(active) else <[i := n]> p.(active)) (p.(writers) ∖ {[i]}).

(** The streams inside [pin], each with its block version and exclusivity. *)
Record streams := mkStreams { now_inside : list (string * bool); state : pins }.
Inductive step : streams → streams → Prop :=
  | step_pin l p i x p' : pin i x p = Ok p' → step (mkStreams l p) (mkStreams ((i, x) :: l) p')
  | step_unpin l1 l2 i x p : step (mkStreams (l1 ++ (i, x) :: l2) p) (mkStreams (l1 ++ l2) (unpin i p)).

Definition uses (i : string) (l : list (string * bool)) : nat := length (filter (λ q, q.1 = i) l).
Definition exact (s : streams) : Prop :=
  (∀ i, count s.(state) i = uses i s.(now_inside))
  ∧ (∀ i, s.(state).(active) !! i ≠ Some 0%nat)
  ∧ (∀ i, i ∈ s.(state).(writers) ↔ (i, true) ∈ s.(now_inside))
  ∧ (∀ i, (i, true) ∈ s.(now_inside) → uses i s.(now_inside) = 1%nat).

Lemma uses_cons i q l : uses i (q :: l) = ((if decide (q.1 = i) then 1 else 0) + uses i l)%nat.
Proof. unfold uses. rewrite filter_cons. by case_decide. Qed.
Lemma uses_app i l1 l2 : uses i (l1 ++ l2) = (uses i l1 + uses i l2)%nat.
Proof. unfold uses. by rewrite list.filter_app, length_app. Qed.
Lemma uses_elem i x l : (i, x) ∈ l → (0 < uses i l)%nat.
Proof.
  intros (l1 & l2 & ->)%list_elem_of_split. rewrite uses_app, uses_cons, decide_True by done. lia.
Qed.

Lemma pin_exact l p i x p' : pin i x p = Ok p' → exact (mkStreams l p) → exact (mkStreams ((i, x) :: l) p').
Proof.
  unfold pin. destruct (_ && _) eqn:E; [|done]. intros [= <-] (Hc & Hz & Hw & H1). bsimpl. simpl in *.
  assert (x = true → uses i l = 0%nat) as Hx.
  { intros ->. simpl in *. bsimpl. rewrite <- Hc. unfold count.
    match goal with H : _ !! i = None |- _ => by rewrite H end. }
  assert ((i, true) ∉ l) as Hn by (by rewrite <- Hw).
  split_and!; simpl.
  - intros j. rewrite uses_cons. unfold count. simpl. destruct (decide (i = j)) as [<-|Hne].
    + rewrite lookup_insert_eq. simpl. by rewrite <- Hc.
    + rewrite lookup_insert_ne by done. apply Hc.
  - intros j. destruct (decide (i = j)) as [<-|Hne]; [by rewrite lookup_insert_eq|by rewrite lookup_insert_ne].
  - intros j. destruct x; set_solver.
  - intros j Hj. rewrite uses_cons. simpl. case_decide as Hij.
    + subst j. apply elem_of_cons in Hj as [[= <-]|Hj]; [by rewrite Hx|done].
    + apply elem_of_cons in Hj as [[=]|Hj]; [done|]. simpl. by apply H1.
Qed.
Lemma unpin_exact l1 l2 i x p : exact (mkStreams (l1 ++ (i, x) :: l2) p) → exact (mkStreams (l1 ++ l2) (unpin i p)).
Proof.
  intros (Hc & Hz & Hw & H1). simpl in *.
  assert (∀ j, uses j (l1 ++ (i, x) :: l2) = ((if decide (i = j) then 1 else 0) + uses j (l1 ++ l2))%nat) as Hu.
  { intros j. rewrite !uses_app, uses_cons. simpl. case_decide; lia. }
  assert (∀ j, count (unpin i p) j = uses j (l1 ++ l2)) as Hcount.
  { intros j. unfold count, unpin. simpl. specialize (Hc j). rewrite Hu in Hc.
    destruct (decide (i = j)) as [<-|Hne].
    - case_decide as Hd; [rewrite lookup_delete_eq|rewrite lookup_insert_eq]; simpl; lia.
    - case_decide; [rewrite lookup_delete_ne by done|rewrite lookup_insert_ne by done]; exact Hc. }
  split_and!; [exact Hcount| | |]; simpl.
  - intros j. unfold unpin. simpl. destruct (decide (i = j)) as [<-|Hne]; case_decide.
    + by rewrite lookup_delete_eq.
    + rewrite lookup_insert_eq. congruence.
    + by rewrite lookup_delete_ne.
    + by rewrite lookup_insert_ne.
  - intros j. rewrite elem_of_difference, elem_of_singleton, Hw. split.
    + intros [Hj Hne]. set_solver.
    + intros Hj. assert (i ≠ j) as Hne; [|set_solver].
      intros ->. assert ((j, true) ∈ l1 ++ (j, x) :: l2) as Hin by set_solver.
      apply H1 in Hin. rewrite Hu, decide_True in Hin by done. apply uses_elem in Hj. lia.
  - intros j Hj. assert ((j, true) ∈ l1 ++ (i, x) :: l2) as Hin by set_solver.
    apply H1 in Hin. rewrite Hu in Hin. pose proof (uses_elem j true _ Hj). case_decide; lia.
Qed.

(** While a stream writes a block version, it is the only stream that has it
    pinned; the counters are exactly the streams inside, so a version in use is
    never one the collector sees as free. *)
Theorem writer_alone s :
  rtc step (mkStreams [] (mkPins ∅ ∅)) s →
  (∀ i, i ∈ s.(state).(writers) → uses i s.(now_inside) = 1%nat)
  ∧ (∀ i, is_Some (s.(state).(active) !! i) ↔ (0 < uses i s.(now_inside))%nat).
Proof.
  intros Hr. assert (exact s) as (Hc & Hz & Hw & H1).
  { revert s Hr. apply rtc_ind_r.
    - split_and!; simpl; [done|done|set_solver|set_solver].
    - intros y z _ [l p i x p' Hp|l1 l2 i x p] Hy; [by eapply pin_exact|by eapply unpin_exact]. }
  split; [intros i Hi; apply H1; by apply Hw|].
  intros i. specialize (Hc i). specialize (Hz i). unfold count in Hc.
  destruct (active (state s) !! i) as [[|n]|] eqn:E; simpl in Hc; [done|split; [lia|eauto]|].
  split; [by intros [? ?]|lia].
Qed.
Lemma writer_alone_witness :
  let s := mkStreams [("b", true)] (mkPins {["b" := 1%nat]} {["b"]}) in
  (∀ i, i ∈ s.(state).(writers) → uses i s.(now_inside) = 1%nat)
  ∧ (∀ i, is_Some (s.(state).(active) !! i) ↔ (0 < uses i s.(now_inside))%nat).
Proof.
  apply (writer_alone (mkStreams [("b", true)] (mkPins {["b" := 1%nat]} {["b"]}))).
  eapply rtc_l; [|apply rtc_refl]. apply step_pin. reflexivity.
Defined.
End Pins.
