(* ===== verification/Patch.v ===== *)
(** * Applying a patch on a data node ([datanode/patch.py])

    The node rebuilds the block from its verified base and the received delta, a
    bounded piece at a time.  Bytes are characters of a list here. *)
From S2P Require Import Prelude Domain Data Leases.

Definition bytes : Type := list ascii.
Definition zero : ascii := ascii_of_nat 0.
Definition CHUNK_LEN : nat := Z.to_nat CHUNK.

(** The frames of the delta: each continues the last ([patch_block]). *)
Fixpoint receive (length_ : nat) (delta : bytes) (frames : list (nat * bytes)) : option bytes :=
  match frames with
  | [] => if Nat.eqb (length delta) length_ then Some delta else None
  | (offset, data) :: frames =>
      if Nat.eqb offset (length delta) && Nat.ltb 0 (length data) && Nat.leb (length data) CHUNK_LEN
         && Nat.leb (length delta + length data) length_
      then receive length_ (delta ++ data) frames else None
  end.

Section Result.
(** The size of a piece, the delta and where it goes, the authorized size. *)
Variables (piece : nat) (delta : bytes) (block_offset size : nat).

(** Pull the base until [wanted] bytes are pending or it is exhausted. *)
Fixpoint pull (wanted : nat) (pending : bytes) (source : list bytes) : bytes * list bytes :=
  match source with
  | [] => (pending, [])
  | s :: source' =>
      if Nat.ltb (length pending) wanted then pull wanted (pending ++ s) source' else (pending, source)
  end.

(** The bytes of the delta that fall into the piece replace what is there. *)
Definition overlay (offset wanted : nat) (chunk : bytes) : bytes :=
  let low := Nat.max offset block_offset in
  let high := Nat.min (offset + wanted) (block_offset + length delta) in
  if Nat.ltb low high then
    take (low - offset) chunk ++ take (high - low) (drop (low - block_offset) delta) ++ drop (high - offset) chunk
  else chunk.

(** [result_chunks] from [offset] on; [None] is [SPARSE_WRITE_UNSUPPORTED]. *)
Fixpoint result_from (fuel offset : nat) (pending : bytes) (source : list bytes) : option (list bytes) :=
  if Nat.leb size offset then Some []
  else match fuel with
  | O => None
  | S fuel =>
      let wanted := Nat.min piece (size - offset) in
      let '(pending, source) := pull wanted pending source in
      let chunk := take wanted pending in
      if Nat.ltb (length chunk) wanted
         && negb (Nat.leb block_offset (offset + length chunk) && Nat.leb (offset + wanted) (block_offset + length delta))
      then None
      else
        let chunk := chunk ++ replicate (wanted - length chunk) zero in
        rest ← result_from fuel (offset + wanted) (drop wanted pending) source;
        Some (overlay offset wanted chunk :: rest)
  end.
Definition result_chunks (source : list bytes) : option (list bytes) := result_from size 0 [] source.

(** The content a patch means: the base with the delta written over it. *)
Definition splice (base : bytes) : bytes :=
  take block_offset base ++ delta ++ drop (block_offset + length delta) base.

Lemma pull_spec wanted pending source :
  let '(p, s) := pull wanted pending source in
  p ++ concat s = pending ++ concat source ∧ ((wanted ≤ length p)%nat ∨ s = []).
Proof.
  revert pending. induction source as [|x source IH]; intros pending; simpl; [eauto|].
  destruct (Nat.ltb_spec (length pending) wanted); simpl; [|eauto].
  specialize (IH (pending ++ x)). destruct (pull _ _ _) as [p s].
  rewrite <- app_assoc in IH. done.
Qed.

Lemma length_splice base :
  (block_offset ≤ length base)%nat → size = Nat.max (length base) (block_offset + length delta) →
  length (splice base) = size.
Proof. intros. unfold splice. rewrite !length_app, length_take, length_drop. lia. Qed.

Lemma overlay_splice base offset wanted :
  (block_offset ≤ length base)%nat → size = Nat.max (length base) (block_offset + length delta) →
  (offset + wanted ≤ size)%nat →
  let chunk := take wanted (drop offset base) in
  overlay offset wanted (chunk ++ replicate (wanted - length chunk) zero) = take wanted (drop offset (splice base)).
Proof.
  intros Hb Hs Hw chunk. subst chunk. unfold overlay, splice.
  set (ch := take wanted (drop offset base) ++ _).
  assert (length ch = wanted) as Hch.
  { subst ch. rewrite length_app, length_replicate, length_take, length_drop. lia. }
  assert (∀ i, (i < wanted)%nat → (offset + i < length base)%nat → ch !! i = base !! (offset + i)%nat) as Hlook.
  { intros i Hi Hl. subst ch. rewrite lookup_app_l by (rewrite length_take, length_drop; lia).
    rewrite lookup_take_lt, lookup_drop by lia. done. }
  apply list_eq. intros i. destruct (decide (i < wanted)%nat) as [Hi|Hi].
  2:{ rewrite !lookup_ge_None_2; [done|rewrite length_take; lia|].
      case_match; [|lia]. rewrite !length_app, !length_take, !length_drop, Hch. lia. }
  rewrite lookup_take_lt, lookup_drop by lia.
  destruct (Nat.ltb_spec (Nat.max offset block_offset) (Nat.min (offset + wanted) (block_offset + length delta))) as [Hlh|Hlh].
  - destruct (decide (i < Nat.max offset block_offset - offset)%nat) as [H1|H1].
    { rewrite lookup_app_l, lookup_take_lt by (rewrite ?length_take; lia).
      rewrite lookup_app_l, lookup_take_lt by (rewrite ?length_take; lia). rewrite Hlook by lia. done. }
    rewrite lookup_app_r by (rewrite length_take; lia). rewrite length_take, Hch.
    destruct (decide (i < Nat.min (offset + wanted) (block_offset + length delta) - offset)%nat) as [H2|H2].
    + rewrite lookup_app_l, lookup_take_lt, lookup_drop by (rewrite ?length_take, ?length_drop; lia).
      rewrite (lookup_app_r (take block_offset base)) by (rewrite length_take; lia). rewrite length_take.
      rewrite lookup_app_l by lia. f_equal. lia.
    + rewrite lookup_app_r by (rewrite length_take, length_drop; lia).
      rewrite length_take, length_drop, lookup_drop.
      rewrite (lookup_app_r (take block_offset base)) by (rewrite length_take; lia). rewrite length_take.
      rewrite lookup_app_r, lookup_drop by lia.
      replace (_ - offset + _)%nat with i by lia. rewrite Hlook by lia. f_equal. lia.
  - destruct (decide (offset + i < block_offset)%nat) as [H1|H1].
    + rewrite lookup_app_l, lookup_take_lt by (rewrite ?length_take; lia). by rewrite Hlook by lia.
    + rewrite (lookup_app_r (take block_offset base)) by (rewrite length_take; lia). rewrite length_take.
      rewrite lookup_app_r, lookup_drop by lia. rewrite Hlook by lia. f_equal. lia.
Qed.

Lemma result_from_spec base :
  (0 < piece)%nat → (block_offset ≤ length base)%nat →
  size = Nat.max (length base) (block_offset + length delta) →
  ∀ fuel offset pending source, (size - offset ≤ fuel)%nat →
  pending ++ concat source = drop offset base →
  ∃ cs, result_from fuel offset pending source = Some cs ∧ concat cs = drop offset (splice base)
        ∧ Forall (λ c, 0 < length c ≤ piece)%nat cs.
Proof.
  intros Hp Hb Hs. pose proof (length_splice base Hb Hs) as Hl.
  induction fuel as [|fuel IH]; intros offset pending source Hf Hrest; simpl;
    destruct (Nat.leb_spec size offset) as [Hle|Hlt].
  1,3: exists []; rewrite drop_ge by lia; done.
  { lia. }
  set (wanted := Nat.min piece (size - offset)).
  pose proof (pull_spec wanted pending source) as Hpull. destruct (pull _ _ _) as [p s].
  destruct Hpull as [Hps Hlen]. rewrite Hrest in Hps.
  assert (take wanted p = take wanted (drop offset base)) as Htake.
  { rewrite <- Hps. destruct Hlen as [Hlen| ->]; [by rewrite take_app_le|]. simpl. by rewrite app_nil_r. }
  assert (drop wanted p ++ concat s = drop (offset + wanted) base) as Hdrop.
  { rewrite <- drop_drop, <- Hps. destruct Hlen as [Hlen| ->]; [by rewrite drop_app_le|]. simpl. by rewrite !app_nil_r. }
  rewrite Htake. rewrite (proj2 (andb_false_iff _ _)).
  2:{ destruct (Nat.ltb_spec (length (take wanted (drop offset base))) wanted) as [Hc|Hc]; [right|by left].
      rewrite length_take, length_drop in Hc |- *. rewrite !(proj2 (Nat.leb_le _ _)) by lia. done. }
  destruct (IH (offset + wanted)%nat (drop wanted p) s ltac:(lia) Hdrop) as (cs & -> & Hcs & Hall).
  eexists. split; [done|]. pose proof (overlay_splice base offset wanted Hb Hs ltac:(lia)) as Hov.
  simpl in Hov. rewrite Hov. split.
  - simpl. rewrite Hcs, <- drop_drop. apply take_drop.
  - constructor; [|done]. rewrite length_take, length_drop. lia.
Qed.
End Result.

(** C6: Whatever pieces the verified base arrives in, and for a delta that starts
    inside the base, the node produces exactly the base with the delta written
    over it: the whole size the control authorized, in pieces that are never
    empty nor longer than a chunk. *)
Theorem patch_is_splice piece delta block_offset base source :
  (0 < piece)%nat → (block_offset ≤ length base)%nat → concat source = base →
  ∃ cs, result_chunks piece delta block_offset (Nat.max (length base) (block_offset + length delta)) source = Some cs
        ∧ concat cs = splice delta block_offset base
        ∧ Forall (λ c, 0 < length c ≤ piece)%nat cs.
Proof.
  intros Hp Hb Hc. unfold result_chunks.
  destruct (result_from_spec piece delta block_offset _ base Hp Hb eq_refl
    (Nat.max (length base) (block_offset + length delta)) 0 [] source ltac:(lia) ltac:(by rewrite Hc)) as (cs & H1 & H2 & H3).
  exists cs. done.
Qed.
Lemma patch_is_splice_witness :
  let a := "a"%char in let b := "b"%char in
  result_chunks 2 [b; b; b] 1 4 [[a]; [a; a]] = Some [[a; b]; [b; b]]
  ∧ ∃ cs, result_chunks 2 [b; b; b] 1 4 [[a]; [a; a]] = Some cs
        ∧ concat cs = splice [b; b; b] 1 [a; a; a] ∧ Forall (λ c, 0 < length c ≤ 2)%nat cs.
Proof. split; [reflexivity|]. apply (patch_is_splice 2 ["b"; "b"; "b"]%char 1 ["a"; "a"; "a"]%char); [lia|simpl; lia|done]. Defined.
