(* ===== verification/DataNode.v ===== *)
(** * The data node: state and local operations ([datanode/service.py])

    A node keeps encrypted objects in a directory and an inventory of them in
    its own tables; a handler interleaves transactions on these tables, file
    operations and calls to the control.  The objects and the tables survive the
    process, the rest of the state does not.  A handler runs here as one
    sequence of external operations, started in any state of the pins,
    admission units and reservations that other streams hold; where the code
    would wait for another stream, the model refuses as the wait does when it
    runs out. *)
From Stdlib Require String.
From S2P Require Import Prelude Domain Data Store Auth Leases Cluster Requests Nodes Process Protected Local Blocks.

(** ** Messages of the node services ([data.proto], [nodes.proto]) *)
Record DataChunk := mkChunk { dc_offset : Z; dc_data : string }.
Record PutBlockHeader := mkPutHeader {
  ph_context : RequestContext; ph_operation : OperationRef; ph_block : BlockRef; ph_fence : Fence;
  ph_capability : string }.
Record PatchBlockHeader := mkPatchHeader {
  xh_context : RequestContext; xh_operation : OperationRef; xh_base : BlockRef;
  xh_new_block_version_id : string; xh_block_offset : Z; xh_delta_length : Z; xh_delta_sha256 : string;
  xh_fence : Fence; xh_capability : string }.
Record GetBlockRequest := mkGetBlock {
  gb_context : RequestContext; gb_handle_id : string; gb_snapshot : SnapshotRef; gb_block : BlockRef;
  gb_offset : option Z; gb_length : option Z; gb_capability : string; gb_read_id : string }.
Record ReadBlockHeader := mkReadHeader {
  rh_block : BlockRef; rh_offset : Z; rh_length : Z; rh_range_sha256 : string }.
Record GetReplicaRequest := mkGetReplica {
  gr_context : RequestContext; gr_task_id : string; gr_block : BlockRef; gr_task_capability : string;
  gr_task_fence : Fence; gr_destination_node_id : string }.
Record ReplicaHeader := mkReplicaHeader {
  ri_task_id : string; ri_block : BlockRef; ri_ciphertext_length : Z; ri_ciphertext_sha256 : string;
  ri_key_id : string }.
(** [WhichOneof('frame')]: a header of the stream's type, a chunk, neither. *)
Inductive frame (H : Type) := FHeader (h : H) | FChunk (c : DataChunk) | FNone.
Arguments FHeader {H} h.
Arguments FChunk {H} c.
Arguments FNone {H}.
Record ReplicateBlockRequest := mkReplicate {
  rb_context : RequestContext; rb_task_id : string; rb_block : BlockRef; rb_source : BlockLocation;
  rb_destination : BlockLocation; rb_task_capability : string; rb_fence : Fence; rb_ciphertext_length : Z;
  rb_ciphertext_sha256 : string; rb_replace_receipt_id : string }.
Record DeleteRetiredBlockRequest := mkDeleteRetired {
  xr_context : RequestContext; xr_task_id : string; xr_block : BlockRef; xr_retirement_revision : Z;
  xr_task_capability : string; xr_fence : Fence; xr_expected_receipt_id : string }.
Record VerifyReceiptRequest := mkVerify {
  vr_context : RequestContext; vr_operation_id : string; vr_receipt_id : string; vr_block : BlockRef;
  vr_expected_boot_generation : Z; vr_verify_content : bool }.
Record KeyStatus := mkKeyStatus {
  kx_node_id : string; kx_boot_generation : Z; kx_active_key_id : string; kx_readable_key_ids : list string }.

(** ** Stored records *)
(** [block]: an object of the inventory with the receipt that was given for it. *)
Record stored_block := mkStored {
  sb_id : string; sb_ref : BlockRef; sb_size : Z; sb_receipt : DurableReceipt; sb_recovered : bool }.
(** [put_ledger], [patch_ledger]: the answer to a request, under its digest. *)
Record answer := mkAnswer { an_id : string; an_digest : string; an_receipt : DurableReceipt }.
(** [task]: the order of the control, what became of it, whether that was reported. *)
Inductive order := CopyOrder (r : ReplicateBlockRequest) | DeleteOrder (r : DeleteRetiredBlockRequest).
Record node_task := mkNodeTask { nt_id : string; nt_order : order; nt_status : TaskStatus; nt_reported : bool }.
Record quarantined := mkQuarantined { qu_id : string; qu_ref : BlockRef; qu_size : Z }.
(** [settings/node]. *)
Record node_settings := mkNodeSettings { no_id_node : string; no_key_sha256 : string; no_generation : Z }.
Record node_tables := mkTables {
  tb_settings : option node_settings; tb_traffic : list (string * Z); tb_blocks : gmap string stored_block;
  tb_puts : gmap string answer; tb_patches : gmap string answer; tb_tasks : gmap string node_task;
  tb_quarantine : gmap string quarantined }.

(** ** The node and its world *)
(** What a node sent to a reader or to the control, in order. *)
Inductive sent :=
  | SentRead (f : frame ReadBlockHeader)
  | SentReplica (f : frame ReplicaHeader)
  | SentDurable (r : ReportRequest)
  | SentReport (r : BlockReportRequest)
  | SentTask (r : TaskReport).
Record node_config := mkNodeConfig {
  nc_identity : string; nc_service_epoch : string; nc_client_endpoint : string; nc_private_endpoint : string;
  nc_failure_domain : string; nc_capacity_bytes : Z; nc_control_identities : list string;
  nc_ha : bool;                          (* control_internal_targets is set *)
  nc_rf3_enabled : bool; nc_replication_enabled : bool }.
(** A replica stream: its frames, then its end or an error. *)
Record replica_stream := mkReplicaStream {
  rs_frames : list (frame ReplicaHeader); rs_error : option rpc_error }.
Inductive disk_error := DiskFull | DiskBroken.
(** What each external operation finds, by its tick. *)
Record node_env := mkNodeEnv {
  w_cfg : node_config;
  w_stops : nat → bool;
  w_now : nat → Z;
  w_uid : nat → string;
  w_random : nat → Z → string;
  w_free : nat → Z;
  w_disk : nat → option disk_error;
  w_active : nat → bool;                 (* ctx.is_active() *)
  w_closed : nat → bool;                 (* the reader closed the stream at a yield *)
  w_authorize_block : nat → AuthorizeRequest → result rpc_error AuthorizationDecision;
  w_authorize_internal : nat → InternalRequest → result rpc_error AuthorizationDecision;
  w_register : nat → RegisterRequest → result rpc_error NodeLease;
  w_heartbeat : nat → HeartbeatRequest → result rpc_error NodeLease;
  w_report : nat → BlockReportRequest → result rpc_error MutationResult;
  w_durable : nat → ReportRequest → result rpc_error MutationResult;
  w_task : nat → TaskReport → result rpc_error MutationResult;
  w_replica : nat → string → GetReplicaRequest → replica_stream }.
Record data_node := mkDataNode {
  dx_blocks : block_store; dx_tables : node_tables;
  dx_generation : Z; dx_inventory_id : string; dx_sequence : Z; dx_registered : bool;
  dx_reserved : Z; dx_units : Z; dx_pins : Pins.pins;
  dx_jobs : gset string; dx_pool : list ReplicateBlockRequest;
  dx_moved : Z;                          (* total, offset: the bytes this stream has moved *)
  dx_sent : list sent; dx_ticks : nat }.
#[export] Instance eta_stored : Eta stored_block := λ r,
  mkStored r.(sb_id) r.(sb_ref) r.(sb_size) r.(sb_receipt) r.(sb_recovered).
#[export] Instance eta_receipt : Eta DurableReceipt := λ r,
  mkDurableReceipt r.(dr_receipt_id) r.(dr_operation_id) r.(dr_block) r.(dr_node_id) r.(dr_boot_generation)
    r.(dr_failure_domain) r.(dr_stored_size_bytes) r.(dr_ciphertext_sha256) r.(dr_durable_at).
#[export] Instance eta_node_task : Eta node_task := λ r,
  mkNodeTask r.(nt_id) r.(nt_order) r.(nt_status) r.(nt_reported).
#[export] Instance eta_node_settings : Eta node_settings := λ r,
  mkNodeSettings r.(no_id_node) r.(no_key_sha256) r.(no_generation).
#[export] Instance eta_tables : Eta node_tables := λ r,
  mkTables r.(tb_settings) r.(tb_traffic) r.(tb_blocks) r.(tb_puts) r.(tb_patches) r.(tb_tasks) r.(tb_quarantine).
#[export] Instance eta_data_node : Eta data_node := λ r,
  mkDataNode r.(dx_blocks) r.(dx_tables) r.(dx_generation) r.(dx_inventory_id) r.(dx_sequence) r.(dx_registered)
    r.(dx_reserved) r.(dx_units) r.(dx_pins) r.(dx_jobs) r.(dx_pool) r.(dx_moved) r.(dx_sent) r.(dx_ticks).
#[export] Instance node_process : Process node_env data_node := {
  stops w := w.(w_stops);
  ticks s := s.(dx_ticks);
  ticked s := s <| dx_ticks ::= S |> }.
Abbreviation N := (PM node_env data_node).

(** What the transport knows of a call: [invocation_metadata], the common names
    of the peer's certificate, [time_remaining()] in milliseconds. *)
Record transport := mkTransport { tp_authorization : list string; tp_peer : list string; tp_remaining_ms : Z }.

Section Local.
Context `{Hash, Unicode, Aead, Json, Base64, KeyWrap, Wire}.

Definition cfg_of {A} (f : node_config → A) : N A := asks (λ w, f w.(w_cfg)).
Definition now_ms : N Z := query w_now.
Definition new_uid : N string := query w_uid.
Definition urandom (n : Z) : N string := query (λ w i, w.(w_random) i n).

(** A transaction that reads, one that writes. *)
Definition look {A} (f : node_tables → A) : N A := _ ← tick; gets (λ s, f s.(dx_tables)).
Definition txn (f : node_tables → node_tables) : N unit := _ ← tick; sets (λ s, s <| dx_tables ::= f |>).
Definition find_block (i : string) : N (option stored_block) := look (λ t, t.(tb_blocks) !! i).
Definition put_block (b : stored_block) : node_tables → node_tables := λ t, t <| tb_blocks ::= <[b.(sb_id) := b]> |>.
Definition put_task (t : node_task) : node_tables → node_tables := λ tb, tb <| tb_tasks ::= <[t.(nt_id) := t]> |>.

(** [Monolith.credentials], [node_rpc.peer], [node_rpc.context_for]. *)
Definition credentials (tp : transport) : N string :=
  match tp.(tp_authorization) with
  | [v] =>
      demand (starts_with "Bearer " v) UNAUTHENTICATED;;
      demand_some (b64decode (from 7 v)) UNAUTHENTICATED
  | _ => refuse UNAUTHENTICATED
  end.
Definition peer_of (tp : transport) : N string :=
  match tp.(tp_peer) with [name] => mret name | _ => refuse UNAUTHENTICATED end.
Definition own_context : N RequestContext :=
  i ← new_uid; c ← cfg_of id;
  mret (mkRequestContext i c.(nc_identity) c.(nc_service_epoch) "").

(** ** Resources of a stream *)
Definition zsum_of {A} (f : A → Z) (m : gmap string A) : Z := zsum (f <$> (rows m).*2).
Definition used_bytes (t : node_tables) : Z := zsum_of sb_size t.(tb_blocks) + zsum_of qu_size t.(tb_quarantine).
Definition traffic_of (name : string) (t : node_tables) : Z := default 0 (dget name t.(tb_traffic)).
Definition node_counters : list string :=
  ["client_write_bytes"; "client_read_bytes"; "replica_write_bytes"; "replica_read_bytes"].
(** [metrics]: used, free, active streams, reserved, the counters. *)
Definition metrics : N (Z * Z * Z * Z * list Z) :=
  '(used, counters) ← look (λ t, (used_bytes t, map (λ k, traffic_of k t) node_counters));
  free ← query w_free;
  active ← gets (λ s, Z.of_nat (size s.(dx_pins).(Pins.active)));
  reserved ← gets dx_reserved;
  mret (used, free, active, reserved, counters).
Definition count (name : string) (amount : Z) : N unit :=
  txn (λ t, t <| tb_traffic ::= dset name (traffic_of name t + amount) |>).

Definition reserve (amount : Z) : N unit :=
  '(used, free, _, _, _) ← metrics;
  r ← gets dx_reserved; cap ← cfg_of nc_capacity_bytes;
  demand ((used + r + amount <=? cap) && (r + amount + 1048576 <=? free)) NO_SPACE;;
  sets (λ s, s <| dx_reserved ::= Z.add amount |>).
(** The [try]/[finally] around what a reservation is made for. *)
Definition reserving {A} (amount : Z) (m : N A) : N A :=
  reserve amount;;
  try_finally m (sets (λ s, s <| dx_reserved ::= λ r, r - amount |>)).

(** [LocalCoordinator.admit]: the wait for units held by others runs out. *)
Definition admitted {A} (block_size : Z) (m : N A) : N A :=
  w ← match LocalCoordinator.weight block_size with Some w => mret w | None => fail (Raised PyError) end;
  u ← gets dx_units;
  demand (w <=? u) SERVICE_UNAVAILABLE;;
  sets (λ s, s <| dx_units ::= λ u, u - w |>);;
  try_finally m (sets (λ s, s <| dx_units ::= Z.add w |>)).
Definition pinned {A} (i : string) (exclusive : bool) (m : N A) : N A :=
  p ← gets dx_pins;
  p' ← of_result (Pins.pin i exclusive p);
  sets (λ s, s <| dx_pins := p' |>);;
  try_finally m (sets (λ s, s <| dx_pins ::= Pins.unpin i |>)).
(** [min(b for b in DEADLINES if b >= size)]. *)
Definition profile_for (size : Z) : option Z := head (filter (λ p, size ≤ p) PROFILES).

(** ** Objects *)
(** [blocks.put]: the path is checked before the first chunk is asked for; an
    [OSError] is a refusal. *)
Definition store_object (b : BlockRef) (receive : N (list string)) : N (Z * string) :=
  demand (path_ok b) INVALID_ARGUMENT;;
  dek ← urandom 32; prefix ← urandom 8;
  chunks ← receive;
  d ← query w_disk;
  match d with
  | Some DiskFull => refuse NO_SPACE
  | Some DiskBroken => refuse DATA_UNAVAILABLE
  | None =>
      bs ← gets dx_blocks;
      '(bs, size, digest) ← of_result (put_object bs b chunks dek prefix);
      sets (λ s, s <| dx_blocks := bs |>);;
      mret (size, digest)
  end.
Definition read_block (b : BlockRef) : N (list string) :=
  _ ← tick;
  bs ← gets dx_blocks;
  of_result (read_verified bs b).
(** [object_key_id]. *)
Definition object_key_id (bs : block_store) (b : BlockRef) : result exn string :=
  if negb (path_ok b) then Err (Fault INVALID_ARGUMENT)
  else match bs.(bs_files) !! path_of b with
  | None => Err PyError
  | Some s =>
      let raw := String.substring 0 4 (from 8 s) in
      let len := be32_val raw in
      if negb (bool_decide (String.substring 0 8 s = BLOCK_MAGIC)) || negb (slen raw =? 4)
         || negb ((0 <? len) && (len <=? 4096)) then Err (Fault DATA_LOSS)
      else match json_loads (String.substring 0 (Z.to_nat len) (from 4 (from 8 s))) with
      | Some (JObj l) => match str_field "key_id" l with Some k => Ok k | None => Err PyError end
      | _ => Err PyError
      end
  end.

(** A receipt this node signs for an object it has just made durable. *)
Definition new_receipt (operation : string) (b : BlockRef) (stored : Z) (digest : string) : N DurableReceipt :=
  i ← new_uid; t ← now_ms; c ← cfg_of id; g ← gets dx_generation;
  mret (mkDurableReceipt i operation b c.(nc_identity) g c.(nc_failure_domain) stored digest t).
Definition own_location : N BlockLocation :=
  c ← cfg_of id; g ← gets dx_generation;
  mret (mkBlockLocation c.(nc_identity) g c.(nc_client_endpoint) c.(nc_private_endpoint) c.(nc_failure_domain)).
(** [self.channel] calls that are remembered in the trace. *)
Definition send (x : sent) : N unit := sets (λ s, s <| dx_sent ::= λ l, l ++ [x] |>).

(** ** Start ([DataNode.__init__], [recover_unindexed_objects]) *)
(** The reference an object's own header describes: unreadable fields that the
    code catches are [Some None], the ones it does not are [None]. *)
Definition described (file id s : string) : option (option BlockRef) :=
  let raw := String.substring 0 4 (from 8 s) in
  let len := be32_val raw in
  if negb (bool_decide (String.substring 0 8 s = BLOCK_MAGIC)) || negb (slen raw =? 4)
     || negb ((0 <? len) && (len <=? 4096)) then Some None
  else match json_loads (String.substring 0 (Z.to_nat len) (from 4 (from 8 s))) with
  | None => Some None
  | Some (JObj l) =>
      match default (JNum 0) (dget "block_index" l), dget "size" l, dget "sha256" l with
      | _, None, _ => Some None
      | _, Some _, None => Some None
      | JNum index, Some (JNum size), Some (JStr sha) =>
          if (0 <=? index) && (index <? 2 ^ 64) && (0 <=? size) && (size <? 2 ^ 64)
          then Some (Some (mkBlockRef file id index size (unhex sha))) else Some None
      | _, _, _ => None
      end
  | Some _ => None
  end.
Definition recover_object (file id s : string) : N unit :=
  match described file id s with
  | None => fail (Raised PyError)
  | Some None => mret tt
  | Some (Some b) =>
      bs ← gets dx_blocks;
      match read_verified bs b with
      | Err _ => mret tt
      | Ok _ =>
          op ← new_uid;
          r ← new_receipt op b (slen s) (sha256 s);
          txn (put_block (mkStored id b (slen s) r true))
      end
  end.
Definition recover_unindexed_objects : N unit :=
  files ← gets (λ s, map_to_list s.(dx_blocks).(bs_files));
  each files (λ '((file, id), s),
    demand (is_uuid file) INVALID_ARGUMENT;;
    demand (is_uuid id) INVALID_ARGUMENT;;
    known ← find_block id;
    match known with Some _ => mret tt | None => recover_object file id s end).

(** The key files as they are read: [None] for one that cannot be. *)
Record keyring := mkKeyring {
  ky_key : option string; ky_read : list (option string); ky_active : option (option string) }.
Definition key_bytes (o : option string) : N string :=
  match o with
  | Some k => if slen k =? 32 then mret k else fail (Raised PyError)
  | None => fail (Raised PyError)
  end.
(** What the new process does not inherit is reset; the tables and objects stay. *)
Definition boot_node (k : keyring) : N unit :=
  sets (λ s, s <| dx_sequence := 0 |> <| dx_registered := false |> <| dx_reserved := 0 |>
             <| dx_units := LocalCoordinator.UNITS |> <| dx_pins := Pins.mkPins ∅ ∅ |> <| dx_jobs := ∅ |>
             <| dx_pool := [] |> <| dx_moved := 0 |> <| dx_sent := [] |>);;
  key ← key_bytes k.(ky_key);
  o ← look tb_settings;
  c ← cfg_of id;
  match o with
  | None => fail (Raised PyError)
  | Some x =>
      (if bool_decide (x.(no_id_node) = c.(nc_identity)) && bool_decide (x.(no_key_sha256) = hex (sha256 key))
       then mret tt else fail (Raised PyError));;
      let x := x <| no_generation ::= Z.succ |> in
      txn (λ t, t <| tb_settings := Some x |>);;
      inv ← new_uid;
      sets (λ s, s <| dx_generation := x.(no_generation) |> <| dx_inventory_id := inv |>);;
      reads ← fold k.(ky_read) [] (λ l o, r ← key_bytes o; mret (l ++ [r]));
      active ← match k.(ky_active) with Some o => key_bytes o | None => mret key end;
      sets (λ s, s <| dx_blocks ::= λ bs, open_store active (key :: reads) bs.(bs_files) |>);;
      recover_unindexed_objects
  end.
End Local.
