(* ===== verification/Streams.v ===== *)
(** * The streams of a data node ([datanode/service.py], [datanode/patch.py])

    Writing a block, patching one, reading a range of one, and serving the
    encrypted object to another node.  The control authorizes every stream; the
    node checks each frame while it arrives, makes the object durable before it
    records it, and reports the receipt before it answers. *)
From Stdlib Require String.
From S2P Require Import Prelude Domain Data Store Auth Leases Cluster Requests Access Nodes Process Protected Local Blocks Patch DataNode.

Section Streams.
Context `{Hash, Unicode, Aead, Json, Base64, KeyWrap, Wire}.

(** ** Authorization *)
Definition no_operation : OperationRef := mkOperationRef "" "" "".
Definition no_fence : Fence := mkFence "" "" "" 0 0 [] false false 0.
Definition no_snapshot : SnapshotRef := mkSnapshotRef "" 0 0 "" 0 "" None 0.
Definition no_block : BlockRef := mkBlockRef "" "" 0 0 "".
Definition no_context : RequestContext := mkRequestContext "" "" "" "".
(** [DEADLINES[block_size]] and the two checks that follow every decision. *)
Definition in_time (tp : transport) (d : AuthorizationDecision) : N unit :=
  t ← now_ms;
  match dget d.(ad_block_size_bytes) DEADLINES with
  | Some seconds =>
      demand ((tp.(tp_remaining_ms) <=? (seconds + 2) * 1000) && (t <? d.(ad_valid_until))) INVALID_ARGUMENT
  | None => fail (Raised PyError)
  end.
Definition authorized (rq : AuthorizeRequest) (tp : transport) : N AuthorizationDecision :=
  d ← call (λ w i, w.(w_authorize_block) i rq);
  match d.(ad_replay_receipt) with
  | Some _ => mret d
  | None => in_time tp d;; mret d
  end.
(** [authorize] of a write and of a read. *)
Definition authorize_put (h : PutBlockHeader) (tp : transport) : N AuthorizationDecision :=
  token ← credentials tp;
  me ← cfg_of nc_identity;
  authorized (mkAuthorize h.(ph_context) token me WRITE_DATA h.(ph_operation) h.(ph_block) h.(ph_fence)
    h.(ph_capability) "" "" no_snapshot 0 h.(ph_block).(br_size_bytes) "" "") tp.
Definition range_of (rq : GetBlockRequest) : Z * Z :=
  let start := default 0 rq.(gb_offset) in
  (start, default (rq.(gb_block).(br_size_bytes) - start) rq.(gb_length)).
Definition authorize_get (rq : GetBlockRequest) (tp : transport) : N AuthorizationDecision :=
  token ← credentials tp;
  me ← cfg_of nc_identity;
  let '(start, length) := range_of rq in
  let size := rq.(gb_block).(br_size_bytes) in
  (* the default of [length] is assigned to an unsigned field before the check *)
  (if length <? 0 then fail (Raised PyError) else mret tt);;
  demand ((start <=? size) && (0 <? length) && (length <=? size - start)) INVALID_ARGUMENT;;
  authorized (mkAuthorize rq.(gb_context) token me READ_DATA no_operation rq.(gb_block) no_fence
    rq.(gb_capability) rq.(gb_handle_id) rq.(gb_read_id) rq.(gb_snapshot) start length "" "") tp.
(** The check before every frame and every piece. *)
Definition still_valid (d : AuthorizationDecision) : N unit :=
  a ← query w_active; t ← now_ms;
  demand (a && (t <? d.(ad_valid_until))) DEADLINE_EXCEEDED.

(** ** [PutBlock] *)
Definition ledger_key (c : RequestContext) : string := c.(rc_user_id) +:+ ":" +:+ c.(rc_request_id).
Definition put_digest (h : PutBlockHeader) : string :=
  hex (intent (request_dict (PutBlock h.(ph_operation) h.(ph_block) h.(ph_fence) h.(ph_capability)))).
(** The generator [chunks]: each frame is a chunk that continues the last one
    and is full, the last one apart. *)
Definition put_chunk_ok (size offset : Z) (c : DataChunk) : bool :=
  (c.(dc_offset) =? offset) && (slen c.(dc_data) =? Z.min CHUNK (size - offset)) && (0 <? slen c.(dc_data)).
Definition receive_put (d : AuthorizationDecision) (size : Z) (frames : list (frame PutBlockHeader)) : N (list string) :=
  '(_, cs) ← fold frames (0, []) (λ '(offset, cs) f,
    still_valid d;;
    match f with
    | FChunk c =>
        demand (put_chunk_ok size offset c) INVALID_ARGUMENT;;
        mret (offset + slen c.(dc_data), cs ++ [c.(dc_data)])
    | _ => refuse INVALID_ARGUMENT
    end);
  mret cs.
Definition record_put (key digest : string) (r : DurableReceipt) : node_tables → node_tables :=
  λ t, put_block (mkStored r.(dr_block).(br_block_version_id) r.(dr_block) r.(dr_stored_size_bytes) r false) t
       <| tb_puts ::= <[key := mkAnswer key digest r]> |>.
Definition write_put (h : PutBlockHeader) (d : AuthorizationDecision) (frames : list (frame PutBlockHeader))
    : N DurableReceipt :=
  let b := h.(ph_block) in
  '(stored, digest) ← store_object b (receive_put d b.(br_size_bytes) frames);
  r ← new_receipt h.(ph_operation).(or_operation_id) b stored digest;
  txn (record_put (ledger_key h.(ph_context)) (put_digest h) r);;
  count "client_write_bytes" b.(br_size_bytes);;
  mret r.
Definition store_put (h : PutBlockHeader) (d : AuthorizationDecision) (frames : list (frame PutBlockHeader))
    : N DurableReceipt :=
  let b := h.(ph_block) in
  admitted d.(ad_block_size_bytes) (pinned b.(br_block_version_id) true (
    reserving (storage_cost b.(br_size_bytes)) (write_put h d frames))).
Definition ReportDurable (rq : ReportRequest) : N unit :=
  send (SentDurable rq);;
  _ ← call (λ w i, w.(w_durable) i rq); mret tt.
Definition PutBlock (frames : list (frame PutBlockHeader)) (tp : transport) : N DurableReceipt :=
  match frames with
  | FHeader h :: frames =>
      d ← authorize_put h tp;
      match d.(ad_replay_receipt) with
      | Some r => mret r
      | None =>
          previous ← look (λ t, t.(tb_puts) !! ledger_key h.(ph_context));
          r ← match previous with
              | Some a => demand (bool_decide (a.(an_digest) = put_digest h)) IDEMPOTENCY_MISMATCH;; mret a.(an_receipt)
              | None => store_put h d frames
              end;
          me ← own_context;
          ReportDurable (mkReport me h.(ph_context) h.(ph_operation) h.(ph_fence) r None);;
          mret r
      end
  | _ => refuse INVALID_ARGUMENT
  end.

(** ** [PatchBlock] *)
Definition patch_header (h : PatchBlockHeader) : body :=
  PatchBlock h.(xh_operation) h.(xh_base) h.(xh_new_block_version_id) h.(xh_block_offset) h.(xh_delta_length)
    h.(xh_delta_sha256) h.(xh_fence) h.(xh_capability).
Definition patch_digest (h : PatchBlockHeader) : string := hex (intent (request_dict (patch_header h))).
Definition patch_range_ok (h : PatchBlockHeader) : result exn unit :=
  let o := h.(xh_block_offset) in let n := h.(xh_delta_length) in
  if negb ((0 <=? o) && (o <=? MAX_OFFSET) && (0 <=? n) && (n <=? MAX_OFFSET - o)) then Err (Fault INVALID_ARGUMENT)
  else if negb (n <=? MAX_DELTA) then Err (Fault LIMIT_EXCEEDED)
  else if (0 <? n) && (n <=? MAX_DELTA) && (slen h.(xh_delta_sha256) =? 32) then Ok tt
  else Err (Fault INVALID_ARGUMENT).
Definition delta_chunk_ok (h : PatchBlockHeader) (delta : string) (c : DataChunk) : bool :=
  (c.(dc_offset) =? slen delta) && (0 <? slen c.(dc_data)) && (slen c.(dc_data) <=? CHUNK)
  && (slen delta + slen c.(dc_data) <=? h.(xh_delta_length)).
Definition receive_delta (h : PatchBlockHeader) (d : AuthorizationDecision) (frames : list (frame PatchBlockHeader))
    : N string :=
  fold frames "" (λ delta f,
    still_valid d;;
    match f with
    | FChunk c => demand (delta_chunk_ok h delta c) INVALID_ARGUMENT;; mret (delta +:+ c.(dc_data))
    | _ => refuse INVALID_ARGUMENT
    end).
(** [base] is a block or, for a block that does not exist yet, empty. *)
Definition has_base (h : PatchBlockHeader) : bool := negb (empty h.(xh_base).(br_block_version_id)).
(** The wait for the inventory to show the base. *)
Definition await_base (h : PatchBlockHeader) : N unit :=
  if has_base h then
    o ← find_block h.(xh_base).(br_block_version_id);
    match o with
    | Some b => demand (bool_decide (b.(sb_ref) = h.(xh_base))) DATA_LOSS
    | None => refuse DATA_UNAVAILABLE
    end
  else mret tt.
(** The pin on the base, awaited while a writer has it. *)
Definition pinning_base {A} (h : PatchBlockHeader) (m : N A) : N A :=
  if has_base h then
    p ← gets dx_pins;
    match Pins.pin h.(xh_base).(br_block_version_id) false p with
    | Ok _ => pinned h.(xh_base).(br_block_version_id) false m
    | Err _ => refuse DATA_UNAVAILABLE
    end
  else m.
(** [result_chunks] over strings. *)
Definition patched (delta : string) (offset size : Z) (source : list string) : option (list string) :=
  map String.string_of_list_ascii <$>
    result_chunks CHUNK_LEN (String.list_ascii_of_string delta) (Z.to_nat offset) (Z.to_nat size)
      (map String.list_ascii_of_string source).
Definition base_chunks (h : PatchBlockHeader) : N (list string) :=
  if has_base h then read_block h.(xh_base) else mret [].
Definition result_of (h : PatchBlockHeader) (d : AuthorizationDecision) (delta : string) : N (list string) :=
  source ← base_chunks h;
  cs ← demand_some (patched delta h.(xh_block_offset) d.(ad_replacement_size_bytes) source) SPARSE_WRITE_UNSUPPORTED;
  each cs (λ _, still_valid d);;
  mret cs.
Definition record_patch (key digest : string) (r : DurableReceipt) : node_tables → node_tables :=
  λ t, put_block (mkStored r.(dr_block).(br_block_version_id) r.(dr_block) r.(dr_stored_size_bytes) r false) t
       <| tb_patches ::= <[key := mkAnswer key digest r]> |>.
Definition store_patch (h : PatchBlockHeader) (d : AuthorizationDecision) (frames : list (frame PatchBlockHeader))
    : N DurableReceipt :=
  reserving (storage_cost d.(ad_replacement_size_bytes)) (
    delta ← receive_delta h d frames;
    demand ((slen delta =? h.(xh_delta_length)) && bool_decide (sha256 delta = h.(xh_delta_sha256))) CHECKSUM_MISMATCH;;
    demand (h.(xh_block_offset) <=? h.(xh_base).(br_size_bytes)) SPARSE_WRITE_UNSUPPORTED;;
    (if has_base h then
       o ← find_block h.(xh_base).(br_block_version_id);
       demand (bool_decide (sb_ref <$> o = Some h.(xh_base))) DATA_UNAVAILABLE
     else mret tt);;
    first ← result_of h d delta;
    let b := mkBlockRef h.(xh_base).(br_file_id) h.(xh_new_block_version_id) h.(xh_base).(br_block_index)
               d.(ad_replacement_size_bytes) (sha256 (cat first)) in
    '(stored, digest) ← store_object b (result_of h d delta);
    r ← new_receipt h.(xh_operation).(or_operation_id) b stored digest;
    txn (record_patch (ledger_key h.(xh_context)) (patch_digest h) r);;
    count "client_write_bytes" (slen delta);;
    count "patch_base_plaintext_processed_bytes" (4 * h.(xh_base).(br_size_bytes));;
    count "patch_result_processed_bytes" (2 * b.(br_size_bytes));;
    count "patch_ciphertext_stored_bytes" stored;;
    mret r).
Definition patch_block (frames : list (frame PatchBlockHeader)) (tp : transport) : N DurableReceipt :=
  match frames with
  | FHeader h :: frames =>
      of_result (patch_range_ok h);;
      token ← credentials tp;
      me ← cfg_of nc_identity;
      d ← authorized (mkAuthorize h.(xh_context) token me PATCH_DATA h.(xh_operation) h.(xh_base) h.(xh_fence)
            h.(xh_capability) "" "" no_snapshot h.(xh_block_offset) h.(xh_delta_length)
            h.(xh_new_block_version_id) h.(xh_delta_sha256)) tp;
      match d.(ad_replay_receipt) with
      | Some r => mret r
      | None =>
          await_base h;;
          r ← admitted d.(ad_block_size_bytes) (pinned h.(xh_new_block_version_id) true (pinning_base h (
                previous ← look (λ t, t.(tb_patches) !! ledger_key h.(xh_context));
                match previous with
                | Some a =>
                    demand (bool_decide (a.(an_digest) = patch_digest h)) IDEMPOTENCY_MISMATCH;; mret a.(an_receipt)
                | None => store_patch h d frames
                end)));
          me ← own_context;
          ReportDurable (mkReport me no_context no_operation no_fence r (Some (h.(xh_context), patch_header h)));;
          mret r
      end
  | _ => refuse INVALID_ARGUMENT
  end.
(** [abort(ctx, UNIMPLEMENTED, ...)] is an error of the call. *)
Definition PatchBlock (frames : list (frame PatchBlockHeader)) (tp : transport) : N DurableReceipt :=
  enabled ← cfg_of nc_rf3_enabled;
  if (enabled : bool) then patch_block frames tp else fail (RpcError (mkRpcError Grpc.UNIMPLEMENTED (Some NOT_IMPLEMENTED_STAGE2))).

(** ** [GetBlock] *)
(** A [yield]: the reader may close the stream there. *)
Definition emit (x : sent) : N unit :=
  send x;;
  closed ← query w_closed;
  if (closed : bool) then fail (Raised PyError) else mret tt.
Definition move (n : Z) : N unit := sets (λ s, s <| dx_moved ::= Z.add n |>).
(** The part of one chunk that lies in the range; [dx_moved] is [total]. *)
Definition send_part (start length position : Z) (chunk : string) : N unit :=
  let low := Z.max start position in
  let high := Z.min (start + length) (position + slen chunk) in
  if low <? high then
    total ← gets dx_moved;
    let payload := String.substring (Z.to_nat (low - position)) (Z.to_nat (high - low)) chunk in
    emit (SentRead (FChunk (mkChunk total payload)));;
    move (slen payload)
  else mret tt.
(** The loop over the verified chunks from [position] on. *)
Fixpoint send_range (d : AuthorizationDecision) (start length position : Z) (chunks : list string) : N unit :=
  match chunks with
  | [] => mret tt
  | chunk :: chunks =>
      still_valid d;;
      send_part start length position chunk;;
      if start + length <=? position + slen chunk then mret tt
      else send_range d start length (position + slen chunk) chunks
  end.
Definition GetBlock (rq : GetBlockRequest) (tp : transport) : N unit :=
  d ← authorize_get rq tp;
  let b := rq.(gb_block) in
  o ← find_block b.(br_block_version_id);
  demand (bool_decide (sb_ref <$> o = Some b)) DATA_UNAVAILABLE;;
  let '(start, length) := range_of rq in
  sets (λ s, s <| dx_moved := 0 |>);;
  try_finally
    (admitted d.(ad_block_size_bytes) (pinned b.(br_block_version_id) false (
       chunks ← read_block b;
       emit (SentRead (FHeader (mkReadHeader b start length
         (if (start =? 0) && (length =? b.(br_size_bytes)) then b.(br_plaintext_sha256) else ""))));;
       send_range d start length 0 chunks)))
    (total ← gets dx_moved; count "client_read_bytes" total).

(** ** [GetReplica] *)
(** [while chunk := stream.read(CHUNK)]. *)
Fixpoint pieces (fuel : nat) (s : string) : list string :=
  match fuel, s with
  | _, EmptyString | O, _ => []
  | S fuel, _ => String.substring 0 CHUNK_LEN s :: pieces fuel (from CHUNK_LEN s)
  end.
Definition file_pieces (s : string) : list string := pieces (String.length s) s.
Definition send_piece (d : AuthorizationDecision) (p : string) : N unit :=
  still_valid d;;
  offset ← gets dx_moved;
  emit (SentReplica (FChunk (mkChunk offset p)));;
  move (slen p).
(** The stream itself: the header, then the file from its first byte. *)
Definition send_object (d : AuthorizationDecision) (task : string) (b : BlockRef) (r : DurableReceipt) : N unit :=
  bs ← gets dx_blocks;
  key_id ← of_result (object_key_id bs b);
  emit (SentReplica (FHeader (mkReplicaHeader task b r.(dr_stored_size_bytes) r.(dr_ciphertext_sha256) key_id)));;
  _ ← tick;
  bs ← gets dx_blocks;
  match bs.(bs_files) !! path_of b with
  | Some s => each (file_pieces s) (send_piece d)
  | None => fail (Raised PyError)
  end.
Definition GetReplica (rq : GetReplicaRequest) (tp : transport) : N unit :=
  let b := rq.(gr_block) in
  p ← peer_of tp;
  demand (bool_decide (p = rq.(gr_destination_node_id))
          && bool_decide (rq.(gr_context).(rc_user_id) = rq.(gr_destination_node_id))) PERMISSION_DENIED;;
  me ← own_context;
  self ← cfg_of nc_identity;
  d ← call (λ w i, w.(w_authorize_internal) i (mkInternal me rq.(gr_task_id) b READ_REPLICA self
        rq.(gr_destination_node_id) rq.(gr_task_capability) rq.(gr_task_fence)));
  o ← find_block b.(br_block_version_id);
  x ← demand_some o NOT_FOUND;
  demand (bool_decide (x.(sb_ref) = b)) NOT_FOUND;;
  sets (λ s, s <| dx_moved := 0 |>);;
  try_finally
    (admitted (default 134217728 (profile_for b.(br_size_bytes))) (pinned b.(br_block_version_id) false
       (send_object d rq.(gr_task_id) b x.(sb_receipt))))
    (offset ← gets dx_moved; count "replica_read_bytes" offset).
End Streams.
