(* ===== verification/NodeTasks.v ===== *)
(** * Services of a data node for the control ([datanode/service.py])

    Verification of receipts, copies between nodes, deletion of retired
    objects, and the loop that registers the node, reports its inventory and
    sends heartbeats.  A copy is accepted by one call and runs later, on a pool. *)
From Stdlib Require String.
From S2P Require Import Prelude Domain Data Store Auth Leases Cluster Requests Nodes Process Protected Local Blocks Patch DataNode Streams.

Section NodeTasks.
Context `{Hash, Unicode, Aead, Json, Base64, KeyWrap, Wire}.
(** The dictionary forms of the two orders a task may hold. *)
Class OrderWire := {
  replicate_dict : ReplicateBlockRequest → json;
  delete_dict : DeleteRetiredBlockRequest → json;
}.
Context `{OrderWire}.

Definition control_peer (tp : transport) (ctx : RequestContext) : N unit :=
  identity ← peer_of tp;
  c ← cfg_of id;
  demand (bool_decide (identity ∈ c.(nc_control_identities)) && bool_decide (ctx.(rc_user_id) = identity)
          && bool_decide (ctx.(rc_service_epoch) = c.(nc_service_epoch))) PERMISSION_DENIED.
Definition GetKeyStatus (ctx : RequestContext) (tp : transport) : N KeyStatus :=
  control_peer tp ctx;;
  c ← cfg_of id; g ← gets dx_generation; bs ← gets dx_blocks;
  mret (mkKeyStatus c.(nc_identity) g (key_id bs.(bs_key)) (merge_sort String.le (remove_dups bs.(bs_keys).*1))).

Definition VerifyReceipt (rq : VerifyReceiptRequest) (tp : transport) : N DurableReceipt :=
  control_peer tp rq.(vr_context);;
  let b := rq.(vr_block) in
  o ← find_block b.(br_block_version_id);
  x ← demand_some o NOT_FOUND;
  demand (bool_decide (x.(sb_ref) = b)) NOT_FOUND;;
  let r := x.(sb_receipt) in
  g ← gets dx_generation;
  demand (bool_decide (r.(dr_receipt_id) = rq.(vr_receipt_id))
          && bool_decide (r.(dr_operation_id) = rq.(vr_operation_id))
          && (rq.(vr_expected_boot_generation) =? g)) VERSION_CONFLICT;;
  (if rq.(vr_verify_content) then
     match profile_for b.(br_size_bytes) with
     | Some p => admitted p (pinned b.(br_block_version_id) false (_ ← read_block b; mret tt))
     | None => fail (Raised PyError)
     end
   else mret tt);;
  mret r.

(** ** Copies *)
Definition internal_authorize (rq : ReplicateBlockRequest) (action : AccessAction) : N AuthorizationDecision :=
  me ← own_context;
  call (λ w i, w.(w_authorize_internal) i (mkInternal me rq.(rb_task_id) rq.(rb_block) action
    rq.(rb_source).(bl_node_id) rq.(rb_destination).(bl_node_id) rq.(rb_task_capability) rq.(rb_fence))).
Definition is_copy_order (rq : ReplicateBlockRequest) (o : order) : result exn bool :=
  match o with
  | CopyOrder r => Ok (bool_decide (intent (replicate_dict r) = intent (replicate_dict rq)))
  (* a deletion has fields a copy does not know, unless they are unset *)
  | DeleteOrder r => if (r.(xr_retirement_revision) =? 0) && empty r.(xr_expected_receipt_id) then Ok false else Err PyError
  end.
Definition accepted (i : string) : TaskStatus := mkTaskStatus i ACCEPTED None None.
Definition ReplicateBlock (rq : ReplicateBlockRequest) (tp : transport) : N TaskStatus :=
  control_peer tp rq.(rb_context);;
  here ← own_location;
  demand (bool_decide (rq.(rb_destination) = here)) VERSION_CONFLICT;;
  _ ← internal_authorize rq STORE_REPLICA;
  let i := rq.(rb_task_id) in
  old ← look (λ t, t.(tb_tasks) !! i);
  jobs ← gets dx_jobs;
  task ← match old with
    | Some t => same ← of_result (is_copy_order rq t.(nt_order)); demand same IDEMPOTENCY_MISMATCH;; mret t
    | None =>
        demand (bool_decide (size jobs < 2)%nat) LIMIT_EXCEEDED;;
        let t := mkNodeTask i (CopyOrder rq) (accepted i) false in
        txn (put_task t);; mret t
    end;
  (if active_state task.(nt_status).(ts_state) && bool_decide (i ∉ jobs) then
     sets (λ s, s <| dx_jobs ::= λ j, {[i]} ∪ j |> <| dx_pool ::= λ p, p ++ [rq] |>)
   else mret tt);;
  mret task.(nt_status).

Definition report_task (t : node_task) : N unit :=
  me ← own_context; c ← cfg_of id; g ← gets dx_generation;
  let fence := match t.(nt_order) with CopyOrder r => r.(rb_fence) | DeleteOrder r => r.(xr_fence) end in
  let rq := mkTaskReport me c.(nc_identity) g t.(nt_status) (if c.(nc_replication_enabled) then fence else no_fence) in
  send (SentTask rq);;
  _ ← call (λ w i, w.(w_task) i rq);
  txn (put_task (t <| nt_reported := true |>)).

(** The stream of another node: its header, then the pieces of the object. *)
Definition replica_chunk_ok (offset : Z) (c : DataChunk) : bool := c.(dc_offset) =? offset.
Definition replica_header (st : replica_stream) : N ReplicaHeader :=
  match st.(rs_frames), st.(rs_error) with
  | FHeader h :: _, _ => mret h
  | [], Some r => fail (RpcError r)
  | [], None => fail (Raised PyError)
  | _, _ => refuse CHECKSUM_MISMATCH
  end.
Definition receive_replica (fence : Fence) (st : replica_stream) : N (list string) :=
  '(_, cs) ← fold (tail st.(rs_frames)) (0, []) (λ '(offset, cs) f,
    match f with
    | FChunk c =>
        t ← now_ms;
        demand (replica_chunk_ok offset c && (t <? fence.(fc_expires))) INVALID_ARGUMENT;;
        mret (offset + slen c.(dc_data), cs ++ [c.(dc_data)])
    | _ => refuse INVALID_ARGUMENT
    end);
  match st.(rs_error) with Some r => fail (RpcError r) | None => mret cs end.
Definition import_object (b : BlockRef) (receive : N (list string)) (length : Z) (digest : string) : N unit :=
  demand (path_ok b) INVALID_ARGUMENT;;
  chunks ← receive;
  d ← query w_disk;
  match d with
  | Some _ => fail (Raised PyError)
  | None =>
      bs ← gets dx_blocks;
      bs ← of_result (import_ciphertext bs b chunks length digest);
      sets (λ s, s <| dx_blocks := bs |>)
  end.
(** An object that must be replaced leaves its name and its record. *)
Definition quarantine (rq : ReplicateBlockRequest) (x : stored_block) : N unit :=
  let i := rq.(rb_block).(br_block_version_id) in
  demand (bool_decide (x.(sb_receipt).(dr_receipt_id) = rq.(rb_replace_receipt_id))) VERSION_CONFLICT;;
  _ ← internal_authorize rq STORE_REPLICA;
  demand (path_ok rq.(rb_block)) INVALID_ARGUMENT;;
  _ ← tick;
  sets (λ s, s <| dx_blocks ::= λ bs, bs <| bs_files ::= delete (path_of rq.(rb_block)) |> |>);;
  txn (λ t, t <| tb_quarantine ::= <[rq.(rb_replace_receipt_id) := mkQuarantined rq.(rb_replace_receipt_id) x.(sb_ref) x.(sb_size)]> |>
              <| tb_blocks ::= delete i |>).
Definition confirm_copy (rq : ReplicateBlockRequest) (x : stored_block) : N DurableReceipt :=
  let r := x.(sb_receipt) in
  demand (bool_decide (r.(dr_block) = rq.(rb_block))
          && bool_decide (r.(dr_ciphertext_sha256) = rq.(rb_ciphertext_sha256))) CHECKSUM_MISMATCH;;
  _ ← read_block rq.(rb_block);
  i ← new_uid; g ← gets dx_generation; t ← now_ms;
  let r := r <| dr_receipt_id := i |> <| dr_operation_id := rq.(rb_task_id) |> <| dr_boot_generation := g |>
             <| dr_durable_at := t |> in
  txn (put_block (x <| sb_receipt := r |>));;
  mret r.
Definition fetch_copy (rq : ReplicateBlockRequest) : N DurableReceipt :=
  let b := rq.(rb_block) in
  reserving (storage_cost b.(br_size_bytes)) (
    me ← own_context; self ← cfg_of nc_identity;
    st ← query (λ w i, w.(w_replica) i rq.(rb_source).(bl_private_endpoint)
           (mkGetReplica me rq.(rb_task_id) b rq.(rb_task_capability) rq.(rb_fence) self));
    h ← replica_header st;
    bs ← gets dx_blocks;
    demand (bool_decide (h.(ri_block) = b) && (h.(ri_ciphertext_length) =? rq.(rb_ciphertext_length))
            && bool_decide (h.(ri_ciphertext_sha256) = rq.(rb_ciphertext_sha256))
            && bool_decide (h.(ri_key_id) ∈ bs.(bs_keys).*1)) CHECKSUM_MISMATCH;;
    import_object b (receive_replica rq.(rb_fence) st) rq.(rb_ciphertext_length) rq.(rb_ciphertext_sha256);;
    r ← new_receipt rq.(rb_task_id) b rq.(rb_ciphertext_length) rq.(rb_ciphertext_sha256);
    txn (put_block (mkStored b.(br_block_version_id) b rq.(rb_ciphertext_length) r false));;
    count "replica_write_bytes" rq.(rb_ciphertext_length);;
    mret r).
Definition copy_block (rq : ReplicateBlockRequest) : N TaskStatus :=
  let b := rq.(rb_block) in
  let i := b.(br_block_version_id) in
  admitted (default 134217728 (profile_for b.(br_size_bytes))) (pinned i true (
    existing ← find_block i;
    existing ← match existing with
      | Some x => if empty rq.(rb_replace_receipt_id) then mret (Some x) else quarantine rq x;; mret None
      | None => mret None
      end;
    r ← match existing with Some x => confirm_copy rq x | None => fetch_copy rq end;
    mret (mkTaskStatus rq.(rb_task_id) FINISHED (Some r) None))).
Definition failed (i : string) : TaskStatus := mkTaskStatus i FAILED None (Some DATA_UNAVAILABLE).
(** [copy]: any exception makes the task [FAILED]; its status is kept before it
    is reported, so that maintenance reports it again when the report is lost. *)
Definition copy (rq : ReplicateBlockRequest) : N unit :=
  let i := rq.(rb_task_id) in
  status ← try_except (copy_block rq) (λ _, mret (failed i));
  sets (λ s, s <| dx_jobs ::= λ j, j ∖ {[i]} |>);;
  o ← look (λ t, t.(tb_tasks) !! i);
  t ← match o with Some t => mret (t <| nt_status := status |>) | None => fail (Raised PyError) end;
  txn (put_task t);;
  try_except (report_task t) (λ _, mret tt).
(** A worker of the pool takes the next submitted copy. *)
Definition run_pool : N unit :=
  p ← gets dx_pool;
  match p with
  | [] => mret tt
  | rq :: p => sets (λ s, s <| dx_pool := p |>);; copy rq
  end.

Definition GetTask (ctx : RequestContext) (i : string) (tp : transport) : N TaskStatus :=
  control_peer tp ctx;;
  o ← look (λ t, t.(tb_tasks) !! i);
  t ← demand_some o NOT_FOUND;
  mret t.(nt_status).

(** ** Deletion of retired objects *)
Definition is_delete_order (rq : DeleteRetiredBlockRequest) (o : order) : result exn bool :=
  match o with
  | DeleteOrder r => Ok (bool_decide (intent (delete_dict r) = intent (delete_dict rq)))
  (* the destination of a copy is a field a deletion does not know *)
  | CopyOrder _ => Err PyError
  end.
Definition authorize_delete (rq : DeleteRetiredBlockRequest) : N unit :=
  me ← own_context; self ← cfg_of nc_identity;
  _ ← call (λ w i, w.(w_authorize_internal) i (mkInternal me rq.(xr_task_id) rq.(xr_block) DELETE_RETIRED "" self
        rq.(xr_task_capability) rq.(xr_fence)));
  mret tt.
(** Under the exclusive pin: the object goes, then its record and the task. *)
Definition remove_retired (rq : DeleteRetiredBlockRequest) (t : node_task) : N unit :=
  let i := rq.(xr_block).(br_block_version_id) in
  replicated ← cfg_of nc_replication_enabled;
  (if (replicated : bool) then
     current ← find_block i;
     demand (match current with
             | Some x => bool_decide (x.(sb_receipt).(dr_receipt_id) = rq.(xr_expected_receipt_id))
             | None => true
             end) VERSION_CONFLICT;;
     authorize_delete rq
   else mret tt);;
  demand (path_ok rq.(xr_block)) INVALID_ARGUMENT;;
  _ ← tick;
  sets (λ s, s <| dx_blocks ::= λ bs, bs <| bs_files ::= delete (path_of rq.(xr_block)) |> |>);;
  txn (λ tb, put_task t (tb <| tb_blocks ::= delete i |>)).
Definition DeleteRetiredBlock (rq : DeleteRetiredBlockRequest) (tp : transport) : N TaskStatus :=
  control_peer tp rq.(xr_context);;
  old ← look (λ t, t.(tb_tasks) !! rq.(xr_task_id));
  match old with
  | Some t =>
      same ← of_result (is_delete_order rq t.(nt_order));
      demand same IDEMPOTENCY_MISMATCH;; mret t.(nt_status)
  | None =>
      authorize_delete rq;;
      let status := mkTaskStatus rq.(xr_task_id) FINISHED None None in
      let t := mkNodeTask rq.(xr_task_id) (DeleteOrder rq) status false in
      pinned rq.(xr_block).(br_block_version_id) true (remove_retired rq t);;
      report_task t;;
      mret status
  end.

(** ** Registration and heartbeats ([register_inventory], [maintain]) *)
(** The receipts of the objects whose content still verifies. *)
Fixpoint verified_receipts (bs : block_store) (l : list stored_block) : list DurableReceipt :=
  match l with
  | [] => []
  | x :: l =>
      (if is_ok (read_verified bs x.(sb_ref)) then [x.(sb_receipt)] else []) ++ verified_receipts bs l
  end.
Definition page_count (n : nat) : nat := Nat.max 1 ((n + 63) / 64).
Definition page_of {A} (l : list A) (page : nat) : list A := take 64 (drop (page * 64) l).
Definition is_last_page (n page : nat) : bool := Nat.leb n ((page + 1) * 64).
Definition send_page (receipts : list DurableReceipt) (page : nat) : N unit :=
  me ← own_context; self ← cfg_of nc_identity; g ← gets dx_generation; inv ← gets dx_inventory_id;
  let rq := mkBlockReport me self g inv (Z.of_nat page) (is_last_page (length receipts) page) (page_of receipts page) in
  send (SentReport rq);;
  _ ← call (λ w i, w.(w_report) i rq); mret tt.
Definition register_inventory : N unit :=
  ha ← cfg_of nc_ha;
  (if (ha : bool) then i ← new_uid; sets (λ s, s <| dx_inventory_id := i |>) else mret tt);;
  me ← own_context; here ← own_location; c ← cfg_of id; inv ← gets dx_inventory_id;
  '(_, free, _, _, _) ← metrics;
  lease ← call (λ w i, w.(w_register) i (mkRegister me here inv c.(nc_capacity_bytes) free));
  records ← look (λ t, (rows t.(tb_blocks)).*2);
  bs ← gets dx_blocks;
  let receipts := verified_receipts bs records in
  each (seq 0 (page_count (length receipts))) (send_page receipts);;
  sets (λ s, s <| dx_sequence := lease.(nl_revision) |>).
Definition heartbeat : N unit :=
  sets (λ s, s <| dx_sequence ::= Z.succ |>);;
  me ← own_context; self ← cfg_of nc_identity; g ← gets dx_generation; n ← gets dx_sequence; t ← now_ms;
  '(used, free, active, reserved, counters) ← metrics;
  _ ← call (λ w i, w.(w_heartbeat) i (mkHeartbeat me self g n free used active reserved t counters));
  mret tt.
Definition finished_task (t : node_task) : bool :=
  (bool_decide (t.(nt_status).(ts_state) = FINISHED) || bool_decide (t.(nt_status).(ts_state) = FAILED))
  && negb t.(nt_reported).
(** One turn of the loop of [maintain]. *)
Definition maintain : N unit :=
  finished ← try_except
    (r ← gets dx_registered;
     (if (r : bool) then mret tt else register_inventory;; sets (λ s, s <| dx_registered := true |>));;
     heartbeat;;
     look (λ t, List.filter finished_task (rows t.(tb_tasks)).*2))
    (λ x,
      (match x with
       | RpcError e =>
           if bool_decide (e.(re_reason) = Some VERSION_CONFLICT) || bool_decide (e.(re_reason) = Some NOT_FOUND)
           then sets (λ s, s <| dx_registered := false |>) else mret tt
       | _ => mret tt
       end);;
      mret []);
  each (take 8 finished) (λ t, try_except (report_task t) (λ _, mret tt)).
End NodeTasks.

(** ** Everything a data node does between its starts *)
Inductive activity :=
  | OnPut (frames : list (frame PutBlockHeader)) (tp : transport)
  | OnPatch (frames : list (frame PatchBlockHeader)) (tp : transport)
  | OnGet (rq : GetBlockRequest) (tp : transport)
  | OnGetReplica (rq : GetReplicaRequest) (tp : transport)
  | OnKeyStatus (ctx : RequestContext) (tp : transport)
  | OnVerify (rq : VerifyReceiptRequest) (tp : transport)
  | OnReplicate (rq : ReplicateBlockRequest) (tp : transport)
  | OnPool
  | OnGetTask (ctx : RequestContext) (task_id : string) (tp : transport)
  | OnDelete (rq : DeleteRetiredBlockRequest) (tp : transport)
  | OnMaintain.
Section Activities.
Context `{Hash, Unicode, Aead, Json, Base64, KeyWrap, Wire, OrderWire}.
Definition perform (a : activity) : N unit :=
  match a with
  | OnPut fs tp => _ ← PutBlock fs tp; mret tt
  | OnPatch fs tp => _ ← PatchBlock fs tp; mret tt
  | OnGet rq tp => GetBlock rq tp
  | OnGetReplica rq tp => GetReplica rq tp
  | OnKeyStatus c tp => _ ← GetKeyStatus c tp; mret tt
  | OnVerify rq tp => _ ← VerifyReceipt rq tp; mret tt
  | OnReplicate rq tp => _ ← ReplicateBlock rq tp; mret tt
  | OnPool => run_pool
  | OnGetTask c i tp => _ ← GetTask c i tp; mret tt
  | OnDelete rq tp => _ ← DeleteRetiredBlock rq tp; mret tt
  | OnMaintain => maintain
  end.
(** The activities that take an object away before its record. *)
Definition removes (a : activity) : bool :=
  match a with OnPool | OnDelete _ _ => true | _ => false end.
(** Histories of the volume: what the node does, its starts, and stops at any
    external operation. *)
Inductive node_step : data_node → data_node → Prop :=
  | step_perform a w s : node_step s (perform a w s).2
  | step_boot k w s : node_step s (boot_node k w s).2.
(** The same, with no stop inside a removal. *)
Inductive steady_step : data_node → data_node → Prop :=
  | steady_perform a w s :
      ((perform a w s).1 = Err Exit → removes a = false) → steady_step s (perform a w s).2
  | steady_boot k w s : steady_step s (boot_node k w s).2.
End Activities.
