(* ===== verification/NodeEffects.v ===== *)
(** * What the operations of a data node can change

    Each leaf of the handlers is shown once to change only the clockwork of a
    run ([idle]), or only what does not outlive the process ([volatile]); a
    relation that tolerates such changes is kept by every handler built from
    these leaves. *)
From S2P Require Import Prelude Domain Data Store Auth Leases Cluster Requests Nodes Process Protected Local Blocks Patch DataNode Streams NodeTasks.

Lemma preserves_mono {W S A} (R R' : S → S → Prop) (m : PM W S A) :
  (∀ s s', R s s' → R' s s') → preserves R m → preserves R' m.
Proof. intros HR Hm w s. apply HR, Hm. Qed.

(** Only ticks, the trace and the running total change. *)
Definition idle (s s' : data_node) : Prop :=
  ∃ t l m, s' = s <| dx_ticks := t |> <| dx_sent := l |> <| dx_moved := m |>.
(** The objects and the tables do not change. *)
Definition volatile (s s' : data_node) : Prop :=
  s'.(dx_blocks) = s.(dx_blocks) ∧ s'.(dx_tables) = s.(dx_tables).
#[export] Instance idle_preorder : PreOrder idle.
Proof.
  split.
  - intros []. do 3 eexists. reflexivity.
  - intros s1 s2 s3 (? & ? & ? & ->) (? & ? & ? & ->). do 3 eexists. reflexivity.
Qed.
#[export] Instance volatile_preorder : PreOrder volatile.
Proof. split; [by split|]. intros s1 s2 s3 [H1 H2] [H3 H4]. split; congruence. Qed.

Class Idle (R : data_node → data_node → Prop) := { #[global] idle_order :: PreOrder R; idle_within s s' : idle s s' → R s s' }.
#[export] Instance idle_idle : Idle idle.
Proof. split; [apply _|done]. Qed.
#[export] Instance idle_volatile : Idle volatile.
Proof. split; [apply _|]. intros s ? (? & ? & ? & ->). by split. Qed.

(** Only ticks change. *)
Class Ticking (R : data_node → data_node → Prop) := {
  #[global] ticking_order :: PreOrder R; ticking_within s t : R s (s <| dx_ticks := t |>) }.
#[export] Instance idle_ticking R : Idle R → Ticking R.
Proof. intros HR. split; [apply _|]. intros s t. apply HR. by exists t, s.(dx_sent), s.(dx_moved). Qed.
(** Only ticks and the resources of the process change. *)
Definition flow (s : data_node) : list sent * Z := (s.(dx_sent), s.(dx_moved)).
Definition aside (s s' : data_node) : Prop := volatile s s' ∧ flow s' = flow s.
#[export] Instance aside_preorder : PreOrder aside.
Proof.
  split; [by intros s|]. intros s1 s2 s3 [V12 F12] [V23 F23]. split; [by etrans|congruence].
Qed.
#[export] Instance aside_ticking : Ticking aside.
Proof. split; [apply _|]. by intros s t. Qed.

Definition tick_only (s s' : data_node) : Prop := ∃ t, s' = s <| dx_ticks := t |>.
#[export] Instance tick_only_preorder : PreOrder tick_only.
Proof.
  split; [by intros []; eexists|]. intros s1 s2 s3 (t & ->) (t' & ->). by exists t'.
Qed.
#[export] Instance tick_only_ticking : Ticking tick_only.
Proof. split; [apply _|]. intros s t. by exists t. Qed.

Section Leaves.
Context `{Hash, Unicode, Aead, Json, Base64, KeyWrap, Wire}.
Context (R : data_node → data_node → Prop) `{HR : !Ticking R}.

Lemma kept_tick : preserves (W := node_env) R tick.
Proof using HR.
  intros w s. unfold tick. destruct (stops _ _); simpl; [reflexivity|apply (ticking_within s)].
Qed.
Lemma kept_query {A} (f : node_env → nat → A) : preserves R (query f).
Proof using HR. unfold query. apply preserves_bind; [apply HR|apply kept_tick|intros]. apply preserves_asks, HR. Qed.
Lemma kept_call {A} (f : node_env → nat → result rpc_error A) : preserves R (call f).
Proof using HR.
  unfold call. apply preserves_bind; [apply HR|apply kept_query|intros []];
    [apply preserves_ret, HR|apply preserves_fail, HR].
Qed.
Lemma kept_look {A} (f : node_tables → A) : preserves R (look f).
Proof using HR. unfold look. apply preserves_bind; [apply HR|apply kept_tick|intros]. apply preserves_gets, HR. Qed.
End Leaves.
Section IdleLeaves.
Context `{Hash, Unicode, Aead, Json, Base64, KeyWrap, Wire}.
Context (R : data_node → data_node → Prop) `{HR : !Idle R}.
Lemma kept_send x : preserves R (send x).
Proof using HR. apply preserves_sets. intros s. apply HR. by do 3 eexists. Qed.
Lemma kept_move n : preserves R (move n).
Proof using HR. apply preserves_sets. intros s. apply HR. by do 3 eexists. Qed.
Lemma kept_moved n : preserves (W := node_env) R (sets (λ s, s <| dx_moved := n |>)).
Proof using HR. apply preserves_sets. intros s. apply HR. by do 3 eexists. Qed.
End IdleLeaves.
#[export] Hint Extern 1 (preserves _ tick) => apply kept_tick; apply _ : kept.
#[export] Hint Extern 1 (preserves _ (query _)) => apply kept_query; apply _ : kept.
#[export] Hint Extern 1 (preserves _ (call _)) => apply kept_call; apply _ : kept.
#[export] Hint Extern 1 (preserves _ (urandom _)) => apply kept_query; apply _ : kept.
#[export] Hint Extern 1 (preserves _ now_ms) => apply kept_query; apply _ : kept.
#[export] Hint Extern 1 (preserves _ new_uid) => apply kept_query; apply _ : kept.
#[export] Hint Extern 1 (preserves _ (look _)) => apply kept_look; apply _ : kept.
#[export] Hint Extern 1 (preserves _ (send _)) => apply kept_send; apply _ : kept.
#[export] Hint Extern 1 (preserves _ (move _)) => apply kept_move; apply _ : kept.
#[export] Hint Extern 1 (preserves _ (sets (λ s, s <| dx_moved := _ |>))) => apply kept_moved; apply _ : kept.

Section Calls.
Context `{Hash, Unicode, Aead, Json, Base64, KeyWrap, Wire, OrderWire}.
Context (R : data_node → data_node → Prop) `{HR : !Ticking R}.
Lemma kept_metrics : preserves R metrics.
Proof using HR. unfold metrics. solve_preserves. Qed.
Lemma kept_credentials tp : preserves R (credentials tp).
Proof using HR. unfold credentials. solve_preserves. Qed.
Lemma kept_peer_of tp : preserves R (peer_of tp).
Proof using HR. unfold peer_of. solve_preserves. Qed.
Lemma kept_own_context : preserves R own_context.
Proof using HR. unfold own_context, new_uid, cfg_of. solve_preserves. Qed.
Lemma kept_own_location : preserves R own_location.
Proof using HR. unfold own_location, cfg_of. solve_preserves. Qed.
Lemma kept_new_receipt o b n h : preserves R (new_receipt o b n h).
Proof using HR. unfold new_receipt, new_uid, now_ms, cfg_of. solve_preserves. Qed.
Lemma kept_in_time tp d : preserves R (in_time tp d).
Proof using HR. unfold in_time, now_ms. solve_preserves. Qed.
Lemma kept_still_valid d : preserves R (still_valid d).
Proof using HR. unfold still_valid, now_ms. solve_preserves. Qed.
Lemma kept_read_block b : preserves R (read_block b).
Proof using HR. unfold read_block. solve_preserves. Qed.
Lemma kept_find_block i : preserves R (find_block i).
Proof using HR. unfold find_block. solve_preserves. Qed.
End Calls.
#[export] Hint Extern 1 (preserves _ metrics) => apply kept_metrics; apply _ : kept.
#[export] Hint Extern 1 (preserves _ (credentials _)) => apply kept_credentials; apply _ : kept.
#[export] Hint Extern 1 (preserves _ (peer_of _)) => apply kept_peer_of; apply _ : kept.
#[export] Hint Extern 1 (preserves _ own_context) => apply kept_own_context; apply _ : kept.
#[export] Hint Extern 1 (preserves _ own_location) => apply kept_own_location; apply _ : kept.
#[export] Hint Extern 1 (preserves _ (new_receipt _ _ _ _)) => apply kept_new_receipt; apply _ : kept.
#[export] Hint Extern 1 (preserves _ (in_time _ _)) => apply kept_in_time; apply _ : kept.
#[export] Hint Extern 1 (preserves _ (still_valid _)) => apply kept_still_valid; apply _ : kept.
#[export] Hint Extern 1 (preserves _ (read_block _)) => apply kept_read_block; apply _ : kept.
#[export] Hint Extern 1 (preserves _ (find_block _)) => apply kept_find_block; apply _ : kept.
Section Checks.
Context `{Hash, Unicode, Aead, Json, Base64, KeyWrap, Wire, OrderWire}.
Context (R : data_node → data_node → Prop) `{HR : !Ticking R}.
Lemma kept_authorized rq tp : preserves R (authorized rq tp).
Proof using HR. unfold authorized. solve_preserves. Qed.
Lemma kept_receive_put d n fs : preserves R (receive_put d n fs).
Proof using HR. unfold receive_put. solve_preserves. Qed.
Lemma kept_receive_delta h d fs : preserves R (receive_delta h d fs).
Proof using HR. unfold receive_delta. solve_preserves. Qed.
Lemma kept_result_of h d x : preserves R (result_of h d x).
Proof using HR. unfold result_of, base_chunks. solve_preserves. Qed.
Lemma kept_receive_replica f st : preserves R (receive_replica f st).
Proof using HR. unfold receive_replica. solve_preserves. Qed.
Lemma kept_replica_header st : preserves R (replica_header st).
Proof using HR. unfold replica_header. solve_preserves. Qed.
Lemma kept_control_peer tp c : preserves R (control_peer tp c).
Proof using HR. unfold control_peer, cfg_of. solve_preserves. Qed.
Lemma kept_internal_authorize rq a : preserves R (internal_authorize rq a).
Proof using HR. unfold internal_authorize. solve_preserves. Qed.
Lemma kept_authorize_delete rq : preserves R (authorize_delete rq).
Proof using HR. unfold authorize_delete, cfg_of. solve_preserves. Qed.
End Checks.
#[export] Hint Extern 1 (preserves _ (authorized _ _)) => apply kept_authorized; apply _ : kept.
#[export] Hint Extern 1 (preserves _ (receive_put _ _ _)) => apply kept_receive_put; apply _ : kept.
#[export] Hint Extern 1 (preserves _ (receive_delta _ _ _)) => apply kept_receive_delta; apply _ : kept.
#[export] Hint Extern 1 (preserves _ (result_of _ _ _)) => apply kept_result_of; apply _ : kept.
#[export] Hint Extern 1 (preserves _ (receive_replica _ _)) => apply kept_receive_replica; apply _ : kept.
#[export] Hint Extern 1 (preserves _ (replica_header _)) => apply kept_replica_header; apply _ : kept.
#[export] Hint Extern 1 (preserves _ (control_peer _ _)) => apply kept_control_peer; apply _ : kept.
#[export] Hint Extern 1 (preserves _ (internal_authorize _ _)) => apply kept_internal_authorize; apply _ : kept.
#[export] Hint Extern 1 (preserves _ (authorize_delete _)) => apply kept_authorize_delete; apply _ : kept.

Section Emits.
Context `{Hash, Unicode, Aead, Json, Base64, KeyWrap, Wire}.
Context (R : data_node → data_node → Prop) `{HR : !Idle R}.
Lemma kept_emit x : preserves R (emit x).
Proof using HR. unfold emit. solve_preserves. Qed.
End Emits.
#[export] Hint Extern 1 (preserves _ (emit _)) => apply kept_emit; apply _ : kept.

Section Streams.
Context `{Hash, Unicode, Aead, Json, Base64, KeyWrap, Wire, OrderWire}.
Context (R : data_node → data_node → Prop) `{HR : !Idle R}.
Lemma kept_send_part a n p c : preserves R (send_part a n p c).
Proof using HR. unfold send_part. solve_preserves. Qed.
Hint Extern 1 (preserves _ (send_part _ _ _ _)) => apply kept_send_part; apply _ : kept.
Lemma kept_send_range d a n p cs : preserves R (send_range d a n p cs).
Proof using HR. revert p. induction cs; intros p; cbn [send_range]; solve_preserves. Qed.
Lemma kept_send_piece d p : preserves R (send_piece d p).
Proof using HR. unfold send_piece. solve_preserves. Qed.
Lemma kept_send_object d t b r : preserves R (send_object d t b r).
Proof using HR.
  pose proof kept_send_piece. unfold send_object. solve_preserves.
Qed.
Lemma kept_ReportDurable rq : preserves R (ReportDurable rq).
Proof using HR. unfold ReportDurable. solve_preserves. Qed.
Lemma kept_send_page rs p : preserves R (send_page rs p).
Proof using HR. unfold send_page, cfg_of. solve_preserves. Qed.
End Streams.
#[export] Hint Extern 1 (preserves _ (send_range _ _ _ _ _)) => apply kept_send_range; apply _ : kept.
#[export] Hint Extern 1 (preserves _ (send_piece _ _)) => apply kept_send_piece; apply _ : kept.
#[export] Hint Extern 1 (preserves _ (send_object _ _ _ _)) => apply kept_send_object; apply _ : kept.
#[export] Hint Extern 1 (preserves _ (ReportDurable _)) => apply kept_ReportDurable; apply _ : kept.
#[export] Hint Extern 1 (preserves _ (send_page _ _)) => apply kept_send_page; apply _ : kept.
