(* ===== verification/NodeResources.v ===== *)
(** * What a stream of a data node takes, it gives back

    Reservations, admission units and pins are taken around the work of a
    stream; every way out of a handler that the process survives returns them. *)
From S2P Require Import Prelude Domain Data Store Auth Leases Cluster Requests Nodes Process Protected Local Blocks Patch DataNode Streams NodeTasks NodeEffects.

(** A version in use is counted: [del self.active[block_id]] at zero. *)
Definition counted (p : Pins.pins) : Prop := ∀ i, p.(Pins.active) !! i ≠ Some 0%nat.
Definition calm (s s' : data_node) : Prop :=
  counted s.(dx_pins) →
  s'.(dx_reserved) = s.(dx_reserved) ∧ s'.(dx_units) = s.(dx_units) ∧ s'.(dx_pins) = s.(dx_pins).
#[export] Instance calm_preorder : PreOrder calm.
Proof.
  split; [by intros s _|]. intros s1 s2 s3 H12 H23 Hc. destruct (H12 Hc) as (E1 & E2 & E3).
  destruct H23 as (E4 & E5 & E6); [by rewrite E3|]. split_and!; congruence.
Qed.
#[export] Instance idle_calm : Idle calm.
Proof. split; [apply _|]. intros s ? (? & ? & ? & ->) _. done. Qed.

Lemma unpin_pin i x p p' : counted p → Pins.pin i x p = Ok p' → Pins.unpin i p' = p ∧ counted p'.
Proof.
  unfold Pins.pin. destruct (_ && _) eqn:E; [|done]. intros Hc [= <-]. bsimpl. split.
  - unfold Pins.unpin, Pins.count. simpl. rewrite lookup_insert_eq. simpl. destruct p as [a ws]; simpl in *. f_equal.
    + case_decide as Hd.
      * rewrite delete_insert_eq. apply delete_id. destruct (a !! i) as [n|] eqn:Hi; [|done]. simpl in Hd. subst.
        by destruct (Hc i).
      * rewrite insert_insert_eq. apply insert_id. destruct (a !! i) as [n|] eqn:Hi; simpl in Hd |- *; [done|lia].
    + destruct x; set_solver.
  - intros j. simpl. destruct (decide (i = j)) as [<-|Hne]; [by rewrite lookup_insert_eq|].
    rewrite lookup_insert_ne by done. apply Hc.
Qed.

Section Brackets.
Context `{Hash, Unicode, Aead, Json, Base64, KeyWrap, Wire}.

Lemma calm_txn f : preserves calm (txn f).
Proof. unfold txn. apply preserves_bind; [apply _|apply kept_tick; apply _|intros]. apply preserves_sets. by intros s _. Qed.

(** A bracket: [f] before, [g] after, whatever [m] does in between. *)
Lemma calm_bracket {A} (f g : data_node → data_node) (m : N A) s w :
  restores calm m → (∀ s1, calm (f s) s1 → calm s (g s1)) →
  (try_finally m (sets g) w (f s)).1 ≠ Err Exit → calm s (try_finally m (sets g) w (f s)).2.
Proof.
  intros Hm Hg. unfold try_finally. specialize (Hm w (f s)). destruct (m w (f s)) as [[a|[]] s1]; simpl in *;
    intros Hx; try done; apply Hg, Hm; congruence.
Qed.
Lemma calm_reserving {A} n (m : N A) : restores calm m → restores calm (reserving n m).
Proof.
  intros Hm w s. unfold reserving, mbind, pm_bind.
  assert (∀ w s, match reserve n w s with
    | (Ok _, s1) => ∃ s0, idle s s0 ∧ s1 = s0 <| dx_reserved ::= Z.add n |>
    | (Err _, s1) => idle s s1 end) as Hr.
  { clear. intros w s. unfold reserve, mbind, pm_bind. pose proof (kept_metrics idle w s) as Hk.
    destruct (metrics w s) as [[[[[[u fr] a] r] c]|x] s0]; simpl in *; [|done].
    destruct (_ && _); simpl; [by exists s0|done]. }
  specialize (Hr w s). destruct (reserve n w s) as [[u|x] s1].
  - destruct Hr as (s0 & Hi & ->). intros Hx. etrans; [by apply idle_within|].
    revert Hx. apply calm_bracket; [done|]. intros s1 Hc Hp. destruct (Hc Hp) as (E1 & E2 & E3).
    simpl in *. split_and!; [lia|done|done].
  - intros _. by apply idle_within.
Qed.
Lemma calm_admitted {A} b (m : N A) : restores calm m → restores calm (admitted b m).
Proof.
  intros Hm w s. unfold admitted, mbind, pm_bind. destruct (LocalCoordinator.weight b) as [x|]; [|by intros _ _].
  cbn [mret pm_ret gets]. destruct (x <=? dx_units s); [|by intros _ _]. cbn [demand mret pm_ret sets].
  intros Hx. revert Hx. apply (calm_bracket (λ s, s <| dx_units ::= λ u, u - x |>)); [done|].
  intros s1 Hc Hp. destruct (Hc Hp) as (E1 & E2 & E3). simpl in *. split_and!; [done|lia|done].
Qed.
Lemma calm_pinned {A} i x (m : N A) : restores calm m → restores calm (pinned i x m).
Proof.
  intros Hm w s. unfold pinned, mbind, pm_bind. cbn [gets of_result].
  destruct (Pins.pin i x (dx_pins s)) as [p'|] eqn:Hpin; [|by intros _ _]. cbn [of_result mret pm_ret sets].
  apply (calm_bracket (λ s, s <| dx_pins := p' |>)); [done|].
  intros s1 Hc Hp. destruct (unpin_pin _ _ _ _ Hp Hpin) as [Hu Hp'].
  destruct (Hc Hp') as (E1 & E2 & E3). simpl in *. by rewrite E3.
Qed.
End Brackets.
#[export] Hint Resolve calm_txn : kept.
Ltac solve_calm :=
  repeat first [ apply calm_reserving | apply calm_admitted | apply calm_pinned | restores_step ].

Section Handlers.
Context `{Hash, Unicode, Aead, Json, Base64, KeyWrap, Wire, OrderWire}.
Hint Extern 1 (preserves calm (sets _)) => (apply preserves_sets; by intros ? _) : kept.

Lemma calm_count n a : preserves calm (count n a).
Proof. unfold count. solve_preserves. Qed.
Hint Resolve calm_count : kept.
Lemma calm_store_object b m : preserves calm m → preserves calm (store_object b m).
Proof. intros Hm. unfold store_object. solve_preserves. Qed.
Hint Resolve calm_store_object : kept.
Lemma calm_import_object b m n h : preserves calm m → preserves calm (import_object b m n h).
Proof. intros Hm. unfold import_object. solve_preserves. Qed.
Hint Resolve calm_import_object : kept.
Lemma calm_report_task t : preserves calm (report_task t).
Proof. unfold report_task, cfg_of. solve_preserves. Qed.
Hint Resolve calm_report_task : kept.
Lemma calm_PutBlock fs tp : restores calm (PutBlock fs tp).
Proof. unfold PutBlock, authorize_put, store_put, write_put, cfg_of. solve_calm. Qed.
Lemma calm_PatchBlock fs tp : restores calm (PatchBlock fs tp).
Proof. unfold PatchBlock, patch_block, await_base, pinning_base, store_patch, cfg_of. solve_calm. Qed.
Lemma calm_GetBlock rq tp : restores calm (GetBlock rq tp).
Proof. unfold GetBlock, authorize_get, cfg_of. solve_calm. Qed.
Lemma calm_GetReplica rq tp : restores calm (GetReplica rq tp).
Proof. unfold GetReplica, cfg_of. solve_calm. Qed.
Lemma calm_VerifyReceipt rq tp : restores calm (VerifyReceipt rq tp).
Proof. unfold VerifyReceipt, cfg_of. solve_calm. Qed.
Lemma calm_ReplicateBlock rq tp : restores calm (ReplicateBlock rq tp).
Proof. unfold ReplicateBlock, cfg_of. solve_calm. Qed.
Lemma calm_DeleteRetiredBlock rq tp : restores calm (DeleteRetiredBlock rq tp).
Proof. unfold DeleteRetiredBlock, remove_retired, cfg_of. solve_calm. Qed.
Lemma calm_maintain : restores calm maintain.
Proof. unfold maintain, register_inventory, heartbeat, cfg_of, now_ms, new_uid. solve_calm. Qed.
Lemma calm_run_pool : restores calm run_pool.
Proof.
  unfold run_pool, copy, copy_block, quarantine, confirm_copy, fetch_copy, cfg_of. solve_calm.
Qed.
Lemma calm_perform a : restores calm (perform a).
Proof.
  destruct a; simpl; try (apply restores_bind; [apply _| |intros; apply preserves_restores, preserves_ret, _]).
  - apply calm_PutBlock.
  - apply calm_PatchBlock.
  - apply calm_GetBlock.
  - apply calm_GetReplica.
  - unfold GetKeyStatus, cfg_of. solve_calm.
  - apply calm_VerifyReceipt.
  - apply calm_ReplicateBlock.
  - apply calm_run_pool.
  - unfold GetTask. solve_calm.
  - apply calm_DeleteRetiredBlock.
  - apply calm_maintain.
Qed.

(** C19: Whatever a data node is asked and however it ends, short of the
    process itself, a stream gives back exactly what it took: the reserved
    bytes, the admission units and the pins of block versions are those from
    before it, so no error path can leak capacity or leave a version locked. *)
Theorem streams_give_back a w s :
  counted s.(dx_pins) → (perform a w s).1 ≠ Err Exit →
  let s' := (perform a w s).2 in
  s'.(dx_reserved) = s.(dx_reserved) ∧ s'.(dx_units) = s.(dx_units) ∧ s'.(dx_pins) = s.(dx_pins).
Proof. intros Hc Hx. by apply (calm_perform a w s). Qed.
End Handlers.
