(* ===== verification/Inventory.v ===== *)
(** * The inventory of a data node describes the objects it holds

    An object is durable before it is recorded, and its record goes before
    another object may take its place: every record of the inventory is backed
    by a file with the size and digest of its receipt.  Only a stop inside a
    deletion or a replacement can leave a record without its file. *)
From S2P Require Import Prelude Domain Data Store Auth Leases Cluster Requests Nodes Process Protected Local Blocks Patch DataNode Streams NodeTasks NodeEffects.

(** An assertion about what outlives the process. *)
Class Durable (P : data_node → Prop) := durable s s' : volatile s s' → P s → P s'.

Section Assertions.
Context `{Hash, Unicode, Aead, Json, Base64, KeyWrap, Wire}.
Context (I : failure → data_node → Prop) `{HI : ∀ x, Durable (I x)} (w : node_env).
Implicit Types (P : data_node → Prop).

Lemma ensures_volatile {A} P `{!Durable P} (m : N A) :
  preserves volatile m → (∀ x s, P s → I x s) → ensures I w P m (λ _, P).
Proof. intros Hm HP. apply (ensures_kept I w volatile); [done|apply durable|done]. Qed.
(** A bracket whose ends change nothing durable. *)
Lemma ensures_bracket {A} P (Q : A → data_node → Prop) `{HQ : ∀ a, Durable (Q a)} f g (m : N A) s :
  (∀ s, volatile s (f s)) → (∀ s, volatile s (g s)) → Durable P → ensures I w P m Q → P s →
  match try_finally m (sets g) w (f s) with (Ok a, s') => Q a s' | (Err x, s') => I x s' end.
Proof using HI.
  intros Hf Hg HP Hm Hs. apply (ensures_finally I w P m (sets g) Q Q); [done| | |].
  - intros a. apply ensures_sets. intros s1. by apply durable.
  - intros x _. apply ensures_sets. intros s1. by apply HI.
  - by eapply (HP s).
Qed.
Lemma volatile_reserve n : preserves volatile (reserve n).
Proof.
  unfold reserve, cfg_of. solve_preserves. apply preserves_sets. by intros.
Qed.
Lemma ensures_reserving {A} P (Q : A → data_node → Prop) `{!Durable P} `{HQ : ∀ a, Durable (Q a)} n (m : N A) :
  (∀ x s, P s → I x s) → ensures I w P m Q → ensures I w P (reserving n m) Q.
Proof using HI.
  intros HP Hm. unfold reserving. eapply ensures_bind; [apply ensures_volatile; [apply _|apply volatile_reserve|done]|].
  intros _ s Hs. by apply (ensures_bracket P Q (λ s, s)).
Qed.
Lemma ensures_admitted {A} P (Q : A → data_node → Prop) `{HP' : !Durable P} `{HQ : ∀ a, Durable (Q a)} b (m : N A) :
  (∀ x s, P s → I x s) → ensures I w P m Q → ensures I w P (admitted b m) Q.
Proof using HI.
  intros HP Hm s Hs. unfold admitted, mbind, pm_bind. destruct (LocalCoordinator.weight b); [|by apply HP].
  cbn [mret pm_ret gets]. destruct (_ <=? _); [|by apply HP]. cbn [demand mret pm_ret sets].
  by apply (ensures_bracket P Q (λ s, s <| dx_units ::= _ |>)).
Qed.
Lemma ensures_pinned {A} P (Q : A → data_node → Prop) `{HP' : !Durable P} `{HQ : ∀ a, Durable (Q a)} i x (m : N A) :
  (∀ x s, P s → I x s) → ensures I w P m Q → ensures I w P (pinned i x m) Q.
Proof using HI.
  intros HP Hm s Hs. unfold pinned, mbind, pm_bind. cbn [gets].
  destruct (Pins.pin _ _ _) as [p'|]; [|by apply HP]. cbn [of_result mret pm_ret sets].
  by apply (ensures_bracket P Q (λ s, s <| dx_pins := p' |>)).
Qed.
Lemma ensures_txn P (Q : unit → data_node → Prop) f `{!Durable P} :
  (∀ s, P s → I Exit s) → (∀ s, P s → Q tt (s <| dx_tables ::= f |>)) → ensures I w P (txn f) Q.
Proof.
  intros HP HQ. unfold txn. eapply ensures_bind; [apply (ensures_tick I w P); [|done]|].
  - intros s. apply durable. by split.
  - intros i. apply ensures_sets. done.
Qed.
End Assertions.

Section Inventory.
Context `{Hash, Unicode, Aead, Json, Base64, KeyWrap, Wire, OrderWire}.

(** ** The invariant *)
Definition holds_object (bs : block_store) (b : BlockRef) (n : Z) (h : string) : Prop :=
  ∃ s, bs.(bs_files) !! path_of b = Some s ∧ n = slen s ∧ h = sha256 s.
Definition backs (bs : block_store) (i : string) (x : stored_block) : Prop :=
  x.(sb_id) = i ∧ x.(sb_ref).(br_block_version_id) = i ∧ x.(sb_receipt).(dr_block) = x.(sb_ref)
  ∧ x.(sb_receipt).(dr_stored_size_bytes) = x.(sb_size)
  ∧ holds_object bs x.(sb_ref) x.(sb_size) x.(sb_receipt).(dr_ciphertext_sha256).
Definition backed (s : data_node) : Prop :=
  ∀ i x, s.(dx_tables).(tb_blocks) !! i = Some x → backs s.(dx_blocks) i x.
#[local] Instance backed_durable : Durable backed.
Proof. intros s s' [Hb Ht] Hs i x. rewrite Ht, Hb. apply Hs. Qed.
(** An object that is held is still held after another one was added. *)
Lemma holds_insert bs b n h b' t : bs.(bs_files) !! path_of b' = None → holds_object bs b n h →
  holds_object (bs <| bs_files ::= <[path_of b' := t]> |>) b n h.
Proof.
  intros Hn (s & Hs & Hr). exists s. split; [|done]. simpl. rewrite lookup_insert_ne; [done|congruence].
Qed.
Lemma backed_insert s b t : s.(dx_blocks).(bs_files) !! path_of b = None → backed s →
  backed (s <| dx_blocks := s.(dx_blocks) <| bs_files ::= <[path_of b := t]> |> |>).
Proof.
  intros Hn Hs i x Hx. destruct (Hs i x Hx) as (? & ? & ? & ? & Hh). split_and!; try done.
  simpl. by apply holds_insert.
Qed.
Definition new_record (b : BlockRef) (n : Z) (h : string) (x : stored_block) : Prop :=
  x.(sb_id) = b.(br_block_version_id) ∧ x.(sb_ref) = b ∧ x.(sb_size) = n ∧ x.(sb_receipt).(dr_block) = b
  ∧ x.(sb_receipt).(dr_stored_size_bytes) = n ∧ x.(sb_receipt).(dr_ciphertext_sha256) = h.
Lemma backed_record s b n h x (f : node_tables → node_tables) :
  new_record b n h x → (∀ t, tb_blocks (f t) = <[x.(sb_id) := x]> t.(tb_blocks)) →
  holds_object s.(dx_blocks) b n h → backed s → backed (s <| dx_tables ::= f |>).
Proof.
  intros (Hi & Hb & Hn & Hr & Hn' & Hh') Hf Hh Hs i y. simpl. rewrite Hf, lookup_insert_Some.
  intros [[<- <-]|[_ Hy]]; [|by apply Hs]. unfold backs. rewrite Hb, Hn, Hh'. split_and!; congruence.
Qed.
Lemma put_object_holds bs b cs dek p bs' n h : put_object bs b cs dek p = Ok (bs', n, h) →
  ∃ t, bs' = bs <| bs_files ::= <[path_of b := t]> |> ∧ bs.(bs_files) !! path_of b = None
       ∧ holds_object bs' b n h.
Proof.
  unfold put_object. repeat (case_match; [done|]). intros [= <- <- <-]. eexists. split_and!; [done| |].
  - by apply eq_None_not_Some.
  - eexists. split; [apply lookup_insert_eq|done].
Qed.
Lemma import_holds bs b cs n h bs' : import_ciphertext bs b cs n h = Ok bs' →
  ∃ t, bs' = bs <| bs_files ::= <[path_of b := t]> |> ∧ bs.(bs_files) !! path_of b = None
       ∧ holds_object bs' b n h.
Proof.
  unfold import_ciphertext. repeat (case_match; try done); bsimpl. intros [= <-]. eexists. split_and!; [done| |].
  - by apply eq_None_not_Some.
  - eexists. split; [apply lookup_insert_eq|done].
Qed.

(** ** Runs that keep it *)
(** A failed run keeps the invariant too, a stop of a [loose] one apart. *)
Variables (loose : bool) (w : node_env).
Definition kept_or_stopped (x : failure) (s : data_node) : Prop := backed s ∨ (loose = true ∧ x = Exit).
#[local] Instance kept_or_stopped_durable x : Durable (kept_or_stopped x).
Proof. intros s s' Hv [Hs|?]; [left; by apply (durable s)|by right]. Qed.
Lemma backed_kept x s : backed s → kept_or_stopped x s.
Proof. by left. Qed.
Hint Resolve backed_kept : core.
Definition inv {A} (m : N A) : Prop := ensures kept_or_stopped w backed m (λ _, backed).

Lemma inv_volatile {A} (m : N A) : preserves volatile m → inv m.
Proof. intros Hm. apply ensures_volatile; [apply _|done|auto]. Qed.
Lemma inv_bind {A B} (m : N A) (f : A → N B) : inv m → (∀ a, inv (f a)) → inv (m ≫= f).
Proof. intros Hm Hf. by eapply ensures_bind. Qed.
Lemma survived x s : x ≠ Exit → kept_or_stopped x s → backed s.
Proof. intros Hx [?|[_ ?]]; done. Qed.
Lemma inv_finally {A} (m : N A) f : inv m → inv f → inv (try_finally m f).
Proof.
  intros Hm Hf. eapply ensures_finally; [done|intros; apply Hf|].
  intros x Hx. eapply ensures_weaken; [apply Hf|by apply (λ s, survived x s Hx)|auto].
Qed.
Lemma inv_except {A} (m : N A) h : inv m → (∀ x, inv (h x)) → inv (try_except m h).
Proof.
  intros Hm Hh. eapply ensures_except; [done|].
  intros x Hx. eapply ensures_weaken; [apply Hh|by apply (λ s, survived x s Hx)|auto].
Qed.
Lemma inv_each {A} (l : list A) f : (∀ a, inv (f a)) → inv (each l f).
Proof. intros Hf. apply ensures_each; auto. intros a _. apply Hf. Qed.
Lemma inv_reserving {A} n (m : N A) : inv m → inv (reserving n m).
Proof. intros Hm. apply (ensures_reserving _ w backed (λ _, backed)); auto. Qed.
Lemma inv_admitted {A} b (m : N A) : inv m → inv (admitted b m).
Proof. intros Hm. apply (ensures_admitted _ w backed (λ _, backed)); auto. Qed.
Lemma inv_pinned {A} i x (m : N A) : inv m → inv (pinned i x m).
Proof. intros Hm. apply (ensures_pinned _ w backed (λ _, backed)); auto. Qed.
(** A transaction that leaves the inventory alone. *)
Lemma inv_txn f : (∀ t, tb_blocks (f t) = t.(tb_blocks)) → inv (txn f).
Proof.
  intros Hf. apply ensures_txn; [apply _|auto|].
  intros s Hs i x. simpl. rewrite Hf. apply Hs.
Qed.
Lemma inv_count n a : inv (count n a).
Proof. by apply inv_txn. Qed.

(** The state between making an object durable and recording it. *)
Definition stored_as (b : BlockRef) (n : Z) (h : string) (s : data_node) : Prop :=
  backed s ∧ holds_object s.(dx_blocks) b n h.
#[local] Instance stored_as_durable b n h : Durable (stored_as b n h).
Proof. intros s s' Hv [Hs Ho]. split; [by apply (durable s)|]. by rewrite (proj1 Hv). Qed.
Lemma stored_as_kept b n h x s : stored_as b n h s → kept_or_stopped x s.
Proof. intros [? _]. by left. Qed.
Hint Resolve stored_as_kept : core.
Lemma store_object_holds b m : preserves volatile m →
  ensures kept_or_stopped w backed (store_object b m) (λ r, stored_as b r.1 r.2).
Proof.
  intros Hm. unfold store_object.
  do 4 (eapply ensures_bind; [apply ensures_volatile; [apply _|solve_preserves|auto]|intros ?]).
  eapply ensures_bind; [apply ensures_volatile; [apply _|solve_preserves|auto]|intros d].
  destruct d as [[]|]; [apply ensures_fail; auto..|].
  eapply ensures_bind; [apply ensures_gets|intros bs].
  eapply ensures_bind; [apply ensures_of_result; intros ? ? []; auto|intros [[bs' n] h]].
  intros s [[Hs ->] Hput]. destruct (put_object_holds _ _ _ _ _ _ _ _ Hput) as (t & -> & Hn & Ho).
  cbn. split; [by apply backed_insert|done].
Qed.
Lemma import_object_holds b m n h : preserves volatile m →
  ensures kept_or_stopped w backed (import_object b m n h) (λ _, stored_as b n h).
Proof.
  intros Hm. unfold import_object.
  do 2 (eapply ensures_bind; [apply ensures_volatile; [apply _|solve_preserves|auto]|intros ?]).
  eapply ensures_bind; [apply ensures_volatile; [apply _|solve_preserves|auto]|intros d].
  destruct d as [d|]; [apply ensures_fail; auto|].
  eapply ensures_bind; [apply ensures_gets|intros bs].
  eapply ensures_bind; [apply ensures_of_result; intros ? ? []; auto|intros bs'].
  intros s [[Hs ->] Himp]. destruct (import_holds _ _ _ _ _ _ Himp) as (t & -> & Hn & Ho).
  cbn. split; [by apply backed_insert|done].
Qed.
(** A new receipt is one for the object it was made for. *)
Definition receipt_for (b : BlockRef) (n : Z) (h : string) (r : DurableReceipt) : Prop :=
  r.(dr_block) = b ∧ r.(dr_stored_size_bytes) = n ∧ r.(dr_ciphertext_sha256) = h.
Lemma new_receipt_for P `{!Durable P} o b n h : (∀ x s, P s → kept_or_stopped x s) →
  ensures kept_or_stopped w P (new_receipt o b n h) (λ r s, P s ∧ receipt_for b n h r).
Proof.
  intros HP. unfold new_receipt, cfg_of.
  do 4 (eapply ensures_bind; [apply ensures_volatile; [apply _|solve_preserves|done]|intros ?]).
  by apply ensures_ret.
Qed.
(** Recording it: the record is the one of the object that was just stored. *)
Lemma record_object b n h x f : new_record b n h x →
  (∀ t, tb_blocks (f t) = <[x.(sb_id) := x]> t.(tb_blocks)) →
  ensures kept_or_stopped w (stored_as b n h) (txn f) (λ _, backed).
Proof.
  intros Hx Hf. apply ensures_txn; [apply _|eauto|].
  intros s [Hs Ho]. by eapply backed_record.
Qed.

Hint Extern 1 (preserves volatile (sets _)) => (apply preserves_sets; by intros ?) : kept.
Ltac inv_step :=
  first
    [ apply inv_reserving | apply inv_admitted | apply inv_pinned | apply inv_count
    | match goal with
      | |- inv (_ ≫= _) => apply inv_bind; [|intros ?]
      | |- inv (try_finally _ _) => apply inv_finally
      | |- inv (try_except _ _) => apply inv_except; [|intros ?]
      | |- inv (each _ _) => apply inv_each; intros ?
      | |- inv (match ?x with _ => _ end) => destruct x
      | |- inv (let _ := _ in _) => cbv zeta
      end
    | apply inv_volatile; solve [solve_preserves] ].
Ltac solve_inv := repeat first [ done | inv_step ].

Lemma new_record_of b n h r rec : receipt_for b n h r →
  new_record b n h (mkStored r.(dr_block).(br_block_version_id) r.(dr_block) r.(dr_stored_size_bytes) r rec).
Proof. by intros (<- & <- & <-). Qed.
Lemma inv_store_put h d fs : inv (store_put h d fs).
Proof.
  unfold store_put, write_put. cbv zeta. apply inv_admitted, inv_pinned, inv_reserving.
  eapply ensures_bind; [apply store_object_holds; solve_preserves|intros [n digest]; simpl].
  eapply ensures_bind; [apply new_receipt_for; [apply _|eauto]|intros r].
  apply ensures_pure. intros Hr.
  eapply ensures_bind; [eapply record_object; [|intros t; reflexivity]|intros ?].
  { by apply new_record_of. }
  eapply ensures_bind; [apply inv_count|intros ?]. by apply ensures_ret.
Qed.
Lemma inv_store_patch h d fs : inv (store_patch h d fs).
Proof.
  unfold store_patch. cbv zeta. apply inv_reserving.
  do 5 (apply inv_bind; [solve_inv|intros ?]).
  eapply ensures_bind; [apply store_object_holds; solve_preserves|intros [n digest]; simpl].
  eapply ensures_bind; [apply new_receipt_for; [apply _|eauto]|intros r].
  apply ensures_pure. intros Hr.
  eapply ensures_bind; [eapply record_object; [|intros t; reflexivity]|intros ?].
  { by apply new_record_of. }
  do 4 (apply inv_bind; [apply inv_count|intros ?]). by apply ensures_ret.
Qed.
Hint Resolve inv_store_put inv_store_patch : core.
Lemma inv_PutBlock fs tp : inv (PutBlock fs tp).
Proof. unfold PutBlock, authorize_put, cfg_of. solve_inv. Qed.
Lemma inv_PatchBlock fs tp : inv (PatchBlock fs tp).
Proof. unfold PatchBlock, patch_block, await_base, pinning_base, cfg_of. solve_inv. Qed.
Lemma inv_GetBlock rq tp : inv (GetBlock rq tp).
Proof. unfold GetBlock, authorize_get, cfg_of. solve_inv. Qed.
Lemma inv_GetReplica rq tp : inv (GetReplica rq tp).
Proof. unfold GetReplica, cfg_of. solve_inv. Qed.
Lemma inv_GetKeyStatus c tp : inv (GetKeyStatus c tp).
Proof. unfold GetKeyStatus, cfg_of. solve_inv. Qed.
Lemma inv_VerifyReceipt rq tp : inv (VerifyReceipt rq tp).
Proof. unfold VerifyReceipt, cfg_of. solve_inv. Qed.
Lemma inv_report_task t : inv (report_task t).
Proof. unfold report_task, cfg_of. solve_inv. by apply inv_txn. Qed.
Hint Resolve inv_report_task : core.
Lemma inv_GetTask c i tp : inv (GetTask c i tp).
Proof. unfold GetTask, cfg_of. solve_inv. Qed.
Lemma inv_ReplicateBlock rq tp : inv (ReplicateBlock rq tp).
Proof. unfold ReplicateBlock, cfg_of. solve_inv. by apply inv_txn. Qed.
Lemma inv_maintain : inv maintain.
Proof. unfold maintain, register_inventory, heartbeat, cfg_of. solve_inv. Qed.

(** ** Starts *)
Lemma described_ref f i t b : described f i t = Some (Some b) → path_of b = (f, i) ∧ b.(br_block_version_id) = i.
Proof.
  unfold described. repeat (case_match; try done). all: by intros [= <-].
Qed.
(** While the recorded objects are walked through, the files stay. *)
Definition walking (F : gmap (string * string) string) (s : data_node) : Prop :=
  backed s ∧ s.(dx_blocks).(bs_files) = F.
#[local] Instance walking_durable F : Durable (walking F).
Proof. intros s s' Hv [Hs Hf]. split; [by apply (durable s)|]. by rewrite (proj1 Hv). Qed.
Lemma walking_kept F x s : walking F s → kept_or_stopped x s.
Proof. intros [? _]. by left. Qed.
Hint Resolve walking_kept : core.
Lemma recover_object_walks F f i t : F !! (f, i) = Some t →
  ensures kept_or_stopped w (walking F) (recover_object f i t) (λ _, walking F).
Proof.
  intros Ht. unfold recover_object. destruct (described f i t) as [[b|]|] eqn:Hd;
    [|by apply ensures_ret|apply ensures_fail; eauto].
  apply described_ref in Hd as [Hp Hi].
  eapply ensures_bind; [apply ensures_volatile; [apply _|solve_preserves|eauto]|intros bs].
  destruct (read_verified bs b); [|by apply ensures_ret].
  eapply ensures_bind; [apply ensures_volatile; [apply _|solve_preserves|eauto]|intros op].
  eapply ensures_bind; [apply new_receipt_for; [apply _|eauto]|intros r].
  apply ensures_pure. intros Hr. apply ensures_txn; [apply _|eauto|]. intros s [Hs Hf]. split; [|done].
  eapply (backed_record s b (slen t) (sha256 t)); [|intros tb; reflexivity| |done].
  - destruct Hr as (? & ? & ?). split_and!; done.
  - exists t. split; [|done]. by rewrite Hf, Hp.
Qed.
Lemma inv_recover : inv recover_unindexed_objects.
Proof.
  intros s Hs. unfold recover_unindexed_objects, mbind at 1, pm_bind at 1. cbn [gets].
  set (F := bs_files (dx_blocks s)). assert (walking F s) as Hw by done. clearbody F. revert s Hs Hw.
  assert (ensures kept_or_stopped w (walking F) (each (map_to_list F) (λ '((file, id), s),
    demand (is_uuid file) INVALID_ARGUMENT;; demand (is_uuid id) INVALID_ARGUMENT;;
    known ← find_block id;
    match known with Some _ => mret tt | None => recover_object file id s end)) (λ _, walking F)) as Hall.
  { apply ensures_each; [eauto|]. intros [[f i] t] Hin%elem_of_map_to_list.
    do 3 (eapply ensures_bind; [apply ensures_volatile; [apply _|solve_preserves|eauto]|intros ?]).
    destruct a1; [by apply ensures_ret|by apply recover_object_walks]. }
  intros s _ Hw. specialize (Hall s Hw).
  match goal with |- match ?m with _ => _ end => destruct m as [[u|x] s'] end; [apply Hall|done].
Qed.
Lemma inv_boot k : inv (boot_node k).
Proof.
  unfold boot_node, key_bytes, cfg_of. solve_inv; [by apply inv_txn| |apply inv_recover].
  apply ensures_sets. intros s Hs j x Hx. exact (Hs j x Hx).
Qed.

(** ** Removals *)
Hypothesis Hloose : loose = true.
Lemma inv_unlink b g : (∀ t, tb_blocks (g t) = delete b.(br_block_version_id) t.(tb_blocks)) →
  inv (sets (λ s, s <| dx_blocks ::= λ bs, bs <| bs_files ::= delete (path_of b) |> |>);; txn g).
Proof using Hloose.
  intros Hg. set (i := b.(br_block_version_id)) in *.
  set (P := λ s : data_node, ∀ j x, s.(dx_tables).(tb_blocks) !! j = Some x → j ≠ i → backs s.(dx_blocks) j x).
  assert (Durable P) by (intros s s' [Hb Ht] Hs j x; rewrite Hb, Ht; apply Hs).
  eapply (ensures_bind _ _ _ _ _ (λ _, P)).
  - apply ensures_sets. intros s Hs j x Hx Hj. destruct (Hs j x Hx) as (? & Hi & ? & ? & t & Ht & ?).
    split_and!; try done. exists t. split; [|done]. simpl. rewrite lookup_delete_ne; [done|].
    intros [= _ E]. apply Hj. by rewrite <- Hi, <- E.
  - intros u. apply ensures_txn; [done|by right|]. intros s Hs j x. simpl. rewrite Hg, lookup_delete_Some.
    intros [Hj Hx]. apply (Hs j x Hx). by intros ->.
Qed.
Ltac solve_removal := repeat first [ done | apply inv_unlink; [done] | inv_step ].
Lemma inv_DeleteRetiredBlock rq tp : inv (DeleteRetiredBlock rq tp).
Proof using Hloose. unfold DeleteRetiredBlock, remove_retired, cfg_of. solve_removal. Qed.
Lemma inv_quarantine rq x : inv (quarantine rq x).
Proof using Hloose. unfold quarantine, cfg_of. solve_removal. Qed.
(** The record of a copy that was already there gets a new receipt. *)
Lemma inv_confirm_copy rq x i : ensures kept_or_stopped w
  (λ s, backed s ∧ s.(dx_tables).(tb_blocks) !! i = Some x) (confirm_copy rq x) (λ _, backed).
Proof.
  set (P := λ s, backed s ∧ s.(dx_tables).(tb_blocks) !! i = Some x).
  assert (Durable P) by (intros s s' Hv [Hs Hx]; split; [by apply (durable s)|by rewrite (proj2 Hv)]).
  assert (∀ y s, P s → kept_or_stopped y s) by (intros y s [? _]; auto).
  unfold confirm_copy. do 5 (eapply ensures_bind; [apply ensures_volatile; [apply _|solve_preserves|done]|intros ?]).
  eapply (ensures_bind _ _ _ _ _ (λ _, backed)); [|intros; apply ensures_ret; done].
  apply ensures_txn; [apply _|by intros s [? _]; auto|].
  intros s [Hs Hx] j y. simpl. destruct (Hs i x Hx) as (E1 & E2 & E3 & E4 & Ho).
  rewrite E1, lookup_insert_Some. intros [[<- <-]|[_ Hy]]; [|by apply Hs]. split_and!; done.
Qed.
Lemma inv_fetch_copy rq : inv (fetch_copy rq).
Proof.
  unfold fetch_copy, cfg_of. cbv zeta. apply inv_reserving. do 6 (apply inv_bind; [solve_inv|intros ?]).
  eapply ensures_bind; [apply import_object_holds; solve_preserves|intros u; simpl].
  eapply ensures_bind; [apply new_receipt_for; [apply _|eauto]|intros r].
  apply ensures_pure. intros Hr.
  eapply ensures_bind; [eapply record_object; [|intros t; reflexivity]|intros ?].
  { destruct Hr as (<- & <- & <-). done. }
  apply inv_bind; [apply inv_count|intros ?]. by apply ensures_ret.
Qed.
Lemma inv_copy_block rq : inv (copy_block rq).
Proof using Hloose.
  unfold copy_block. cbv zeta. apply inv_admitted, inv_pinned.
  set (i := br_block_version_id (rb_block rq)).
  set (P := λ (o : option stored_block) s, backed s ∧ (∀ x, o = Some x → s.(dx_tables).(tb_blocks) !! i = Some x)).
  eapply (ensures_bind _ _ _ _ _ P).
  { unfold find_block, look. eapply ensures_bind; [apply ensures_volatile; [apply _|solve_preserves|auto]|intros ?].
    intros s Hs. simpl. by split. }
  intros o. eapply (ensures_bind _ _ _ _ _ P).
  - destruct o as [x|]; [destruct (empty _)|]; [by apply ensures_ret| |by apply ensures_ret].
    eapply (ensures_bind _ _ _ _ _ (λ _, backed)); [|intros; by apply ensures_ret].
    eapply ensures_weaken; [apply inv_quarantine|by intros s [? _]|done].
  - intros o'. eapply (ensures_bind _ _ _ _ _ (λ _, backed)); [|intros; by apply ensures_ret].
    destruct o' as [x|].
    + eapply ensures_weaken; [apply (inv_confirm_copy rq x i)| |done]. intros s [Hs Hx]. split; [done|by apply Hx].
    + eapply ensures_weaken; [apply inv_fetch_copy|by intros s [? _]|done].
Qed.
Hint Resolve inv_copy_block : core.
Lemma inv_run_pool : inv run_pool.
Proof using Hloose.
  unfold run_pool, copy. cbv zeta. solve_inv; by apply inv_txn.
Qed.
End Inventory.

Section Histories.
Context `{Hash, Unicode, Aead, Json, Base64, KeyWrap, Wire, OrderWire}.
Lemma inv_perform loose w a : (removes a = true → loose = true) → inv loose w (perform a).
Proof.
  intros Hl. destruct a; simpl; try (apply inv_bind; [|intros; by apply ensures_ret]).
  - apply inv_PutBlock.
  - apply inv_PatchBlock.
  - apply inv_GetBlock.
  - apply inv_GetReplica.
  - apply inv_GetKeyStatus.
  - apply inv_VerifyReceipt.
  - apply inv_ReplicateBlock.
  - by apply inv_run_pool, Hl.
  - apply inv_GetTask.
  - by apply inv_DeleteRetiredBlock, Hl.
  - apply inv_maintain.
Qed.
Lemma inv_backed {A} loose w (m : N A) s : inv loose w m → backed s →
  ((m w s).1 = Err Exit → loose = false) → backed (m w s).2.
Proof.
  intros Hm Hs Hx. specialize (Hm s Hs). destruct (m w s) as [[a|x] s']; simpl in *; [done|].
  destruct Hm as [?|[-> ->]]; [done|]. by specialize (Hx eq_refl).
Qed.

End Histories.
