(* ===== verification/NodeContent.v ===== *)
(** * What a data node reads out and writes in

    A read sends exactly the range that was asked for, whatever pieces the
    object is kept in; a replica carries the stored bytes unchanged from one
    node to another; an acknowledged block reads as the frames that were sent,
    and a patched one as its base with the delta written over it. *)
From Stdlib Require String.
From S2P Require Import Prelude Domain Data Store Auth Leases Cluster Requests Nodes Process Protected Local Blocks Patch DataNode Streams NodeTasks NodeEffects.

(** ** Strings as lists of bytes *)
Definition text (s : string) : list ascii := String.list_ascii_of_string s.
Lemma text_app a b : text (a +:+ b) = text a ++ text b.
Proof. unfold text. induction a as [|c a IH]; simpl; [done|by rewrite IH]. Qed.
Lemma text_length s : length (text s) = String.length s.
Proof. unfold text. induction s; simpl; congruence. Qed.
Lemma text_slen s : slen s = Z.of_nat (length (text s)).
Proof. by rewrite text_length. Qed.
Lemma text_substring n m s : text (String.substring n m s) = take m (drop n (text s)).
Proof.
  unfold text. revert n m. induction s as [|c s IH]; intros [|n] [|m]; simpl; try done.
  all: by rewrite IH.
Qed.
Lemma text_from n s : text (from n s) = drop n (text s).
Proof.
  unfold from. rewrite text_substring, take_ge; [done|]. rewrite length_drop, text_length. lia.
Qed.
Lemma text_inj s t : text s = text t → s = t.
Proof.
  unfold text. intros E. rewrite <- (String.string_of_list_ascii_of_string s), E.
  apply String.string_of_list_ascii_of_string.
Qed.
Lemma text_cat ss : text (cat ss) = concat (map text ss).
Proof. induction ss as [|s ss IH]; simpl; [done|]. by rewrite text_app, IH. Qed.

Lemma append_nil_r s : s +:+ "" = s.
Proof. apply text_inj. by rewrite text_app, app_nil_r. Qed.
Lemma cat_app l1 l2 : cat (l1 ++ l2) = cat l1 +:+ cat l2.
Proof. induction l1 as [|s l1 IH]; simpl; [done|]. by rewrite <- append_assoc, IH. Qed.

(** Chunks that continue each other from [offset] on. *)
Fixpoint contiguous (offset : Z) (cs : list DataChunk) : Prop :=
  match cs with
  | [] => True
  | c :: cs => c.(dc_offset) = offset ∧ 0 < slen c.(dc_data) ∧ contiguous (offset + slen c.(dc_data)) cs
  end.
Definition payload (cs : list DataChunk) : string := cat (map dc_data cs).

(** ** Reads *)
(** One chunk's part of a range of [n] bytes at [a], and the parts that follow. *)
Lemma slice_app {A} (a n p : nat) (x y : list A) : (p < a + n)%nat →
  let q := (p + length x)%nat in
  let mine := take (Nat.min (a + n) q - Nat.max a p) (drop (Nat.max a p - p) x) in
  take (a + n - Nat.max a p) (drop (Nat.max a p - p) (x ++ y)) =
    if Nat.leb (a + n) q then mine
    else mine ++ take (a + n - Nat.max a q) (drop (Nat.max a q - q) y).
Proof.
  intros Hp q mine. subst q mine. rewrite drop_app, take_app, length_drop.
  destruct (Nat.leb_spec (a + n) (p + length x)) as [Hle|Hlt].
  - replace (_ - (length x - _))%nat with 0%nat by lia. rewrite take_0, app_nil_r. f_equal. lia.
  - rewrite !(take_ge (drop _ x)) by (rewrite length_drop; lia). f_equal. f_equal; [lia|]. f_equal. lia.
Qed.

Section Reads.
Context `{Hash, Unicode, Aead, Json, Base64, KeyWrap, Wire}.
Definition sent_chunks (cs : list DataChunk) : list sent := map (λ c, SentRead (FChunk c)) cs.

Lemma flow_query {A} (f : node_env → nat → A) w s a s' : query f w s = (Ok a, s') → flow s' = flow s.
Proof. by intros (_ & _ & ->)%query_Ok. Qed.
Lemma flow_still_valid d w s u s' : still_valid d w s = (Ok u, s') → flow s' = flow s.
Proof.
  unfold still_valid, now_ms. intros E. prun.
  repeat match goal with H : query _ _ _ = _ |- _ => apply flow_query in H end. congruence.
Qed.
Lemma flow_emit x w s u s' : emit x w s = (Ok u, s') → flow s' = (s.(dx_sent) ++ [x], s.(dx_moved)).
Proof.
  unfold emit, send. intros E. prun. match goal with H : query _ _ _ = _ |- _ => apply flow_query in H as E1 end.
  destruct v0; prun. done.
Qed.
Lemma send_part_exact a n p chunk w s u s' : 0 ≤ a → 0 ≤ p < a + n →
  send_part a n p chunk w s = (Ok u, s') →
  ∃ cs, s'.(dx_sent) = s.(dx_sent) ++ sent_chunks cs ∧ contiguous s.(dx_moved) cs
    ∧ s'.(dx_moved) = s.(dx_moved) + slen (payload cs)
    ∧ text (payload cs) =
        take (Nat.min (Z.to_nat (a + n)) (Z.to_nat p + length (text chunk)) - Nat.max (Z.to_nat a) (Z.to_nat p))
          (drop (Nat.max (Z.to_nat a) (Z.to_nat p) - Z.to_nat p) (text chunk)).
Proof.
  intros Ha Hp. unfold send_part. cbv zeta. pose proof (text_slen chunk) as Hl.
  destruct (Z.ltb_spec (Z.max a p) (Z.min (a + n) (p + slen chunk))) as [Hlt|Hge]; intros E; prun.
  - match goal with H : emit _ _ _ = _ |- _ => apply flow_emit in H; injection H as Hs Hm end.
    match goal with H : move _ _ _ = _ |- _ => unfold move in H; prun end.
    set (x := String.substring _ _ chunk) in *.
    assert (text x = take (Nat.min (Z.to_nat (a + n)) (Z.to_nat p + length (text chunk)) - Nat.max (Z.to_nat a) (Z.to_nat p))
          (drop (Nat.max (Z.to_nat a) (Z.to_nat p) - Z.to_nat p) (text chunk))) as Hx.
    { subst x. rewrite text_substring. f_equal; [lia|f_equal; lia]. }
    assert (0 < slen x) as Hpos.
    { rewrite text_slen, Hx, length_take, length_drop. lia. }
    exists [mkChunk s.(dx_moved) x]. unfold payload. cbn [map cat]. rewrite append_nil_r. split_and!; try done.
    simpl. rewrite Hm. lia.
  - exists []. simpl. rewrite app_nil_r. split_and!; [done|done|unfold payload, slen; simpl; lia|].
    match goal with |- _ = take ?k _ => replace k with 0%nat by lia end. done.
Qed.
Lemma send_range_exact d a n w chunks : ∀ p s s', 0 ≤ a → 0 ≤ n → 0 ≤ p < a + n →
  send_range d a n p chunks w s = (Ok tt, s') →
  ∃ cs, s'.(dx_sent) = s.(dx_sent) ++ sent_chunks cs ∧ contiguous s.(dx_moved) cs
    ∧ text (payload cs) =
        take (Z.to_nat a + Z.to_nat n - Nat.max (Z.to_nat a) (Z.to_nat p))
          (drop (Nat.max (Z.to_nat a) (Z.to_nat p) - Z.to_nat p) (text (cat chunks))).
Proof.
  induction chunks as [|c chunks IH]; intros p s s' Ha Hn Hp; cbn [send_range cat].
  { intros [_ ->]%pm_ret_Ok. exists []. simpl. by rewrite app_nil_r, drop_nil, take_nil. }
  intros (u1 & s1 & E1 & E2)%pm_bind_Ok. apply flow_still_valid in E1. injection E1 as Hs1 Hm1.
  apply pm_bind_Ok in E2 as (u2 & s2 & E2 & E3).
  apply send_part_exact in E2 as (cs & Hs2 & Hc & Hm2 & Hx); [|done|done].
  rewrite text_app, slice_app by lia. pose proof (text_slen c) as Hl.
  destruct (Z.leb_spec (a + n) (p + slen c)).
  - apply pm_ret_Ok in E3 as [_ ->]. exists cs. rewrite Hs2, Hs1. rewrite Hm1 in Hc. split_and!; [done|done|].
    rewrite Hx, (proj2 (Nat.leb_le _ _)) by lia. f_equal. lia.
  - apply IH in E3 as (cs' & Hs3 & Hc' & Hx'); [|done|done|lia].
    exists (cs ++ cs'). rewrite Hs3, Hs2, Hs1. unfold sent_chunks. rewrite map_app, app_assoc. split_and!; [done| |].
    + rewrite Hm2, Hm1 in Hc'. rewrite Hm1 in Hc. clear -Hc Hc'. revert Hc Hc'. generalize (dx_moved s) as z.
      induction cs as [|[o x] cs IH]; intros z Hc Hc'; simpl in *.
      * unfold payload in Hc'. simpl in Hc'. by rewrite Z.add_0_r in Hc'.
      * destruct Hc as (? & ? & ?). split_and!; [done|done|]. apply IH; [done|].
        unfold payload in *. simpl in Hc'. rewrite slen_app in Hc'. by rewrite Z.add_assoc in Hc'.
    + unfold payload in *. rewrite map_app, cat_app. rewrite (proj2 (Nat.leb_gt _ _)) by lia.
      rewrite text_app, Hx, Hx'. f_equal; [f_equal; lia|]. replace (Z.to_nat (p + slen c)) with (Z.to_nat p + length (text c))%nat by lia. done.
Qed.

(** A run that returned left what its leaves leave. *)
Lemma aside_run {A} (m : N A) w s a s' : preserves aside m → m w s = (Ok a, s') → aside s s'.
Proof. intros Hm E. specialize (Hm w s). by rewrite E in Hm. Qed.
Lemma tick_run {A} (m : N A) w s a s' : preserves tick_only m → m w s = (Ok a, s') →
  ∃ t, s' = s <| dx_ticks := t |>.
Proof. intros Hm E. specialize (Hm w s). by rewrite E in Hm. Qed.
Lemma bracket_Ok {A} (f g : data_node → data_node) (m : N A) w s a s' :
  (∀ s, aside s (f s)) → (∀ s, aside s (g s)) → try_finally m (sets g) w (f s) = (Ok a, s') →
  ∃ s1 s2, aside s s1 ∧ m w s1 = (Ok a, s2) ∧ aside s2 s'.
Proof. intros Hf Hg (s1 & Hm & ->%sets_Ok)%finally_Ok. by exists (f s), s1. Qed.
Lemma admitted_Ok {A} b (m : N A) w s a s' : admitted b m w s = (Ok a, s') →
  ∃ s1 s2, aside s s1 ∧ m w s1 = (Ok a, s2) ∧ aside s2 s'.
Proof.
  unfold admitted. destruct (LocalCoordinator.weight b); intros E; prun.
  by eapply (bracket_Ok (λ s, s <| dx_units ::= λ u, u - z |>)); [..|eassumption].
Qed.
Lemma pinned_Ok {A} i x (m : N A) w s a s' : pinned i x m w s = (Ok a, s') →
  ∃ s1 s2, aside s s1 ∧ m w s1 = (Ok a, s2) ∧ aside s2 s'.
Proof. unfold pinned. intros E. prun. by eapply (bracket_Ok (λ s, s <| dx_pins := v0 |>)); [..|eassumption]. Qed.
Lemma reserving_Ok {A} n (m : N A) w s a s' : reserving n m w s = (Ok a, s') →
  ∃ s1 s2, aside s s1 ∧ m w s1 = (Ok a, s2) ∧ aside s2 s'.
Proof.
  unfold reserving. intros (u & s0 & Hr & E)%pm_bind_Ok.
  apply (bracket_Ok (λ s, s)) in E as (s1 & s2 & Hs & Hm & Hs'); [|done|done].
  exists s1, s2. split_and!; [|done|done]. etrans; [|done]. apply (aside_run (reserve n) w s u); [|done].
  unfold reserve, cfg_of. solve_preserves. by apply preserves_sets.
Qed.

Lemma authorize_get_Ok rq tp w s d s1 : authorize_get rq tp w s = (Ok d, s1) →
  aside s s1 ∧ (range_of rq).1 ≤ rq.(gb_block).(br_size_bytes)
  ∧ 0 < (range_of rq).2 ≤ rq.(gb_block).(br_size_bytes) - (range_of rq).1.
Proof.
  intros E. split.
  { eapply aside_run; [|exact E]. unfold authorize_get, cfg_of. solve_preserves. }
  unfold authorize_get in E. destruct (range_of rq) as [start n]. prun. bsimpl. simpl. lia.
Qed.
Lemma aside_find i w s o s1 : find_block i w s = (Ok o, s1) → aside s s1 ∧ o = s.(dx_tables).(tb_blocks) !! i.
Proof.
  intros E. split; [eapply aside_run; [|exact E]; solve_preserves|].
  unfold find_block, look, tick, mbind, pm_bind in E. destruct (stops _ _); [done|]. by injection E as <- _.
Qed.
Lemma aside_read b w s cs s1 : read_block b w s = (Ok cs, s1) → aside s s1 ∧ read_verified s.(dx_blocks) b = Ok cs.
Proof.
  intros E. split; [eapply aside_run; [|exact E]; solve_preserves|].
  unfold read_block, tick, mbind, pm_bind in E. destruct (stops _ _); [done|]. cbn in E.
  by destruct (read_verified _ _); [injection E as <- _|].
Qed.
Lemma aside_blocks s s' : aside s s' → s'.(dx_blocks) = s.(dx_blocks).
Proof. by intros [[? _] _]. Qed.
Lemma aside_tables s s' : aside s s' → s'.(dx_tables) = s.(dx_tables).
Proof. by intros [[_ ?] _]. Qed.
Lemma aside_sent s s' : aside s s' → s'.(dx_sent) = s.(dx_sent) ∧ s'.(dx_moved) = s.(dx_moved).
Proof. by intros [_ [= ? ?]]. Qed.

Lemma txn_Ok f w s u s' : txn f w s = (Ok u, s') →
  s'.(dx_tables) = f s.(dx_tables) ∧ s'.(dx_blocks) = s.(dx_blocks) ∧ flow s' = flow s.
Proof. unfold txn, tick, mbind, pm_bind. destruct (stops _ _); [done|]. by intros [= _ <-]. Qed.

(** C17: A read that completes sent its header and then exactly the bytes of the
    requested range, in order: the chunks are not empty, each continues the
    last from offset 0, and together they are the [length] bytes at [offset] of
    the verified content of the block, however the object is cut into records;
    the header carries the block's digest when the range is the whole block. *)
Theorem get_sends_range rq tp w s s' :
  0 ≤ default 0 rq.(gb_offset) →
  GetBlock rq tp w s = (Ok tt, s') →
  let b := rq.(gb_block) in
  let '(start, length) := range_of rq in
  ∃ chunks cs, read_verified s.(dx_blocks) b = Ok chunks
  ∧ s'.(dx_sent) = s.(dx_sent) ++ SentRead (FHeader (mkReadHeader b start length
      (if (start =? 0) && (length =? b.(br_size_bytes)) then b.(br_plaintext_sha256) else ""))) :: sent_chunks cs
  ∧ contiguous 0 cs
  ∧ payload cs = String.substring (Z.to_nat start) (Z.to_nat length) (cat chunks)
  ∧ 0 < length ∧ start + length ≤ b.(br_size_bytes).
Proof.
  intros Hstart. unfold GetBlock. destruct (range_of rq) as [start length] eqn:Hr. cbv zeta.
  intros (d & s1 & Ea & E)%pm_bind_Ok. apply authorize_get_Ok in Ea as (Ea & Hlo & Hlen). rewrite Hr in Hlo, Hlen.
  cbn [fst snd] in Hlo, Hlen.
  assert (start = default 0 rq.(gb_offset)) as Hs0 by (unfold range_of in Hr; congruence).
  apply pm_bind_Ok in E as (o & s2 & [Ef _]%aside_find & E). prun.
  match goal with X : try_finally _ _ _ _ = _ |- _ => rename X into E end.
  apply finally_Ok in E as (s3 & E & Ec).
  apply admitted_Ok in E as (t1 & t2 & T1 & E & T2). apply pinned_Ok in E as (t3 & t4 & T3 & E & T4).
  apply pm_bind_Ok in E as (chunks & t5 & [T5 Hread]%aside_read & E).
  apply pm_bind_Ok in E as (u & t6 & Eh%flow_emit & E). injection Eh as Hs6 Hm6.
  apply send_range_exact in E as (cs & Hs4 & Hc & Hx); [|lia..].
  apply pm_bind_Ok in Ec as (total & s4 & Eg & (_ & _ & [= Hs _])%txn_Ok). apply gets_Ok in Eg as [_ ->].
  exists chunks, cs. split_and!; [| | | |lia|lia].
  - rewrite <- Hread. f_equal. rewrite (aside_blocks _ _ T3), (aside_blocks _ _ T1).
    change (dx_blocks s = dx_blocks s2). by rewrite (aside_blocks _ _ Ef), (aside_blocks _ _ Ea).
  - rewrite Hs, (proj1 (aside_sent _ _ T2)), (proj1 (aside_sent _ _ T4)), Hs4, Hs6, (proj1 (aside_sent _ _ T5)),
      (proj1 (aside_sent _ _ T3)), (proj1 (aside_sent _ _ T1)). simpl.
    by rewrite (proj1 (aside_sent _ _ Ef)), (proj1 (aside_sent _ _ Ea)), <- app_assoc.
  - replace 0 with (dx_moved t6); [done|]. rewrite Hm6, (proj2 (aside_sent _ _ T5)), (proj2 (aside_sent _ _ T3)).
    by rewrite (proj2 (aside_sent _ _ T1)).
  - apply text_inj. rewrite Hx, text_substring. f_equal; [lia|f_equal; lia].
Qed.
End Reads.

(** ** Writes *)
Section Writes.
Context `{Hash, Unicode, Aead, Json, Base64, KeyWrap, Wire}.

(** The chunks of a write: each continues the last and is as long as it can be. *)
Fixpoint filled (size offset : Z) (cs : list DataChunk) : Prop :=
  match cs with
  | [] => True
  | c :: cs => put_chunk_ok size offset c = true ∧ filled size (offset + slen c.(dc_data)) cs
  end.
Lemma filled_contiguous size o ds : filled size o ds → contiguous o ds.
Proof.
  revert o. induction ds as [|c ds IH]; intros o; simpl; [done|]. unfold put_chunk_ok. intros [Hc Hds]. bsimpl.
  split_and!; [done|done|by apply IH].
Qed.
(** The frames of a write are its chunks. *)
Lemma receive_put_frames d size w (frames : list (frame PutBlockHeader)) : ∀ o cs s o' cs' s',
  fold frames (o, cs) (λ '(offset, cs) f,
    still_valid d;;
    match f with
    | FChunk c =>
        demand (put_chunk_ok size offset c) INVALID_ARGUMENT;;
        mret (offset + slen c.(dc_data), cs ++ [c.(dc_data)])
    | _ => refuse INVALID_ARGUMENT
    end) w s = (Ok (o', cs'), s') →
  ∃ ds, frames = map FChunk ds ∧ cs' = cs ++ map dc_data ds ∧ filled size o ds.
Proof.
  induction frames as [|f frames IH]; intros o cs s o' cs' s'; cbn [fold].
  { intros [[= -> ->] ->]%pm_ret_Ok. exists []. by rewrite app_nil_r. }
  intros ([o1 cs1] & s1 & E1 & E2)%pm_bind_Ok. apply pm_bind_Ok in E1 as (u & s0 & _ & E1).
  destruct f as [h|c|]; [discriminate E1| |discriminate E1].
  apply pm_bind_Ok in E1 as (u1 & s2 & [Hc ->]%demand_Ok & [[= -> ->] ->]%pm_ret_Ok).
  apply IH in E2 as (ds & -> & -> & Hds).
  exists (c :: ds). simpl. rewrite <- app_assoc. done.
Qed.
Lemma receive_put_Ok d size frames w s cs s' : receive_put d size frames w s = (Ok cs, s') →
  ∃ ds, frames = map FChunk ds ∧ cs = map dc_data ds ∧ filled size 0 ds.
Proof.
  unfold receive_put. intros ([o l] & s1 & E & [-> _]%pm_ret_Ok)%pm_bind_Ok.
  apply receive_put_frames in E as (ds & ? & ? & ?). by exists ds.
Qed.
Lemma contiguous_length o ds : contiguous o ds → Z.of_nat (length ds) ≤ slen (payload ds).
Proof.
  revert o. induction ds as [|c ds IH]; intros o; simpl; [unfold payload, slen; simpl; lia|].
  intros (_ & Hp & Hc). apply IH in Hc. unfold payload in *. simpl. rewrite slen_app. lia.
Qed.

(** [store_object] that returned: what [put_object] made of what was received. *)
Lemma store_object_Ok b m w s r s' : preserves aside m → store_object b m w s = (Ok r, s') →
  ∃ i j cs s1 s2, m w s1 = (Ok cs, s2) ∧ aside s s1 ∧
    put_object s.(dx_blocks) b cs (w.(w_random) i 32) (w.(w_random) j 8) = Ok (s'.(dx_blocks), r.1, r.2)
    ∧ s'.(dx_tables) = s.(dx_tables) ∧ flow s' = flow s.
Proof.
  intros Hm. unfold store_object, urandom.
  intros (u1 & s1 & [_ ->]%demand_Ok & E)%pm_bind_Ok.
  apply pm_bind_Ok in E as (dek & s2 & Eq & E). pose proof (aside_run _ _ _ _ _ (kept_query aside _) Eq) as A2.
  apply query_Ok in Eq as (_ & -> & _).
  apply pm_bind_Ok in E as (prefix & s3 & Eq & E). pose proof (aside_run _ _ _ _ _ (kept_query aside _) Eq) as A3.
  apply query_Ok in Eq as (_ & -> & _).
  apply pm_bind_Ok in E as (cs & s4 & Em & E). pose proof (aside_run _ _ _ _ _ Hm Em) as A4.
  apply pm_bind_Ok in E as (d & s5 & Eq & E). pose proof (aside_run _ _ _ _ _ (kept_query aside _) Eq) as A5.
  destruct d as [[]|]; [discriminate E..|].
  assert (aside s s5) as A by (etrans; [exact A2|]; etrans; [exact A3|]; etrans; [exact A4|exact A5]).
  apply pm_bind_Ok in E as (bs & s6 & [-> ->]%gets_Ok & E).
  apply pm_bind_Ok in E as ([[bs' n] h] & s6 & [Hput ->]%of_result_Ok & E).
  apply pm_bind_Ok in E as (u2 & s6 & ->%sets_Ok & [-> ->]%pm_ret_Ok).
  rewrite (aside_blocks _ _ A) in Hput. exists (ticks s), (ticks s2), cs, s3, s4.
  split_and!; [done|by transitivity s2|exact Hput|exact (aside_tables _ _ A)|exact (proj2 A)].
Qed.

Lemma new_receipt_Ok o b n x w s r s' : new_receipt o b n x w s = (Ok r, s') →
  aside s s' ∧ r.(dr_operation_id) = o ∧ r.(dr_block) = b ∧ r.(dr_stored_size_bytes) = n ∧ r.(dr_ciphertext_sha256) = x
  ∧ r.(dr_node_id) = w.(w_cfg).(nc_identity) ∧ r.(dr_boot_generation) = s.(dx_generation).
Proof.
  intros E. split; [eapply aside_run; [|exact E]; solve_preserves|].
  unfold new_receipt, new_uid, now_ms, cfg_of in E. prun.
  repeat match goal with X : query _ _ _ = _ |- _ => apply query_Ok in X as (_ & -> & ->) end. done.
Qed.
Lemma import_object_Ok b m n h w s u s' : preserves aside m → import_object b m n h w s = (Ok u, s') →
  ∃ cs s1 s2, m w s1 = (Ok cs, s2) ∧ import_ciphertext s.(dx_blocks) b cs n h = Ok s'.(dx_blocks).
Proof.
  intros Hm. unfold import_object. intros (u1 & s1 & [_ ->]%demand_Ok & E)%pm_bind_Ok.
  apply pm_bind_Ok in E as (cs & s1 & Em & E). pose proof (aside_run _ _ _ _ _ Hm Em) as A1.
  apply pm_bind_Ok in E as (d & s2 & Eq & E). pose proof (aside_run _ _ _ _ _ (kept_query aside _) Eq) as A2.
  destruct d as [d|]; [discriminate E|].
  apply pm_bind_Ok in E as (bs & s3 & [-> ->]%gets_Ok & E).
  apply pm_bind_Ok in E as (bs' & s3 & [Hi ->]%of_result_Ok & ->%sets_Ok).
  rewrite (aside_blocks _ _ A2), (aside_blocks _ _ A1) in Hi. by exists cs, s, s1.
Qed.

(** What a reader needs of the header of an object: representable, and short
    enough for the reader's bound; the nonce prefix has its eight bytes. *)
Definition header_fits (w : node_env) (bs : block_store) (b : BlockRef) : Prop :=
  ∀ i j, let dek := w.(w_random) i 32 in let prefix := w.(w_random) j 8 in
  json_ok (header_fields bs b dek prefix) = true ∧ slen prefix = 8 ∧ slen (header_of bs b dek prefix) ≤ 4096.
(** A store as a start leaves it: it can read what it writes. *)
Definition opened (bs : block_store) : Prop := ∃ key rk files, bs = open_store key rk files.
Lemma put_object_reads w bs b cs i j bs' n h :
  opened bs → header_fits w bs b → Z.of_nat (length cs) ≤ 2 ^ 32 →
  put_object bs b cs (w.(w_random) i 32) (w.(w_random) j 8) = Ok (bs', n, h) →
  read_verified bs' b = Ok cs
  ∧ ∃ s, bs'.(bs_files) = <[path_of b := s]> bs.(bs_files) ∧ n = slen s ∧ h = sha256 s.
Proof.
  intros (key & rk & files & ->) Hf Hn Hput. destruct (Hf i j) as (Hj & Hp & Hl).
  destruct (put_reads key rk files b cs _ _ bs' n h Hput Hj Hp Hl Hn) as (Hr & Ho & _). by split.
Qed.
Lemma put_object_content bs b cs dek p bs' n h : put_object bs b cs dek p = Ok (bs', n, h) →
  slen (cat cs) = b.(br_size_bytes) ∧ sha256 (cat cs) = b.(br_plaintext_sha256)
  ∧ bs.(bs_files) !! path_of b = None.
Proof.
  unfold put_object, is_content. repeat (case_match; [done|]). intros _. bsimpl. split_and!; [done|done|].
  by apply eq_None_not_Some.
Qed.
End Writes.
