(* ===== verification/Acknowledged.v ===== *)
(** * Acknowledged writes of a data node ([PutBlock])

    A receipt is given for an object that reads back as the frames that were
    sent, it is recorded with the request it answers, and from then on the same
    request gets the same receipt, whatever happens to the node in between. *)
From Stdlib Require String.
From S2P Require Import Prelude Domain Data Store Auth Leases Cluster Requests Nodes Process Protected Local Blocks Patch DataNode Streams NodeTasks NodeEffects NodeContent.

Definition puts_of (s : data_node) : gmap string answer := s.(dx_tables).(tb_puts).
(** The ledger of answers is untouched; only one entry of it may change; none is
    lost or changed. *)
Definition puts_kept (s s' : data_node) : Prop := puts_of s' = puts_of s.
Definition puts_but (k : string) (s s' : data_node) : Prop := ∀ j, j ≠ k → puts_of s' !! j = puts_of s !! j.
Definition puts_grow (s s' : data_node) : Prop := ∀ k a, puts_of s !! k = Some a → puts_of s' !! k = Some a.
#[export] Instance puts_kept_order : PreOrder puts_kept.
Proof. split; [done|]. intros s1 s2 s3 E1 E2. unfold puts_kept in *. congruence. Qed.
#[export] Instance puts_but_order k : PreOrder (puts_but k).
Proof. split; [done|]. intros s1 s2 s3 E1 E2 j Hj. by rewrite E2, E1. Qed.
#[export] Instance puts_grow_order : PreOrder puts_grow.
Proof. split; [by intros s k a|]. intros s1 s2 s3 E1 E2 k a Hk. by apply E2, E1. Qed.
#[export] Instance puts_kept_idle : Idle puts_kept.
Proof. split; [apply _|]. by intros s ? (? & ? & ? & ->). Qed.
#[export] Instance puts_but_idle k : Idle (puts_but k).
Proof. split; [apply _|]. by intros s ? (? & ? & ? & ->) j. Qed.
Lemma kept_grow s s' : puts_kept s s' → puts_grow s s'.
Proof. intros E k a. unfold puts_kept in E. by rewrite E. Qed.

Section Ledger.
Context `{Hash, Unicode, Aead, Json, Base64, KeyWrap, Wire, OrderWire}.
Hint Extern 1 (preserves puts_kept (sets _)) => (apply preserves_sets; by intros ?) : kept.
Hint Extern 1 (preserves (puts_but _) (sets _)) => (apply preserves_sets; by intros ? ?) : kept.
Hint Extern 1 (preserves puts_kept (txn _)) => (unfold txn; solve_preserves) : kept.

Lemma puts_but_store h d fs : preserves (puts_but (ledger_key h.(ph_context))) (store_put h d fs).
Proof.
  unfold store_put, write_put, admitted, pinned, reserving, reserve, store_object, count, txn, cfg_of. solve_preserves.
  apply preserves_sets. intros s1 j Hj. unfold puts_of. simpl. by rewrite lookup_insert_ne.
Qed.
Lemma puts_grow_PutBlock fs tp : preserves puts_grow (PutBlock fs tp).
Proof.
  unfold PutBlock. destruct fs as [|[h|c|] fs]; try apply preserves_fail, _.
  apply preserves_bind; [apply _| |intros d].
  { apply (preserves_mono puts_kept); [apply kept_grow|]. unfold authorize_put, cfg_of. solve_preserves. }
  destruct (ad_replay_receipt d); [apply preserves_ret, _|]. intros w s.
  unfold look, mbind at 1, pm_bind at 1, mbind at 1, pm_bind at 1. pose proof (kept_tick puts_kept w s) as Ht.
  destruct (tick w s) as [[i|x] s1]; cbn in Ht |- *; [|by apply kept_grow].
  assert (puts_grow s s1) as Hs by by apply kept_grow. etrans; [done|]. clear Hs Ht.
  assert (∀ r, preserves puts_grow (me ← own_context;
    ReportDurable (mkReport me h.(ph_context) h.(ph_operation) h.(ph_fence) r None);; (mret r : N DurableReceipt))) as Htail.
  { intros r. apply (preserves_mono puts_kept); [apply kept_grow|]. solve_preserves. }
  change (tb_puts (dx_tables s1)) with (puts_of s1).
  destruct (puts_of s1 !! ledger_key (ph_context h)) as [a|] eqn:Hk.
  - apply preserves_bind; [apply _| |done]. solve_preserves.
  - apply run_then; [apply _| |done].
    intros k a Ha. rewrite (puts_but_store h d fs w s1); [done|congruence].
Qed.
Ltac solve_ledger :=
  unfold admitted, pinned, reserving, reserve, count, store_object, import_object, report_task, cfg_of; solve_preserves.
Lemma puts_kept_store_patch h d fs : preserves puts_kept (store_patch h d fs).
Proof. unfold store_patch. solve_ledger. Qed.
Hint Resolve puts_kept_store_patch : kept.
Lemma puts_kept_PatchBlock fs tp : preserves puts_kept (PatchBlock fs tp).
Proof. unfold PatchBlock, patch_block, await_base, pinning_base. solve_ledger. Qed.
Lemma puts_kept_GetBlock rq tp : preserves puts_kept (GetBlock rq tp).
Proof. unfold GetBlock, authorize_get. solve_ledger. Qed.
Lemma puts_kept_GetReplica rq tp : preserves puts_kept (GetReplica rq tp).
Proof. unfold GetReplica. solve_ledger. Qed.
Lemma puts_kept_VerifyReceipt rq tp : preserves puts_kept (VerifyReceipt rq tp).
Proof. unfold VerifyReceipt. solve_ledger. Qed.
Lemma puts_kept_ReplicateBlock rq tp : preserves puts_kept (ReplicateBlock rq tp).
Proof. unfold ReplicateBlock. solve_ledger. Qed.
Lemma puts_kept_DeleteRetiredBlock rq tp : preserves puts_kept (DeleteRetiredBlock rq tp).
Proof. unfold DeleteRetiredBlock, remove_retired. solve_ledger. Qed.
Lemma puts_kept_run_pool : preserves puts_kept run_pool.
Proof. unfold run_pool, copy, copy_block, quarantine, confirm_copy, fetch_copy. solve_ledger. Qed.
Lemma puts_kept_maintain : preserves puts_kept maintain.
Proof. unfold maintain, register_inventory, heartbeat. solve_ledger. Qed.
Lemma puts_kept_boot k : preserves puts_kept (boot_node k).
Proof. unfold boot_node, key_bytes, recover_unindexed_objects, recover_object. solve_ledger. Qed.
Lemma puts_grow_perform a : preserves puts_grow (perform a).
Proof.
  assert (∀ A (m : N A), preserves puts_kept m → preserves puts_grow m) as Hk.
  { intros A m. apply preserves_mono, kept_grow. }
  destruct a; cbn [perform].
  1: (apply preserves_bind; [apply _|apply puts_grow_PutBlock|intros; apply preserves_ret, _]).
  all: apply Hk; try (apply preserves_bind; [apply _| |intros; apply preserves_ret, _]).
  - apply puts_kept_PatchBlock.
  - apply puts_kept_GetBlock.
  - apply puts_kept_GetReplica.
  - unfold GetKeyStatus. solve_ledger.
  - apply puts_kept_VerifyReceipt.
  - apply puts_kept_ReplicateBlock.
  - apply puts_kept_run_pool.
  - unfold GetTask. solve_ledger.
  - apply puts_kept_DeleteRetiredBlock.
  - apply puts_kept_maintain.
Qed.
Lemma puts_grow_steps s s' : rtc node_step s s' → puts_grow s s'.
Proof.
  induction 1 as [|s1 s2 s3 [a w s|k w s] _ IH]; [done| |]; (etrans; [|exact IH]).
  - apply puts_grow_perform.
  - by apply kept_grow, puts_kept_boot.
Qed.

(** ** One write *)
(** The control answers no replay: the node decides from its own ledger. *)
Definition no_replay (w : node_env) : Prop :=
  ∀ i rq d, w.(w_authorize_block) i rq = Ok d → d.(ad_replay_receipt) = None.
Lemma authorize_put_Ok h tp w s d s' : no_replay w → authorize_put h tp w s = (Ok d, s') →
  d.(ad_replay_receipt) = None ∧ aside s s'.
Proof.
  intros Hw E. split.
  2:{ eapply aside_run; [|exact E]. unfold authorize_put, cfg_of. solve_preserves. }
  unfold authorize_put, authorized in E. prun.
  match goal with X : call _ _ _ = _ |- _ => apply call_Ok in X as (_ & Hd & _) end. apply Hw in Hd as Hn.
  rewrite Hn in *. by prun.
Qed.
(** What the node keeps of a block it acknowledged. *)
Definition acknowledged (h : PutBlockHeader) (r : DurableReceipt) (s : data_node) : Prop :=
  ∃ a, puts_of s !! ledger_key h.(ph_context) = Some a ∧ a.(an_digest) = put_digest h ∧ a.(an_receipt) = r.
Definition stored_from (w : node_env) (h : PutBlockHeader) (ds : list DataChunk) (r : DurableReceipt)
    (s s' : data_node) : Prop :=
  read_verified s'.(dx_blocks) h.(ph_block) = Ok (map dc_data ds)
  ∧ (∃ t, s'.(dx_blocks).(bs_files) = <[path_of h.(ph_block) := t]> s.(dx_blocks).(bs_files)
        ∧ r.(dr_stored_size_bytes) = slen t ∧ r.(dr_ciphertext_sha256) = sha256 t)
  ∧ s'.(dx_tables).(tb_blocks) !! h.(ph_block).(br_block_version_id)
      = Some (mkStored h.(ph_block).(br_block_version_id) h.(ph_block) r.(dr_stored_size_bytes) r false)
  ∧ r.(dr_block) = h.(ph_block) ∧ r.(dr_operation_id) = h.(ph_operation).(or_operation_id)
  ∧ r.(dr_node_id) = w.(w_cfg).(nc_identity).
(** A write that succeeded, taken apart. *)
Lemma store_put_run h d fs w s r s' : store_put h d fs w s = (Ok r, s') →
  ∃ i j ds, fs = map FChunk ds ∧ contiguous 0 ds
    ∧ put_object s.(dx_blocks) h.(ph_block) (map dc_data ds) (w.(w_random) i 32) (w.(w_random) j 8)
        = Ok (s'.(dx_blocks), r.(dr_stored_size_bytes), r.(dr_ciphertext_sha256))
    ∧ s'.(dx_tables).(tb_blocks) !! h.(ph_block).(br_block_version_id)
        = Some (mkStored h.(ph_block).(br_block_version_id) h.(ph_block) r.(dr_stored_size_bytes) r false)
    ∧ r.(dr_block) = h.(ph_block) ∧ r.(dr_operation_id) = h.(ph_operation).(or_operation_id)
    ∧ r.(dr_node_id) = w.(w_cfg).(nc_identity) ∧ acknowledged h r s' ∧ s'.(dx_sent) = s.(dx_sent).
Proof.
  unfold store_put, write_put. cbv zeta. intros E.
  apply admitted_Ok in E as (t1 & t2 & T1 & E & T2). apply pinned_Ok in E as (t3 & t4 & T3 & E & T4).
  apply reserving_Ok in E as (t5 & t6 & T5 & E & T6).
  assert (aside s t5) as A by (etrans; [exact T1|]; etrans; [exact T3|exact T5]).
  assert (aside t6 s') as A' by (etrans; [exact T6|]; etrans; [exact T4|exact T2]).
  clear T1 T2 T3 T4 T5 T6.
  apply pm_bind_Ok in E as ([n x] & s1 & Es & E).
  apply store_object_Ok in Es as (i & j & cs & q1 & q2 & Hrcv & _ & Hput & Ht1 & Hf1); [|solve_preserves].
  rewrite (aside_blocks _ _ A) in Hput. cbn [fst snd] in Hput.
  apply receive_put_Ok in Hrcv as (ds & -> & -> & Hds%filled_contiguous).
  apply pm_bind_Ok in E as (r' & s2 & (R2 & Hop' & Hb & Hrn & Hrx & Hid & _)%new_receipt_Ok & E).
  apply pm_bind_Ok in E as (u & s3 & (Ht3 & Hb3 & Hf3)%txn_Ok & E).
  apply pm_bind_Ok in E as (u' & s4 & (Ht4 & Hb4 & Hf4)%txn_Ok & [-> ->]%pm_ret_Ok).
  rewrite Hb3, (aside_blocks _ _ R2) in Hb4. apply aside_blocks in A' as Hb'. rewrite Hb4 in Hb'.
  apply aside_tables in A' as Ht'. rewrite Ht4, Ht3 in Ht'.
  exists i, j, ds. rewrite Hb', Ht', Hrn, Hrx. split_and!; try done.
  - simpl. rewrite Hb, Hrn, lookup_insert_eq. by subst.
  - unfold acknowledged, puts_of. rewrite Ht'. simpl. rewrite lookup_insert_eq. by eexists.
  - assert (flow s' = flow s) as [= ->]; [|done].
    by rewrite (proj2 A'), Hf4, Hf3, (proj2 R2), Hf1, (proj2 A).
Qed.

Lemma flow_of_call {A} (f : node_env → nat → result rpc_error A) w s a s' :
  call f w s = (Ok a, s') → aside s s'.
Proof. intros E. eapply aside_run; [apply kept_call, _|exact E]. Qed.
(** The rest of [PutBlock], once the receipt is known. *)
Lemma put_reported (h : PutBlockHeader) (r r' : DurableReceipt) w s s' :
  (me ← own_context; ReportDurable (mkReport me h.(ph_context) h.(ph_operation) h.(ph_fence) r None);;
   (mret r : N DurableReceipt)) w s = (Ok r', s') →
  r' = r ∧ volatile s s' ∧ ∃ me, s'.(dx_sent) = s.(dx_sent) ++
    [SentDurable (mkReport me h.(ph_context) h.(ph_operation) h.(ph_fence) r None)].
Proof.
  intros (me & s1 & Em & E)%pm_bind_Ok. apply pm_bind_Ok in E as (u & s2 & E & [-> ->]%pm_ret_Ok).
  assert (aside s s1) as A1 by (eapply aside_run; [|exact Em]; solve_preserves).
  unfold ReportDurable, send in E. apply pm_bind_Ok in E as (u1 & s3 & ->%sets_Ok & E).
  apply pm_bind_Ok in E as (m & s3 & Ec & [_ ->]%pm_ret_Ok). apply flow_of_call in Ec as A2.
  split; [done|]. split.
  - split; [by rewrite (aside_blocks _ _ A2), <- (aside_blocks _ _ A1)|by rewrite (aside_tables _ _ A2), <- (aside_tables _ _ A1)].
  - exists me. rewrite (proj1 (aside_sent _ _ A2)). simpl. by rewrite (proj1 (aside_sent _ _ A1)).
Qed.

(** C7: A block the node acknowledges without having answered the request before
    was sent in frames that continue each other; it reads back, verified, as
    exactly their bytes, which have the announced size and digest; no other
    object changed; the receipt states the size and digest of the stored file
    and is what the inventory and the ledger of answers now hold; and the
    report to the control carries that receipt and is sent last. *)
Theorem put_acknowledged h fs tp w s r s' :
  no_replay w → opened s.(dx_blocks) → header_fits w s.(dx_blocks) h.(ph_block) →
  h.(ph_block).(br_size_bytes) ≤ 2 ^ 32 → puts_of s !! ledger_key h.(ph_context) = None →
  PutBlock (FHeader h :: fs) tp w s = (Ok r, s') →
  ∃ ds me, fs = map FChunk ds ∧ contiguous 0 ds ∧ slen (payload ds) = h.(ph_block).(br_size_bytes)
    ∧ sha256 (payload ds) = h.(ph_block).(br_plaintext_sha256)
    ∧ stored_from w h ds r s s' ∧ acknowledged h r s'
    ∧ s'.(dx_sent) = s.(dx_sent) ++ [SentDurable (mkReport me h.(ph_context) h.(ph_operation) h.(ph_fence) r None)].
Proof.
  intros Hw Hop Hfit Hsize Hnew. unfold PutBlock. cbv zeta.
  intros (d & s1 & [Hd A1]%authorize_put_Ok & E)%pm_bind_Ok; [|done]. rewrite Hd in E.
  apply pm_bind_Ok in E as (p & s2 & El & E).
  assert (aside s1 s2) as A2 by (eapply aside_run; [|exact El]; solve_preserves).
  assert (p = None) as ->.
  { unfold look in El. apply pm_bind_Ok in El as (i & s3 & Et & [-> ->]%gets_Ok).
    pose proof (aside_run _ _ _ _ _ (kept_tick aside) Et) as A3.
    rewrite (aside_tables _ _ A3), (aside_tables _ _ A1). exact Hnew. }
  apply pm_bind_Ok in E as (r1 & s3 & Est & E). apply put_reported in E as (-> & V & me & Hsent).
  assert (aside s s2) as A by by transitivity s1.
  apply store_put_run in Est as (i & j & ds & -> & Hc & Hput & Hrow & Hb & Hop' & Hid & Hack & Hs3).
  rewrite (aside_blocks _ _ A) in Hput.
  pose proof (put_object_content _ _ _ _ _ _ _ _ Hput) as (Hlen & Hsha & _).
  apply (put_object_reads w) in Hput as (Hread & Hfile); [|done|done|].
  2:{ rewrite length_map. etrans; [by eapply contiguous_length|]. unfold payload. by rewrite Hlen. }
  exists ds, me. split_and!; try done.
  - unfold stored_from. rewrite (proj1 V), (proj2 V). by split_and!.
  - unfold acknowledged, puts_of in *. by rewrite (proj2 V).
  - by rewrite Hsent, Hs3, (proj1 (aside_sent _ _ A)).
Qed.

(** A request that was answered is in the ledger; one in the ledger is answered
    from it. *)
Lemma look_puts k w s o s' : look (λ t, t.(tb_puts) !! k) w s = (Ok o, s') → aside s s' ∧ o = puts_of s !! k.
Proof.
  intros E. split; [eapply aside_run; [|exact E]; solve_preserves|].
  unfold look, tick, mbind, pm_bind in E. destruct (stops _ _); [done|]. by injection E as <- _.
Qed.
Lemma put_answered h fs tp w s r s' : no_replay w → PutBlock (FHeader h :: fs) tp w s = (Ok r, s') →
  acknowledged h r s' ∧ (∀ r0, acknowledged h r0 s → r = r0 ∧ volatile s s').
Proof.
  intros Hw. unfold PutBlock. cbv zeta.
  intros (d & s1 & [Hd A1]%authorize_put_Ok & E)%pm_bind_Ok; [|done]. rewrite Hd in E.
  apply pm_bind_Ok in E as (p & s2 & [A2 ->]%look_puts & E).
  apply pm_bind_Ok in E as (r1 & s3 & Est & E). apply put_reported in E as (-> & V & me & Hsent).
  assert (puts_of s1 = puts_of s) as Hp by (unfold puts_of; by rewrite (aside_tables _ _ A1)). rewrite Hp in Est.
  assert (volatile s s2) as V2 by (etrans; [apply A1|apply A2]).
  destruct (puts_of s !! _) as [a|] eqn:Hk.
  - apply pm_bind_Ok in Est as (u & s4 & [Ha ->]%demand_Ok & [-> ->]%pm_ret_Ok). bsimpl.
    assert (volatile s s') as V' by by transitivity s2. split.
    + exists a. unfold puts_of in *. by rewrite (proj2 V').
    + intros r0 (a' & Ha' & _ & <-). rewrite Hk in Ha'. by simplify_eq.
  - apply store_put_run in Est as (i & j & ds & _ & _ & _ & _ & _ & _ & _ & (a & Ha & Hrest) & _). split.
    + exists a. unfold puts_of in *. by rewrite (proj2 V).
    + intros r0 (a' & Ha' & _). congruence.
Qed.

End Ledger.
