(* ===== verification/Copies.v ===== *)
(** * Copies between data nodes, deletions, inventories

    A copy is the source's stored bytes; a deletion leaves neither object nor
    record and is answered once; an inventory is reported in pages that
    partition the receipts whose objects still verify. *)
From Stdlib Require String.
From S2P Require Import Prelude Domain Data Store Auth Leases Cluster Requests Nodes Process Protected Local Blocks Patch DataNode Streams NodeTasks NodeEffects NodeContent.

(** ** The pieces of a file *)
Lemma chunk_len_pos : (0 < CHUNK_LEN)%nat.
Proof. unfold CHUNK_LEN, CHUNK. lia. Qed.
#[local] Opaque CHUNK_LEN.
Lemma cat_pieces fuel s : (String.length s ≤ fuel)%nat → cat (pieces fuel s) = s.
Proof.
  revert s. induction fuel as [|fuel IH]; intros [|c s] Hf; simpl in Hf; cbn [pieces cat]; try done; [lia|].
  pose proof chunk_len_pos. apply text_inj. rewrite text_app, IH.
  - rewrite text_from, text_substring, drop_0. apply take_drop.
  - rewrite <- text_length, text_from, length_drop, text_length. simpl. lia.
Qed.
Lemma cat_file_pieces s : cat (file_pieces s) = s.
Proof. by apply cat_pieces. Qed.

Section Copies.
Context `{Hash, Unicode, Aead, Json, Base64, KeyWrap, Wire, OrderWire}.
Definition replica_frames (l : list sent) : list (frame ReplicaHeader) :=
  omap (λ x, match x with SentReplica f => Some f | _ => None end) l.
Definition replica_chunks (cs : list DataChunk) : list sent := map (λ c, SentReplica (FChunk c)) cs.
Lemma frames_of_chunks cs : replica_frames (replica_chunks cs) = map FChunk cs.
Proof. induction cs as [|c cs IH]; [done|]. cbn. f_equal. exact IH. Qed.

Lemma send_pieces d w ps : ∀ s u s', each ps (send_piece d) w s = (Ok u, s') →
  ∃ cs, s'.(dx_sent) = s.(dx_sent) ++ replica_chunks cs ∧ map dc_data cs = ps.
Proof.
  induction ps as [|p ps IH]; intros s u s'; cbn [each].
  { intros [_ ->]%pm_ret_Ok. exists []. by rewrite app_nil_r. }
  intros (u1 & s1 & E1 & E2)%pm_bind_Ok. apply IH in E2 as (cs & Hs & Hcs).
  unfold send_piece in E1. apply pm_bind_Ok in E1 as (u2 & s2 & Ev%flow_still_valid & E1).
  apply pm_bind_Ok in E1 as (o & s3 & [-> ->]%gets_Ok & E1).
  apply pm_bind_Ok in E1 as (u3 & s4 & Ee%flow_emit & E1). unfold move in E1. apply sets_Ok in E1 as ->.
  injection Ee as Ee _. injection Ev as Ev _.
  exists (mkChunk s2.(dx_moved) p :: cs). split; [|simpl; congruence].
  rewrite Hs. simpl. rewrite Ee, Ev. by rewrite <- app_assoc.
Qed.
Lemma send_object_Ok d t b r w s u s' : send_object d t b r w s = (Ok u, s') →
  ∃ x h cs, s.(dx_blocks).(bs_files) !! path_of b = Some x
    ∧ s'.(dx_sent) = s.(dx_sent) ++ SentReplica (FHeader h) :: replica_chunks cs ∧ cat (map dc_data cs) = x.
Proof.
  unfold send_object. intros E.
  apply pm_bind_Ok in E as (bs & s1 & [-> ->]%gets_Ok & E).
  apply pm_bind_Ok in E as (k & s1 & [_ ->]%of_result_Ok & E).
  set (h := mkReplicaHeader _ _ _ _ _) in E.
  apply pm_bind_Ok in E as (u1 & s1 & Ee & E). pose proof (flow_emit _ _ _ _ _ Ee) as [= Es _].
  assert (volatile s s1) as V.
  { pose proof (kept_emit volatile (SentReplica (FHeader h)) w s) as Hv. by rewrite Ee in Hv. }
  apply pm_bind_Ok in E as (n & s2 & Et & E). assert (aside s1 s2) as A by (eapply aside_run; [|exact Et]; solve_preserves).
  apply pm_bind_Ok in E as (bs & s3 & [-> ->]%gets_Ok & E).
  rewrite (aside_blocks _ _ A), (proj1 V) in E. destruct (bs_files _ !! _) as [x|]; [|done].
  apply send_pieces in E as (cs & Hs & Hcs). exists x, h, cs. split_and!; [done| |by rewrite Hcs, cat_file_pieces].
  by rewrite Hs, (proj1 (aside_sent _ _ A)), Es, <- app_assoc.
Qed.
(** A complete replica stream: its header, then the bytes of the object. *)
Lemma GetReplica_sends rq tp w s u s' : GetReplica rq tp w s = (Ok u, s') →
  ∃ t h cs, s.(dx_blocks).(bs_files) !! path_of rq.(gr_block) = Some t
    ∧ s'.(dx_sent) = s.(dx_sent) ++ SentReplica (FHeader h) :: replica_chunks cs
    ∧ cat (map dc_data cs) = t.
Proof.
  unfold GetReplica. cbv zeta. intros E.
  apply pm_bind_Ok in E as (p & s1 & Ep & E). assert (aside s s1) as A1 by (eapply aside_run; [|exact Ep]; solve_preserves).
  apply pm_bind_Ok in E as (u0 & s2 & [_ ->]%demand_Ok & E).
  apply pm_bind_Ok in E as (me & s2 & Em & E). assert (aside s1 s2) as A2 by (eapply aside_run; [|exact Em]; solve_preserves).
  unfold cfg_of in E. apply pm_bind_Ok in E as (i & s3 & [_ ->]%asks_Ok & E).
  apply pm_bind_Ok in E as (d & s3 & Ec & E). assert (aside s2 s3) as A3 by (eapply aside_run; [|exact Ec]; solve_preserves).
  apply pm_bind_Ok in E as (o & s4 & [A4 _]%aside_find & E).
  assert (aside s s4) as A by (etrans; [exact A1|]; etrans; [exact A2|]; by transitivity s3). clear A1 A2 A3 A4.
  apply pm_bind_Ok in E as (x & s5 & [-> ->]%demand_some_Ok & E).
  apply pm_bind_Ok in E as (u1 & s5 & [_ ->]%demand_Ok & E).
  apply pm_bind_Ok in E as (u2 & s5 & ->%sets_Ok & E).
  apply finally_Ok in E as (s5 & E & Ef).
  apply admitted_Ok in E as (t1 & t2 & T1 & E & T2). apply pinned_Ok in E as (t3 & t4 & T3 & E & T4).
  apply send_object_Ok in E as (t & h & cs & Ht & Hs & Hcs). exists t, h, cs.
  apply pm_bind_Ok in Ef as (total & s6 & Eg & (_ & _ & [= Hs' _])%txn_Ok). apply gets_Ok in Eg as [_ ->].
  split_and!; [|rewrite Hs', (proj1 (aside_sent _ _ T2)), (proj1 (aside_sent _ _ T4)), Hs|done].
  - rewrite <- Ht, (aside_blocks _ _ T3), (aside_blocks _ _ T1). simpl. by rewrite (aside_blocks _ _ A).
  - rewrite (proj1 (aside_sent _ _ T3)), (proj1 (aside_sent _ _ T1)). simpl. by rewrite (proj1 (aside_sent _ _ A)).
Qed.

(** What the other end makes of such a stream. *)
Lemma receive_chunks fence w (cs : list DataChunk) : ∀ o l s o' l' s',
  fold (map FChunk cs : list (frame ReplicaHeader)) (o, l) (λ '(offset, cs) f,
    match f with
    | FChunk c =>
        t ← now_ms;
        demand (replica_chunk_ok offset c && (t <? fence.(fc_expires))) INVALID_ARGUMENT;;
        mret (offset + slen c.(dc_data), cs ++ [c.(dc_data)])
    | _ => refuse INVALID_ARGUMENT
    end) w s = (Ok (o', l'), s') → l' = l ++ map dc_data cs.
Proof.
  induction cs as [|c cs IH]; intros o l s o' l' s'; cbn [map fold].
  { intros [[= -> ->] _]%pm_ret_Ok. by rewrite app_nil_r. }
  intros ([o1 l1] & s1 & E1 & E2)%pm_bind_Ok. apply IH in E2 as ->.
  apply pm_bind_Ok in E1 as (t & s2 & _ & E1). apply pm_bind_Ok in E1 as (u & s3 & _ & [[= -> ->] _]%pm_ret_Ok).
  by rewrite <- app_assoc.
Qed.
Lemma fetch_copy_Ok rq w s r s' : fetch_copy rq w s = (Ok r, s') →
  ∃ i me st cs, w.(w_replica) i rq.(rb_source).(bl_private_endpoint)
      (mkGetReplica me rq.(rb_task_id) rq.(rb_block) rq.(rb_task_capability) rq.(rb_fence) w.(w_cfg).(nc_identity)) = st
    ∧ (∃ s1 s2, receive_replica rq.(rb_fence) st w s1 = (Ok cs, s2))
    ∧ import_ciphertext s.(dx_blocks) rq.(rb_block) cs rq.(rb_ciphertext_length) rq.(rb_ciphertext_sha256) = Ok s'.(dx_blocks)
    ∧ r.(dr_block) = rq.(rb_block) ∧ r.(dr_stored_size_bytes) = rq.(rb_ciphertext_length)
    ∧ r.(dr_ciphertext_sha256) = rq.(rb_ciphertext_sha256).
Proof.
  unfold fetch_copy. cbv zeta. intros (t1 & t2 & T1 & E & T2)%reserving_Ok.
  apply pm_bind_Ok in E as (me & s1 & Em & E). assert (aside t1 s1) as A1 by (eapply aside_run; [|exact Em]; solve_preserves).
  unfold cfg_of in E. apply pm_bind_Ok in E as (i & s2 & [-> ->]%asks_Ok & E).
  apply pm_bind_Ok in E as (st & s2 & Eq & E). pose proof (aside_run _ _ _ _ _ (kept_query aside _) Eq) as A2.
  apply query_Ok in Eq as (_ & Hst & _).
  apply pm_bind_Ok in E as (h & s3 & Eh & E). assert (aside s2 s3) as A3 by (eapply aside_run; [|exact Eh]; solve_preserves).
  apply pm_bind_Ok in E as (bs & s4 & [_ ->]%gets_Ok & E). apply pm_bind_Ok in E as (u & s4 & [_ ->]%demand_Ok & E).
  apply pm_bind_Ok in E as (u1 & s4 & Ei & E). apply import_object_Ok in Ei as (cs & q1 & q2 & Hrcv & Himp); [|solve_preserves].
  apply pm_bind_Ok in E as (r' & s5 & (R & _ & Hb & Hn & Hx & _)%new_receipt_Ok & E).
  apply pm_bind_Ok in E as (u2 & s6 & (_ & B6 & _)%txn_Ok & E).
  apply pm_bind_Ok in E as (u3 & s7 & (_ & B7 & _)%txn_Ok & [-> ->]%pm_ret_Ok).
  assert (aside s s3) as A by (etrans; [exact T1|]; etrans; [exact A1|]; by transitivity s2).
  rewrite (aside_blocks _ _ A) in Himp. eexists _, me, st, cs. split_and!; [by rewrite Hst|by exists q1, q2| |done..].
  by rewrite (aside_blocks _ _ T2), B7, B6, (aside_blocks _ _ R).
Qed.
Lemma import_ciphertext_Ok bs b cs n h bs' : import_ciphertext bs b cs n h = Ok bs' →
  bs'.(bs_files) = <[path_of b := cat cs]> bs.(bs_files) ∧ n = slen (cat cs) ∧ h = sha256 (cat cs)
  ∧ ∃ text, read_verified bs' b = Ok text.
Proof.
  unfold import_ciphertext. destruct (path_ok b) eqn:Hp; [|done]. cbn [negb].
  destruct (chunks_fit _ _ _); [|done]. destruct (_ && _) eqn:E; [|done]. cbn [negb].
  destruct (read_object bs b (cat cs)) as [text|] eqn:Hr; [|done]. destruct (decide _) as [|Hnew]; [done|]. intros [= <-]. bsimpl.
  split_and!; [done|done|done|]. exists text. unfold read_verified. rewrite Hp. cbn [negb].
  match goal with |- context [bs_files ?t !! _] =>
    assert (bs_files t !! path_of b = Some (cat cs)) as -> by apply lookup_insert_eq end.
  match goal with |- context [read_object ?t b _] => assert (read_object t b (cat cs) = Some text) as -> by exact Hr end.
  done.
Qed.


(** ** Inventories *)
Lemma pages_from {A} (l : list A) n : ∀ k, (length l ≤ (k + n) * 64)%nat →
  concat (map (page_of l) (seq k n)) = drop (k * 64) l.
Proof.
  induction n as [|n IH]; intros k Hk; cbn [seq map concat]; [by rewrite drop_ge by lia|].
  rewrite IH by lia. unfold page_of. replace (S k * 64)%nat with (k * 64 + 64)%nat by lia.
  rewrite <- drop_drop. apply take_drop.
Qed.
Lemma page_count_bounds n : let c := page_count n in (n ≤ c * 64 ∧ 0 < c ∧ (∀ p, p < c → (n ≤ (p + 1) * 64 ↔ p = c - 1)))%nat.
Proof.
  unfold page_count. pose proof (Nat.div_mod_eq (n + 63) 64). pose proof (Nat.mod_upper_bound (n + 63) 64 ltac:(lia)).
  split_and!; [lia|lia|]. intros p Hp. split; lia.
Qed.
Definition page_request (me : RequestContext) (node : string) (g : Z) (report : string) (l : list DurableReceipt) (p : nat)
    : BlockReportRequest :=
  mkBlockReport me node g report (Z.of_nat p) (is_last_page (length l) p) (page_of l p).
Lemma send_pages l w ps : ∀ s u s', each ps (send_page l) w s = (Ok u, s') →
  ∃ mes, length mes = length ps ∧ s'.(dx_sent) = s.(dx_sent) ++
    zip_with (λ me p, SentReport (page_request me w.(w_cfg).(nc_identity) s.(dx_generation) s.(dx_inventory_id) l p)) mes ps.
Proof.
  induction ps as [|p ps IH]; intros s u s'; cbn [each].
  { intros [_ ->]%pm_ret_Ok. exists []. by rewrite app_nil_r. }
  intros (u1 & s1 & E1 & E2)%pm_bind_Ok. unfold send_page, cfg_of in E1. cbv zeta in E1.
  apply pm_bind_Ok in E1 as (me & s2 & Em & E1). apply tick_run in Em as (t & ->); [|solve_preserves].
  apply pm_bind_Ok in E1 as (self & s3 & [-> ->]%asks_Ok & E1). apply pm_bind_Ok in E1 as (g & s3 & [-> ->]%gets_Ok & E1).
  apply pm_bind_Ok in E1 as (inv & s3 & [-> ->]%gets_Ok & E1). unfold send in E1.
  apply pm_bind_Ok in E1 as (u2 & s3 & ->%sets_Ok & E1). apply pm_bind_Ok in E1 as (r & s3 & (_ & _ & ->)%call_Ok & [_ ->]%pm_ret_Ok).
  apply IH in E2 as (mes & Hl & ->). exists (me :: mes). simpl. by rewrite Hl, <- app_assoc.
Qed.
(** What the pages report: receipts of objects that verify, every such one. *)
Lemma verified_receipts_elem bs l r : r ∈ verified_receipts bs l ↔
  ∃ x, x ∈ l ∧ x.(sb_receipt) = r ∧ is_ok (read_verified bs x.(sb_ref)) = true.
Proof.
  induction l as [|x l IH]; cbn [verified_receipts].
  { setoid_rewrite elem_of_nil. naive_solver. }
  rewrite elem_of_app, IH.
  setoid_rewrite elem_of_cons. destruct (is_ok (read_verified bs x.(sb_ref))) eqn:E.
  - rewrite list_elem_of_singleton. naive_solver.
  - split; [intros [[]%not_elem_of_nil|(y & ? & ?)]; by eauto|].
    intros (y & [->|Hy] & ? & Hok); [congruence|right; eauto].
Qed.

(** C22: A registration that completes reports, in order, pages of at most 64
    receipts under the report's own identity and generation, only the last one
    marked as last; together they are the receipts of exactly the recorded
    objects whose content still verifies. *)
Theorem inventory_pages w s u s' : register_inventory w s = (Ok u, s') →
  ∃ pre mes l, s'.(dx_sent) = s.(dx_sent) ++ pre
    ∧ l = verified_receipts s.(dx_blocks) (rows s.(dx_tables).(tb_blocks)).*2
    ∧ length mes = page_count (length l)
    ∧ pre = zip_with (λ me p, SentReport (page_request me w.(w_cfg).(nc_identity) s.(dx_generation) s'.(dx_inventory_id) l p))
        mes (seq 0 (length mes))
    ∧ concat (map (page_of l) (seq 0 (length mes))) = l
    ∧ (∀ p, (p < length mes)%nat → (length (page_of l p) ≤ 64)%nat
            ∧ (is_last_page (length l) p = true ↔ p = (length mes - 1)%nat)).
Proof.
  unfold register_inventory, cfg_of, new_uid. cbv zeta. intros E.
  apply pm_bind_Ok in E as (ha & s0 & [-> ->]%asks_Ok & E).
  apply pm_bind_Ok in E as (u0 & s1 & Ei & E).
  assert (∃ t i, s1 = s <| dx_ticks := t |> <| dx_inventory_id := i |>) as (t1 & i1 & ->).
  { destruct (nc_ha _).
    - apply pm_bind_Ok in Ei as (i & s2 & (_ & _ & ->)%query_Ok & ->%sets_Ok). by do 2 eexists.
    - apply pm_ret_Ok in Ei as [_ ->]. exists s.(dx_ticks), s.(dx_inventory_id). by destruct s. }
  apply pm_bind_Ok in E as (me & s2 & [t2 ->]%tick_run & E); [|solve_preserves].
  apply pm_bind_Ok in E as (here & s3 & [t3 ->]%tick_run & E); [|solve_preserves].
  apply pm_bind_Ok in E as (c & s4 & [_ ->]%asks_Ok & E). apply pm_bind_Ok in E as (inv & s4 & [_ ->]%gets_Ok & E).
  apply pm_bind_Ok in E as ([[[[us free] ac] re] co] & s4 & [t4 ->]%tick_run & E); [|solve_preserves].
  apply pm_bind_Ok in E as (lease & s5 & [t5 ->]%tick_run & E); [|solve_preserves].
  apply pm_bind_Ok in E as (records & s6 & El & E).
  assert (records = (rows s.(dx_tables).(tb_blocks)).*2) as ->.
  { unfold look in El. by apply pm_bind_Ok in El as (j & s7 & [t7 ->]%tick_run & [-> _]%gets_Ok); [|solve_preserves]. }
  apply tick_run in El as [t6 ->]; [|solve_preserves].
  apply pm_bind_Ok in E as (bs & s7 & [-> ->]%gets_Ok & E).
  apply pm_bind_Ok in E as (u1 & s7 & Es & ->%sets_Ok).
  match type of Es with each _ _ _ ?a = _ => remember a as sx eqn:Hsx end.
  assert (dx_sent sx = dx_sent s ∧ dx_generation sx = dx_generation s ∧ dx_inventory_id sx = i1
    ∧ dx_blocks sx = dx_blocks s) as (E1 & E2 & E3 & E4) by (subst sx; split_and!; reflexivity). clear Hsx.
  assert (s7.(dx_inventory_id) = i1) as Hinv.
  { match type of Es with each ?ps ?f w ?a = _ =>
      assert (preserves idle (each ps f)) as Hk by solve_preserves; specialize (Hk w a); rewrite Es in Hk end.
    cbn [snd] in Hk. destruct Hk as (? & ? & ? & ->). exact E3. }
  rewrite E4 in Es. apply send_pages in Es as (mes & Hl & Hs). rewrite length_seq in Hl. rewrite E1, E2, E3 in Hs.
  set (l := verified_receipts _ _) in *. pose proof (page_count_bounds (length l)) as (Hc & Hpos & Hlast).
  eexists _, mes, l. rewrite Hl. split_and!; [exact Hs|reflexivity|reflexivity| | |].
  - change (dx_inventory_id (s7 <| dx_sequence := nl_revision lease |>)) with (dx_inventory_id s7). by rewrite Hinv.
  - by rewrite pages_from by lia.
  - intros p Hp. split; [unfold page_of; rewrite length_take; lia|].
    unfold is_last_page. rewrite Nat.leb_le. by apply Hlast.
Qed.

(** ** Deletions *)
Lemma pinned_alone {A} i (m : N A) w s a s' : pinned i true m w s = (Ok a, s') →
  s.(dx_pins).(Pins.active) !! i = None
  ∧ ∃ p s1, m w (s <| dx_pins := p |>) = (Ok a, s1) ∧ s' = s1 <| dx_pins ::= Pins.unpin i |>.
Proof.
  unfold pinned. intros (p & s1 & [-> ->]%gets_Ok & E)%pm_bind_Ok.
  apply pm_bind_Ok in E as (p' & s1 & [Hp ->]%of_result_Ok & E).
  apply pm_bind_Ok in E as (u & s1 & ->%sets_Ok & (s1 & E & ->%sets_Ok)%finally_Ok).
  unfold Pins.pin in Hp. destruct (_ && _) eqn:Hb; [|done]. bsimpl. simpl in *. bsimpl. split; [done|by exists p', s1].
Qed.
Lemma authorize_delete_run rq w s u s' : authorize_delete rq w s = (Ok u, s') → ∃ t, s' = s <| dx_ticks := t |>.
Proof. apply tick_run. unfold authorize_delete, cfg_of. solve_preserves. Qed.
Lemma report_task_Ok t w s u s' : report_task t w s = (Ok u, s') →
  s'.(dx_blocks) = s.(dx_blocks) ∧ s'.(dx_tables) = put_task (t <| nt_reported := true |>) s.(dx_tables).
Proof.
  unfold report_task, cfg_of. cbv zeta. intros (me & s1 & [t1 ->]%tick_run & E)%pm_bind_Ok; [|solve_preserves].
  apply pm_bind_Ok in E as (c & s2 & [-> ->]%asks_Ok & E). apply pm_bind_Ok in E as (g & s2 & [-> ->]%gets_Ok & E).
  unfold send in E. apply pm_bind_Ok in E as (u1 & s2 & ->%sets_Ok & E).
  apply pm_bind_Ok in E as (r & s2 & [t2 ->]%tick_run & (Ht & Hb & _)%txn_Ok); [|solve_preserves].
  by rewrite Ht, Hb.
Qed.

Lemma remove_retired_Ok rq t w s u s' : remove_retired rq t w s = (Ok u, s') →
  s'.(dx_blocks) = s.(dx_blocks) <| bs_files ::= delete (path_of rq.(xr_block)) |>
  ∧ s'.(dx_tables) = put_task t (s.(dx_tables) <| tb_blocks ::= delete rq.(xr_block).(br_block_version_id) |>).
Proof.
  unfold remove_retired, cfg_of. cbv zeta. intros (rep & s1 & [-> ->]%asks_Ok & E)%pm_bind_Ok.
  apply pm_bind_Ok in E as (u1 & s1 & [t1 ->]%tick_run & E).
  2:{ destruct (nc_replication_enabled _); solve_preserves. }
  apply pm_bind_Ok in E as (u2 & s1 & [_ ->]%demand_Ok & E).
  apply pm_bind_Ok in E as (n & s1 & [t2 ->]%tick_run & E); [|solve_preserves].
  apply pm_bind_Ok in E as (u3 & s1 & ->%sets_Ok & (Ht & Hb & _)%txn_Ok).
  by rewrite Ht, Hb.
Qed.
Lemma look_task i w s o s' : look (λ t, t.(tb_tasks) !! i) w s = (Ok o, s') →
  (∃ t, s' = s <| dx_ticks := t |>) ∧ o = s.(dx_tables).(tb_tasks) !! i.
Proof.
  intros E. split; [by apply tick_run in E; [|solve_preserves]|].
  unfold look in E. by apply pm_bind_Ok in E as (n & s1 & [t1 ->]%tick_run & [-> _]%gets_Ok); [|solve_preserves].
Qed.
(** A deletion that was carried out is answered from its task. *)
Lemma delete_answered rq tp w s st s' t :
  s.(dx_tables).(tb_tasks) !! rq.(xr_task_id) = Some t →
  DeleteRetiredBlock rq tp w s = (Ok st, s') →
  st = t.(nt_status) ∧ s'.(dx_blocks) = s.(dx_blocks) ∧ s'.(dx_tables) = s.(dx_tables).
Proof.
  intros Ht E. unfold DeleteRetiredBlock in E.
  apply pm_bind_Ok in E as (u & s1 & [t1 ->]%tick_run & E); [|solve_preserves].
  apply pm_bind_Ok in E as (o & s1 & [[t2 ->] ->]%look_task & E).
  change (dx_tables (s <| dx_ticks := t1 |>)) with (dx_tables s) in E. rewrite Ht in E.
  apply pm_bind_Ok in E as (b & s1 & [_ ->]%of_result_Ok & E).
  by apply pm_bind_Ok in E as (u1 & s1 & [_ ->]%demand_Ok & [-> ->]%pm_ret_Ok).
Qed.

(** C21: A deletion that completes found nobody using the block version, and left
    neither its object nor its record, and every other object and record as it
    was; the finished task is remembered as reported, and asking again, whatever
    the node did in between to anything but its tasks, is answered from it. *)
Theorem delete_retired rq tp w s st s' :
  s.(dx_tables).(tb_tasks) !! rq.(xr_task_id) = None →
  DeleteRetiredBlock rq tp w s = (Ok st, s') →
  let i := rq.(xr_block).(br_block_version_id) in
  st = mkTaskStatus rq.(xr_task_id) FINISHED None None
  ∧ s.(dx_pins).(Pins.active) !! i = None
  ∧ s'.(dx_blocks).(bs_files) = delete (path_of rq.(xr_block)) s.(dx_blocks).(bs_files)
  ∧ s'.(dx_tables).(tb_blocks) = delete i s.(dx_tables).(tb_blocks)
  ∧ ∀ tp' w' s1 st' s2, s1.(dx_tables).(tb_tasks) = s'.(dx_tables).(tb_tasks) →
      DeleteRetiredBlock rq tp' w' s1 = (Ok st', s2) →
      st' = st ∧ s2.(dx_blocks) = s1.(dx_blocks) ∧ s2.(dx_tables) = s1.(dx_tables).
Proof.
  intros Hnew E i. unfold DeleteRetiredBlock in E. cbv zeta in E.
  apply pm_bind_Ok in E as (u & s1 & [t1 ->]%tick_run & E); [|solve_preserves].
  apply pm_bind_Ok in E as (o & s1 & [[t2 ->] ->]%look_task & E).
  change (dx_tables (s <| dx_ticks := t1 |>)) with (dx_tables s) in E. rewrite Hnew in E.
  apply pm_bind_Ok in E as (u1 & s1 & [t3 ->]%authorize_delete_run & E).
  apply pm_bind_Ok in E as (u2 & s1 & (Hpin & p & s2 & [Hb Ht]%remove_retired_Ok & ->)%pinned_alone & E).
  apply pm_bind_Ok in E as (u3 & s3 & [Hb' Ht']%report_task_Ok & [-> ->]%pm_ret_Ok).
  cbn [dx_blocks dx_tables dx_pins upd] in *.
  split_and!; [done|exact Hpin|by rewrite Hb', Hb|by rewrite Ht', Ht|].
  intros tp' w' s1 st' s4 Htasks E'. eapply delete_answered in E'; [|rewrite Htasks, Ht'; apply lookup_insert_eq]. exact E'.
Qed.
End Copies.
