(* ===== verification/Capacity.v ===== *)
(** * The capacity of a data node

    A reservation is the most its object can take: the container of a block
    that arrives in full chunks is no larger than [storage_cost] of the block,
    so a node that has room for what it holds and has reserved still has after
    any write. *)
From Stdlib Require String.
From S2P Require Import Prelude Domain Data Store Auth Leases Cluster Requests Nodes Process Protected Local Blocks Patch DataNode Streams NodeTasks NodeEffects NodeResources Inventory NodeContent.

(** ** Sums over a table *)
Lemma zsum_perm l1 l2 : l1 ≡ₚ l2 → zsum l1 = zsum l2.
Proof. induction 1; simpl; lia. Qed.
Lemma zsum_of_list {A} (f : A → Z) (m : gmap string A) : zsum_of f m = zsum (f <$> (map_to_list m).*2).
Proof. unfold zsum_of, rows. apply zsum_perm. do 2 apply fmap_Permutation. apply merge_sort_Permutation. Qed.
Lemma zsum_of_fresh {A} (f : A → Z) (m : gmap string A) i x : m !! i = None →
  zsum_of f (<[i := x]> m) = f x + zsum_of f m.
Proof.
  intros Hi. rewrite !zsum_of_list. etrans; [apply zsum_perm; do 2 apply fmap_Permutation; by apply map_to_list_insert|]. done.
Qed.
Lemma zsum_of_insert {A} (f : A → Z) (m : gmap string A) i x : (∀ j y, m !! j = Some y → 0 ≤ f y) →
  zsum_of f (<[i := x]> m) ≤ zsum_of f m + f x.
Proof.
  intros Hf. destruct (m !! i) as [y|] eqn:Hi; [|rewrite zsum_of_fresh by done; lia].
  rewrite <- insert_delete_eq, zsum_of_fresh by apply lookup_delete_eq.
  rewrite <- (insert_id m i y Hi) at 2. rewrite <- insert_delete_eq, zsum_of_fresh by apply lookup_delete_eq.
  pose proof (Hf i y Hi). lia.
Qed.

Section Capacity.
Context `{Hash, Unicode, Aead, Json, Base64, KeyWrap, Wire, OrderWire}.

(** ** The size of a container *)
Lemma seal_records_length dek p h cs : ∀ i,
  slen (seal_records dek p h i cs) = slen (cat cs) + 20 * Z.of_nat (length cs).
Proof.
  induction cs as [|c cs IH]; intros i; [done|]. cbn [seal_records cat length]. unfold seal_record.
  rewrite !slen_app, IH, aead_length. change (slen (be32 _)) with 4. lia.
Qed.
Lemma filled_count size ds : ∀ o, filled size o ds → Z.of_nat (length ds) * CHUNK ≤ Z.max 0 (size - o + CHUNK - 1).
Proof.
  assert (CHUNK = 262144) as Hc by done.
  induction ds as [|c ds IH]; intros o; cbn [filled length]; [lia|]. unfold put_chunk_ok. intros [Hk Hds]. bsimpl.
  pose proof (IH _ Hds) as Hn. destruct ds as [|c' ds]; cbn [length] in *; [lia|].
  cbn [filled] in Hds. destruct Hds as [Hk' _]. unfold put_chunk_ok in Hk'. bsimpl. lia.
Qed.
Lemma container_cost bs b ds dek p bs' n h :
  filled b.(br_size_bytes) 0 ds → slen (header_of bs b dek p) ≤ 4084 →
  put_object bs b (map dc_data ds) dek p = Ok (bs', n, h) → n ≤ storage_cost b.(br_size_bytes).
Proof.
  intros Hd Hh Hput. pose proof (put_object_content _ _ _ _ _ _ _ _ Hput) as (Hlen & _ & _).
  unfold put_object in Hput. repeat (case_match; [done|]). injection Hput as _ <- _.
  unfold container. rewrite !slen_app, seal_records_length, length_map, Hlen.
  change (slen BLOCK_MAGIC) with 8. change (slen (be32 _)) with 4.
  pose proof (filled_count _ _ _ Hd) as Hn. rewrite Z.sub_0_r in Hn.
  assert (0 ≤ b.(br_size_bytes)) by (rewrite <- Hlen; apply slen_nonneg).
  assert (CHUNK = 262144) as Hc by done. unfold storage_cost, cdiv. rewrite Z.max_r in Hn by lia.
  assert (Z.of_nat (length ds) ≤ (br_size_bytes b + CHUNK - 1) / CHUNK); [|lia].
  apply Z.div_le_lower_bound; lia.
Qed.

(** ** Runs of a write *)
(** Neither the objects nor the tables nor the reservations change. *)
Definition booked (s s' : data_node) : Prop := volatile s s' ∧ s'.(dx_reserved) = s.(dx_reserved).
#[local] Instance booked_order : PreOrder booked.
Proof. split; [by intros s|]. intros s1 s2 s3 [V12 ?] [V23 ?]. split; [by etrans|congruence]. Qed.
#[local] Instance booked_idle : Idle booked.
Proof. split; [apply _|]. by intros s ? (? & ? & ? & ->). Qed.
(** However a bracket ends, its body was run from a state with the same books,
    and nothing was booked after it; or it was not run at all. *)
Lemma bracket_books {A} (f g : data_node → data_node) (m : N A) w s :
  (∀ s, booked s (f s)) → (∀ s, booked s (g s)) → booked (m w (f s)).2 (try_finally m (sets g) w (f s)).2.
Proof.
  intros Hf Hg. unfold try_finally. destruct (m w (f s)) as [[a|[]] s1]; simpl; try apply Hg. done.
Qed.
Lemma admitted_books {A} b (m : N A) w s :
  booked s (admitted b m w s).2 ∨ ∃ s1, booked s s1 ∧ booked (m w s1).2 (admitted b m w s).2.
Proof.
  unfold admitted, mbind, pm_bind. destruct (LocalCoordinator.weight b) as [x|]; [|by left].
  cbn [mret pm_ret gets]. destruct (_ <=? _); [|by left]. cbn [demand mret pm_ret sets]. right.
  eexists. split; [|by apply (bracket_books (λ s, s <| dx_units ::= λ u, u - x |>))]. done.
Qed.
Lemma pinned_books {A} i x (m : N A) w s :
  booked s (pinned i x m w s).2 ∨ ∃ s1, booked s s1 ∧ booked (m w s1).2 (pinned i x m w s).2.
Proof.
  unfold pinned, mbind, pm_bind. cbn [gets]. destruct (Pins.pin _ _ _) as [p'|]; [|by left].
  cbn [of_result mret pm_ret sets]. right.
  eexists. split; [|by apply (bracket_books (λ s, s <| dx_pins := p' |>))]. done.
Qed.
Lemma reserve_room n w s : match reserve n w s with
  | (Ok _, s1) => volatile s s1
      ∧ used_bytes s.(dx_tables) + s.(dx_reserved) + n ≤ w.(w_cfg).(nc_capacity_bytes)
  | (Err _, s1) => booked s s1 end.
Proof.
  destruct (reserve n w s) as [[u|x] s1] eqn:E.
  - unfold reserve, cfg_of in E. apply pm_bind_Ok in E as ([[[[us fr] ac] re] co] & s2 & Em & E).
    assert (us = used_bytes s.(dx_tables)) as ->.
    { unfold metrics in Em. apply pm_bind_Ok in Em as ([x c] & s3 & El & Em). unfold look in El.
      apply pm_bind_Ok in El as (k & s4 & [t4 ->]%tick_run & [[= -> ->] ->]%gets_Ok); [|solve_preserves].
      apply pm_bind_Ok in Em as (? & ? & _ & Em). apply pm_bind_Ok in Em as (? & ? & _ & Em).
      apply pm_bind_Ok in Em as (? & ? & _ & Em). by apply pm_ret_Ok in Em as [[= -> _ _ _ _] _]. }
    apply tick_run in Em as [t ->]; [|solve_preserves].
    apply pm_bind_Ok in E as (r & s2 & [-> ->]%gets_Ok & E). apply pm_bind_Ok in E as (cap & s2 & [-> ->]%asks_Ok & E).
    apply pm_bind_Ok in E as (u1 & s2 & [Hd ->]%demand_Ok & ->%sets_Ok). bsimpl. done.
  - pose proof (kept_metrics booked w s) as Hm. unfold reserve, cfg_of, mbind, pm_bind in E.
    destruct (metrics w s) as [[[[[[us fr] ac] re] co]|y] s2]; simpl in Hm; cbn in E; [|by injection E as _ <-].
    by destruct (_ && _); cbn in E; [|injection E as _ <-].
Qed.

(** ** A write stays within the capacity *)
Definition sizes_ok (t : node_tables) : Prop := ∀ i x, t.(tb_blocks) !! i = Some x → 0 ≤ x.(sb_size).
(** Whatever key a write draws, the header leaves room in its [4096] bytes for
    the magic and the length. *)
Definition header_small (w : node_env) (bs : block_store) (b : BlockRef) : Prop :=
  ∀ i j, slen (header_of bs b (w.(w_random) i 32) (w.(w_random) j 8)) ≤ 4084.
Lemma used_record key digest r t : sizes_ok t →
  used_bytes (record_put key digest r t) ≤ used_bytes t + r.(dr_stored_size_bytes).
Proof.
  intros Ht. unfold used_bytes. simpl. pose proof (zsum_of_insert sb_size t.(tb_blocks)
    r.(dr_block).(br_block_version_id) (mkStored r.(dr_block).(br_block_version_id) r.(dr_block) r.(dr_stored_size_bytes) r false) Ht).
  simpl in *. lia.
Qed.
Definition same_tables (s s' : data_node) : Prop := s'.(dx_tables) = s.(dx_tables).
#[local] Instance same_tables_order : PreOrder same_tables.
Proof. split; [done|]. intros s1 s2 s3. unfold same_tables. congruence. Qed.
#[local] Instance same_tables_idle : Idle same_tables.
Proof. split; [apply _|]. by intros s ? (? & ? & ? & ->). Qed.
Hint Extern 1 (preserves _ (sets _)) => (apply preserves_sets; by intros ?) : kept.

Lemma write_put_used h d fs w s :
  sizes_ok s.(dx_tables) → header_small w s.(dx_blocks) h.(ph_block) → 0 ≤ h.(ph_block).(br_size_bytes) →
  used_bytes (write_put h d fs w s).2.(dx_tables) ≤ used_bytes s.(dx_tables) + storage_cost h.(ph_block).(br_size_bytes).
Proof.
  intros Ht Hh Hz. set (c := storage_cost _). assert (0 ≤ c) as Hc.
  { unfold c, storage_cost, cdiv. pose proof (Z.div_pos (br_size_bytes (ph_block h) + CHUNK - 1) CHUNK).
    assert (CHUNK = 262144) by done. lia. }
  set (T := s.(dx_tables)) in *. set (U := used_bytes T + c).
  set (I := λ (x : failure) s, used_bytes s.(dx_tables) ≤ U).
  set (P := λ s, s.(dx_tables) = T). set (Q := λ s, used_bytes s.(dx_tables) ≤ U).
  assert (∀ x s, P s → I x s) as HP by (unfold I, P, U; intros ? ? ->; lia).
  assert (∀ s s', same_tables s s' → P s → P s') as HS by (unfold same_tables, P; congruence).
  assert (∀ s s', same_tables s s' → Q s → Q s') as HQ by (unfold same_tables, Q; intros ? ? ->; done).
  assert (ensures I w (λ s1, s1 = s) (write_put h d fs) (λ _, Q)) as E.
  2:{ specialize (E s eq_refl). by destruct (write_put h d fs w s) as [[]]. }
  unfold write_put. cbv zeta. eapply (ensures_bind _ _ _ _ _ (λ r s, P s ∧ r.1 ≤ c)).
  { intros ? ->. destruct (store_object _ _ w s) as [[r|x] s1] eqn:E.
    - apply store_object_Ok in E as (i & j & cs & s2 & s3 & (ds & _ & -> & Hd)%receive_put_Ok & _ & Hput & Hs & _);
        [|solve_preserves]. split; [done|]. by eapply container_cost.
    - apply HP. assert (preserves same_tables (store_object (ph_block h) (receive_put d (br_size_bytes (ph_block h)) fs))) as K
        by (unfold store_object; solve_preserves). specialize (K w s). by rewrite E in K. }
  intros [n digest]. apply ensures_pure. simpl. intros Hn.
  eapply (ensures_bind _ _ _ _ _ (λ r s, P s ∧ r.(dr_stored_size_bytes) ≤ c)).
  { intros s1 Hs1. destruct (new_receipt _ _ _ _ w s1) as [[r|x] s2] eqn:E.
    - pose proof (kept_new_receipt same_tables (or_operation_id (ph_operation h)) (ph_block h) n digest w s1) as K.
      rewrite E in K. split; [by eapply HS|]. apply new_receipt_Ok in E as (_ & _ & _ & -> & _). done.
    - apply HP. pose proof (kept_new_receipt same_tables (or_operation_id (ph_operation h)) (ph_block h) n digest w s1) as K.
      rewrite E in K. by eapply HS. }
  intros r. apply ensures_pure. intros Hr. eapply (ensures_bind _ _ _ _ _ (λ _, Q)).
  { unfold txn. eapply ensures_bind; [by eapply (ensures_kept _ _ same_tables); [apply kept_tick; apply _|..]|intros ?].
    apply ensures_sets. intros s1 Hs1. unfold Q. simpl. rewrite Hs1.
    etrans; [by apply used_record|]. unfold U. lia. }
  intros ?. eapply (ensures_bind _ _ _ _ _ (λ _, Q)); [|intros ?; by apply ensures_ret].
  unfold count, txn. eapply ensures_bind; [by eapply (ensures_kept _ _ same_tables); [apply kept_tick; apply _|..]|intros ?].
  by apply ensures_sets.
Qed.
(** What the node holds and what is reserved is no more than its capacity. *)
Definition within (w : node_env) (reserved : Z) (s : data_node) : Prop :=
  used_bytes s.(dx_tables) + reserved ≤ w.(w_cfg).(nc_capacity_bytes).
Lemma within_booked w n s s' : booked s s' → within w n s → within w n s'.
Proof. unfold within. by intros [[_ ->] _]. Qed.
Lemma store_put_within h d fs w s :
  sizes_ok s.(dx_tables) → header_small w s.(dx_blocks) h.(ph_block) → 0 ≤ h.(ph_block).(br_size_bytes) →
  within w s.(dx_reserved) s → within w s.(dx_reserved) (store_put h d fs w s).2.
Proof.
  intros Ht Hh Hz Hs. unfold store_put. cbv zeta.
  match goal with |- context [admitted ?b ?m w s] => destruct (admitted_books b m w s) as [B|(s1 & B1 & B)] end;
    [by eapply within_booked|]. eapply within_booked; [exact B|]. clear B.
  match goal with |- context [pinned ?i ?x ?m w s1] => destruct (pinned_books i x m w s1) as [B|(s2 & B2 & B)] end;
    [eapply within_booked; [exact B|]; by eapply within_booked|]. eapply within_booked; [exact B|]. clear B.
  assert (booked s s2) as [[Eb Et] Er] by by etrans. unfold reserving, mbind, pm_bind.
  pose proof (reserve_room (storage_cost h.(ph_block).(br_size_bytes)) w s2) as Hr.
  destruct (reserve _ w s2) as [[u|x] s3]; [|eapply within_booked; [exact Hr|]; by eapply (within_booked _ _ s)].
  destruct Hr as [[Eb' Et'] Hroom]. rewrite Et, Er in Hroom. rewrite Eb in Eb'. rewrite Et in Et'.
  pose proof (write_put_used h d fs w s3) as Hw. rewrite Eb', Et' in Hw. specialize (Hw Ht Hh Hz).
  unfold within, try_finally. destruct (write_put h d fs w s3) as [[r|[]] s4]; simpl in *; lia.
Qed.

(** C18: A write never takes a data node beyond its capacity.  If what
    the node holds and what its other streams have reserved fits, then after a
    [PutBlock], however it ended and even where the process stopped inside it,
    what the node holds and what they have reserved still fits: the room that
    was reserved from the size of the block covers the container that was
    written, its header, records and tags included. *)
Theorem put_within_capacity h fs tp w s :
  sizes_ok s.(dx_tables) → header_small w s.(dx_blocks) h.(ph_block) → 0 ≤ h.(ph_block).(br_size_bytes) →
  used_bytes s.(dx_tables) + s.(dx_reserved) ≤ w.(w_cfg).(nc_capacity_bytes) →
  used_bytes (PutBlock (FHeader h :: fs) tp w s).2.(dx_tables) + s.(dx_reserved) ≤ w.(w_cfg).(nc_capacity_bytes).
Proof.
  intros Ht Hh Hz Hs. set (P := λ s1 : data_node, booked s s1).
  set (Q := λ s1 : data_node, within w s.(dx_reserved) s1). set (I := λ _ : failure, Q).
  assert (∀ s1, P s1 → Q s1) as HPQ by (intros s1 B; by eapply within_booked).
  assert (∀ x s1, P s1 → I x s1) as HP by (intros ? s1 B; by apply HPQ).
  assert (∀ s1 s2, booked s1 s2 → P s1 → P s2) as KP by (intros s1 s2 B B1; unfold P; by etrans).
  assert (∀ s1 s2, booked s1 s2 → Q s1 → Q s2) as KQ by (intros s1 s2 B; by apply within_booked).
  assert (ensures I w P (PutBlock (FHeader h :: fs) tp) (λ _, Q)) as E.
  2:{ specialize (E s ltac:(unfold P; reflexivity)). by destruct (PutBlock _ tp w s) as [[]]. }
  unfold PutBlock, authorize_put, cfg_of.
  eapply ensures_bind; [eapply (ensures_kept _ _ booked); [solve_preserves|done|done]|intros d].
  destruct (ad_replay_receipt d); [by apply ensures_ret|].
  eapply ensures_bind; [eapply (ensures_kept _ _ booked); [solve_preserves|done|done]|intros o].
  eapply (ensures_bind _ _ _ _ _ (λ _, Q)).
  - destruct o as [a|].
    + eapply ensures_weaken; [eapply (ensures_kept _ _ booked P); [solve_preserves|done|done]|done|by intros ?].
    + intros s1 B. pose proof (store_put_within h d fs w s1) as K. destruct B as [[Eb Et] Er].
      rewrite Eb, Et, Er in K. unfold within in K at 1. rewrite Et in K. specialize (K Ht Hh Hz Hs).
      by destruct (store_put h d fs w s1) as [[]].
  - intros r. eapply (ensures_kept _ _ booked); [solve_preserves|done|done].
Qed.
End Capacity.
