(* ===== verification/Client.v ===== *)
(** * The client: calls and metadata operations ([client/sdk.py], [client/access.py])

    The SDK composes the calls of the control into the operations of a user and
    moves the bytes of files itself.  A client runs here as one thread: every
    call, every read of a clock and every access to a local file takes a tick.
    A renewal thread of [keepalive] is visible only in what it leaves: the
    object it renewed, and the error it stopped with.

    The loops whose length the servers decide are bounded by [v_fuel]: past it
    the run ends like a process that is stopped there. *)
From Stdlib Require String.
From S2P Require Import Prelude Domain Data Store Auth Leases Cluster Requests Queries Process DataNode.

(** ** The client and its world *)
(** A stream of frames, then its end or an error. *)
Record read_stream := mkReadStream { rd_frames : list (frame ReadBlockHeader); rd_error : option rpc_error }.
Record client_env := mkClientEnv {
  v_many : bool;                         (* the target is a list of endpoints *)
  v_fuel : nat;
  v_stops : nat → bool;
  v_uuid : nat → string;
  v_clock : nat → Z;                     (* monotonic(), in milliseconds *)
  v_health : nat → result rpc_error unit;
  v_login : nat → string → string → result rpc_error Session;
  v_control : nat → string → request → result rpc_error response;
  v_put : nat → string → string → list (frame PutBlockHeader) → result rpc_error DurableReceipt;
  v_patch : nat → string → string → list (frame PatchBlockHeader) → result rpc_error DurableReceipt;
  v_get : nat → string → string → GetBlockRequest → read_stream;
  v_source : nat → string * Z;           (* content and mtime of the file that is sent *)
  v_disk_fails : nat → bool;
  v_closed : nat → bool;                 (* the consumer of a generator closed it at a yield *)
  v_renewed_handle : nat → Handle → Handle;
  v_renewed_plan : nat → UploadPlan → UploadPlan;
  v_renewal_failed : nat → option failure }.
Record client := mkClient {
  cl_session : option Session; cl_cwd : string; cl_cwd_id : string;
  cl_last_commit : option request; cl_last_operation : option OperationRef;
  cl_traffic : gmap string (Z * Z);      (* per node: client_write_bytes, client_read_bytes *)
  cl_handles : list Handle;              (* the handle objects, which are shared and changed *)
  cl_plan : option UploadPlan;           (* the plan of the upload under way *)
  cl_files : gmap string string;         (* the local files it writes *)
  cl_yielded : list string;              (* what its generators gave to their consumer *)
  cl_received : Z; cl_hashed : string;   (* [received], [digest]: they outlive an exception of the stream *)
  cl_asked : list request;               (* the calls of the control, in order *)
  cl_acked : list (list (frame PutBlockHeader) * DurableReceipt);  (* the writes that nodes acknowledged *)
  cl_ticks : nat }.
#[export] Instance eta_client : Eta client := λ r,
  mkClient r.(cl_session) r.(cl_cwd) r.(cl_cwd_id) r.(cl_last_commit) r.(cl_last_operation) r.(cl_traffic)
    r.(cl_handles) r.(cl_plan) r.(cl_files) r.(cl_yielded) r.(cl_received) r.(cl_hashed) r.(cl_asked) r.(cl_acked) r.(cl_ticks).
#[export] Instance eta_handle_message : Eta Handle := λ r,
  mkHandle r.(hm_handle_id) r.(hm_snapshot) r.(hm_mode) r.(hm_expires) r.(hm_revision).
#[export] Instance eta_acl_message : Eta Acl := λ r,
  mkAcl r.(acl_owner_id) r.(acl_group_id) r.(acl_owner) r.(acl_group) r.(acl_other) r.(acl_entries) r.(acl_revision).
#[export] Instance client_process : Process client_env client := {
  stops w := w.(v_stops);
  ticks s := s.(cl_ticks);
  ticked s := s <| cl_ticks ::= S |> }.
Abbreviation C := (PM client_env client).
(** A loop that goes on for longer than is looked at. *)
Definition running {A} : C A := fail Exit.

#[export] Instance object_kind_eq_dec : EqDecision ObjectKind.
Proof. solve_decision. Defined.
(** [posixpath.normpath], [str.lstrip]. *)
Fixpoint lstrip (c : ascii) (s : string) : string :=
  match s with String c' s' => if decide (c = c') then lstrip c s' else s | EmptyString => s end.
Definition push_component (root : bool) (stack : list string) (c : string) : list string :=
  if empty c || bool_decide (c = ".") then stack
  else if negb (bool_decide (c = "..")) || (negb root && bool_decide (stack = []))
          || bool_decide (head stack = Some "..")
  then c :: stack
  else tail stack.
Definition initial_slashes (p : string) : string :=
  if starts_with "/" p then (if starts_with "//" p && negb (starts_with "///" p) then "//" else "/") else "".
Definition normpath (p : string) : string :=
  let lead := initial_slashes p in
  let r := lead +:+ String.concat "/" (rev (fold_left (push_component (negb (empty lead))) (split_on slash p) [])) in
  if empty r then "." else r.

Section Client.
Context `{Hash, Unicode, Wire}.

(** ** Calls *)
Definition uuid4 : C string := query v_uuid.
(** [metadata]: the session's token. *)
Definition metadata : C string :=
  s ← gets cl_session;
  match s with Some s => mret s.(sm_token) | None => fail (Raised PyError) end.
Definition prepared_context (digest request_id : string) : C RequestContext :=
  i ← if empty request_id then uuid4 else mret request_id;
  s ← gets cl_session;
  match s with
  | Some s => mret (mkRequestContext i s.(sm_user_id) s.(sm_service_epoch) digest)
  | None => fail (Raised PyError)
  end.
Definition prepare (b : body) (request_id : string) : C request :=
  c ← prepared_context (request_intent b) request_id; mret (mkRequest c b).
Definition recoverable (many : bool) (c : Grpc.StatusCode) : bool :=
  bool_decide (c = Grpc.UNAVAILABLE) || (many && bool_decide (c = Grpc.DEADLINE_EXCEEDED)).
Definition attempt (rq : request) : C response :=
  token ← metadata;
  sets (λ s, s <| cl_asked ::= λ l, l ++ [rq] |>);;
  Process.call (λ w i, w.(v_control) i token rq).
(** The loop of [call]: the same request again, after a pause. *)
Fixpoint call_prepared (rq : request) (retries : nat) : C response :=
  try_except (attempt rq) (λ x,
    match x, retries with
    | RpcError e, S n =>
        many ← asks v_many;
        if recoverable many e.(re_code) then _ ← tick; call_prepared rq n else fail x
    | _, _ => fail x
    end).
Definition call_retrying (retries : nat) (b : body) : C response :=
  rq ← prepare b ""; call_prepared rq retries.
Definition call (b : body) : C response := call_retrying 2 b.
(** The stub of a method answers a message of its response type. *)
Definition typed {A} (f : response → option A) (m : C response) : C A :=
  r ← m; match f r with Some a => mret a | None => fail (Raised PyError) end.
Definition as_entry r := match r with REntry v => Some v | _ => None end.
Definition as_list r := match r with RList v => Some v | _ => None end.
Definition as_acl r := match r with RAcl v => Some v | _ => None end.
Definition as_operation r := match r with ROperation v => Some v | _ => None end.
Definition as_blocks r := match r with RBlocks v => Some v | _ => None end.
Definition as_nodes r := match r with RNodes v => Some v | _ => None end.
Definition as_task r := match r with RTask v => Some v | _ => None end.
Definition as_protection r := match r with RProtection v => Some v | _ => None end.
Definition as_mutation r := match r with RMutation v => Some v | _ => None end.
Definition as_user r := match r with RUser v => Some v | _ => None end.
Definition as_group r := match r with RGroup v => Some v | _ => None end.
Definition as_upload r := match r with RUpload v => Some v | _ => None end.
Definition as_page r := match r with RPage v => Some v | _ => None end.
Definition as_commit r := match r with RCommit v => Some v | _ => None end.
Definition as_handle r := match r with RHandle v => Some v | _ => None end.
Definition as_read r := match r with RRead v => Some v | _ => None end.
Definition as_fence r := match r with RFence v => Some v | _ => None end.
Definition as_write r := match r with RWrite v => Some v | _ => None end.

(** [path]: relative to the working directory the client knows. *)
Definition path (value : string) : C PathRef :=
  cwd ← gets cl_cwd; i ← gets cl_cwd_id; mret (mkPathRef value cwd i).
Definition no_path : PathRef := mkPathRef "" "" "".
Definition record_traffic (node : string) (written read : Z) : C unit :=
  sets (λ s, s <| cl_traffic ::= λ t,
    let '(a, b) := default (0, 0) (t !! node) in <[node := (a + written, b + read)]> t |>).

(** ** Operations on the namespace *)
Definition stat (p : string) : C Entry := r ← path p; typed as_entry (call (Stat r)).
Definition pwd : C string :=
  e ← stat ".";
  demand (bool_decide (e.(en_kind) = DIRECTORY)) CWD_GONE;;
  gets cl_cwd.
(** The text of the new working directory: at most one slash leads it. *)
Definition joined (cwd p : string) : string := if starts_with "/" p then p else rstrip slash cwd +:+ "/" +:+ p.
Definition one_slash (p : string) : string := if starts_with "//" p then "/" +:+ lstrip slash p else p.
Definition cd (p : string) : C string :=
  e ← stat p;
  demand (bool_decide (e.(en_kind) = DIRECTORY)) NOT_DIRECTORY;;
  sets (λ s, s <| cl_cwd ::= λ cwd, one_slash (nfc (normpath (joined cwd p))) |> <| cl_cwd_id := e.(en_object_id) |>);;
  gets cl_cwd.
Definition ls_page (p : string) (limit : Z) (cursor : string) : C ListResponse :=
  r ← path p; typed as_list (call (List r (mkPageRequest limit cursor))).
(** The entries, page after page until no cursor is left. *)
Fixpoint ls_from (fuel : nat) (p cursor : string) : C (list Entry) :=
  match fuel with
  | O => running
  | S fuel =>
      page ← ls_page p 100 cursor;
      if empty page.(ls_next_cursor) then mret page.(ls_entries)
      else rest ← ls_from fuel p page.(ls_next_cursor); mret (page.(ls_entries) ++ rest)
  end.
Definition ls (p : string) : C (list Entry) := fuel ← asks v_fuel; ls_from fuel p "".
Definition mkdir (p : string) : C Entry := r ← path p; typed as_entry (call (Mkdir r)).
Definition rmdir (p : string) : C MutationResult := r ← path p; typed as_mutation (call (Rmdir r)).
Definition rm (p : string) : C MutationResult := r ← path p; typed as_mutation (call (Remove r)).

(** ** Identity *)
Definition login (username password : string) : C Session :=
  _ ← uuid4; _ ← Process.call v_health; _ ← uuid4;
  s ← Process.call (λ w i, w.(v_login) i username password);
  sets (λ c, c <| cl_session := Some s |>);;
  e ← stat "/";
  sets (λ c, c <| cl_cwd := "/" |> <| cl_cwd_id := e.(en_object_id) |>);;
  mret s.
Definition logout : C MutationResult :=
  s ← gets cl_session;
  s ← match s with Some s => mret s | None => fail (Raised PyError) end;
  r ← typed as_mutation (call (Logout s.(sm_session_id)));
  sets (λ c, c <| cl_session := None |>);;
  mret r.
Definition create_user (username password : string) : C User := typed as_user (call (CreateUser username password)).
Definition set_user (user_id : string) (revision : Z) (disabled : bool) : C User :=
  typed as_user (call (SetUser user_id disabled revision)).
Definition change_password (user_id : string) (revision : Z) (password : string) : C User :=
  typed as_user (call (ChangePassword user_id password revision)).
Definition create_group (name : string) : C Group := typed as_group (call (CreateGroup name)).
Definition set_group_members (group_id : string) (revision : Z) (user_ids : list string) : C Group :=
  typed as_group (call (SetGroupMembers group_id user_ids revision)).
Definition set_acl (p : string) (acl : Acl) : C MutationResult :=
  r ← path p; typed as_mutation (call (SetAcl r acl acl.(acl_revision))).
Definition get_acl (p : string) : C Acl := r ← path p; typed as_acl (call (GetAcl r)).
Definition mode_acl (mode : Z) (acl : Acl) : Acl :=
  acl <| acl_owner := Z.shiftr mode 6 |> <| acl_group := Z.land (Z.shiftr mode 3) 7 |> <| acl_other := Z.land mode 7 |>.
Definition chmod (p : string) (mode : Z) : C MutationResult :=
  demand ((0 <=? mode) && (mode <=? 511)) INVALID_ARGUMENT;;
  acl ← get_acl p;
  r ← path p; typed as_mutation (call (SetAcl r (mode_acl mode acl) acl.(acl_revision))).

(** ** The cluster *)
Definition nodes : C NodeStatusPage := typed as_nodes (call (ListNodes (mkPageRequest 0 ""))).
Definition set_node_authorization (node_id : string) (revision : Z) (enabled : bool) : C response :=
  call (SetNodeAuthorization node_id enabled revision).
Definition protection (p : option string) (operation_id snapshot_id cursor : string) : C ProtectionStatus :=
  r ← match p with Some p => if empty p then mret no_path else path p | None => mret no_path end;
  typed as_protection (call (GetProtection r operation_id snapshot_id (mkPageRequest 64 cursor))).
Definition promote (p : string) (revision : Z) : C response := r ← path p; call (PromoteProtection r revision).
Definition copy_status (task_id : string) : C TaskStatus := typed as_task (call (CopyStatus task_id)).
(** [wait_durable]: all pages of the protection of an operation, until every one
    is ready or the time is up. *)
Fixpoint durable_pages (fuel : nat) (operation_id cursor : string) (ready : bool) : C bool :=
  match fuel with
  | O => running
  | S fuel =>
      st ← protection None operation_id "" cursor;
      demand (bool_decide (st.(px_operation_state) = PREPARING) || bool_decide (st.(px_operation_state) = COMMITTED))
        OPERATION_EXPIRED;;
      let ready := ready && st.(px_durable_ready) in
      if empty st.(px_next_cursor) then mret ready else durable_pages fuel operation_id st.(px_next_cursor) ready
  end.
Fixpoint poll_durable (fuel pages : nat) (operation_id : string) (deadline : Z) : C unit :=
  match fuel with
  | O => running
  | S fuel =>
      ready ← durable_pages pages operation_id "" true;
      if (ready : bool) then mret tt
      else
        t ← query v_clock;
        demand (t <? deadline) INSUFFICIENT_REPLICAS;;
        _ ← tick; poll_durable fuel pages operation_id deadline
  end.
Definition wait_durable (operation_id : string) : C unit :=
  t ← query v_clock; fuel ← asks v_fuel;
  poll_durable fuel fuel operation_id (t + 240000).

(** [operation]: the state of an operation, by its identity or by the request that
    began it. *)
Definition operation (operation_id request_id : string) : C OperationStatus :=
  typed as_operation (call_retrying 0 (GetOperation operation_id request_id)).

(** ** Handles *)
(** A new message is a new object; its place in the list stands for it. *)
Definition new_handle (h : Handle) : C nat :=
  hs ← gets cl_handles;
  sets (λ s, s <| cl_handles ::= λ l, l ++ [h] |>);; mret (length hs).
Definition handle_at (h : nat) : C Handle :=
  hs ← gets cl_handles;
  match hs !! h with Some x => mret x | None => fail (Raised PyError) end.
Definition set_handle (h : nat) (x : Handle) : C unit := sets (λ s, s <| cl_handles ::= <[h := x]> |>).
(** The handle as the renewal thread of its [keepalive] has left it. *)
Definition renewed (h : nat) : C Handle :=
  x ← handle_at h; x ← query (λ w i, w.(v_renewed_handle) i x); set_handle h x;; mret x.
Definition open_read (p : string) : C nat :=
  r ← path p; x ← typed as_handle (call (Open r ctl.R)); new_handle x.
Definition close (h : nat) : C MutationResult :=
  x ← handle_at h; typed as_mutation (call (Close x.(hm_handle_id) x.(hm_revision))).
(** [keepalive]: when the body is done, an error of the renewal is raised. *)
Definition keepalive {A} (m : C A) : C A :=
  a ← m; f ← query v_renewal_failed;
  match f with Some x => fail x | None => mret a end.
Definition page_one : PageRequest := mkPageRequest 1 "".
Definition copy_block (remote : string) (index : Z) (destination : string) : C response :=
  h ← open_read remote;
  try_finally
    (x ← handle_at h;
     let size := x.(hm_snapshot).(sr_block_size_bytes) in
     plan ← typed as_blocks (call (ResolveBlocks x.(hm_handle_id) x.(hm_snapshot) (Some (index * size))
              (Some (Z.min size (x.(hm_snapshot).(sr_size_bytes) - index * size))) page_one ""));
     match plan.(bp_blocks) with
     | [b] =>
         match b.(pb_locations) with
         | l :: _ => call (CopyBlock b.(pb_block) l.(bl_node_id) destination)
         | [] => fail (Raised PyError)
         end
     | _ => refuse INVALID_ARGUMENT
     end)
    (_ ← close h; mret tt).
End Client.
