(* ===== verification/Downloads.v ===== *)
(** * Downloads ([client/sdk.py]: [download_block], [receive_handle], [receive])

    A file arrives block by block in a temporary file beside its target; each
    block is verified while it arrives and asked for again elsewhere when its
    stream breaks, and the target is published in one step at the end. *)
From Stdlib Require String.
From S2P Require Import Prelude Domain Data Store Auth Leases Cluster Requests Queries Process DataNode Streams Client.

(** The dictionary form of the request of a read, for its intent. *)
Class ReadWire := { get_dict : GetBlockRequest → json }.

Section Downloads.
Context `{Hash, Unicode, Wire, ReadWire}.

(** ** Local files *)
Definition disk_write (f : gmap string string → gmap string string) : C unit :=
  broken ← query v_disk_fails;
  if (broken : bool) then fail (Raised PyError) else sets (λ s, s <| cl_files ::= f |>).
(** [open('xb')]. *)
Definition create (file : string) : C unit :=
  fs ← gets cl_files;
  if decide (is_Some (fs !! file)) then fail (Raised PyError) else disk_write <[file := ""]>.
(** [out.write], [out.seek(start); out.truncate()]. *)
Definition append (file data : string) : C unit := disk_write (λ fs, <[file := default "" (fs !! file) +:+ data]> fs).
Definition truncate (file : string) (start : nat) : C unit :=
  disk_write (λ fs, <[file := String.substring 0 start (default "" (fs !! file))]> fs).
Definition unlink (file : string) : C unit := _ ← tick; sets (λ s, s <| cl_files ::= delete file |>).
(** The directory part of a path. *)
Fixpoint folder (p : string) : string :=
  match p with
  | EmptyString => ""
  | String c q => if has_char slash p then String c (folder q) else ""
  end.
Definition temporary (local id : string) : string := folder local +:+ ".dfsha-" +:+ id +:+ ".part".

(** ** One block *)
(** [self.prepare(GetBlockRequest(...))]: the intent ignores the context. *)
Definition prepare_get (h : Handle) (b : BlockRef) (offset length : Z) (capability read_id : string) : C GetBlockRequest :=
  let rq c := mkGetBlock c h.(hm_handle_id) h.(hm_snapshot) b (Some offset) (Some length) capability read_id in
  c ← prepared_context (intent (get_dict (rq no_context))) "";
  mret (rq c).
(** [DEADLINES[handle.snapshot.block_size_bytes]]. *)
Definition profiled (h : Handle) : C unit :=
  match dget h.(hm_snapshot).(sr_block_size_bytes) DEADLINES with Some _ => mret tt | None => fail (Raised PyError) end.
Definition get_block (endpoint : string) (rq : GetBlockRequest) : C read_stream :=
  token ← metadata; query (λ w i, w.(v_get) i endpoint token rq).
Definition stream_end (st : read_stream) : C unit :=
  match st.(rd_error) with Some e => fail (RpcError e) | None => mret tt end.
Definition header_matches (b : BlockRef) (h : ReadBlockHeader) : bool :=
  bool_decide (h.(rh_block) = b) && bool_decide (h.(rh_range_sha256) = b.(br_plaintext_sha256))
  && (h.(rh_length) =? b.(br_size_bytes)).
Definition read_chunk_ok (limit offset : Z) (c : DataChunk) : bool :=
  (c.(dc_offset) =? offset) && (0 <? slen c.(dc_data)) && (slen c.(dc_data) <=? CHUNK)
  && (offset + slen c.(dc_data) <=? limit).
Definition receive_chunks (b : BlockRef) (file : string) (frames : list (frame ReadBlockHeader)) : C (Z * string) :=
  fold frames (0, "") (λ '(offset, text) f,
    match f with
    | FChunk c =>
        demand (read_chunk_ok b.(br_size_bytes) offset c) CHECKSUM_MISMATCH;;
        append file c.(dc_data);;
        mret (offset + slen c.(dc_data), text +:+ c.(dc_data))
    | _ => refuse CHECKSUM_MISMATCH
    end).
(** One stream of a block into the file; a hash is the text it was fed. *)
Definition fetch_block (h : nat) (b : BlockRef) (file baseline : string) (l : BlockLocation) (g : BlockGrant)
    : C (string * Z) :=
  x ← renewed h;
  rq ← prepare_get x b 0 b.(br_size_bytes) g.(bg_capability) "";
  x ← renewed h; profiled x;;
  st ← get_block l.(bl_client_endpoint) rq;
  match st.(rd_frames) with
  | [] => stream_end st;; fail (Raised PyError)
  | FHeader hd :: frames =>
      demand (header_matches b hd) CHECKSUM_MISMATCH;;
      '(offset, text) ← receive_chunks b file frames;
      stream_end st;;
      demand ((offset =? b.(br_size_bytes)) && bool_decide (sha256 text = b.(br_plaintext_sha256))) CHECKSUM_MISMATCH;;
      record_traffic l.(bl_node_id) 0 offset;;
      mret (baseline +:+ text, offset)
  | _ => refuse CHECKSUM_MISMATCH
  end.
Definition candidates (failed : list string) (a : PlannedBlock) : list (BlockLocation * BlockGrant) :=
  List.filter (λ p, negb (bool_decide (p.1.(bl_node_id) ∈ failed))) (zip a.(pb_locations) a.(pb_grants)).
Definition transient (c : Grpc.StatusCode) : bool :=
  bool_decide (c = Grpc.UNAVAILABLE) || bool_decide (c = Grpc.DEADLINE_EXCEEDED) || bool_decide (c = Grpc.DATA_LOSS).
(** The same block, wherever the control now says it is. *)
Definition fresh_allocation (h : nat) (b : BlockRef) : C PlannedBlock :=
  x ← renewed h;
  plan ← typed as_blocks (call (ResolveBlocks x.(hm_handle_id) x.(hm_snapshot)
           (Some (b.(br_block_index) * x.(hm_snapshot).(sr_block_size_bytes))) (Some b.(br_size_bytes)) page_one ""));
  x ← renewed h;
  match plan.(bp_blocks) with
  | [a] =>
      demand (bool_decide (plan.(bp_snapshot) = Some x.(hm_snapshot)) && bool_decide (a.(pb_block) = b)) CHECKSUM_MISMATCH;;
      mret a
  | _ => refuse CHECKSUM_MISMATCH
  end.
(** [more] further attempts; [start] is the length of the file before the block. *)
Fixpoint download_from (more : nat) (h : nat) (b : BlockRef) (file baseline : string) (start : nat)
    (a : PlannedBlock) (failed : list string) : C (string * Z) :=
  match candidates failed a with
  | [] => refuse DATA_UNAVAILABLE
  | (l, g) :: _ =>
      try_except (fetch_block h b file baseline l g) (λ x,
        match x, more with
        | RpcError e, S more =>
            if transient e.(re_code) then
              let failed := l.(bl_node_id) :: failed in
              truncate file start;;
              a ← fresh_allocation h b;
              if existsb (λ l, negb (bool_decide (l.(bl_node_id) ∈ failed))) a.(pb_locations)
              then download_from more h b file baseline start a failed else fail x
            else fail x
        | _, _ => fail x
        end)
  end.
Definition download_block (h : nat) (a : PlannedBlock) (file digest : string) : C (string * Z) :=
  fs ← gets cl_files;
  download_from 2 h a.(pb_block) file digest (String.length (default "" (fs !! file))) a [].

(** ** The file *)
(** The hash fed so far, the bytes received, the blocks. *)
Definition progress : Type := string * Z * list BlockRef.
Definition receive_block (h : nat) (file : string) (p : progress) (a : PlannedBlock) : C progress :=
  let '(digest, total, blocks) := p in
  demand (a.(pb_block).(br_block_index) =? Z.of_nat (length blocks)) CHECKSUM_MISMATCH;;
  '(digest, received) ← download_block h a file digest;
  mret (digest, total + received, blocks ++ [a.(pb_block)]).
Fixpoint receive_pages (fuel h : nat) (file cursor : string) (p : progress) : C progress :=
  match fuel with
  | O => running
  | S fuel =>
      x ← renewed h;
      plan ← typed as_blocks (call (ResolveBlocks x.(hm_handle_id) x.(hm_snapshot) (Some 0)
               (Some x.(hm_snapshot).(sr_size_bytes)) (mkPageRequest 64 cursor) ""));
      x ← renewed h;
      demand (bool_decide (plan.(bp_snapshot) = Some x.(hm_snapshot))) CHECKSUM_MISMATCH;;
      p ← fold plan.(bp_blocks) p (receive_block h file);
      if empty plan.(bp_next_cursor) then mret p else receive_pages fuel h file plan.(bp_next_cursor) p
  end.
Definition whole_file (sn : SnapshotRef) (p : progress) : bool :=
  let '(digest, total, blocks) := p in
  (total =? sn.(sr_size_bytes))
  && match sn.(sr_file_sha256) with Some x => bool_decide (sha256 digest = x) | None => true end
  && bool_decide (manifest_hash blocks = sn.(sr_manifest_sha256)).
(** The body of both [with]: the temporary file is complete and synced. *)
Definition fill (h : nat) (file : string) : C (Z * string) :=
  create file;;
  fuel ← asks v_fuel;
  p ← receive_pages fuel h file "" ("", 0, []);
  x ← renewed h;
  demand (whole_file x.(hm_snapshot) p) CHECKSUM_MISMATCH;;
  disk_write id;;
  let '(digest, total, _) := p in mret (total, hex (sha256 digest)).
(** [os.replace]; or [os.link], which fails where the name is taken, and the
    removal of the first name. *)
Definition publish (file target : string) (overwrite : bool) : C unit :=
  fs ← gets cl_files;
  if overwrite then disk_write (λ fs, <[target := default "" (fs !! file)]> (delete file fs))
  else if decide (is_Some (fs !! target)) then fail (Raised PyError)
  else disk_write (λ fs, <[target := default "" (fs !! file)]> fs);; unlink file.
Definition receive_handle (h : nat) (local : string) (overwrite : bool) : C (Z * string) :=
  fs ← gets cl_files;
  demand (bool_decide (fs !! local = None) || overwrite) ALREADY_EXISTS;;
  i ← uuid4;
  let file := temporary local i in
  try_finally
    (r ← keepalive (fill h file);
     publish file local overwrite;;
     mret r)
    (unlink file).
Definition receive (remote local : string) (overwrite : bool) : C (Z * string) :=
  h ← open_read remote;
  try_finally (receive_handle h local overwrite) (_ ← close h; mret tt).
End Downloads.
