(* ===== verification/ClientFacts.v ===== *)
(** * What the operations of a client can change

    Calls of the control change only the clockwork of a run and the list of
    what was asked; a relation that tolerates these, for the requests that are
    asked, is kept by every operation that is built from calls. *)
From Stdlib Require String.
From S2P Require Import Prelude Domain Data Store Auth Leases Cluster Requests Queries Process DataNode Streams Client Downloads.

(** Ticks do not matter. *)
Class Clocked (R : client → client → Prop) := {
  #[global] clocked_order :: PreOrder R;
  clocked_tick s t : R s (s <| cl_ticks := t |>) }.
(** Nor does asking what satisfies [P]. *)
Class Asks (P : body → Prop) (R : client → client → Prop) := {
  #[global] asks_clocked :: Clocked R;
  asks_asked s rq : P rq.(rq_body) → R s (s <| cl_asked ::= λ l, l ++ [rq] |>) }.
Abbreviation Quiet := (Asks (λ _, True)).
(** What a client keeps outside of its calls. *)
Definition same_files (s s' : client) : Prop := s'.(cl_files) = s.(cl_files) ∧ s'.(cl_handles) = s.(cl_handles).
#[export] Instance same_files_quiet : Quiet same_files.
Proof.
  split; [split|done]; [|by intros s t]. split; [by intros s|intros ??? [] []; split; congruence].
Qed.

Section Leaves.
Context `{Hash, Unicode, Wire, ReadWire}.
Context (R : client → client → Prop) `{HR : !Clocked R}.
Lemma keptc_tick : preserves (W := client_env) R tick.
Proof using HR. intros w s. unfold tick. destruct (stops _ _); simpl; [reflexivity|apply clocked_tick]. Qed.
Lemma keptc_query {A} (f : client_env → nat → A) : preserves R (query f).
Proof using HR. unfold query. apply preserves_bind; [apply _|apply keptc_tick|intros]. apply preserves_asks; apply _. Qed.
Lemma keptc_pcall {A} (f : client_env → nat → result rpc_error A) : preserves R (Process.call f).
Proof using HR.
  unfold Process.call. apply preserves_bind; [apply _|apply keptc_query|intros []];
    [apply preserves_ret; apply _|apply preserves_fail; apply _].
Qed.
Hint Resolve keptc_tick keptc_query keptc_pcall : kept.
Lemma keptc_metadata : preserves R metadata.
Proof using HR. unfold metadata. solve_preserves. Qed.
Lemma keptc_prepared_context d i : preserves R (prepared_context d i).
Proof using HR. unfold prepared_context, uuid4. solve_preserves. Qed.
Hint Resolve keptc_metadata keptc_prepared_context : kept.
Lemma keptc_prepare b i : preserves R (prepare b i).
Proof using HR. unfold prepare. solve_preserves. Qed.
Lemma keptc_path p : preserves R (path p).
Proof using HR. unfold path. solve_preserves. Qed.
Lemma keptc_handle_at h : preserves R (handle_at h).
Proof using HR. unfold handle_at. solve_preserves. Qed.
Lemma keptc_prepare_get x b o n c i : preserves R (prepare_get x b o n c i).
Proof using HR. unfold prepare_get. solve_preserves. Qed.
Lemma keptc_profiled x : preserves R (profiled x).
Proof using HR. unfold profiled. solve_preserves. Qed.
Lemma keptc_get_block e rq : preserves R (get_block e rq).
Proof using HR. unfold get_block. solve_preserves. Qed.
Lemma keptc_stream_end st : preserves R (stream_end st).
Proof using HR. unfold stream_end. solve_preserves. Qed.
Lemma keptc_keepalive {A} (m : C A) : preserves R m → preserves R (keepalive m).
Proof using HR. intros Hm. unfold keepalive. solve_preserves. Qed.
Lemma keptc_typed {A} (f : response → option A) m : preserves R m → preserves R (typed f m).
Proof using HR. intros Hm. unfold typed. solve_preserves. Qed.
End Leaves.
#[export] Hint Extern 1 (preserves _ tick) => apply keptc_tick; apply _ : kept.
#[export] Hint Extern 1 (preserves _ (query _)) => apply keptc_query; apply _ : kept.
#[export] Hint Extern 1 (preserves _ uuid4) => apply keptc_query; apply _ : kept.
#[export] Hint Extern 1 (preserves _ (Process.call _)) => apply keptc_pcall; apply _ : kept.
#[export] Hint Extern 1 (preserves _ running) => apply preserves_fail; apply _ : kept.
#[export] Hint Extern 1 (preserves _ metadata) => apply keptc_metadata; apply _ : kept.
#[export] Hint Extern 1 (preserves _ (prepared_context _ _)) => apply keptc_prepared_context; apply _ : kept.
#[export] Hint Extern 1 (preserves _ (prepare _ _)) => apply keptc_prepare; apply _ : kept.
#[export] Hint Extern 1 (preserves _ (typed _ _)) => apply keptc_typed; [apply _|] : kept.
#[export] Hint Extern 1 (preserves _ (path _)) => apply keptc_path; apply _ : kept.
#[export] Hint Extern 1 (preserves _ (handle_at _)) => apply keptc_handle_at; apply _ : kept.
#[export] Hint Extern 1 (preserves _ (prepare_get _ _ _ _ _ _)) => apply keptc_prepare_get; apply _ : kept.
#[export] Hint Extern 1 (preserves _ (profiled _)) => apply keptc_profiled; apply _ : kept.
#[export] Hint Extern 1 (preserves _ (get_block _ _)) => apply keptc_get_block; apply _ : kept.
#[export] Hint Extern 1 (preserves _ (stream_end _)) => apply keptc_stream_end; apply _ : kept.

Section Calls.
Context `{Hash, Unicode, Wire}.
Context {P : body → Prop} (R : client → client → Prop) `{HR : !Asks P R}.
Lemma keptc_attempt rq : P rq.(rq_body) → preserves R (attempt rq).
Proof using HR.
  intros HP. unfold attempt. apply preserves_bind; [apply _|apply keptc_metadata; apply _|intros].
  apply preserves_bind; [apply _| |intros; apply keptc_pcall; apply _].
  apply preserves_sets. intros s. by apply (asks_asked s rq).
Qed.
Hint Resolve keptc_attempt : kept.
Lemma keptc_call_prepared rq n : P rq.(rq_body) → preserves R (call_prepared rq n).
Proof using HR. intros HP. induction n; cbn [call_prepared]; solve_preserves. Qed.
Lemma keptc_prepare_then {A} b i (f : request → C A) :
  (∀ c, preserves R (f (mkRequest c b))) → preserves R (prepare b i ≫= f).
Proof using HR.
  intros Hf w s. pose proof (keptc_prepared_context R (request_intent b) i w s) as Hc.
  unfold prepare, mbind, pm_bind. destruct (prepared_context _ _ w s) as [[c|x] s1]; simpl in *; [|done].
  etrans; [exact Hc|]. apply Hf.
Qed.
Lemma keptc_call_retrying n b : P b → preserves R (call_retrying n b).
Proof using HR. intros HP. apply keptc_prepare_then. intros c. by apply keptc_call_prepared. Qed.
Lemma keptc_call b : P b → preserves R (call b).
Proof using HR. apply keptc_call_retrying. Qed.
End Calls.
#[export] Hint Extern 1 (preserves _ (call_prepared _ _)) => eapply keptc_call_prepared; [apply _|try exact I] : kept.
#[export] Hint Extern 1 (preserves _ (call_retrying _ _)) => eapply keptc_call_retrying; [apply _|try exact I] : kept.
#[export] Hint Extern 1 (preserves _ (call _)) => eapply keptc_call; [apply _|try exact I] : kept.

Section Polls.
Context `{Hash, Unicode, Wire}.
Context {P : body → Prop} (R : client → client → Prop) `{HR : !Asks P R}.
(** Queries may be asked. *)
Hypothesis Hquery : ∀ b, match b with Stat _ | GetOperation _ _ | GetProtection _ _ _ _ => P b | _ => True end.
Ltac asked := match goal with |- P ?b => exact (Hquery b) end.
Hint Extern 1 (preserves _ (call _)) => eapply keptc_call; [apply _|asked] : kept.
Hint Extern 1 (preserves _ (call_retrying _ _)) => eapply keptc_call_retrying; [apply _|asked] : kept.
Lemma keptc_stat p : preserves R (stat p).
Proof using HR Hquery. unfold stat. solve_preserves. Qed.
Lemma keptc_operation i j : preserves R (operation i j).
Proof using HR Hquery. unfold operation. solve_preserves. Qed.
Lemma keptc_protection p i j c : preserves R (protection p i j c).
Proof using HR Hquery. unfold protection. solve_preserves. Qed.
Lemma keptc_durable_pages fuel i : ∀ c r, preserves R (durable_pages fuel i c r).
Proof using HR Hquery.
  pose proof keptc_protection. induction fuel as [|fuel IH]; intros c r; cbn [durable_pages]; solve_preserves.
Qed.
Lemma keptc_poll_durable fuel n i d : preserves R (poll_durable fuel n i d).
Proof using HR Hquery.
  pose proof keptc_durable_pages. induction fuel as [|fuel IH]; cbn [poll_durable]; solve_preserves.
Qed.
Lemma keptc_wait_durable i : preserves R (wait_durable i).
Proof using HR Hquery. pose proof keptc_poll_durable. unfold wait_durable. solve_preserves. Qed.
End Polls.
Ltac queries := match goal with |- ∀ b, _ => let b := fresh in intros b; destruct b; exact I end.
#[export] Hint Extern 1 (preserves _ (stat _)) => eapply keptc_stat; [apply _|queries] : kept.
#[export] Hint Extern 1 (preserves _ (operation _ _)) => eapply keptc_operation; [apply _|queries] : kept.
#[export] Hint Extern 1 (preserves _ (protection _ _ _ _)) => eapply keptc_protection; [apply _|queries] : kept.
#[export] Hint Extern 1 (preserves _ (wait_durable _)) => eapply keptc_wait_durable; [apply _|queries] : kept.
