(* ===== verification/DownloadFacts.v ===== *)
(** * Downloads are verified and all-or-nothing

    Whatever the control, the nodes and the disk do, a download either publishes
    the verified content of the handle's snapshot under the target name or
    leaves the local files as they were. *)
From Stdlib Require String.
From S2P Require Import Prelude Domain Data Store Auth Leases Cluster Requests Queries Process Protected Blocks DataNode Streams NodeContent Client Downloads ClientFacts.

(** A state that is described by an existential. *)
Lemma ensures_ex {A B} I (w : client_env) (P : B → client → Prop) (m : C A) Q :
  (∀ b, ensures I w (P b) m Q) → ensures I w (λ s, ∃ b, P b s) m Q.
Proof. intros Hm s [b Hs]. by apply (Hm b). Qed.

Section Downloads.
Context `{Hash, Unicode, Wire, ReadWire}.

(** The texts of blocks, each with the size and the digest of its block, in the
    order of their indices. *)
Definition block_text (b : BlockRef) (t : string) : Prop :=
  slen t = b.(br_size_bytes) ∧ sha256 t = b.(br_plaintext_sha256).
Definition verified_text (bs : list BlockRef) (c : string) : Prop :=
  (∃ ts, c = cat ts ∧ Forall2 block_text bs ts)
  ∧ ∀ i b, bs !! i = Some b → b.(br_block_index) = Z.of_nat i.
(** What a snapshot promises of a content. *)
Definition content_of (sn : SnapshotRef) (c : string) : Prop :=
  ∃ bs, verified_text bs c ∧ manifest_hash bs = sn.(sr_manifest_sha256) ∧ slen c = sn.(sr_size_bytes)
  ∧ ∀ x, sn.(sr_file_sha256) = Some x → sha256 c = x.

Lemma verified_nil : verified_text [] "".
Proof. split; [by exists []|done]. Qed.
Lemma verified_app bs c b t : verified_text bs c → block_text b t → b.(br_block_index) = Z.of_nat (length bs) →
  verified_text (bs ++ [b]) (c +:+ t).
Proof.
  intros [(ts & -> & Hts) Hi] Ht Hb. split.
  - exists (ts ++ [t]). split; [|apply Forall2_app; [done|constructor; [done|constructor]]].
    rewrite cat_app. f_equal. symmetry. apply append_nil_r.
  - intros i x [[_ Hx]|[-> <-]]%lookup_snoc_Some; [by apply Hi|done].
Qed.

Section Run.
Context (w : client_env) (h : nat) (sn : SnapshotRef) (F : gmap string string) (file : string).
(** Renewing a handle does not change its snapshot. *)
Hypothesis Hrenew : ∀ i x, (w.(v_renewed_handle) i x).(hm_snapshot) = x.(hm_snapshot).

Definition handle_ok (s : client) : Prop := ∃ x, s.(cl_handles) !! h = Some x ∧ x.(hm_snapshot) = sn.
(** The temporary file holds [c], the other files are those from before. *)
Definition holding (c : string) (s : client) : Prop := s.(cl_files) = <[file := c]> F ∧ handle_ok s.
Definition aside_from (x : failure) (s : client) : Prop := ∀ j, j ≠ file → s.(cl_files) !! j = F !! j.
Lemma holding_aside c x s : holding c s → aside_from x s.
Proof. intros [E _] j Hj. by rewrite E, lookup_insert_ne. Qed.
Lemma holding_same c s s' : same_files s s' → holding c s → holding c s'.
Proof. intros [Hf Hh] [Hc Hx]. unfold holding, handle_ok in *. by rewrite Hf, Hh. Qed.

(** What leaves the files and the handles alone keeps it. *)
Lemma holding_kept {A} (I : failure → client → Prop) c (m : C A) :
  preserves same_files m → (∀ x s, holding c s → I x s) → ensures I w (holding c) m (λ _, holding c).
Proof. intros Hm HI. by eapply ensures_kept; [exact Hm|apply holding_same|]. Qed.
Lemma holding_renewed (I : failure → client → Prop) c : (∀ x s, holding c s → I x s) →
  ensures I w (holding c) (renewed h) (λ x s, holding c s ∧ x.(hm_snapshot) = sn).
Proof using Hrenew.
  intros HI. unfold renewed.
  eapply (ensures_bind _ _ _ _ _ (λ x s, holding c s ∧ x.(hm_snapshot) = sn)).
  { intros s [Hf (x & Hx & Hs)]. unfold handle_at, mbind, pm_bind. cbn [gets]. rewrite Hx. simpl. split; [|done].
    split; [done|]. by exists x. }
  intros x. eapply (ensures_bind _ _ _ _ _ (λ y s, holding c s ∧ y.(hm_snapshot) = sn)).
  { intros s [Hs Hx]. unfold query, mbind, pm_bind, tick. destruct (stops w (ticks s)); simpl; [by apply HI|].
    rewrite Hrenew. done. }
  intros y. eapply (ensures_bind _ _ _ _ _ (λ _ s, holding c s ∧ y.(hm_snapshot) = sn)).
  { apply ensures_sets. intros s [[Hf (z & Hz & _)] Hy]. split; [|done]. split; [done|]. exists y. split; [|done].
    simpl. apply list_lookup_insert_eq. by eapply lookup_lt_Some. }
  intros _. by apply ensures_ret.
Qed.
Lemma holding_write (I : failure → client → Prop) c c' f : (∀ x s, holding c s → I x s) →
  f (<[file := c]> F) = <[file := c']> F → ensures I w (holding c) (disk_write f) (λ _, holding c').
Proof.
  intros HI Hf. unfold disk_write.
  eapply ensures_bind; [apply holding_kept; [solve_preserves|done]|intros broken].
  destruct broken; [apply ensures_fail; intros s; apply HI|].
  apply ensures_sets. intros s [Hs Hh]. split; [|done]. simpl. by rewrite Hs, Hf.
Qed.

(** ** One block *)
Lemma received_chunks b c0 frames : ensures (λ _ s, ∃ t, holding (c0 +:+ t) s) w (holding c0)
  (receive_chunks b file frames) (λ r s, holding (c0 +:+ r.2) s ∧ r.1 = slen r.2).
Proof.
  unfold receive_chunks. set (P := λ (r : Z * string) s, holding (c0 +:+ r.2) s ∧ r.1 = slen r.2).
  eapply (ensures_weaken _ _ _ (P (0, ""))); [apply (ensures_fold _ _ P)|intros s Hs; unfold P; cbn [fst snd]; by rewrite append_nil_r|done].
  intros [offset text] f. destruct f as [hd|c|]; try (apply ensures_fail; intros s [Hs _]; by exists text).
  eapply ensures_bind; [apply ensures_demand; intros x s [Hs _]; by exists text|intros u].
  apply ensures_pure. intros _. unfold P at 1. cbn [fst snd]. apply ensures_pure. intros ->.
  eapply (ensures_bind _ _ _ _ _ (λ _, holding (c0 +:+ (text +:+ dc_data c)))).
  - apply holding_write; [intros x s Hs; by exists text|]. rewrite insert_insert_eq, lookup_insert_eq. simpl.
    by rewrite append_assoc.
  - intros _. apply ensures_ret. intros s Hs. split; [done|]. cbn [fst snd]. by rewrite slen_app.
Qed.
Lemma fetched b c0 l g : ensures (λ _ s, ∃ t, holding (c0 +:+ t) s) w (holding c0) (fetch_block h b file c0 l g)
  (λ r s, holding r.1 s ∧ ∃ t, r.1 = c0 +:+ t ∧ r.2 = slen t ∧ block_text b t).
Proof using Hrenew.
  assert (∀ (x : failure) s, holding c0 s → ∃ t, holding (c0 +:+ t) s) as HI
    by (intros ? s Hs; exists ""; by rewrite append_nil_r).
  unfold fetch_block.
  eapply ensures_bind; [by apply holding_renewed|intros x]. apply ensures_pure. intros _.
  eapply ensures_bind; [apply holding_kept; [solve_preserves|done]|intros rq].
  eapply ensures_bind; [by apply holding_renewed|intros x2]. apply ensures_pure. intros _.
  eapply ensures_bind; [apply holding_kept; [solve_preserves|done]|intros ?].
  eapply ensures_bind; [apply holding_kept; [solve_preserves|done]|intros st].
  destruct (rd_frames st) as [|[hd|c|] frames]; try (apply ensures_fail; exact (HI Exit)).
  { eapply ensures_bind; [apply holding_kept; [solve_preserves|done]|intros ?]. apply ensures_fail; exact (HI Exit). }
  eapply ensures_bind; [apply holding_kept; [solve_preserves|done]|intros ?].
  eapply ensures_bind; [apply received_chunks|intros [offset text]; cbn [fst snd]]. apply ensures_pure. intros ->.
  assert (∀ (x : failure) s, holding (c0 +:+ text) s → ∃ t, holding (c0 +:+ t) s) as HI' by (intros ? s Hs; by exists text).
  eapply ensures_bind; [apply holding_kept; [solve_preserves|done]|intros ?].
  eapply ensures_bind; [by apply ensures_demand; intros; apply HI'|intros ?]. apply ensures_pure. intros Hb. bsimpl.
  eapply ensures_bind; [apply holding_kept; [|done]; unfold record_traffic; by apply preserves_sets|intros ?].
  apply ensures_ret. intros s Hs. split; [done|]. exists text. by split_and!.
Qed.
Lemma download_from_text b c0 k : ∀ a failed,
  ensures aside_from w (holding c0) (download_from k h b file c0 (String.length c0) a failed)
    (λ r s, holding r.1 s ∧ ∃ t, r.1 = c0 +:+ t ∧ r.2 = slen t ∧ block_text b t).
Proof using Hrenew.
  assert (∀ x s, holding c0 s → aside_from x s) as HI by (intros; by eapply holding_aside).
  induction k as [|k IH]; intros a failed; cbn [download_from].
  all: destruct (candidates failed a) as [|[l g] rest]; [apply ensures_fail; auto|].
  all: eapply ensures_try; [apply fetched|intros s [t Hs]; by eapply holding_aside|intros x Hx].
  all: assert (∀ y s, (∃ t, holding (c0 +:+ t) s) → aside_from y s) as HI' by (intros y s [t Hs]; by eapply holding_aside).
  all: destruct x as [x|e|]; try (apply ensures_fail; auto).
  destruct (transient _); [|apply ensures_fail; auto].
  intros s [t Hs]. revert s Hs.
  change (ensures aside_from w (holding (c0 +:+ t)) (truncate file (String.length c0);;
    a ← fresh_allocation h b;
    if existsb (λ l0, negb (bool_decide (bl_node_id l0 ∈ bl_node_id l :: failed))) (pb_locations a)
    then download_from k h b file c0 (String.length c0) a (bl_node_id l :: failed) else fail (RpcError e))
    (λ r s, holding r.1 s ∧ ∃ t, r.1 = c0 +:+ t ∧ r.2 = slen t ∧ block_text b t)).
  eapply (ensures_bind _ _ _ _ _ (λ _, holding c0)).
  { apply holding_write; [intros; by eapply holding_aside|]. rewrite insert_insert_eq, lookup_insert_eq. simpl.
    by rewrite substring_app_l. }
  intros _. unfold fresh_allocation.
  eapply (ensures_bind _ _ _ _ _ (λ _, holding c0)).
  - eapply ensures_bind; [by apply holding_renewed|intros x]. apply ensures_pure. intros _.
    eapply ensures_bind; [apply holding_kept; [solve_preserves|done]|intros plan].
    eapply ensures_bind; [by apply holding_renewed|intros x2]. apply ensures_pure. intros _.
    apply holding_kept; [solve_preserves|done].
  - intros a'. destruct (existsb _ _); [apply IH|apply ensures_fail; auto].
Qed.

(** ** The file *)
Hypothesis Hnew : F !! file = None.
(** What has arrived so far. *)
Definition arrived (p : progress) (s : client) : Prop :=
  let '(digest, total, blocks) := p in holding digest s ∧ total = slen digest ∧ verified_text blocks digest.
Lemma arrived_aside p x s : arrived p s → aside_from x s.
Proof. destruct p as [[d n] bs]. intros [Hs _]. by eapply holding_aside. Qed.
Lemma arrived_block p a :
  ensures aside_from w (arrived p) (receive_block h file p a) arrived.
Proof using Hrenew.
  destruct p as [[digest total] blocks]. unfold receive_block, arrived.
  apply ensures_pure with (φ := total = slen digest ∧ verified_text blocks digest). intros [-> Hv].
  assert (∀ x s, holding digest s → aside_from x s) as HI by (intros; by eapply holding_aside).
  eapply ensures_bind; [by apply ensures_demand|intros ?]. apply ensures_pure. intros Hi. bsimpl.
  eapply (ensures_bind _ _ _ _ _ (λ r s, holding r.1 s ∧ ∃ t, r.1 = digest +:+ t ∧ r.2 = slen t ∧ block_text (pb_block a) t)).
  { unfold download_block. intros s Hs. unfold mbind, pm_bind. cbn [gets].
    rewrite (proj1 Hs), lookup_insert_eq. cbn [default]. by apply download_from_text. }
  intros [d n]. cbn [fst snd]. apply ensures_pure. intros (t & -> & -> & Ht). apply ensures_ret. intros s Hs.
  split_and!; [done|by rewrite slen_app|by apply verified_app].
Qed.
Lemma arrived_pages fuel : ∀ cursor p,
  ensures aside_from w (arrived p) (receive_pages fuel h file cursor p) arrived.
Proof using Hrenew.
  induction fuel as [|fuel IH]; intros cursor p; cbn [receive_pages];
    [apply ensures_fail; intros s; apply arrived_aside|].
  destruct p as [[digest total] blocks]. unfold arrived at 1.
  apply ensures_pure with (φ := total = slen digest ∧ verified_text blocks digest). intros [-> Hv].
  assert (∀ x s, holding digest s → aside_from x s) as HI by (intros; by eapply holding_aside).
  eapply ensures_bind; [by apply holding_renewed|intros x]. apply ensures_pure. intros ?.
  eapply ensures_bind; [apply holding_kept; [solve_preserves|done]|intros plan].
  eapply ensures_bind; [by apply holding_renewed|intros x2]. apply ensures_pure. intros ?.
  eapply ensures_bind; [apply holding_kept; [solve_preserves|done]|intros ?].
  eapply (ensures_bind _ _ _ _ _ arrived).
  - eapply ensures_weaken; [apply (ensures_fold _ _ arrived)|by intros s Hs|done]. intros p' a'. apply arrived_block.
  - intros p'. case_match; [|apply IH]. by apply ensures_ret.
Qed.
(** The body of the [with]: the whole content, verified. *)
Definition filled_with (r : Z * string) (s : client) : Prop :=
  ∃ c, holding c s ∧ content_of sn c ∧ r = (slen c, hex (sha256 c)).
Lemma filled_fill : ensures aside_from w (λ s, s.(cl_files) = F ∧ handle_ok s) (fill h file) filled_with.
Proof using Hrenew Hnew.
  unfold fill. eapply (ensures_bind _ _ _ _ _ (λ _, holding "")).
  { intros s [Hf Hh]. unfold create, mbind, pm_bind. cbn [gets].
    rewrite decide_False by (rewrite Hf, Hnew; by intros []). unfold disk_write, query, mbind, pm_bind, tick.
    assert (∀ x, aside_from x s) as Ha by (intros x j _; by rewrite Hf).
    destruct (stops w (ticks s)); cbn; [apply (Ha Exit)|]. destruct (v_disk_fails _ _); cbn; [apply (Ha Exit)|].
    split; [by rewrite Hf|done]. }
  intros ?. assert (∀ x s, holding "" s → aside_from x s) as HI by (intros; by eapply holding_aside).
  eapply ensures_bind; [apply holding_kept; [solve_preserves|done]|intros fuel].
  eapply (ensures_bind _ _ _ _ _ arrived).
  { eapply ensures_weaken; [apply arrived_pages|intros s Hs; split_and!; [done|done|apply verified_nil]|done]. }
  intros [[c total] blocks]. unfold arrived.
  apply ensures_pure with (φ := total = slen c ∧ verified_text blocks c). intros [-> Hv].
  assert (∀ x s, holding c s → aside_from x s) as HI' by (intros; by eapply holding_aside).
  eapply ensures_bind; [by apply holding_renewed|intros x]. apply ensures_pure. intros ->.
  eapply ensures_bind; [by apply ensures_demand|intros ?]. apply ensures_pure. unfold whole_file. intros Hc. bsimpl.
  eapply ensures_bind; [by apply holding_write|intros ?]. apply ensures_ret. intros s Hs. exists c. split_and!; [done| |done].
  exists blocks. split_and!; [done|done|done|]. intros y Hy. rewrite Hy in *. by bsimpl.
Qed.
Context (local : string) (overwrite : bool).
Hypothesis Hother : file ≠ local.
(** A process that stops may have published already. *)
Definition left_by (x : failure) (s : client) : Prop :=
  aside_from x s ∨ (x = Exit ∧ ∃ c, content_of sn c ∧ (overwrite = false → F !! local = None)
    ∧ ∀ j, j ≠ file → s.(cl_files) !! j = <[local := c]> F !! j).
Definition done_with (r : Z * string) (s : client) : Prop :=
  ∃ c, content_of sn c ∧ r = (slen c, hex (sha256 c)) ∧ s.(cl_files) = <[local := c]> F
       ∧ (overwrite = false → F !! local = None).
Lemma delete_file c : delete file (<[local := c]> (<[file := c]> F)) = <[local := c]> F.
Proof using Hnew Hother.
  rewrite delete_insert_ne by done. rewrite delete_insert_eq. f_equal. by apply delete_id.
Qed.
Lemma published r c : content_of sn c → r = (slen c, hex (sha256 c)) →
  ensures left_by w (holding c) (publish file local overwrite;; mret r) done_with.
Proof using Hrenew Hnew Hother.
  intros Hc Hr s [Hf Hh]. unfold publish, unlink, disk_write, query, mbind, pm_bind, tick. cbn [gets].
  assert (∀ x, left_by x s) as Ha by (intros x; left; apply (holding_aside c); by split).
  rewrite Hf, lookup_insert_ne by done. destruct overwrite eqn:Ho.
  - destruct (stops w (ticks s)); [apply (Ha Exit)|]. cbn. destruct (v_disk_fails _ _); cbn; [apply (Ha (Raised PyError))|].
    exists c. split_and!; [done|done| |by rewrite Ho]. cbn. rewrite Hf, lookup_insert_eq. cbn. f_equal. rewrite delete_insert_eq. by apply delete_id.
  - case_decide as Hn; [apply (Ha (Raised PyError))|]. apply eq_None_not_Some in Hn.
    destruct (stops w (ticks s)); [apply (Ha Exit)|]. cbn. destruct (v_disk_fails _ _); cbn; [apply (Ha (Raised PyError))|].
    rewrite Hf, lookup_insert_eq. cbn. destruct (v_stops w _); cbn.
    + right. split; [done|]. exists c. split_and!; [done|done|]. intros j Hj. cbn.
      destruct (decide (j = local)) as [->|Hl]; [by rewrite !lookup_insert_eq|by rewrite !lookup_insert_ne].
    + exists c. split_and!; [done|done| |done]. apply delete_file.
Qed.
Lemma body_done : ensures left_by w (λ s, s.(cl_files) = F ∧ handle_ok s)
  (r ← keepalive (fill h file); publish file local overwrite;; mret r) done_with.
Proof using Hrenew Hnew Hother.
  eapply (ensures_bind _ _ _ _ _ filled_with).
  - eapply ensures_loosen; [intros x s Hx; left; exact Hx|].
    unfold keepalive. eapply ensures_bind; [apply filled_fill|intros r].
    apply ensures_ex. intros c s [Hs Hc]. revert s Hs.
    change (ensures aside_from w (holding c) (f ← query v_renewal_failed;
      match f with Some x => fail x | None => mret r end) filled_with).
    eapply ensures_bind; [apply holding_kept; [solve_preserves|intros; by eapply holding_aside]|intros f].
    destruct f; [apply ensures_fail; intros; by eapply holding_aside|]. apply ensures_ret. intros s Hs. by exists c.
  - intros r s (c & Hs & Hc & Hr). by apply (published r c Hc Hr).
Qed.
Lemma cleaned s : s.(cl_files) = F → handle_ok s →
  match try_finally (r ← keepalive (fill h file); publish file local overwrite;; mret r) (unlink file) w s with
  | (Ok r, s') => done_with r s'
  | (Err Exit, s') => left_by Exit s'
  | (Err _, s') => s'.(cl_files) = F
  end.
Proof using Hrenew Hnew Hother.
  intros Hf Hh. pose proof (body_done s (conj Hf Hh)) as Hp. unfold try_finally.
  assert (∀ x s1, x ≠ Exit → left_by x s1 → aside_from Exit s1 ∧ delete file s1.(cl_files) = F) as Hd.
  { intros x s1 Hx [Ha|[? _]]; [|done]. split; [exact Ha|]. apply map_eq. intros j.
    destruct (decide (j = file)) as [->|Hj]; [by rewrite lookup_delete_eq|by rewrite lookup_delete_ne, Ha]. }
  match goal with |- context [match ?m w s with _ => _ end] => destruct (m w s) as [[r|[]] s1] end;
    unfold unlink, tick, mbind, pm_bind; [..|exact Hp].
  - destruct Hp as (c & Hc & Hr & Hs & Ho). destruct (stops w _); cbn.
    + right. split; [done|]. exists c. split_and!; [done|done|]. intros j _. by rewrite Hs.
    + exists c. split_and!; [done|done| |done]. cbn. rewrite Hs. rewrite delete_insert_ne by done. f_equal. by apply delete_id.
  - apply Hd in Hp as [Ha Hp]; [|done]. destruct (stops w _); cbn; [by left|done].
  - apply Hd in Hp as [Ha Hp]; [|done]. destruct (stops w _); cbn; [by left|done].
Qed.
End Run.

(** C23: A download is verified and all-or-nothing.  Whatever the control, the nodes
    and the disk answer, and wherever the process stops: when [receive_handle]
    returns, the target holds a content that is cut into blocks with the sizes
    and digests of a manifest the snapshot names, has the size and the digest
    of the snapshot, and is what the caller is told; no other local file
    changed, and without [overwrite] the name was free.  When it fails, the
    local files are as they were; and when the process stops, nothing but the
    temporary file differs, or the verified content was published already. *)
Theorem receive_is_verified w h sn local overwrite s r s' :
  (∀ i x, (w.(v_renewed_handle) i x).(hm_snapshot) = x.(hm_snapshot)) →
  hm_snapshot <$> s.(cl_handles) !! h = Some sn →
  (∀ i, let file := temporary local (w.(v_uuid) i) in s.(cl_files) !! file = None ∧ file ≠ local) →
  receive_handle h local overwrite w s = (r, s') →
  match r with
  | Ok (n, digest) => ∃ c, content_of sn c ∧ s'.(cl_files) = <[local := c]> s.(cl_files)
      ∧ n = slen c ∧ digest = hex (sha256 c) ∧ (overwrite = false → s.(cl_files) !! local = None)
  | Err Exit => ∃ file F, file ≠ local ∧ (∀ j, j ≠ file → s'.(cl_files) !! j = F !! j)
      ∧ (F = s.(cl_files) ∨ ∃ c, content_of sn c ∧ F = <[local := c]> s.(cl_files)
         ∧ (overwrite = false → s.(cl_files) !! local = None))
  | Err _ => s'.(cl_files) = s.(cl_files)
  end.
Proof.
  intros Hrenew Hsn Hnew. unfold receive_handle. set (F := s.(cl_files)) in *. cbv zeta in Hnew.
  rewrite (pm_bind_run (a := F) (s1 := s)) by done. unfold mbind at 1, pm_bind at 1.
  destruct (_ || overwrite); cbn [demand mret pm_ret]; [|by intros [= <- <-]].
  destruct (uuid4 w s) as [[i|x] s1] eqn:Eu; unfold uuid4 in Eu; unfold uuid4, mbind at 1, pm_bind at 1; rewrite Eu.
  2:{ apply query_Err in Eu as [-> ->]. intros [= <- <-].
      exists (temporary local (w.(v_uuid) 0%nat)), F. split; [apply Hnew|by split; [|left]]. }
  apply query_Ok in Eu as (_ & -> & ->). destruct (Hnew (ticks s)) as [Hf Hl]. set (file := temporary local _) in *.
  assert (handle_ok h sn (ticked s)) as Hh.
  { unfold handle_ok. simpl. destruct (cl_handles s !! h) as [x|] eqn:Hx; [|done]. exists x. naive_solver. }
  pose proof (cleaned w h sn F file Hrenew Hf local overwrite Hl (ticked s) eq_refl Hh) as Hc.
  intros E. rewrite E in Hc. destruct r as [[n digest]|[]]; try done.
  - destruct Hc as (c & Hc & [= -> ->] & Hs & Ho). by exists c.
  - exists file. destruct Hc as [Ha|[_ (c & Hc & Ho & Ha)]].
    + exists F. split_and!; [done|exact Ha|by left].
    + eexists. split_and!; [done|exact Ha|]. right. by exists c.
Qed.
End Downloads.
