(* ===== verification/Sends.v ===== *)
(** * Uploads of files ([client/sdk.py]: [send])

    A local file is cut into blocks of the size the control planned; each is
    allocated, streamed to its first node, acknowledged, and listed in a page of
    the manifest; the sealed manifest is committed last.  The file is read when
    it is needed, so each read finds what the file is then. *)
From Stdlib Require String.
From S2P Require Import Prelude Domain Data Store Auth Leases Cluster Requests Queries Process DataNode Streams Client Downloads.

Section Sends.
Context `{Hash, Unicode, Wire}.

(** ** The source *)
(** [source.read(n)] at a position, [os.fstat]. *)
Definition read_source (position n : Z) : C string :=
  t ← query v_source; mret (String.substring (Z.to_nat position) (Z.to_nat n) t.1).
Definition fstat : C (Z * Z) := t ← query v_source; mret (slen t.1, t.2).
(** The hash of the whole file; a hash is the text it was fed. *)
Fixpoint hash_file (fuel : nat) (position : Z) (text : string) : C string :=
  match fuel with
  | O => running
  | S fuel =>
      chunk ← read_source position CHUNK;
      if empty chunk then mret text else hash_file fuel (position + slen chunk) (text +:+ chunk)
  end.
(** The hash of one block; a chunk has at least one byte. *)
Fixpoint hash_block (fuel : nat) (position remaining : Z) (text : string) : C string :=
  if remaining <=? 0 then mret text
  else match fuel with
  | O => running
  | S fuel =>
      chunk ← read_source position (Z.min CHUNK remaining);
      demand (negb (empty chunk)) CHECKSUM_MISMATCH;;
      hash_block fuel (position + slen chunk) (remaining - slen chunk) (text +:+ chunk)
  end.
(** The chunks of the generator [frames]; [None] when it raised. *)
Fixpoint read_chunks (fuel : nat) (start offset length : Z) : C (option (list DataChunk)) :=
  if length <=? offset then mret (Some [])
  else match fuel with
  | O => running
  | S fuel =>
      chunk ← read_source (start + offset) (Z.min CHUNK (length - offset));
      if empty chunk then mret None
      else rest ← read_chunks fuel start (offset + slen chunk) length;
           mret (cons (mkChunk offset chunk) <$> rest)
  end.

(** ** The plan *)
(** The plan as the renewal thread has left it. *)
Definition current_plan : C UploadPlan :=
  o ← gets cl_plan;
  p ← match o with Some p => mret p | None => fail (Raised PyError) end;
  p ← query (λ w i, w.(v_renewed_plan) i p);
  sets (λ s, s <| cl_plan := Some p |>);; mret p.

(** ** One block *)
Definition allocate (index length : Z) (digest : string) : C PlannedBlock :=
  p ← current_plan;
  r ← typed as_blocks (call (AllocateBlocks p.(up_operation) p.(up_fence)
        [mkBlockRef p.(up_file_id) "" index length digest]));
  match r.(bp_blocks) with a :: _ => mret a | [] => fail (Raised PyError) end.
(** [rpc(frames(), ...)]: an exception of the generator ends the call as [UNKNOWN]. *)
Definition put_once (endpoint : string) (h : PutBlockHeader) (start length : Z) : C DurableReceipt :=
  token ← metadata;
  cs ← read_chunks (Z.to_nat length) start 0 length;
  match cs with
  | None => fail (RpcError (mkRpcError Grpc.UNKNOWN None))
  | Some cs =>
      let frames := FHeader h :: map FChunk cs in
      r ← Process.call (λ w i, w.(v_put) i endpoint token frames);
      sets (λ s, s <| cl_acked ::= λ l, l ++ [(frames, r)] |>);; mret r
  end.
Fixpoint put_retrying (more : nat) (endpoint : string) (h : PutBlockHeader) (start length : Z) : C DurableReceipt :=
  try_except (put_once endpoint h start length) (λ x,
    match x, more with
    | RpcError e, S more =>
        if decide (e.(re_code) = Grpc.UNAVAILABLE) then _ ← tick; put_retrying more endpoint h start length else fail x
    | _, _ => fail x
    end).
(** A grant and a location of an allocation: [allocation.grants[0]] and so on. *)
Definition first {A} (l : list A) : C A := match l with a :: _ => mret a | [] => fail (Raised PyError) end.
Definition send_block (index total : Z) : C BlockRef :=
  p ← current_plan;
  let start := index * p.(up_block_bytes) in
  let length := Z.min p.(up_block_bytes) (total - start) in
  text ← hash_block (Z.to_nat length) start length "";
  a ← allocate index length (sha256 text);
  g ← first a.(pb_grants);
  p ← current_plan;
  rq ← prepare (Requests.PutBlock p.(up_operation) a.(pb_block) p.(up_fence) g.(bg_capability)) "";
  let h := mkPutHeader rq.(rq_context) p.(up_operation) a.(pb_block) p.(up_fence) g.(bg_capability) in
  l ← first a.(pb_locations);
  p ← current_plan;
  (if decide (dget p.(up_block_bytes) DEADLINES = None) then fail (Raised PyError) else mret tt);;
  r ← put_retrying 2 l.(bl_client_endpoint) h start length;
  p ← current_plan;
  demand (bool_decide (r.(dr_block) = a.(pb_block))
          && bool_decide (r.(dr_operation_id) = p.(up_operation).(or_operation_id))) CHECKSUM_MISMATCH;;
  record_traffic r.(dr_node_id) length 0;;
  mret a.(pb_block).

(** ** The manifest *)
(** [blocks], [page], [page_index]. *)
Record pages := mkPages { pg_blocks : list BlockRef; pg_page : list BlockRef; pg_index : Z }.
Definition stage_page (last : bool) (b : BlockRef) (x : pages) : C pages :=
  let blocks := x.(pg_blocks) ++ [b] in
  let page := x.(pg_page) ++ [b] in
  if bool_decide (length page = 64%nat) || last then
    p ← current_plan;
    _ ← call (StageManifestPage p.(up_operation) p.(up_fence) x.(pg_index) page (manifest_hash page));
    mret (mkPages blocks [] (x.(pg_index) + 1))
  else mret (mkPages blocks page x.(pg_index)).
Definition send_blocks (count total : Z) : C pages :=
  fold (seqZ 0 count) (mkPages [] [] 0) (λ x index,
    b ← send_block index total;
    stage_page (index =? count - 1) b x).
Definition no_commit : CommitResult := mkCommitResult no_operation OPERATION_STATE_UNSPECIFIED no_snapshot 0 false 0 0.
Definition undecided (c : Grpc.StatusCode) : bool :=
  bool_decide (c = Grpc.UNAVAILABLE) || bool_decide (c = Grpc.DEADLINE_EXCEEDED).
(** The outcome of a commit that got no answer is asked for; it stays unknown
    unless the operation is committed. *)
Definition commit_upload (rq : request) : C CommitResult :=
  try_except (typed as_commit (call_prepared rq 2)) (λ x,
    match x with
    | RpcError e =>
        if undecided e.(re_code) then
          p ← current_plan;
          st ← try_except (operation p.(up_operation).(or_operation_id) "")
                 (λ y, match y with RpcError _ => refuse OUTCOME_UNKNOWN | _ => fail y end);
          if decide (st.(os_state) = COMMITTED) then mret (default no_commit st.(os_result))
          else refuse OUTCOME_UNKNOWN
        else fail x
    | _ => fail x
    end).
Definition upload (total mtime : Z) : C CommitResult :=
  p ← current_plan;
  (if p.(up_block_bytes) <=? 0 then fail (Raised PyError) else mret tt);;
  x ← send_blocks (cdiv total p.(up_block_bytes)) total;
  '(size, m) ← fstat;
  demand ((size =? total) && (m =? mtime)) CHECKSUM_MISMATCH;;
  p ← current_plan;
  seal ← typed as_page (call (SealManifest p.(up_operation) p.(up_fence) x.(pg_index) (zlen x.(pg_blocks)) total
           (manifest_hash x.(pg_blocks))));
  p ← current_plan;
  rq ← prepare (CommitUpload p.(up_operation) p.(up_fence) seal) "";
  (if 1 <? p.(up_minimum_durable) then wait_durable p.(up_operation).(or_operation_id) else mret tt);;
  sets (λ s, s <| cl_last_commit := Some rq |>);;
  commit_upload rq.
(** [except BaseException]: an upload is given up unless its outcome is unknown. *)
Definition abandon (x : failure) : C CommitResult :=
  if decide (x = Raised (Fault OUTCOME_UNKNOWN)) then fail x
  else
    try_except (p ← current_plan; _ ← call_retrying 0 (AbortUpload p.(up_operation)); mret tt) (λ _, mret tt);;
    fail x.
Definition expected_snapshot (remote : string) (overwrite : bool) : C (option SnapshotRef) :=
  if overwrite then
    try_except (e ← stat remote; mret (Some (default no_snapshot e.(en_snapshot)))) (λ x,
      match x with
      | RpcError e => if decide (e.(re_code) = Grpc.NOT_FOUND) then mret None else fail x
      | _ => fail x
      end)
  else mret None.
Definition send (remote : string) (overwrite : bool) : C CommitResult :=
  missing ← query v_disk_fails;
  (if (missing : bool) then fail (Raised PyError) else mret tt);;
  '(total, mtime) ← fstat;
  fuel ← asks v_fuel;
  text ← hash_file fuel 0 "";
  expected ← expected_snapshot remote overwrite;
  r ← path remote;
  p ← typed as_upload (call (BeginUpload r total (sha256 text) overwrite expected));
  sets (λ s, s <| cl_plan := Some p |>);;
  try_except (keepalive (upload total mtime)) abandon.
End Sends.
