(* ===== verification/SendFacts.v ===== *)
(** * What an upload has made sure of before it commits

    The upload is followed with what it knows: the calls it asked and the writes
    that were acknowledged.  At its end these cover the file.  A second trace
    holds what it never asks: to abort what may have been committed. *)
From Stdlib Require String.
From S2P Require Import Prelude Domain Data Store Auth Leases Cluster Requests Queries Process Protected Blocks DataNode Streams NodeContent Client Downloads ClientFacts DownloadFacts Sends.

(** ** Slices of a text *)
Definition slice (t : string) (start n : Z) : string := String.substring (Z.to_nat start) (Z.to_nat n) t.
Lemma slice_length t start n : 0 ≤ start → 0 ≤ n → start + n ≤ slen t → slen (slice t start n) = n.
Proof.
  intros. rewrite text_slen. unfold slice. rewrite text_substring, length_take, length_drop. rewrite text_slen in *. lia.
Qed.
Lemma slice_split t start n m : 0 ≤ start → 0 ≤ n → 0 ≤ m →
  slice t start (n + m) = slice t start n +:+ slice t (start + n) m.
Proof.
  intros. apply text_inj. unfold slice. rewrite text_app, !text_substring, !Z2Nat.inj_add by lia.
  rewrite <- drop_drop. by rewrite take_take_drop.
Qed.
Lemma slice_whole t : slice t 0 (slen t) = t.
Proof.
  apply text_inj. unfold slice. rewrite text_substring. simpl. rewrite drop_0. apply take_ge. rewrite text_slen. lia.
Qed.
Lemma slice_none t start n : n ≤ 0 → slice t start n = "".
Proof. intros. apply text_inj. unfold slice. rewrite text_substring. by replace (Z.to_nat n) with 0%nat by lia. Qed.

(** What a run may add to the trace, and the plan it leaves. *)
Definition adds (s s' : client) : Prop :=
  s'.(cl_plan) = s.(cl_plan) ∧ (∃ l, s'.(cl_asked) = s.(cl_asked) ++ l) ∧ (∃ l, s'.(cl_acked) = s.(cl_acked) ++ l).
#[export] Instance adds_quiet : Quiet adds.
Proof.
  split; [split; [split|]|].
  - intros s. split_and!; [done|by exists []; rewrite app_nil_r|by exists []; rewrite app_nil_r].
  - intros s1 s2 s3 (P1 & [l1 K1] & [a1 A1]) (P2 & [l2 K2] & [a2 A2]).
    split_and!; [congruence|exists (l1 ++ l2); by rewrite K2, K1, app_assoc|exists (a1 ++ a2); by rewrite A2, A1, app_assoc].
  - intros s t. split_and!; [done|by exists []; rewrite app_nil_r|by exists []; rewrite app_nil_r].
  - intros s rq _. split_and!; [done|by exists [rq]|by exists []; rewrite app_nil_r].
Qed.

Section Sends.
Context `{Hash, Unicode, Wire}.
Context (w : client_env) (t : string) (mtime : Z) (op : OperationRef) (size : Z).
(** The file stays as it is, and a renewal keeps the operation and its blocks. *)
Hypothesis Hsource : ∀ i, w.(v_source) i = (t, mtime).
Hypothesis Hrenew : ∀ i p, (w.(v_renewed_plan) i p).(up_operation) = p.(up_operation)
  ∧ (w.(v_renewed_plan) i p).(up_block_bytes) = p.(up_block_bytes).
(** Where the trace of this upload begins. *)
Context (n k : nat).

Abbreviation ack := (list (frame PutBlockHeader) * DurableReceipt)%type.
Definition knows (A : list ack) (K : list body) (s : client) : Prop :=
  (∃ p, s.(cl_plan) = Some p ∧ p.(up_operation) = op ∧ p.(up_block_bytes) = size)
  ∧ (n ≤ length s.(cl_acked))%nat ∧ (k ≤ length s.(cl_asked))%nat
  ∧ (∀ a, a ∈ A → a ∈ drop n s.(cl_acked)) ∧ (∀ b, b ∈ K → b ∈ rq_body <$> drop k s.(cl_asked)).
Lemma knows_adds A K s s' : adds s s' → knows A K s → knows A K s'.
Proof.
  intros (Hp & [l Hl] & [a Ha]) (Hplan & Hn & Hk & HA & HK). unfold knows.
  rewrite Hp, Hl, Ha, !length_app, !drop_app_le, fmap_app by lia. split_and!; [done|lia|lia| |]; intros x Hx; apply elem_of_app; left; auto.
Qed.
(** A run that fails still knows what it knew. *)
Definition still (L : list ack) (K : list body) (x : failure) (s : client) : Prop := knows L K s.
Lemma knows_fewer L K L' K' s : knows L K s → L' ⊆ L → K' ⊆ K → knows L' K' s.
Proof. intros (Hp & Hn & Hk & HL & HK) ??. split_and!; auto. Qed.
Lemma knows_kept {A} L K (m : C A) : preserves adds m → ensures (still L K) w (knows L K) m (λ _, knows L K).
Proof.
  intros Hm s Hs. specialize (Hm w s). destruct (m w s) as [[a|x] s']; by apply (knows_adds _ _ _ _ Hm).
Qed.
Lemma knows_plan L K : ensures (still L K) w (knows L K) current_plan
  (λ p s, knows L K s ∧ p.(up_operation) = op ∧ p.(up_block_bytes) = size).
Proof using Hrenew.
  intros s Hs. pose proof Hs as [(p & Hp & Ho & Hb) Hrest]. unfold current_plan, query, tick, mbind, pm_bind. cbn [gets].
  rewrite Hp. cbn [mret pm_ret]. destruct (stops w (ticks s)); [exact Hs|]. cbn. destruct (Hrenew (cl_ticks s) p) as [Eo Eb].
  split_and!; [|congruence|congruence]. split; [|exact Hrest]. eexists. split; [reflexivity|]. split; congruence.
Qed.
(** A call that ends with an error of the transport was asked all the same. *)
Definition asked_if (L : list ack) (K : list body) (b : body) (x : failure) (s : client) : Prop :=
  knows L K s ∧ match x with RpcError _ => knows L (b :: K) s | _ => True end.
Lemma knows_one_fewer L K b s : knows L (b :: K) s → knows L K s.
Proof. intros Hs. eapply knows_fewer; [exact Hs|done|by apply list_subseteq_cons]. Qed.
Lemma asked_prepared L K rq more :
  ensures (asked_if L K rq.(rq_body)) w (knows L K) (call_prepared rq more) (λ _, knows L (rq.(rq_body) :: K)).
Proof.
  assert (ensures (asked_if L K rq.(rq_body)) w (knows L K) (attempt rq) (λ _, knows L (rq.(rq_body) :: K))) as Ha.
  { unfold attempt. eapply (ensures_bind _ _ _ _ _ (λ _, knows L K)).
    { intros s Hs. unfold metadata, mbind, pm_bind. cbn [gets]. by destruct (cl_session s); [|split]. }
    intros token. eapply (ensures_bind _ _ _ _ _ (λ _, knows L (rq.(rq_body) :: K))).
    - apply ensures_sets. intros s (Hp & Hn & Hk & HL & HK). unfold knows. simpl. rewrite length_app, drop_app_le, fmap_app by done.
      split_and!; [done|done|lia|done|]. intros b [->|Hb]%elem_of_cons; apply elem_of_app; [right; by constructor|left; auto].
    - intros ?. eapply ensures_loosen; [|apply knows_kept; solve_preserves].
      intros x s Hs. split; [by eapply knows_one_fewer|]. by destruct x. }
  assert (∀ x s, asked_if L K rq.(rq_body) x s → knows L K s) as Hk by (by intros x s []).
  assert (∀ s, asked_if L K rq.(rq_body) Exit s ↔ knows L K s) as HE by (intros s; by split; [intros []|]).
  induction more as [|more IH]; cbn [call_prepared]; (eapply ensures_except; [exact Ha|intros x Hx]).
  - destruct x; by apply ensures_fail.
  - destruct x as [x|e|]; try by apply ensures_fail.
    intros s Hs. unfold mbind at 1, pm_bind at 1. cbn [asks].
    destruct (recoverable _ _); [|exact Hs]. specialize (Hk _ _ Hs). clear Hs. revert s Hk.
    change (ensures (asked_if L K rq.(rq_body)) w (knows L K) (_ ← tick; call_prepared rq more)
      (λ _, knows L (rq.(rq_body) :: K))).
    eapply ensures_bind; [apply ensures_tick|intros ?; exact IH]; intros s Hs; [|by apply HE].
    eapply knows_adds; [|exact Hs]. apply (clocked_tick s).
Qed.
Lemma knows_asked L K rq more :
  ensures (still L K) w (knows L K) (call_prepared rq more) (λ _, knows L (rq.(rq_body) :: K)).
Proof. eapply ensures_loosen; [|apply asked_prepared]. by intros x s []. Qed.
Lemma knows_call L K b : ensures (still L K) w (knows L K) (call b) (λ _, knows L (b :: K)).
Proof.
  unfold call, call_retrying. eapply (ensures_bind _ _ _ _ _ (λ rq s, knows L K s ∧ rq.(rq_body) = b)).
  - unfold prepare. eapply ensures_bind; [apply knows_kept; solve_preserves|intros c]. by apply ensures_ret.
  - intros rq. apply ensures_pure. intros <-. apply knows_asked.
Qed.
Lemma knows_typed {A} L K b (f : response → option A) :
  ensures (still L K) w (knows L K) (typed f (call b)) (λ _, knows L (b :: K)).
Proof.
  unfold typed. eapply ensures_bind; [apply knows_call|].
  intros r. destruct (f r); [by apply ensures_ret|]. apply ensures_fail.
  intros s Hs. eapply knows_fewer; [exact Hs|done|by apply list_subseteq_cons].
Qed.

(** ** Reading the file *)
Lemma knows_read L K position m : ensures (still L K) w (knows L K) (read_source position m)
  (λ r s, knows L K s ∧ r = slice t position m).
Proof using Hsource.
  unfold read_source. eapply (ensures_bind _ _ _ _ _ (λ x s, knows L K s ∧ x = (t, mtime))).
  - intros s Hs. pose proof (knows_kept L K (query v_source) ltac:(solve_preserves) s Hs) as Hq.
    destruct (query v_source w s) as [[x|x] s'] eqn:E; [|done]. apply query_Ok in E as (_ & -> & _). by rewrite Hsource.
  - intros x. apply ensures_pure. intros ->. by apply ensures_ret.
Qed.
Lemma knows_chunks L K start len fuel : ∀ offset, 0 ≤ start → 0 ≤ offset → start + len ≤ slen t →
  ensures (still L K) w (knows L K) (read_chunks fuel start offset len)
    (λ o s, knows L K s ∧ ∀ ds, o = Some ds → filled len offset ds ∧ payload ds = slice t (start + offset) (len - offset)).
Proof using Hsource.
  induction fuel as [|fuel IH]; intros offset Hs Ho Hl; cbn [read_chunks]; destruct (len <=? offset) eqn:E; bsimpl.
  1,3: apply ensures_ret; intros s Hk; split; [exact Hk|]; intros ds [= <-]; split; [done|]; symmetry; apply slice_none; lia.
  { by apply ensures_fail. }
  eapply ensures_bind; [apply knows_read|intros chunk]. apply ensures_pure. intros ->.
  assert (CHUNK = 262144) as Hc by done. set (m := Z.min CHUNK (len - offset)).
  assert (slen (slice t (start + offset) m) = m) as Hm by (apply slice_length; lia).
  destruct (empty _) eqn:He; [apply ensures_ret; by split|].
  rewrite Hm. eapply ensures_bind; [apply IH; lia|intros rest]. apply ensures_pure. intros Hrest.
  apply ensures_ret. intros s Hk. split; [exact Hk|]. intros ds Hds. destruct rest as [ds'|]; [|done]. injection Hds as <-.
  destruct (Hrest ds' eq_refl) as [Hf Hp]. split.
  - cbn [filled dc_data dc_offset]. unfold put_chunk_ok. cbn [dc_data dc_offset]. rewrite Hm. split; [|exact Hf].
    unfold m. rewrite !andb_true_iff. split_and!; lia.
  - unfold payload in *. cbn [map cat dc_data]. rewrite Hp.
    replace (len - offset) with (m + (len - (offset + m))) by lia. rewrite slice_split by lia. by rewrite Z.add_assoc.
Qed.
(** ** One block *)
(** A write that a node acknowledged: its frames, its receipt, what it carried. *)
Definition carried (b : BlockRef) (text : string) (a : ack) : Prop :=
  ∃ h ds, a.1 = FHeader h :: map FChunk ds ∧ h.(ph_block) = b ∧ h.(ph_operation) = op
    ∧ filled (slen text) 0 ds ∧ payload ds = text ∧ a.2.(dr_block) = b ∧ a.2.(dr_operation_id) = op.(or_operation_id).
Lemma knows_put L K endpoint h start len : 0 ≤ start → 0 ≤ len → start + len ≤ slen t → ∀ more,
  ensures (still L K) w (knows L K) (put_retrying more endpoint h start len)
    (λ r s, ∃ ds, knows ((FHeader h :: map FChunk ds, r) :: L) K s ∧ filled len 0 ds ∧ payload ds = slice t start len).
Proof using Hsource.
  intros Hs Hn Hl.
  assert (ensures (still L K) w (knows L K) (put_once endpoint h start len)
    (λ r s, ∃ ds, knows ((FHeader h :: map FChunk ds, r) :: L) K s ∧ filled len 0 ds ∧ payload ds = slice t start len)) as Ho.
  { unfold put_once. eapply ensures_bind; [apply knows_kept; solve_preserves|intros token].
    eapply ensures_bind; [by apply knows_chunks|intros o]. apply ensures_pure. intros Ho.
    destruct o as [ds|]; [|by apply ensures_fail]. destruct (Ho ds eq_refl) as [Hf Hp].
    rewrite Z.add_0_r, Z.sub_0_r in Hp.
    eapply ensures_bind; [apply knows_kept; solve_preserves|intros r].
    eapply (ensures_bind _ _ _ _ _ (λ _, knows ((FHeader h :: map FChunk ds, r) :: L) K)).
    - apply ensures_sets. intros s (Hpl & Hna & Hk & HL & HK). unfold knows. simpl. rewrite length_app, drop_app_le by done.
      split_and!; [done|lia|done| |done]. intros a [->|Ha]%elem_of_cons; apply elem_of_app; [right; by constructor|left; auto].
    - intros ?. apply ensures_ret. intros s Hk. by exists ds. }
  induction more as [|more IH]; cbn [put_retrying]; (eapply ensures_except; [exact Ho|intros x Hx]).
  - destruct x; by apply ensures_fail.
  - destruct x as [x|e|]; try by apply ensures_fail. case_decide; [|by apply ensures_fail].
    eapply ensures_bind; [apply knows_kept; solve_preserves|intros ?]. exact IH.
Qed.
Lemma knows_hash L K fuel : ∀ position remaining text, 0 ≤ position → position + remaining ≤ slen t →
  ensures (still L K) w (knows L K) (hash_block fuel position remaining text)
    (λ r s, knows L K s ∧ r = text +:+ slice t position remaining).
Proof using Hsource.
  induction fuel as [|fuel IH]; intros position remaining text Hp Hr; cbn [hash_block]; destruct (remaining <=? 0) eqn:E; bsimpl.
  1,3: apply ensures_ret; intros s Hk; split; [exact Hk|]; rewrite slice_none by lia; symmetry; apply append_nil_r.
  { by apply ensures_fail. }
  eapply ensures_bind; [apply knows_read|intros chunk]. apply ensures_pure. intros ->.
  assert (CHUNK = 262144) as Hc by done. set (m := Z.min CHUNK remaining).
  assert (slen (slice t position m) = m) as Hm by (apply slice_length; lia).
  eapply ensures_bind; [apply knows_kept; solve_preserves|intros ?]. rewrite Hm.
  eapply ensures_weaken; [apply IH; lia|done|]. intros r s [Hk ->]. split; [exact Hk|].
  rewrite <- append_assoc, <- slice_split by lia. by replace (m + (remaining - m)) with remaining by lia.
Qed.
(** The block [index] of the file, and the request that allocated it. *)
Definition part (index : Z) : string := slice t (index * size) (Z.min size (slen t - index * size)).
Definition allocated (index : Z) (K : list body) : Prop :=
  ∃ f file, AllocateBlocks op f [mkBlockRef file "" index (slen (part index)) (sha256 (part index))] ∈ K.
Lemma knows_block L K index : 0 ≤ index → 0 < size → index * size < slen t →
  ensures (still L K) w (knows L K) (send_block index (slen t))
    (λ b s, ∃ a q, knows (a :: L) (q :: K) s ∧ carried b (part index) a ∧ allocated index [q]).
Proof using Hsource Hrenew.
  intros Hi Hsz Hlt. unfold send_block.
  eapply ensures_bind; [apply knows_plan|intros p]. apply ensures_pure. intros [Hop Hbb]. rewrite Hbb.
  set (len := Z.min size (slen t - index * size)).
  assert (slen (part index) = len) as Hlen by (apply slice_length; lia).
  eapply ensures_bind; [apply knows_hash; lia|intros text]. apply ensures_pure. intros ->. cbn [String.append].
  change (slice t (index * size) len) with (part index).
  eapply (ensures_bind _ _ _ _ _ (λ _ s, ∃ q, knows L (q :: K) s ∧ allocated index [q])).
  { unfold allocate. eapply ensures_bind; [apply knows_plan|intros p2]. apply ensures_pure. intros [Hop2 _].
    eapply ensures_bind; [apply knows_typed|intros r].
    assert (∀ (f : Fence) s, knows L (AllocateBlocks p2.(up_operation) p2.(up_fence)
        [mkBlockRef p2.(up_file_id) "" index len (sha256 (part index))] :: K) s → still L K Exit s) as HI.
    { intros f s Hk. eapply knows_fewer; [exact Hk|done|by apply list_subseteq_cons]. }
    destruct (bp_blocks r) as [|a l]; [apply ensures_fail; intros s Hk; by eapply (HI (up_fence p2))|].
    apply ensures_ret. intros s Hk. eexists. split; [exact Hk|]. rewrite Hop2, <- Hlen. do 2 eexists. by constructor. }
  intros a s (q & Hk & Hq). revert s Hk. 
  match goal with |- ∀ s, knows L (q :: K) s → match ?m w s with _ => _ end =>
    change (ensures (still L K) w (knows L (q :: K)) m
      (λ b s, ∃ a q, knows (a :: L) (q :: K) s ∧ carried b (part index) a ∧ allocated index [q])) end.
  eapply (ensures_loosen (still L (q :: K))); [intros x s Hk; eapply knows_fewer; [exact Hk|done|by apply list_subseteq_cons]|].
  eapply ensures_bind; [apply knows_kept; unfold first; solve_preserves|intros g].
  eapply ensures_bind; [apply knows_plan|intros p3]. apply ensures_pure. intros [Hop3 _].
  eapply ensures_bind; [apply knows_kept; solve_preserves|intros rq].
  eapply ensures_bind; [apply knows_kept; unfold first; solve_preserves|intros l].
  eapply ensures_bind; [apply knows_plan|intros p4]. apply ensures_pure. intros [Hop4 _].
  eapply ensures_bind; [apply knows_kept; solve_preserves|intros ?].
  eapply ensures_bind; [apply knows_put; lia|intros r].
  intros s (ds & Hk & Hf & Hp). revert s Hk.
  match goal with |- ∀ s, knows ?L1 (q :: K) s → match ?m w s with _ => _ end =>
    change (ensures (still L (q :: K)) w (knows L1 (q :: K)) m
      (λ b s, ∃ a q, knows (a :: L) (q :: K) s ∧ carried b (part index) a ∧ allocated index [q])); set (L' := L1) end.
  eapply (ensures_loosen (still L' (q :: K))); [intros x s Hk; eapply knows_fewer; [exact Hk|by apply list_subseteq_cons|done]|].
  eapply ensures_bind; [apply knows_plan|intros p5]. apply ensures_pure. intros [Hop5 _].
  eapply (ensures_bind _ _ _ _ _ (λ _ s, knows L' (q :: K) s ∧ dr_block r = pb_block a ∧ dr_operation_id r = or_operation_id op)).
  { eapply ensures_weaken; [apply (ensures_demand _ _ (knows L' (q :: K))); intros y s Hk; exact Hk|by intros s Hk|].
    intros ? s [Hk Hb]. bsimpl. by rewrite <- Hop5. }
  intros ?. apply ensures_pure. intros [Hb Ho].
  eapply ensures_bind; [apply knows_kept; unfold record_traffic; apply preserves_sets|intros ?].
  { intros s. split_and!; [done|by exists []; rewrite app_nil_r|by exists []; rewrite app_nil_r]. }
  apply ensures_ret. intros s Hk. eexists _, q. split_and!; [exact Hk| |exact Hq].
  eexists _, ds. split_and!; [reflexivity|reflexivity|exact Hop3|by rewrite Hlen|exact Hp|exact Hb|exact Ho].
Qed.

(** ** The manifest *)
Definition any (x : failure) (s : client) : Prop := True.
Definition staged (pgs : list (list BlockRef)) (K : list body) : Prop :=
  ∀ i pg, pgs !! i = Some pg → ∃ f, StageManifestPage op f (Z.of_nat i) pg (manifest_hash pg) ∈ K.
Definition blocks_done (bs : list BlockRef) (L : list ack) (K : list body) : Prop :=
  ∀ i b, bs !! i = Some b → ∃ a, a ∈ L ∧ carried b (part (Z.of_nat i)) a ∧ allocated (Z.of_nat i) K.
(** [m] blocks are sent, and staged up to the open page. *)
Definition sent_upto (m : nat) (x : pages) (y : list ack * list body * list (list BlockRef)) (s : client) : Prop :=
  let '(L, K, pgs) := y in
  knows L K s ∧ length x.(pg_blocks) = m ∧ blocks_done x.(pg_blocks) L K
  ∧ concat pgs ++ x.(pg_page) = x.(pg_blocks) ∧ Z.of_nat (length pgs) = x.(pg_index)
  ∧ Forall (λ pg, 0 < length pg ≤ 64)%nat pgs ∧ (length x.(pg_page) < 64)%nat ∧ staged pgs K.
Lemma allocated_more i K K' : allocated i K → K ⊆ K' → allocated i K'.
Proof. intros (f & file & Hin) HK. exists f, file. auto. Qed.
Lemma done_snoc bs b L K a q : blocks_done bs L K → carried b (part (Z.of_nat (length bs))) a →
  allocated (Z.of_nat (length bs)) [q] → blocks_done (bs ++ [b]) (a :: L) (q :: K).
Proof.
  intros Hd Hc Ha i x [[_ Hx]|[-> <-]]%lookup_snoc_Some.
  - destruct (Hd i x Hx) as (a' & Hin & Hc' & Ha'). exists a'. split_and!; [by constructor|done|].
    by eapply allocated_more; [|apply list_subseteq_cons].
  - exists a. split_and!; [by constructor|done|]. eapply allocated_more; [done|].
    intros y ->%list_elem_of_singleton. by constructor.
Qed.
Lemma done_more bs L K K' : blocks_done bs L K → K ⊆ K' → blocks_done bs L K'.
Proof.
  intros Hd HK i b Hb. destruct (Hd i b Hb) as (a & ? & ? & ?). exists a. split_and!; [done|done|by eapply allocated_more].
Qed.
Lemma staged_snoc pgs pg f i K : staged pgs K → i = Z.of_nat (length pgs) →
  staged (pgs ++ [pg]) (StageManifestPage op f i pg (manifest_hash pg) :: K).
Proof.
  intros Hs -> j x [[_ Hx]|[-> <-]]%lookup_snoc_Some; [|exists f; by constructor].
  destruct (Hs j x Hx) as [f' Hf']. exists f'. by constructor.
Qed.
Lemma staged_more pgs K K' : staged pgs K → K ⊆ K' → staged pgs K'.
Proof. intros Hs HK i pg Hi. destruct (Hs i pg Hi) as [f Hf]. exists f. auto. Qed.

Lemma one_block m x last : 0 < size → Z.of_nat m * size < slen t →
  ensures any w (λ s, ∃ y, sent_upto m x y s) (b ← send_block (Z.of_nat m) (slen t); stage_page last b x)
    (λ x' s, (∃ y, sent_upto (S m) x' y s) ∧ (last = true → x'.(pg_page) = [])).
Proof using Hsource Hrenew.
  intros Hsz Hm. apply ensures_ex. intros [[L K] pgs]. unfold sent_upto at 1.
  apply ensures_pure. intros (Hlen & Hd & Hc & Hi & Hp & Hpage & Hst). subst m.
  eapply ensures_bind; [eapply (ensures_loosen (still L K)); [done|apply knows_block; lia]|intros b].
  apply ensures_ex. intros a. apply ensures_ex. intros q. apply ensures_pure. intros [Hcar Hal].
  pose proof (done_snoc _ _ _ _ _ _ Hd Hcar Hal) as Hd'. unfold stage_page. cbv zeta.
  destruct (bool_decide _ || last) eqn:Hfull.
  - eapply ensures_bind; [eapply (ensures_loosen (still (a :: L) (q :: K))); [done|apply knows_plan]|intros p].
    apply ensures_pure. intros [Hop _].
    eapply ensures_bind; [eapply (ensures_loosen (still (a :: L) (q :: K))); [done|apply knows_call]|intros ?].
    apply ensures_ret. rewrite Hop. intros s Hk. split; [|done].
    exists (a :: L, StageManifestPage op (up_fence p) (pg_index x) (pg_page x ++ [b]) (manifest_hash (pg_page x ++ [b])) :: q :: K,
            pgs ++ [pg_page x ++ [b]]).
    cbn [sent_upto pg_blocks pg_page pg_index]. split_and!.
    + exact Hk.
    + rewrite length_app. simpl. lia.
    + eapply done_more; [exact Hd'|by apply list_subseteq_cons].
    + rewrite concat_app, app_nil_r. simpl. by rewrite app_nil_r, app_assoc, Hc.
    + rewrite length_app. simpl. lia.
    + apply list.Forall_app. split; [done|]. constructor; [|constructor]. rewrite length_app. simpl. lia.
    + simpl. lia.
    + apply staged_snoc; [|lia]. eapply staged_more; [exact Hst|by apply list_subseteq_cons].
  - bsimpl. apply ensures_ret. intros s Hk. split; [|intros Hl; congruence].
    exists (a :: L, q :: K, pgs). cbn [sent_upto pg_blocks pg_page pg_index]. split_and!.
    + exact Hk.
    + rewrite length_app. simpl. lia.
    + exact Hd'.
    + by rewrite app_assoc, Hc.
    + done.
    + done.
    + rewrite length_app in *. simpl in *. lia.
    + eapply staged_more; [exact Hst|by apply list_subseteq_cons].
Qed.
Lemma all_blocks c : 0 < size → ∀ m x,
  (∀ j, (m ≤ j < m + c)%nat → Z.of_nat j * size < slen t) →
  ensures any w (λ s, ∃ y, sent_upto m x y s)
    (fold (seqZ (Z.of_nat m) (Z.of_nat c)) x (λ x index,
      b ← send_block index (slen t); stage_page (index =? Z.of_nat (m + c) - 1) b x))
    (λ x' s, (∃ y, sent_upto (m + c) x' y s) ∧ (c ≠ 0%nat → x'.(pg_page) = [])).
Proof using Hsource Hrenew.
  intros Hsz. induction c as [|c IH]; intros m x Hj.
  - cbn. apply ensures_ret. intros s Hs. rewrite Nat.add_0_r. by split.
  - rewrite seqZ_cons by lia. cbn [fold].
    replace (Z.succ (Z.of_nat m)) with (Z.of_nat (S m)) by lia.
    replace (Z.pred (Z.of_nat (S c))) with (Z.of_nat c) by lia.
    eapply ensures_bind; [apply one_block; [done|apply Hj; lia]|intros x'].
    apply ensures_pure. intros Hlast. replace (m + S c)%nat with (S m + c)%nat by lia.
    destruct (decide (c = 0%nat)) as [->|Hc].
    + cbn. apply ensures_ret. intros s Hs. rewrite Nat.add_0_r. split; [exact Hs|]. intros ?. apply Hlast.
      apply Z.eqb_eq. lia.
    + eapply ensures_weaken; [apply IH; intros j ?; apply Hj; lia|done|]. intros x2 s [Hs Hp]. split; [exact Hs|]. auto.
Qed.
(** What is known when the commit has been asked for. *)
Definition covered (bs : list BlockRef) (pgs : list (list BlockRef)) (L : list ack) (K : list body) : Prop :=
  0 < size ∧ Z.of_nat (length bs) = cdiv (slen t) size ∧ blocks_done bs L K
  ∧ concat pgs = bs ∧ Forall (λ pg, 0 < length pg ≤ 64)%nat pgs ∧ staged pgs K
  ∧ ∃ f seal f', SealManifest op f (Z.of_nat (length pgs)) (Z.of_nat (length bs)) (slen t) (manifest_hash bs) ∈ K
                 ∧ CommitUpload op f' seal ∈ K.
Lemma committed L K rq : ensures (still L K) w (knows L K) (commit_upload rq) (λ _, knows L (rq.(rq_body) :: K)).
Proof using Hrenew.
  unfold commit_upload. eapply (ensures_try _ _ (asked_if L K rq.(rq_body))); [|by intros s []|].
  - unfold typed. change (ensures (asked_if L K rq.(rq_body)) w (knows L K)
      (r ← call_prepared rq 2; match as_commit r with Some a => mret a | None => fail (Raised PyError) end)
      (λ _, knows L (rq.(rq_body) :: K))).
    eapply ensures_bind; [apply asked_prepared|intros r]. destruct (as_commit r); [by apply ensures_ret|].
    apply ensures_fail. intros s Hs. split; [by eapply knows_one_fewer|done].
  - assert (∀ A x (Q : A → client → Prop), ensures (still L K) w (asked_if L K rq.(rq_body) x) (fail x) Q) as Hf
      by (intros A x Q; apply ensures_fail; by intros s []).
    intros x Hx. destruct x as [x|e|]; [apply Hf| |apply Hf]. destruct (undecided _); [|apply Hf].
    eapply (ensures_weaken _ _ _ (knows L (rq.(rq_body) :: K)) _ _ (λ _, knows L (rq.(rq_body) :: K))); [|by intros s [_ Hs]|done].
    eapply (ensures_loosen (still L (rq.(rq_body) :: K))); [intros ? s; apply knows_one_fewer|].
    eapply ensures_bind; [apply knows_plan|intros p]. apply ensures_pure. intros ?.
    eapply ensures_bind; [apply knows_kept; unfold operation; solve_preserves|intros st].
    case_decide; [by apply ensures_ret|by apply ensures_fail].
Qed.
Lemma uploaded : ensures any w (knows [] []) (upload (slen t) mtime)
  (λ _ s, ∃ L K bs pgs, knows L K s ∧ covered bs pgs L K).
Proof using Hsource Hrenew.
  unfold upload. eapply ensures_bind; [eapply (ensures_loosen (still [] [])); [done|apply knows_plan]|intros p].
  apply ensures_pure. intros [_ ->].
  destruct (size <=? 0) eqn:Hsz; [by intros s Hs|]. bsimpl.
  eapply (ensures_bind _ _ _ _ _ (λ _, knows [] [])); [by apply ensures_ret|intros ?].
  set (c := Z.to_nat (cdiv (slen t) size)). pose proof (slen_nonneg t) as Ht.
  assert (cdiv (slen t) size = Z.of_nat c) as Ec by (unfold c, cdiv; rewrite Z2Nat.id; [done|apply Z.div_pos; lia]).
  rewrite Ec.
  eapply (ensures_bind _ _ _ _ _ (λ x s, (∃ y, sent_upto c x y s) ∧ (c ≠ 0%nat → x.(pg_page) = []))).
  { unfold send_blocks. eapply ensures_weaken; [apply (all_blocks c Hsz 0%nat (mkPages [] [] 0))|..|by intros x s Hs].
    - intros j Hj. rewrite Nat.add_0_l in Hj. assert (Z.of_nat j * size ≤ Z.of_nat c * size - size) by nia.
      rewrite <- Ec in *. unfold cdiv in *. pose proof (Z.mul_div_le (slen t + size - 1) size). lia.
    - intros s Hs. exists ([], [], []). split_and!; [exact Hs|done|by intros i b|done|done|done|simpl; lia|by intros i pg]. }
  intros x. apply ensures_pure. intros Hpage. apply ensures_ex. intros [[L K] pgs]. unfold sent_upto.
  apply ensures_pure. intros (Hlen & Hd & Hcat & Hi & Hp & Hp64 & Hst).
  assert (concat pgs = x.(pg_blocks)) as Hall.
  { destruct (decide (c = 0%nat)) as [E|E]; [|by rewrite <- Hcat, Hpage, app_nil_r].
    destruct (pg_blocks x); [|simpl in Hlen; lia]. by apply app_eq_nil in Hcat as [-> _]. }
  eapply (ensures_loosen (still L K)); [done|].
  eapply ensures_bind; [apply knows_kept; unfold fstat; solve_preserves|intros [sz m]].
  eapply ensures_bind; [apply knows_kept; solve_preserves|intros ?].
  eapply ensures_bind; [apply knows_plan|intros p1]. apply ensures_pure. intros [Hop1 _]. rewrite Hop1.
  eapply ensures_bind; [apply knows_typed|intros seal]. set (b1 := SealManifest _ _ _ _ _ _).
  eapply (ensures_loosen (still L (b1 :: K))); [intros ? s; apply knows_one_fewer|].
  eapply ensures_bind; [apply knows_plan|intros p2]. apply ensures_pure. intros [Hop2 _]. rewrite Hop2.
  eapply (ensures_bind _ _ _ _ _ (λ rq s, knows L (b1 :: K) s ∧ rq.(rq_body) = CommitUpload op p2.(up_fence) seal)).
  { unfold prepare. eapply ensures_bind; [apply knows_kept; solve_preserves|intros cx]. by apply ensures_ret. }
  intros rq. apply ensures_pure. intros Hrq.
  eapply ensures_bind; [apply knows_kept; solve_preserves|intros ?].
  eapply (ensures_bind _ _ _ _ _ (λ _, knows L (b1 :: K))); [apply ensures_sets; intros s Hs; exact Hs|intros ?].
  eapply ensures_weaken; [apply committed|by intros s Hs|]. intros r s Hs. rewrite Hrq in Hs.
  exists L, (CommitUpload op (up_fence p2) seal :: b1 :: K), x.(pg_blocks), pgs. split; [exact Hs|].
  assert (K ⊆ CommitUpload op (up_fence p2) seal :: b1 :: K) as HK by (by do 2 apply list_subseteq_cons).
  split_and!; [done|by rewrite Hlen, Ec|by eapply done_more|done|done|by eapply staged_more|].
  exists (up_fence p1), seal, (up_fence p2). split; [|by constructor]. right. unfold b1, zlen. rewrite Hi. by constructor.
Qed.
End Sends.

(** The parts of a file, one after the other, are the file. *)
Lemma parts_whole t size c : 0 < size → cdiv (slen t) size = Z.of_nat c →
  cat (map (λ i, part t size (Z.of_nat i)) (seq 0 c)) = t.
Proof.
  intros Hs Hc. pose proof (slen_nonneg t) as Ht.
  assert (∀ j, (j ≤ c)%nat → cat (map (λ i, part t size (Z.of_nat i)) (seq 0 j)) = slice t 0 (Z.min (Z.of_nat j * size) (slen t))) as Hj.
  { induction j as [|j IH]; intros Hj.
    - rewrite Z.min_l by lia. by rewrite slice_none by lia.
    - rewrite seq_S, map_app, cat_app, IH by lia. simpl. rewrite append_nil_r. unfold part.
      assert (Z.of_nat j * size < slen t) as Hlt.
      { assert (Z.of_nat j * size ≤ Z.of_nat c * size - size) by nia.
        rewrite <- Hc in *. unfold cdiv in *. pose proof (Z.mul_div_le (slen t + size - 1) size). lia. }
      rewrite Z.min_l by lia. replace (Z.min (Z.of_nat (S j) * size) (slen t))
        with (Z.of_nat j * size + Z.min size (slen t - Z.of_nat j * size)) by lia.
      rewrite (slice_split t 0) by lia. by rewrite Z.add_0_l. }
  rewrite Hj by lia. rewrite Z.min_r; [apply slice_whole|]. rewrite <- Hc. apply cdiv_le. lia.
Qed.

Section Send.
Context `{Hash, Unicode, Wire}.
Lemma covered_more t op size bs pgs L K L' K' : covered t op size bs pgs L K → L ⊆ L' → K ⊆ K' → covered t op size bs pgs L' K'.
Proof.
  intros (Hs & Hl & Hd & Hc & Hp & Hst & f & seal & f' & Hse & Hco) HL HK. split_and!; try done.
  - intros i b Hb. destruct (Hd i b Hb) as (a & Ha & Hca & Hal). exists a. split_and!; [by apply HL|done|by eapply allocated_more].
  - by eapply staged_more.
  - exists f, seal, f'. split; by apply HK.
Qed.
Lemma adds_run {A} (m : C A) w s a s' : preserves adds m → m w s = (Ok a, s') → adds s s'.
Proof. intros Hm E. specialize (Hm w s). by rewrite E in Hm. Qed.
(** The state in which the upload itself begins. *)
Lemma begun (s s1 : client) p n k : adds s s1 → n = length s.(cl_acked) → k = length s.(cl_asked) →
  knows p.(up_operation) p.(up_block_bytes) n k [] [] (s1 <| cl_plan := Some p |>).
Proof.
  intros (_ & [l Hl] & [a Ha]) -> ->. unfold knows. simpl. rewrite Hl, Ha, !length_app.
  split_and!; [by exists p|lia|lia|by intros ? ?%not_elem_of_nil|by intros ? ?%not_elem_of_nil].
Qed.
Lemma hash_file_adds fuel : ∀ i text, preserves adds (hash_file fuel i text).
Proof. induction fuel as [|fuel IH]; intros i text; cbn [hash_file]; unfold read_source; solve_preserves. Qed.
Lemma abandon_Ok x (w : client_env) (s : client) r s' : abandon x w s ≠ (Ok r, s').
Proof.
  unfold abandon. case_decide; [done|]. intros (u & s1 & _ & E)%pm_bind_Ok. done.
Qed.
(** C24: An upload that succeeds has sent the whole file.  If the file stays as it is
    while it is sent: it was cut into blocks of the planned size whose parts,
    one after the other, are the file; each block was allocated with the size
    and the digest of its part, and a node acknowledged, for that block and
    that operation, a stream whose chunks continue each other, are full, and
    carry exactly the part; every block is listed once and in order in staged
    pages of at most 64; and the sealed manifest counts these pages, blocks and
    bytes, before the commit that is asked for. *)
Theorem send_covers_file remote overwrite w s t mtime r s' :
  (∀ i, w.(v_source) i = (t, mtime)) →
  (∀ i p, (w.(v_renewed_plan) i p).(up_operation) = p.(up_operation)
        ∧ (w.(v_renewed_plan) i p).(up_block_bytes) = p.(up_block_bytes)) →
  send remote overwrite w s = (Ok r, s') →
  ∃ op size bs pgs,
    covered t op size bs pgs (drop (length s.(cl_acked)) s'.(cl_acked)) (rq_body <$> drop (length s.(cl_asked)) s'.(cl_asked))
    ∧ cat (map (λ i, part t size (Z.of_nat i)) (seq 0 (length bs))) = t.
Proof.
  intros Hsrc Hren. unfold send. intros (missing & s1 & E1 & E)%pm_bind_Ok.
  apply adds_run in E1 as A1; [|solve_preserves].
  apply pm_bind_Ok in E as (u & s2 & E2 & E). apply adds_run in E2 as A2; [|solve_preserves].
  apply pm_bind_Ok in E as ([total m] & s3 & E3 & E). apply adds_run in E3 as A3; [|unfold fstat; solve_preserves].
  unfold fstat in E3. apply pm_bind_Ok in E3 as (x & s3' & (_ & -> & _)%query_Ok & E3).
  rewrite Hsrc in E3. apply pm_ret_Ok in E3 as [[= -> ->] _].
  apply pm_bind_Ok in E as (fuel & s4 & [_ ->]%asks_Ok & E).
  apply pm_bind_Ok in E as (text & s4 & E4 & E). apply adds_run in E4 as A4; [|apply hash_file_adds].
  apply pm_bind_Ok in E as (expected & s5 & E5 & E).
  apply adds_run in E5 as A5; [|unfold expected_snapshot; solve_preserves].
  apply pm_bind_Ok in E as (pr & s6 & E6 & E). apply adds_run in E6 as A6; [|solve_preserves].
  apply pm_bind_Ok in E as (p & s7 & E7 & E). apply adds_run in E7 as A7; [|solve_preserves].
  apply pm_bind_Ok in E as (u2 & s8 & ->%sets_Ok & E).
  assert (adds s s7) as A by (repeat (etrans; [eassumption|]); reflexivity).
  clear E2 E4 E5 E6 E7 A1 A2 A3 A4 A5 A6 A7. set (sb := s7 <| cl_plan := Some p |>) in *.
  pose proof (begun s s7 p _ _ A eq_refl eq_refl) as Hk. fold sb in Hk.
  pose proof (uploaded w t mtime p.(up_operation) p.(up_block_bytes) Hsrc Hren (length s.(cl_acked)) (length s.(cl_asked)) sb Hk) as Hu.
  unfold try_except in E. destruct (keepalive (upload (slen t) mtime) w sb) as [[r'|x] s9] eqn:Ek.
  - injection E as -> ->. unfold keepalive in Ek. apply pm_bind_Ok in Ek as (r1 & s10 & Eu & Ek). rewrite Eu in Hu.
    destruct Hu as (L & K & bs & pgs & Hkn & Hcov). apply adds_run in Ek; [|solve_preserves].
    apply (knows_adds _ _ _ _ _ _ _ _ Ek) in Hkn as (_ & _ & _ & HL & HK).
    exists p.(up_operation), p.(up_block_bytes), bs, pgs. split; [by eapply covered_more|].
    destruct Hcov as (Hs & Hl & _). by apply parts_whole.
  - exfalso. destruct x; [eapply abandon_Ok; exact E|eapply abandon_Ok; exact E|discriminate E].
Qed.
End Send.

(** ** Unknown outcomes *)
Definition not_abort (b : body) : Prop := match b with AbortUpload _ => False | _ => True end.
Definition unaborted (s s' : client) : Prop :=
  ∃ l, s'.(cl_asked) = s.(cl_asked) ++ l ∧ Forall (λ rq, not_abort rq.(rq_body)) l.
#[export] Instance unaborted_asks : Asks not_abort unaborted.
Proof.
  split; [split; [split|]|].
  - intros s. exists []. by rewrite app_nil_r.
  - intros s1 s2 s3 (l1 & E1 & F1) (l2 & E2 & F2). exists (l1 ++ l2). split; [by rewrite E2, E1, app_assoc|by apply Forall_app_2].
  - intros s t. exists []. by rewrite app_nil_r.
  - intros s rq Hrq. exists [rq]. split; [done|by constructor].
Qed.
Section Unknown.
Context `{Hash, Unicode, Wire}.
Hint Extern 1 (preserves unaborted (sets _)) => (apply preserves_sets; intros ?; exists []; by rewrite app_nil_r) : kept.
Lemma unaborted_hash_block fuel : ∀ p r x, preserves unaborted (hash_block fuel p r x).
Proof. induction fuel as [|fuel IH]; intros p r x; cbn [hash_block]; unfold read_source; solve_preserves. Qed.
Lemma unaborted_read_chunks fuel : ∀ a b c, preserves unaborted (read_chunks fuel a b c).
Proof. induction fuel as [|fuel IH]; intros a b c; cbn [read_chunks]; unfold read_source; solve_preserves. Qed.
Lemma unaborted_hash_file fuel : ∀ p x, preserves unaborted (hash_file fuel p x).
Proof. induction fuel as [|fuel IH]; intros p x; cbn [hash_file]; unfold read_source; solve_preserves. Qed.
Lemma unaborted_current_plan : preserves unaborted current_plan.
Proof. unfold current_plan. solve_preserves. Qed.
Hint Resolve unaborted_hash_block unaborted_read_chunks unaborted_hash_file unaborted_current_plan : kept.
Lemma unaborted_put more e h a n : preserves unaborted (put_retrying more e h a n).
Proof. induction more as [|more IH]; cbn [put_retrying]; unfold put_once; solve_preserves. Qed.
Hint Resolve unaborted_put : kept.
Lemma unaborted_send_block i n : preserves unaborted (send_block i n).
Proof. unfold send_block, allocate, first, record_traffic. solve_preserves. Qed.
Hint Resolve unaborted_send_block : kept.
Lemma unaborted_upload n m : preserves unaborted (upload n m).
Proof.
  unfold upload, send_blocks, stage_page, fstat.
  do 4 (apply preserves_bind; [apply _|solve_preserves|intros ?]). case_match.
  do 4 (apply preserves_bind; [apply _|solve_preserves|intros ?]).
  apply (keptc_prepare_then (P := not_abort)); [apply _|]. intros c. unfold commit_upload. solve_preserves.
Qed.
(** What is ignored can only stop the process. *)
Lemma ignored_Err {A} (m : C A) (a : A) (w : client_env) (s : client) y s' :
  try_except m (λ _, mret a) w s = (Err y, s') → y = Exit.
Proof. unfold try_except. destruct (m w s) as [[b|[]] s1]; by intros [= <- <-]. Qed.
(** Giving up always ends in the failure that led to it. *)
Lemma abandon_fails x (w : client_env) (s : client) :
  match (abandon x w s).1 with Ok _ => False | Err y => y = x ∨ y = Exit end.
Proof.
  unfold abandon. case_decide; [by left|]. unfold mbind at 1, pm_bind at 1.
  match goal with |- context [try_except ?m ?h w s] => destruct (try_except m h w s) as [[u|y] s'] eqn:E end; simpl;
    [by left|right; by eapply ignored_Err].
Qed.

(** C26: An upload whose outcome is unknown is left alone, and one that succeeded is not
    touched again: when [send] ends with [OUTCOME_UNKNOWN], or returns, it has
    not asked to abort the operation, so a commit that may still be under way
    is never undone by the client that asked for it. *)
Theorem unknown_not_aborted remote overwrite w s r s' :
  send remote overwrite w s = (r, s') →
  r = Err (Raised (Fault OUTCOME_UNKNOWN)) ∨ is_ok r = true →
  Forall (λ rq, not_abort rq.(rq_body)) (drop (length s.(cl_asked)) s'.(cl_asked)).
Proof.
  intros E Hr. assert (unaborted s s') as (l & -> & Hl); [|by rewrite drop_app_length].
  set (I := λ x s1, x = Raised (Fault OUTCOME_UNKNOWN) → unaborted s s1).
  assert (ensures I w (unaborted s) (send remote overwrite) (λ _ s1, unaborted s s1)) as Hs.
  2:{ specialize (Hs s ltac:(reflexivity)). rewrite E in Hs. destruct r as [a|x]; [done|].
      apply Hs. destruct Hr as [[= ->]|]; done. }
  assert (∀ A (m : C A), preserves unaborted m → ensures I w (unaborted s) m (λ _, unaborted s)) as Hk.
  { intros A m Hm. eapply ensures_kept; [exact Hm|intros s1 s2 ? ?; by etrans|by intros x s1 ? _]. }
  unfold send, fstat, expected_snapshot. do 2 (eapply ensures_bind; [apply Hk; solve_preserves|intros ?]).
  eapply ensures_bind; [apply Hk; solve_preserves|intros [total mtime]].
  do 6 (eapply ensures_bind; [apply Hk; solve_preserves|intros ?]).
  eapply (ensures_try _ _ (λ _, unaborted s)); [|by intros s1 ?|].
  - intros s1 H1'. assert (preserves unaborted (keepalive (upload total mtime))) as Hm.
    { apply keptc_keepalive; [apply _|apply unaborted_upload]. }
    specialize (Hm w s1). destruct (keepalive _ w s1) as [[r6|x] s2]; by etrans.
  - intros x Hx s1 Hs1. pose proof (abandon_fails x w s1) as Hf.
    destruct (decide (x = Raised (Fault OUTCOME_UNKNOWN))) as [->|Hne].
    + unfold abandon. rewrite decide_True by done. by intros _.
    + destruct (abandon x w s1) as [[r6|y] s2]; simpl in Hf; [done|]. intros ->. by destruct Hf.
Qed.
End Unknown.
