(* ===== verification/Ranges.v ===== *)
(** * Reads and writes of ranges ([client/access.py])

    A range is read block by block from wherever the control says the blocks
    are, going on where a broken stream stopped; a range is written as one patch
    per block it touches, and committed under the fences of its plan. *)
From Stdlib Require String.
From S2P Require Import Prelude Domain Data Store Auth Leases Cluster Requests Queries Process Protected Blocks DataNode Streams Client Downloads.

Section Ranges.
Context `{Hash, Unicode, Wire, ReadWire}.

(** [checked_range] of [control/leases.py]. *)
Definition checked (offset length : Z) (maximum : option Z) : C Z :=
  of_result match checked_range (E := unit) (S := unit) offset length maximum tt tt with
            | Ok (e, _) => Ok e
            | Err x => Err x
            end.
Definition modes : list (string * OpenMode) :=
  [("r", ctl.R); ("r+", ctl.R_PLUS); ("w", ctl.W); ("w+", ctl.W_PLUS); ("x", ctl.X); ("x+", ctl.X_PLUS)].
Definition open (p mode : string) : C nat :=
  m ← demand_some (dget mode modes) UNSUPPORTED_MODE;
  r ← path p; x ← typed as_handle (call (Open r m)); new_handle x.
Definition renew_handle (h : nat) : C nat :=
  x ← handle_at h;
  u ← typed as_handle (call (RenewHandle x.(hm_handle_id) x.(hm_revision)));
  x ← handle_at h;
  (if x.(hm_revision) <=? u.(hm_revision) then set_handle h u else mret tt);;
  mret h.
Definition lock (h : nat) (offset length : option Z) (whole_file : bool) (wait_ms : Z) : C Fence :=
  (if whole_file then mret tt
   else match offset, length with
        | Some o, Some n => _ ← checked o n (Some MAX_DELTA); demand (0 <? n) INVALID_ARGUMENT
        | _, _ => fail (Raised PyError)
        end);;
  x ← handle_at h;
  typed as_fence (call_retrying 0 (Lock x.(hm_handle_id) whole_file offset length wait_ms)).
Definition unlock (f : Fence) : C MutationResult := typed as_mutation (call (Unlock f)).
Definition renew_lock (f : Fence) : C Fence := typed as_fence (call (RenewLock f)).

(** ** Reads *)
(** A [yield]: the consumer may close the generator there. *)
Definition yield (chunk : string) : C unit :=
  sets (λ s, s <| cl_yielded ::= λ l, l ++ [chunk] |>);;
  closed ← query v_closed;
  if (closed : bool) then fail (Raised PyError) else mret tt.
Definition range_matches (b : BlockRef) (g : BlockGrant) (h : ReadBlockHeader) : bool :=
  bool_decide (h.(rh_block) = b) && (h.(rh_offset) =? g.(bg_offset)) && (h.(rh_length) =? g.(bg_length)).
(** The chunks of one stream, each handed on as it arrives: the bytes of the
    stream so far. *)
Definition relay (node : string) (limit : Z) (frames : list (frame ReadBlockHeader)) : C Z :=
  fold frames 0 (λ position f,
    match f with
    | FChunk c =>
        demand (read_chunk_ok limit position c) DATA_LOSS;;
        sets (λ s, s <| cl_received ::= Z.add (slen c.(dc_data)) |> <| cl_hashed ::= λ t, t +:+ c.(dc_data) |>);;
        record_traffic node 0 (slen c.(dc_data));;
        yield c.(dc_data);;
        mret (position + slen c.(dc_data))
    | _ => refuse DATA_LOSS
    end).
Definition read_stream_of (h : nat) (b : BlockRef) (g : BlockGrant) (l : BlockLocation) (rq : GetBlockRequest) : C unit :=
  x ← renewed h; profiled x;;
  st ← get_block l.(bl_client_endpoint) rq;
  match st.(rd_frames) with
  | [] => stream_end st;; refuse DATA_LOSS
  | FHeader hd :: frames =>
      demand (range_matches b g hd) DATA_LOSS;;
      position ← relay l.(bl_node_id) g.(bg_length) frames;
      stream_end st;;
      demand (position =? g.(bg_length)) DATA_LOSS
  | _ => refuse DATA_LOSS
  end.
Definition location_of (a : PlannedBlock) (node : string) : option BlockLocation :=
  List.find (λ l, bool_decide (l.(bl_node_id) = node)) a.(pb_locations).
Definition grant_outside (failed : list string) (a : PlannedBlock) : option BlockGrant :=
  List.find (λ g, negb (bool_decide (g.(bg_node_id) ∈ failed))) a.(pb_grants).
(** Where the rest of a block is now. *)
Definition rest_of_block (h : nat) (b : BlockRef) (expected_offset expected_length received : Z) (read_id : string)
    : C PlannedBlock :=
  x ← renewed h;
  let position := b.(br_block_index) * x.(hm_snapshot).(sr_block_size_bytes) + expected_offset + received in
  plan ← typed as_blocks (call (ResolveBlocks x.(hm_handle_id) x.(hm_snapshot) (Some position)
           (Some (expected_length - received)) page_one read_id));
  match plan.(bp_blocks) with
  | [a] => demand (bool_decide (a.(pb_block) = b)) DATA_UNAVAILABLE;; mret a
  | _ => refuse DATA_UNAVAILABLE
  end.
(** [while received < expected_length]. *)
Fixpoint read_block_from (fuel h : nat) (read_id : string) (a : PlannedBlock) (g : BlockGrant)
    (expected_offset expected_length : Z) (attempts : nat) (failed : list string) : C unit :=
  received ← gets cl_received;
  if expected_length <=? received then mret tt
  else match fuel with
  | O => running
  | S fuel =>
      match location_of a g.(bg_node_id) with
      | None => fail (Raised PyError)
      | Some l =>
          x ← renewed h;
          rq ← prepare_get x a.(pb_block) g.(bg_offset) g.(bg_length) g.(bg_capability) read_id;
          next ← try_except (read_stream_of h a.(pb_block) g l rq;; mret (a, g, attempts, failed)) (λ x,
            match x with
            | RpcError e =>
                received ← gets cl_received;
                if negb (transient e.(re_code)) || Nat.leb 2 attempts || (received =? expected_length) then fail x
                else
                  let failed := l.(bl_node_id) :: failed in
                  a ← rest_of_block h a.(pb_block) expected_offset expected_length received read_id;
                  match grant_outside failed a with
                  | Some g => mret (a, g, S attempts, failed)
                  | None => fail x
                  end
            | _ => fail x
            end);
          let '(a, g, attempts, failed) := next in
          read_block_from fuel h read_id a g expected_offset expected_length attempts failed
      end
  end.
(** One allocation of the plan; a whole block is checked against its digest. *)
Definition read_allocation (h : nat) (read_id : string) (a : PlannedBlock) : C unit :=
  match a.(pb_grants) with
  | [] => fail (Raised PyError)
  | g :: _ =>
      sets (λ s, s <| cl_received := 0 |> <| cl_hashed := "" |>);;
      fuel ← asks v_fuel;
      read_block_from fuel h read_id a g g.(bg_offset) g.(bg_length) 0 [];;
      text ← gets cl_hashed;
      (if (g.(bg_offset) =? 0) && (g.(bg_length) =? a.(pb_block).(br_size_bytes))
       then demand (bool_decide (sha256 text = a.(pb_block).(br_plaintext_sha256))) CHECKSUM_MISMATCH else mret tt)
  end.
Fixpoint read_pages (fuel h : nat) (offset length : Z) (read_id cursor : string) : C unit :=
  match fuel with
  | O => running
  | S fuel =>
      x ← renewed h;
      plan ← typed as_blocks (call (ResolveBlocks x.(hm_handle_id) x.(hm_snapshot) (Some offset) (Some length)
               (mkPageRequest 64 cursor) read_id));
      x ← renewed h;
      demand (bool_decide (plan.(bp_snapshot) = Some x.(hm_snapshot))) VERSION_CONFLICT;;
      each plan.(bp_blocks) (read_allocation h read_id);;
      if empty plan.(bp_next_cursor) then mret tt else read_pages fuel h offset length read_id plan.(bp_next_cursor)
  end.
(** [_iter_read] under its [keepalive], [_read_serialized] around it. *)
Definition iter_read (h : nat) (offset length : Z) : C unit :=
  _ ← checked offset length None;
  x ← handle_at h;
  lease ← typed as_read (call (BeginRead x.(hm_handle_id) x.(hm_snapshot) offset length));
  try_finally
    (_ ← checked offset length None;
     fuel ← asks v_fuel;
     keepalive (read_pages fuel h offset length lease.(rl_read_id) ""))
    (x ← handle_at h; _ ← call (EndRead x.(hm_handle_id) lease.(rl_read_id)); mret tt).
Definition read (h : nat) (offset length : Z) : C string :=
  _ ← checked offset length (Some MAX_DELTA);
  before ← gets cl_yielded;
  iter_read h offset length;;
  after ← gets cl_yielded;
  mret (cat (drop (List.length before) after)).

(** ** Writes *)
(** The part of a payload that falls into the block at [absolute]. *)
Definition write_part (offset size : Z) (payload : string) (cursor : Z) : WritePart :=
  let absolute := offset + cursor in
  let length := Z.min (slen payload - cursor) (size - absolute mod size) in
  mkWritePart (absolute / size) (absolute mod size) cursor length
    (sha256 (String.substring (Z.to_nat cursor) (Z.to_nat length) payload)).
Fixpoint write_parts (fuel : nat) (offset size : Z) (payload : string) (cursor : Z) : list WritePart :=
  if slen payload <=? cursor then []
  else match fuel with
  | O => []
  | S fuel =>
      let p := write_part offset size payload cursor in
      p :: write_parts fuel offset size payload (cursor + p.(wp_length))
  end.
Definition begin_write (h : nat) (offset : Z) (payload : string) (fences : list Fence) (request_id : string) : C WritePlan :=
  _ ← checked offset (slen payload) (Some MAX_DELTA);
  x ← handle_at h;
  demand (offset <=? x.(hm_snapshot).(sr_size_bytes)) SPARSE_WRITE_UNSUPPORTED;;
  let size := x.(hm_snapshot).(sr_block_size_bytes) in
  (if (0 <? slen payload) && (size =? 0) then fail (Raised PyError) else mret tt);;
  let w c := mkBeginWriteRequest c x.(hm_handle_id) x.(hm_snapshot) (Some offset) (Some (slen payload))
               (sha256 payload) fences (write_parts (String.length payload) offset size payload 0) in
  c ← prepared_context (request_intent (BeginWrite (w no_context))) request_id;
  typed as_write (call_prepared (mkRequest c (BeginWrite (w c))) 2).
(** The delta of an allocation, cut into chunks. *)
Definition delta_chunks (piece : string) : list DataChunk :=
  imap (λ i p, mkChunk (Z.of_nat i * CHUNK) p) (file_pieces piece).
Fixpoint patch_retrying (more : nat) (endpoint : string) (frames : list (frame PatchBlockHeader)) : C DurableReceipt :=
  try_except (token ← metadata; Process.call (λ w i, w.(v_patch) i endpoint token frames)) (λ x,
    match x, more with
    | RpcError e, S more =>
        if decide (e.(re_code) = Grpc.UNAVAILABLE) then _ ← tick; patch_retrying more endpoint frames else fail x
    | _, _ => fail x
    end).
Definition first_of {A} (l : list A) : C A := match l with a :: _ => mret a | [] => fail (Raised PyError) end.
Definition patch_accepted (plan : WritePlan) (a : PlannedBlock) (node file : string) (r : DurableReceipt) : bool :=
  bool_decide (r.(dr_operation_id) = plan.(wl_operation).(or_operation_id)) && bool_decide (r.(dr_node_id) = node)
  && bool_decide (r.(dr_block).(br_block_version_id) = a.(pb_replacement_id))
  && bool_decide (r.(dr_block).(br_file_id) = file)
  && (r.(dr_block).(br_block_index) =? a.(pb_block).(br_block_index)) && (slen r.(dr_block).(br_plaintext_sha256) =? 32).
Definition prepare_block (h : nat) (plan : WritePlan) (payload : string) (a : PlannedBlock) : C BlockChange :=
  let piece := String.substring (Z.to_nat a.(pb_delta_offset)) (Z.to_nat a.(pb_delta_length)) payload in
  f ← first_of plan.(wl_fences);
  g ← first_of a.(pb_grants);
  rq ← prepare (Requests.PatchBlock plan.(wl_operation) a.(pb_block) a.(pb_replacement_id) a.(pb_block_offset) (slen piece)
         (sha256 piece) f g.(bg_capability)) "";
  let hd := mkPatchHeader rq.(rq_context) plan.(wl_operation) a.(pb_block) a.(pb_replacement_id) a.(pb_block_offset)
              (slen piece) (sha256 piece) f g.(bg_capability) in
  l ← first_of a.(pb_locations);
  x ← renewed h; profiled x;;
  r ← patch_retrying 2 l.(bl_client_endpoint) (FHeader hd :: map FChunk (delta_chunks piece));
  x ← renewed h;
  demand (patch_accepted plan a l.(bl_node_id) x.(hm_snapshot).(sr_file_id) r) DATA_LOSS;;
  record_traffic r.(dr_node_id) (slen piece) 0;;
  mret (mkBlockChange a.(pb_block) r.(dr_block) [r]).
Definition prepare_blocks (h : nat) (plan : WritePlan) (payload : string) : C (list BlockChange) :=
  fold plan.(wl_blocks) [] (λ changes a, c ← prepare_block h plan payload a; mret (changes ++ [c])).
Definition result_or_none (st : OperationStatus) (none : CommitResult) : CommitResult := default none st.(os_result).
Definition empty_commit : CommitResult := mkCommitResult no_operation OPERATION_STATE_UNSPECIFIED no_snapshot 0 false 0 0.
Definition uncertain (c : Grpc.StatusCode) : bool :=
  bool_decide (c = Grpc.UNAVAILABLE) || bool_decide (c = Grpc.DEADLINE_EXCEEDED).
Definition commit_write (h : nat) (plan : WritePlan) (changes : list BlockChange) (request_id : string) : C CommitResult :=
  (if 1 <? plan.(wl_minimum_durable) then wait_durable plan.(wl_operation).(or_operation_id) else mret tt);;
  x ← renewed h;
  rq ← prepare (CommitWrite plan.(wl_operation) x.(hm_handle_id) x.(hm_revision) plan.(wl_fences) changes) request_id;
  sets (λ s, s <| cl_last_commit := Some rq |>);;
  result ← try_except (typed as_commit (call_prepared rq 0)) (λ x,
    match x with
    | RpcError e =>
        if uncertain e.(re_code) then
          st ← try_except (operation plan.(wl_operation).(or_operation_id) "")
                 (λ y, match y with RpcError _ => refuse OUTCOME_UNKNOWN | _ => fail y end);
          if decide (st.(os_state) = COMMITTED) then mret (result_or_none st empty_commit)
          else if decide (st.(os_state) = PREPARING) then typed as_commit (call_prepared rq 0)
          else refuse OPERATION_EXPIRED
        else fail x
    | _ => fail x
    end);
  x ← renewed h;
  set_handle h (x <| hm_snapshot := result.(cr_snapshot) |> <| hm_revision ::= Z.succ |>);;
  mret result.
(** [except Exception] of [_finish_write]: a commit that turns out to have
    happened is one, an operation still under way is aborted. *)
Definition settle (h : nat) (plan : WritePlan) (x : failure) : C Z :=
  settled ← try_except
    (st ← operation plan.(wl_operation).(or_operation_id) "";
     if decide (st.(os_state) = COMMITTED) then
       let r := result_or_none st empty_commit in
       y ← renewed h; set_handle h (y <| hm_snapshot := r.(cr_snapshot) |>);;
       mret (Some r.(cr_accepted_bytes))
     else if decide (st.(os_state) = PREPARING) then
       _ ← call_retrying 0 (AbortWrite plan.(wl_operation)); mret None
     else mret None)
    (λ y, match y with RpcError _ => refuse OUTCOME_UNKNOWN | _ => fail y end);
  match settled with Some n => mret n | None => fail x end.
Definition finish_write (h : nat) (plan : WritePlan) (payload : string) : C Z :=
  sets (λ s, s <| cl_last_operation := Some plan.(wl_operation) |>);;
  if empty payload then
    st ← operation plan.(wl_operation).(or_operation_id) "";
    mret (result_or_none st empty_commit).(cr_accepted_bytes)
  else
    try_except
      (changes ← prepare_blocks h plan payload;
       r ← commit_write h plan changes ""; mret r.(cr_accepted_bytes))
      (settle h plan).
Definition with_context (c : RequestContext) (w : BeginWriteRequest) : BeginWriteRequest :=
  mkBeginWriteRequest c w.(bw_handle_id) w.(bw_base) w.(bw_offset) w.(bw_length) w.(bw_delta_sha256) w.(bw_fences) w.(bw_parts).
(** A request that is repeated must be the one it repeats. *)
Definition same_write (x : Handle) (offset : Z) (payload : string) (w : BeginWriteRequest) : bool :=
  bool_decide (w.(bw_handle_id) = x.(hm_handle_id)) && (default 0 w.(bw_offset) =? offset)
  && (default 0 w.(bw_length) =? slen payload) && bool_decide (w.(bw_delta_sha256) = sha256 payload).
Definition resume_write (h : nat) (offset : Z) (payload : string) (fences : list Fence) (previous : OperationStatus) : C Z :=
  w ← demand_some previous.(os_write_intent) IDEMPOTENCY_MISMATCH;
  x ← handle_at h;
  demand (same_write x offset payload w) IDEMPOTENCY_MISMATCH;;
  demand (bool_decide (map fence_intent w.(bw_fences) = map fence_intent fences)) IDEMPOTENCY_MISMATCH;;
  if decide (previous.(os_state) = COMMITTED) then mret (result_or_none previous empty_commit).(cr_accepted_bytes)
  else
    demand (bool_decide (previous.(os_state) = PREPARING)) OPERATION_EXPIRED;;
    c ← (if empty w.(bw_context).(rc_request_id) then prepared_context (request_intent (BeginWrite w)) ""
         else mret w.(bw_context));
    let rq := mkRequest c (BeginWrite (with_context c w)) in
    plan ← typed as_write (call_prepared rq 2);
    finish_write h plan payload.
Definition write (h : nat) (offset : Z) (payload : string) (fences : list Fence) (request_id : string) : C Z :=
  _ ← checked offset (slen payload) (Some MAX_DELTA);
  previous ← (if empty request_id then mret None
    else try_except (st ← operation "" request_id; mret (Some st)) (λ x,
      match x with
      | RpcError e => if decide (e.(re_code) = Grpc.NOT_FOUND) then mret None else fail x
      | _ => fail x
      end));
  match previous with
  | Some st => resume_write h offset payload fences st
  | None => plan ← begin_write h offset payload fences request_id; finish_write h plan payload
  end.
End Ranges.
