(* ===== verification/RangeFacts.v ===== *)
(** * Ranges that are read and written

    The parts of a write cover its payload.  A read is followed with the bytes it
    has handed on: they are the file's from the start of the range on, whichever
    node broke off where, as long as nodes send what they are asked for and the
    control plans the blocks of a range. *)
From Stdlib Require String.
From S2P Require Import Prelude Domain Data Store Auth Leases Cluster Requests Queries Process Protected Blocks DataNode Streams NodeContent Client Downloads ClientFacts DownloadFacts Sends SendFacts Ranges.

(** ** The parts of a write *)
Section Parts.
Context `{Hash}.
(** From [cursor] on, the parts cover the payload without gap or overlap; each
    lies inside one block, and all but the last reach the end of theirs. *)
Fixpoint covers (offset size : Z) (payload : string) (cursor : Z) (ps : list WritePart) : Prop :=
  match ps with
  | [] => cursor = slen payload
  | p :: ps =>
      p.(wp_delta_offset) = cursor ∧ 0 < p.(wp_length)
      ∧ p.(wp_block_index) * size + p.(wp_block_offset) = offset + cursor
      ∧ 0 ≤ p.(wp_block_offset) ∧ p.(wp_block_offset) + p.(wp_length) ≤ size
      ∧ p.(wp_delta_sha256) = sha256 (slice payload cursor p.(wp_length))
      ∧ (ps ≠ [] → p.(wp_block_offset) + p.(wp_length) = size)
      ∧ covers offset size payload (cursor + p.(wp_length)) ps
  end.
Lemma parts_cover offset size payload fuel : 0 ≤ offset → 0 < size → ∀ cursor,
  0 ≤ cursor ≤ slen payload → slen payload - cursor ≤ Z.of_nat fuel →
  covers offset size payload cursor (write_parts fuel offset size payload cursor).
Proof.
  intros Ho Hs. induction fuel as [|fuel IH]; intros cursor Hc Hf; cbn [write_parts];
    destruct (slen payload <=? cursor) eqn:E; bsimpl; try (cbn; lia).
  set (p := write_part offset size payload cursor). cbn [covers].
  pose proof (Z.mod_pos_bound (offset + cursor) size Hs) as Hm.
  assert (p.(wp_length) = Z.min (slen payload - cursor) (size - (offset + cursor) mod size)) as Hl by done.
  split_and!; [done|lia| |apply Hm| |done| |].
  - change (wp_block_index p * size + wp_block_offset p) with ((offset + cursor) / size * size + (offset + cursor) mod size).
    pose proof (Z.div_mod (offset + cursor) size). lia.
  - change (wp_block_offset p) with ((offset + cursor) mod size). lia.
  - intros Hne. change (wp_block_offset p) with ((offset + cursor) mod size).
    destruct (decide (slen payload ≤ cursor + p.(wp_length))) as [Hd|Hd]; [|lia].
    exfalso. apply Hne. destruct fuel; cbn [write_parts]; by rewrite (proj2 (Z.leb_le _ _)).
  - apply IH; lia.
Qed.
(** The parts a write is cut into are the write: in order they cover the payload
    without gap or overlap, each lies inside one block at the place of its
    bytes in the file, carries the digest of its bytes, and all but the last
    reach the end of their block, so no block has two; and the loop that cuts
    them ends, after at most one round per byte. *)
Theorem write_parts_cover offset size payload : 0 ≤ offset → 0 < size →
  covers offset size payload 0 (write_parts (String.length payload) offset size payload 0).
Proof. intros. apply parts_cover; [done|done| |]; unfold slen; lia. Qed.
End Parts.

(** ** Reads *)
Definition begins (a b : string) : Prop := ∃ u, b = a +:+ u.
Lemma begins_slice F a n x : 0 ≤ a → begins x (slice F a n) → x = slice F a (slen x).
Proof.
  intros Ha [u Hu]. apply text_inj. assert (text (slice F a n) = text x ++ text u) as E by (by rewrite Hu, text_app).
  unfold slice in *. rewrite text_substring in *. rewrite text_slen, Nat2Z.id.
  assert (take (length (text x)) (take (Z.to_nat n) (drop (Z.to_nat a) (text F))) = text x) as E2
    by (rewrite E; by apply take_app_length).
  rewrite take_take in E2. rewrite <- E2 at 1. f_equal.
  assert (length (text x) ≤ Z.to_nat n)%nat; [|lia].
  transitivity (length (text x ++ text u)); [rewrite length_app; lia|]. rewrite <- E, length_take. lia.
Qed.

Lemma begins_nil y : begins "" y.
Proof. by exists y. Qed.
Lemma begins_app F a n x y : 0 ≤ a → begins (x +:+ y) (slice F a n) →
  x = slice F a (slen x) ∧ begins y (slice F (a + slen x) (n - slen x)).
Proof.
  intros Ha [u Hu]. assert (x = slice F a (slen x)) as Hx
    by (apply (begins_slice F a n); [done|]; exists (y +:+ u); by rewrite Hu, append_assoc).
  split; [done|]. exists u. apply text_inj. rewrite text_app. unfold slice in *. rewrite text_substring.
  assert (text (slice F a n) = text x ++ text y ++ text u) as E by (unfold slice; by rewrite Hu, !text_app, app_assoc).
  unfold slice in E. rewrite text_substring in E.
  replace (Z.to_nat (a + slen x)) with (Z.to_nat a + length (text x))%nat by (rewrite <- (Nat2Z.id (length (text x))), <- text_slen; unfold slen; lia).
  replace (Z.to_nat (n - slen x)) with (Z.to_nat n - length (text x))%nat by (rewrite text_slen; lia).
  rewrite <- drop_drop, <- skipn_firstn_comm, E. by rewrite drop_app_length.
Qed.

Section Honest.
Context `{Hash, Unicode, Wire, ReadWire}.
(** A file as the snapshot [sn] has it, the size of its blocks, and where the
    cursor of a page stands. *)
Context (w : client_env) (sn : SnapshotRef) (F : string) (place : string → Z).
Abbreviation bs := (sn.(sr_block_size_bytes)).
(** Blocks from [pos] on, each with all its grants for the part of the range
    that ends at [e]; the page stops at [stop]. *)
Fixpoint tiles (e pos : Z) (l : list PlannedBlock) (stop : Z) : Prop :=
  match l with
  | [] => pos = stop
  | a :: l =>
      let next := Z.min e ((a.(pb_block).(br_block_index) + 1) * bs) in
      pos < next ∧ a.(pb_block).(br_block_index) * bs ≤ pos
      ∧ (∀ g, g ∈ a.(pb_grants) → a.(pb_block).(br_block_index) * bs + g.(bg_offset) = pos ∧ g.(bg_length) = next - pos)
      ∧ tiles e next l stop
  end.
Definition honest_plan (b : body) (plan : BlockPlan) : Prop :=
  match b with
  | ResolveBlocks _ s (Some o) (Some n) page _ => s = sn →
      let e := Z.min (o + n) (slen F) in
      tiles e (if empty page.(pg_cursor) then o else place page.(pg_cursor)) plan.(bp_blocks)
        (if empty plan.(bp_next_cursor) then Z.max o e else place plan.(bp_next_cursor))
  | _ => True
  end.
(** The nodes send, as far as they get, the range they are asked for; the
    control answers with the blocks of the range; the handle is renewed as it
    is. *)
Class Honest := {
  honest_node i e token rq hd frames ds rest : rq.(gb_snapshot) = sn →
    (w.(v_get) i e token rq).(rd_frames) = FHeader hd :: frames → frames = map FChunk ds ++ rest →
    begins (payload ds) (slice F (rq.(gb_block).(br_block_index) * bs + default 0 rq.(gb_offset)) (default 0 rq.(gb_length)));
  honest_control i token rq plan : w.(v_control) i token rq = Ok (RBlocks plan) → honest_plan rq.(rq_body) plan;
  honest_renewal i x : (w.(v_renewed_handle) i x).(hm_snapshot) = x.(hm_snapshot) }.
Context `{Hw : !Honest}.
Context (h : nat) (Y : list string) (start : Z).
Hypothesis Hstart : 0 ≤ start.

(** The consumer has [m] bytes of the file from [start] on. *)
Definition handed (m : Z) (s : client) : Prop :=
  handle_ok h sn s ∧ ∃ ys, s.(cl_yielded) = Y ++ ys ∧ cat ys = slice F start m.
(** The same, [r] bytes into the part of a block that begins at [p]. *)
Definition into (p r : Z) (s : client) : Prop :=
  handed (p - start + r) s ∧ s.(cl_received) = r ∧ s.(cl_hashed) = slice F p r.
(** What does not matter to it. *)
Definition apart (s s' : client) : Prop :=
  s'.(cl_handles) = s.(cl_handles) ∧ s'.(cl_yielded) = s.(cl_yielded) ∧ s'.(cl_received) = s.(cl_received)
  ∧ s'.(cl_hashed) = s.(cl_hashed).
#[export] Instance apart_quiet : Quiet apart.
Proof.
  split; [split; [split|]|]; [by intros s| |by intros s t|by intros s rq _].
  intros s1 s2 s3 (?&?&?&?) (?&?&?&?). split_and!; congruence.
Qed.
Lemma into_apart p r s s' : apart s s' → into p r s → into p r s'.
Proof. unfold into, handed, handle_ok. by intros (-> & -> & -> & ->). Qed.
Lemma handed_apart m s s' : apart s s' → handed m s → handed m s'.
Proof. unfold handed, handle_ok. by intros (-> & -> & _). Qed.
Lemma into_kept {A} (I : failure → client → Prop) p r (m : C A) : preserves apart m →
  (∀ x s, into p r s → I x s) → ensures I w (into p r) m (λ _, into p r).
Proof. intros Hm HI. by eapply ensures_kept; [exact Hm|apply into_apart|]. Qed.
Lemma handed_kept {A} (I : failure → client → Prop) n (m : C A) : preserves apart m →
  (∀ x s, handed n s → I x s) → ensures I w (handed n) m (λ _, handed n).
Proof. intros Hm HI. by eapply ensures_kept; [exact Hm|apply handed_apart|]. Qed.
(** The renewed object has the same snapshot. *)
Lemma renewed_keeps (I : failure → client → Prop) (P : client → Prop) :
  (∀ s, P s → handle_ok h sn s) →
  (∀ s hs t, P s → handle_ok h sn (s <| cl_handles := hs |>) → P (s <| cl_handles := hs |> <| cl_ticks := t |>)) →
  (∀ x s, P s → I x s) →
  ensures I w P (renewed h) (λ x s, P s ∧ x.(hm_snapshot) = sn).
Proof using Hw.
  intros Hok HP HI s Hs. destruct (Hok s Hs) as (x & Hx & Hsn).
  unfold renewed, handle_at, set_handle, query, tick, mbind, pm_bind. cbn [gets]. rewrite Hx. cbn [mret pm_ret].
  destruct (stops w (ticks s)); [by apply HI|]. cbn [asks sets mret pm_ret].
  split; [|by rewrite (honest_renewal _ x)]. 
  apply (HP s (<[h := w.(v_renewed_handle) (ticks s) x]> s.(cl_handles)) (S s.(cl_ticks)) Hs).
  eexists. split; [simpl; apply list_lookup_insert_eq; by eapply lookup_lt_Some|]. by rewrite honest_renewal.
Qed.
Lemma into_renewed (I : failure → client → Prop) p r : (∀ x s, into p r s → I x s) →
  ensures I w (into p r) (renewed h) (λ x s, into p r s ∧ x.(hm_snapshot) = sn).
Proof using Hw.
  intros HI. apply renewed_keeps; [by intros s [[? _] _]| |done].
  intros s hs t [[_ Hy] Hr] Hok. split; [split; [exact Hok|exact Hy]|exact Hr].
Qed.
Lemma handed_renewed (I : failure → client → Prop) m : (∀ x s, handed m s → I x s) →
  ensures I w (handed m) (renewed h) (λ x s, handed m s ∧ x.(hm_snapshot) = sn).
Proof using Hw.
  intros HI. apply renewed_keeps; [by intros s [? _]| |done].
  intros s hs t [_ Hy] Hok. split; [exact Hok|exact Hy].
Qed.

(** ** One stream *)
Lemma into_more p r c s s' : 0 ≤ r → start ≤ p → c = slice F (p + r) (slen c) → into p r s →
  s'.(cl_handles) = s.(cl_handles) → s'.(cl_yielded) = s.(cl_yielded) ++ [c] →
  s'.(cl_received) = slen c + s.(cl_received) → s'.(cl_hashed) = s.(cl_hashed) +:+ c → into p (r + slen c) s'.
Proof using Hstart.
  intros Hr Hp Hc ((Hok & ys & Hys & Hcat) & Hrec & Hh) E1 E2 E3 E4.
  assert (0 ≤ slen c) by (unfold slen; lia).
  split; [split|split].
  - unfold handle_ok in *. by rewrite E1.
  - exists (ys ++ [c]). split; [by rewrite E2, Hys, app_assoc|].
    rewrite cat_app, Hcat. cbn [cat]. rewrite append_nil_r.
    replace (p - start + (r + slen c)) with ((p - start + r) + slen c) by lia. rewrite (slice_split F start (p - start + r) (slen c)) by lia. f_equal.
    replace (start + (p - start + r)) with (p + r) by lia. exact Hc.
  - lia.
  - rewrite E4, Hh, slice_split by lia. f_equal. exact Hc.
Qed.
(** The bytes came in order, and no more than the rest of the part. *)
Definition broken (p L : Z) (x : failure) (s : client) : Prop := ∃ r, 0 ≤ r ≤ L ∧ into p r s.
Lemma into_broken p L r x s : 0 ≤ r ≤ L → into p r s → broken p L x s.
Proof. intros. by exists r. Qed.
Lemma relayed node p limit (frames : list (frame ReadBlockHeader)) : start ≤ p → ∀ r position n, 0 ≤ r → 0 ≤ position ≤ limit →
  (∀ ds rest, frames = map FChunk ds ++ rest → begins (payload ds) (slice F (p + r) n)) →
  ensures (broken p (r + (limit - position))) w (into p r)
    (fold frames position (λ position f,
      match f with
      | FChunk c =>
          demand (read_chunk_ok limit position c) DATA_LOSS;;
          sets (λ s, s <| cl_received ::= Z.add (slen c.(dc_data)) |> <| cl_hashed ::= λ t, t +:+ c.(dc_data) |>);;
          record_traffic node 0 (slen c.(dc_data));;
          yield c.(dc_data);;
          mret (position + slen c.(dc_data))
      | _ => refuse DATA_LOSS
      end))
    (λ q s, position ≤ q ≤ limit ∧ into p (r + (q - position)) s).
Proof using Hstart.
  intros Hp. induction frames as [|f frames IH]; intros r position n Hr Hpos Hb; cbn [fold].
  { apply ensures_ret. intros s Hs. split; [lia|]. by replace (r + (position - position)) with r by lia. }
  assert (∀ x s, into p r s → broken p (r + (limit - position)) x s) as HI by (intros; apply (into_broken _ _ r); [lia|done]).
  destruct f as [hd|c|]; try (apply ensures_fail; apply HI).
  eapply (ensures_bind _ _ _ _ _ (λ q s, q = position + slen c.(dc_data) ∧ 0 < slen c.(dc_data)
    ∧ q ≤ limit ∧ into p (r + slen c.(dc_data)) s)).
  - eapply ensures_bind; [by apply ensures_demand|intros ?]. apply ensures_pure. unfold read_chunk_ok. intros Hok. bsimpl.
    assert (c.(dc_data) = slice F (p + r) (slen c.(dc_data))) as Hc.
    { apply (begins_slice F (p + r) n); [lia|]. specialize (Hb [c] frames eq_refl). unfold payload in Hb. cbn [map cat] in Hb.
      by rewrite append_nil_r in Hb. }
    intros s Hs. unfold record_traffic, yield, query, tick, mbind, pm_bind. cbn [sets].
    assert (∀ s', s'.(cl_handles) = s.(cl_handles) → s'.(cl_yielded) = s.(cl_yielded) ++ [c.(dc_data)] →
      s'.(cl_received) = slen c.(dc_data) + s.(cl_received) → s'.(cl_hashed) = s.(cl_hashed) +:+ c.(dc_data) →
      into p (r + slen c.(dc_data)) s') as Hmore by (intros; by eapply into_more).
    destruct (stops w _); [|cbn [asks mret pm_ret]; destruct (v_closed w _)].
    1,2: apply (into_broken _ _ (r + slen c.(dc_data))); [lia|by apply Hmore].
    cbn. split_and!; [lia|lia|lia|by apply Hmore].
  - intros q. set (x := slen c.(dc_data)).
    intros s (-> & Hx & Hq & Hs). fold x in Hx, Hq, Hs. revert s Hs.
    eapply (ensures_loosen (broken p (r + x + (limit - (position + x))))); [intros ??; by replace (r + x + (limit - (position + x))) with (r + (limit - position)) by lia|].
    eapply ensures_weaken; [apply (IH (r + x) (position + x) (n - x)); [lia|lia|]|done|].
    + intros ds rest ->. replace (p + (r + x)) with (p + r + x) by lia.
      apply (begins_app F (p + r) n c.(dc_data)); [lia|]. apply (Hb (c :: ds) rest eq_refl).
    + intros q s [Hq' Hs]. split; [lia|]. by replace (r + (q - position)) with (r + x + (q - (position + x))) by lia.
Qed.
Lemma read_stream_reads p r b g l rq : start ≤ p → 0 ≤ r → rq.(gb_snapshot) = sn → rq.(gb_block) = b →
  rq.(gb_offset) = Some g.(bg_offset) → rq.(gb_length) = Some g.(bg_length) → 0 ≤ g.(bg_length) →
  b.(br_block_index) * bs + g.(bg_offset) = p + r →
  ensures (broken p (r + g.(bg_length))) w (into p r) (read_stream_of h b g l rq) (λ _, into p (r + g.(bg_length))).
Proof using Hw Hstart.
  intros Hp Hr Hsn Hb Ho Hn Hl Hpos. set (L := g.(bg_length)) in *.
  assert (∀ q x s, r ≤ q ≤ r + L → into p q s → broken p (r + L) x s) as HI by (intros q x s ? Hs; exists q; split; [lia|done]).
  assert (∀ x s, into p r s → broken p (r + L) x s) as HI0 by (intros x s; apply HI; lia).
  unfold read_stream_of.
  eapply ensures_bind; [by apply into_renewed|intros x]. apply ensures_pure. intros _.
  eapply ensures_bind; [apply into_kept; [solve_preserves|done]|intros ?].
  eapply (ensures_bind _ _ _ _ _ (λ st s, into p r s ∧ ∀ hd frames, st.(rd_frames) = FHeader hd :: frames →
    ∀ ds rest, frames = map FChunk ds ++ rest → begins (payload ds) (slice F (p + r) L))).
  { intros s Hs. pose proof (into_kept (broken p (r + L)) p r (get_block (bl_client_endpoint l) rq) ltac:(solve_preserves) HI0 s Hs) as Hk.
    destruct (get_block _ _ w s) as [[st|x'] s'] eqn:E; [|exact Hk]. split; [exact Hk|].
    unfold get_block in E. apply pm_bind_Ok in E as (token & s1 & _ & (_ & -> & _)%query_Ok).
    intros hd frames Hf ds rest Hds. pose proof (honest_node _ _ _ _ _ _ _ _ Hsn Hf Hds) as Hbeg.
    rewrite Ho, Hn, Hb in Hbeg. cbn [default from_option id] in Hbeg. fold L in Hbeg. by rewrite Hpos in Hbeg. }
  intros st. apply ensures_pure. intros Hst.
  destruct (rd_frames st) as [|[hd|c|] frames]; try (apply ensures_fail; apply HI0).
  { eapply ensures_bind; [apply into_kept; [solve_preserves|done]|intros ?]. apply ensures_fail; apply HI0. }
  eapply ensures_bind; [apply into_kept; [solve_preserves|done]|intros ?].
  eapply ensures_bind; [eapply ensures_loosen; [|apply (relayed _ p L frames Hp r 0 L); [done|lia|by eapply Hst]]|].
  { intros x' s. by replace (r + (L - 0)) with (r + L) by lia. }
  intros q s [Hq Hs]. revert s Hs. replace (r + (q - 0)) with (r + q) by lia.
  change (ensures (broken p (r + L)) w (into p (r + q)) (stream_end st;; demand (q =? L) DATA_LOSS) (λ _, into p (r + L))).
  assert (∀ x s, into p (r + q) s → broken p (r + L) x s) as HIq by (intros x' s; apply HI; lia).
  eapply ensures_bind; [apply into_kept; [solve_preserves|done]|intros ?].
  eapply ensures_weaken; [by apply ensures_demand|done|]. intros u s [Hs Hq']. bsimpl. by rewrite Hq' in Hs.
Qed.

(** ** One block *)
(** A call that returns was answered. *)
Lemma call_prepared_answered rq n : ∀ (s : client) r s', call_prepared rq n w s = (Ok r, s') →
  ∃ i token, w.(v_control) i token rq = Ok r.
Proof.
  assert (∀ (s : client) r s', attempt rq w s = (Ok r, s') → ∃ i token, w.(v_control) i token rq = Ok r) as Ha.
  { intros s r s' E. unfold attempt in E. prun. apply call_Ok in H6 as (_ & E & _). by eexists _, _. }
  induction n as [|n IH]; intros s r s' E; cbn [call_prepared] in E; unfold try_except in E;
    destruct (attempt rq w s) as [[a|[]] s1] eqn:Ea; simplify_eq; try (by eapply Ha); try done.
  unfold mbind, pm_bind in E. cbn [asks] in E. destruct (recoverable _ _); [|done].
  destruct (tick w s1) as [[]]; [by eapply IH|done].
Qed.
Lemma call_answered b (s : client) r s' : call b w s = (Ok r, s') →
  ∃ i token rq, rq.(rq_body) = b ∧ w.(v_control) i token rq = Ok r.
Proof.
  intros E. unfold call, call_retrying, prepare in E. prun.
  match goal with E : call_prepared _ _ _ _ = _ |- _ => apply call_prepared_answered in E as (i & token & Hans) end.
  eexists i, token, _. by split; [|exact Hans].
Qed.
Lemma blocks_answered (I : failure → client → Prop) (P : client → Prop) b :
  (∀ s s', apart s s' → P s → P s') → (∀ x s, P s → I x s) →
  ensures I w P (typed as_blocks (call b)) (λ plan s, P s ∧ honest_plan b plan).
Proof using Hw.
  intros HP HI s Hs.
  pose proof (ensures_kept I w apart P (typed as_blocks (call b)) ltac:(solve_preserves) HP HI s Hs) as Hk.
  destruct (typed _ _ w s) as [[plan|x] s'] eqn:E; [|exact Hk]. split; [exact Hk|].
  unfold typed in E. apply pm_bind_Ok in E as (r & s1 & (i & token & rq & <- & Hc)%call_answered & E).
  destruct r; try done. apply pm_ret_Ok in E as [-> _]. eapply honest_control. exact Hc.
Qed.
(** A grant for the rest of a part of which [r] bytes are there. *)
Definition for_rest (p L : Z) (b : BlockRef) (r : Z) (g : BlockGrant) : Prop :=
  b.(br_block_index) * bs + g.(bg_offset) = p + r ∧ g.(bg_length) = L - r.
Section Part.
Context (p L : Z) (b : BlockRef).
Hypothesis Hp : start ≤ p.
Hypothesis Hend : p + L ≤ slen F.
Hypothesis Hfits : p + L ≤ (b.(br_block_index) + 1) * bs.
Lemma rest_found eo read_id r : 0 ≤ r < L → b.(br_block_index) * bs + eo = p →
  ensures (broken p L) w (into p r) (rest_of_block h b eo L r read_id)
    (λ a s, into p r s ∧ a.(pb_block) = b ∧ ∀ g, g ∈ a.(pb_grants) → for_rest p L b r g).
Proof using Hw Hend Hfits Hstart.
  intros Hr Ho. assert (∀ x s, into p r s → broken p L x s) as HI by (intros; apply (into_broken _ _ r); [lia|done]).
  unfold rest_of_block.
  eapply ensures_bind; [by apply into_renewed|intros x]. apply ensures_pure. intros Hx. rewrite Hx.
  eapply ensures_bind; [apply blocks_answered; [apply into_apart|done]|intros plan]. apply ensures_pure.
  cbn [honest_plan page_one pg_cursor empty]. intros Hplan. specialize (Hplan eq_refl). cbv zeta in Hplan.
  change (empty "") with true in Hplan. cbv iota in Hplan.
  rewrite Ho in Hplan. destruct (bp_blocks plan) as [|a [|]]; try (apply ensures_fail; apply HI).
  eapply ensures_bind; [by apply ensures_demand|intros ?]. apply ensures_pure. intros Ha. bsimpl.
  apply ensures_ret. intros s Hs. split_and!; [done|done|]. intros g Hg.
  cbn [tiles] in Hplan. destruct Hplan as (_ & _ & Hgr & _). destruct (Hgr g Hg) as [Hg1 Hg2]. rewrite Ha in Hg1, Hg2.
  split; lia.
Qed.
Lemma got_received (I : failure → client → Prop) r :
  ensures I w (into p r) (gets cl_received) (λ x s, into p r s ∧ x = r).
Proof. intros s Hs. split; [exact Hs|exact (proj1 (proj2 Hs))]. Qed.
(** The next round has the rest before it, whichever node it asks. *)
Definition onward (t : PlannedBlock * BlockGrant * nat * list string) (s : client) : Prop :=
  ∃ r, 0 ≤ r ≤ L ∧ into p r s ∧ t.1.1.1.(pb_block) = b ∧ (r < L → for_rest p L b r t.1.1.2).
Lemma rest_read fuel eo read_id : b.(br_block_index) * bs + eo = p → ∀ r a g attempts failed,
  0 ≤ r ≤ L → a.(pb_block) = b → (r < L → for_rest p L b r g) →
  ensures (broken p L) w (into p r) (read_block_from fuel h read_id a g eo L attempts failed) (λ _, into p L).
Proof using Hw Hend Hfits Hp Hstart.
  intros Ho. induction fuel as [|fuel IH]; intros r a g attempts failed Hr Ha Hg; cbn [read_block_from].
  all: assert (∀ x s, into p r s → broken p L x s) as HI by (intros; by apply (into_broken _ _ r)).
  all: eapply ensures_bind; [apply got_received|intros ?]; apply ensures_pure; intros ->.
  all: destruct (L <=? r) eqn:E; bsimpl; [assert (r = L) as -> by lia; by apply ensures_ret|].
  { apply ensures_fail; apply HI. }
  destruct (Hg E) as [Hg1 Hg2]. rewrite Ha.
  destruct (location_of a _) as [l|]; [|apply ensures_fail; apply HI].
  eapply ensures_bind; [by apply into_renewed|intros x]. apply ensures_pure. intros Hx.
  eapply (ensures_bind _ _ _ _ _ (λ rq s, into p r s ∧ rq.(gb_snapshot) = sn ∧ rq.(gb_block) = b
    ∧ rq.(gb_offset) = Some g.(bg_offset) ∧ rq.(gb_length) = Some g.(bg_length))).
  { unfold prepare_get. eapply ensures_bind; [apply into_kept; [solve_preserves|done]|intros c]. by apply ensures_ret. }
  intros rq. apply ensures_pure. intros (Hq1 & Hq2 & Hq3 & Hq4).
  eapply (ensures_bind _ _ _ _ _ onward).
  2:{ intros [[[a' g'] k'] f'] s (r' & Hr' & Hs & Ha' & Hg'). exact (IH r' a' g' k' f' Hr' Ha' Hg' s Hs). }
  apply ensures_except.
  - eapply (ensures_bind _ _ _ _ _ (λ _, into p L)).
    + replace L with (r + bg_length g) by lia. apply read_stream_reads; try done; lia.
    + intros ?. apply ensures_ret. intros s Hs. exists L. split_and!; [lia|lia|done|done|lia].
  - intros y _ s (r' & Hr' & Hs). revert s Hs. 
    match goal with |- ∀ s, _ → match ?m w s with _ => _ end => change (ensures (broken p L) w (into p r') m onward) end.
    assert (∀ x s, into p r' s → broken p L x s) as HI' by (intros; by apply (into_broken _ _ r')).
    destruct y as [|e|]; try (apply ensures_fail; apply HI').
    eapply ensures_bind; [apply got_received|intros ?]. apply ensures_pure. intros ->.
    destruct (_ || _) eqn:E'; [apply ensures_fail; apply HI'|]. bsimpl.
    eapply ensures_bind; [apply rest_found; [lia|done]|intros a'].
    apply ensures_pure. intros [Ha' Hgr]. destruct (grant_outside _ _) as [g'|] eqn:Eg; [|apply ensures_fail; apply HI'].
    apply ensures_ret. intros s Hs. exists r'. split_and!; [lia|lia|done|done|]. intros _. apply Hgr.
    apply List.find_some in Eg as [Eg _]. by apply list_elem_of_In.
Qed.
End Part.

(** ** The range *)
Section Range.
Context (length : Z).
Abbreviation e := (Z.min (start + length) (slen F)).
Definition partial (x : failure) (s : client) : Prop := ∃ m, 0 ≤ m ≤ Z.max start e - start ∧ handed m s.
Lemma handed_partial pos x s : start ≤ pos ≤ Z.max start e → handed (pos - start) s → partial x s.
Proof. intros. exists (pos - start). split; [lia|done]. Qed.
Lemma allocation_read read_id a pos next :
  start ≤ pos < next → next = Z.min e ((a.(pb_block).(br_block_index) + 1) * bs) →
  (∀ g, g ∈ a.(pb_grants) → a.(pb_block).(br_block_index) * bs + g.(bg_offset) = pos ∧ g.(bg_length) = next - pos) →
  ensures partial w (handed (pos - start)) (read_allocation h read_id a) (λ _, handed (next - start)).
Proof using Hw Hstart.
  intros Hpos Hnext Hgr. assert (∀ x s, handed (pos - start) s → partial x s) as HI by (intros; by apply (handed_partial pos); [lia|]).
  assert (∀ x s, handed (next - start) s → partial x s) as HI' by (intros; by apply (handed_partial next); [lia|]).
  unfold read_allocation. destruct (pb_grants a) as [|g gs] eqn:Eg; [apply ensures_fail; apply HI|].
  destruct (Hgr g) as [Hg1 Hg2]; [constructor|].
  eapply (ensures_bind _ _ _ _ _ (λ _, into pos 0)).
  { apply ensures_sets. intros s [Hok Hys]. split; [|split; [done|by rewrite slice_none]].
    rewrite Z.add_0_r. split; [exact Hok|exact Hys]. }
  intros ?. eapply ensures_bind; [apply ensures_asks|intros fuel]. apply ensures_pure. intros ->.
  eapply ensures_bind.
  - eapply ensures_loosen; [|apply (rest_read pos g.(bg_length) a.(pb_block)); try lia; done || (intros _; split; lia)].
    intros x s (r & Hr & Hs & _). exists (pos - start + r). split; [lia|exact Hs].
  - intros ?. eapply (ensures_bind _ _ _ _ _ (λ _, handed (next - start))).
    { intros s [Hs _]. by replace (next - start) with (pos - start + bg_length g) by lia. }
    intros text. apply handed_kept; [solve_preserves|exact HI'].
Qed.
Lemma tiles_read read_id l : ∀ pos stop, start ≤ pos ≤ Z.max start e → tiles e pos l stop →
  ensures partial w (handed (pos - start)) (each l (read_allocation h read_id))
    (λ _ s, handed (stop - start) s ∧ start ≤ stop ≤ Z.max start e).
Proof using Hw Hstart.
  induction l as [|a l IH]; intros pos stop Hpos Ht; cbn [each tiles] in *.
  - subst. by apply ensures_ret.
  - destruct Ht as (Hlt & _ & Hgr & Ht).
    eapply ensures_bind; [eapply allocation_read; [|reflexivity|exact Hgr]; lia|intros ?]. apply IH; [lia|done].
Qed.
Lemma pages_read fuel read_id : ∀ cursor pos, start ≤ pos ≤ Z.max start e →
  pos = (if empty cursor then start else place cursor) →
  ensures partial w (handed (pos - start)) (read_pages fuel h start length read_id cursor)
    (λ _, handed (Z.max start e - start)).
Proof using Hw Hstart.
  induction fuel as [|fuel IH]; intros cursor pos Hpos Hc; cbn [read_pages].
  all: assert (∀ x s, handed (pos - start) s → partial x s) as HI by (intros; by apply (handed_partial pos)).
  { apply ensures_fail; apply HI. }
  eapply ensures_bind; [by apply handed_renewed|intros x]. apply ensures_pure. intros Hx. rewrite Hx.
  eapply ensures_bind; [apply blocks_answered; [apply handed_apart|done]|intros plan]. apply ensures_pure.
  cbn [honest_plan pg_cursor]. intros Hplan. specialize (Hplan eq_refl). cbv zeta in Hplan. rewrite <- Hc in Hplan.
  eapply ensures_bind; [by apply handed_renewed|intros x']. apply ensures_pure. intros _.
  eapply ensures_bind; [apply handed_kept; [solve_preserves|done]|intros ?].
  eapply ensures_bind; [by apply (tiles_read _ _ _ _ Hpos Hplan)|intros ?].
  destruct (empty (bp_next_cursor plan)) eqn:En.
  - apply ensures_pure. intros _. by apply ensures_ret.
  - apply ensures_pure. intros Hstop. apply IH; [done|by rewrite En].
Qed.
Lemma range_read : ensures partial w (handed 0) (iter_read h start length) (λ _, handed (Z.max start e - start)).
Proof using Hw Hstart.
  assert (∀ x s, handed 0 s → partial x s) as HI by (intros x s Hs; exists 0; split; [lia|done]).
  assert (∀ x s, handed (Z.max start e - start) s → partial x s) as HI' by (intros x s Hs; eexists; split; [|exact Hs]; lia).
  unfold iter_read.
  eapply ensures_bind; [apply handed_kept; [unfold checked; solve_preserves|done]|intros ?].
  eapply ensures_bind; [apply handed_kept; [solve_preserves|done]|intros x].
  eapply ensures_bind; [apply handed_kept; [solve_preserves|done]|intros lease].
  eapply (ensures_finally _ _ _ _ _ (λ _, handed (Z.max start e - start))).
  - eapply ensures_bind; [apply handed_kept; [unfold checked; solve_preserves|done]|intros ?].
    eapply ensures_bind; [apply ensures_asks|intros fuel]. apply ensures_pure. intros ->.
    unfold keepalive. eapply (ensures_bind _ _ _ _ _ (λ _, handed (Z.max start e - start))).
    + replace 0 with (start - start) at 1 by lia. apply pages_read; [lia|done].
    + intros u. eapply ensures_bind; [apply handed_kept; [solve_preserves|exact HI']|intros f].
      destruct f; [apply ensures_fail; apply HI'|by apply ensures_ret].
  - intros ?. apply handed_kept; [solve_preserves|done].
  - intros y _ s (m & Hm & Hs).
    assert (ensures partial w (handed m) (x0 ← handle_at h; _ ← call (EndRead (hm_handle_id x0) (rl_read_id lease)); mret tt)
      (λ _, partial y)) as He; [|by apply He].
    eapply ensures_weaken; [apply handed_kept; [solve_preserves|]|done|]; intros; by exists m.
Qed.
End Range.
End Honest.

Section Reads.
Context `{Hash, Unicode, Wire, ReadWire}.
Lemma checked_ok offset length maximum (w : client_env) (s : client) r s' : checked offset length maximum w s = (r, s') →
  s' = s ∧ (∀ x, r = Ok x → 0 ≤ offset).
Proof.
  unfold checked, of_result. destruct (checked_range _ _ _ _ _) as [[x u]|x] eqn:E; cbn; intros [= <- <-]; split; try done.
  intros y _. unfold checked_range, need in E. destruct (_ && _) eqn:Eb; [|done]. bsimpl. lia.
Qed.
Lemma slice_max F start e : slice F start (Z.max start e - start) = slice F start (e - start).
Proof. unfold slice. f_equal. lia. Qed.
(** C25: A read hands on the bytes of the file, in order, once, and no others.  With
    nodes that may break off anywhere, a control that plans the blocks of a
    range, and retries on other nodes in between: when [read] returns, it
    returns the bytes of the range that the file has; and however it ends, also
    when it fails in the middle of a block, what the consumer of the generator
    got is the beginning of these, without a gap or a repetition where a
    stream was resumed. *)
Theorem read_resumes_exactly w sn F place h offset length s r s' : Honest w sn F place → handle_ok h sn s →
  read h offset length w s = (r, s') →
  let n := Z.min (offset + length) (slen F) - offset in
  (∀ text, r = Ok text → text = slice F offset n)
  ∧ ∃ ys m, s'.(cl_yielded) = s.(cl_yielded) ++ ys ∧ cat ys = slice F offset m ∧ m ≤ Z.max 0 n.
Proof.
  intros Hw Hok E n. unfold read in E.
  assert (s' = s → ∃ ys m, s'.(cl_yielded) = s.(cl_yielded) ++ ys ∧ cat ys = slice F offset m ∧ m ≤ Z.max 0 n) as Hnone.
  { intros ->. exists [], 0. split_and!; [by rewrite app_nil_r|by rewrite slice_none|lia]. }
  unfold mbind at 1, pm_bind at 1 in E. destruct (checked _ _ _ w s) as [[x|x] s0] eqn:Ec; apply checked_ok in Ec as [-> Ho].
  2:{ injection E as <- <-. split; [done|by apply Hnone]. }
  specialize (Ho x eq_refl). rewrite (pm_bind_run (a := s.(cl_yielded)) (s1 := s)) in E by done.
  assert (handed sn F h s.(cl_yielded) offset 0 s) as Hs.
  { split; [done|]. exists []. split; [by rewrite app_nil_r|by rewrite slice_none]. }
  pose proof (range_read w sn F place h s.(cl_yielded) offset Ho length s Hs) as Hr.
  unfold mbind at 1, pm_bind at 1 in E. destruct (iter_read _ _ _ w s) as [[u|y] s1].
  - destruct Hr as [_ (ys & Hys & Hcat)]. cbn in E. injection E as <- <-. rewrite slice_max in Hcat. split.
    + intros text [= <-]. by rewrite Hys, drop_app_length.
    + exists ys, n. split_and!; [done|done|lia].
  - injection E as <- <-. destruct Hr as (m & Hm & _ & ys & Hys & Hcat). split; [done|].
    exists ys, m. split_and!; [done|done|lia].
Qed.
End Reads.
