(* ===== verification/Etcd.v ===== *)
(** * Content-addressed units of work ([control/etcd_metadata.py])

    The replicated control keeps the tables as pages of etcd named by their
    digest: an object is a tree of pages, a bucket maps identities to objects, a
    root maps kinds and shards to buckets.  A unit of work overlays its writes
    on the root it read, and publishes new pages and one new root.  Etcd itself
    is a map from keys to values; what a linearizable read returns is an argument. *)
From Stdlib Require String.
From S2P Require Import Prelude Domain Data Store Auth Protected.

(** [encode] and [json.loads] on the values the store keeps: [json.dumps] with
    sorted keys writes a dictionary whatever its order, [json.loads] reads it back. *)
Class Codec (A : Type) := {
  encode : A → string;
  decode : string → option A;
  decode_encode a : decode (encode a) = Some a;
}.

Definition PAGE_BYTES : nat := Z.to_nat 131072.
Lemma PAGE_BYTES_pos : (0 < PAGE_BYTES)%nat.
Proof. unfold PAGE_BYTES. lia. Qed.
#[global] Opaque PAGE_BYTES.
Definition UNIT_BYTES : Z := 16 * 1048576.
Definition MAX_GUARDS : Z := 48.

(** A stored value: its identity, the fields the unit of work reads or sets, and
    the rest of the dictionary.  Times are in milliseconds. *)
Record document := mkDocument {
  d_id : string; d_closed : bool; d_revoked : bool; d_alive : bool; d_parent : option string;
  d_name : string; d_whole : bool; d_automatic : bool; d_expires : Z; d_deadline : option Z;
  d_lease : option (string * string * Z);   (* lease_key, lease_owner, lease *)
  d_rest : string }.
#[export] Instance eta_document : Eta document := λ r,
  mkDocument r.(d_id) r.(d_closed) r.(d_revoked) r.(d_alive) r.(d_parent) r.(d_name) r.(d_whole)
    r.(d_automatic) r.(d_expires) r.(d_deadline) r.(d_lease) r.(d_rest).
Definition named_le (p q : document) : Prop := String.le p.(d_name) q.(d_name).
#[export] Instance named_le_dec : RelDecision named_le.
Proof. intros p q. unfold named_le. apply _. Defined.

(** A queued change of a lease key: bound to a lease of some length, or deleted. *)
Inductive effect := PutLease (owner : string) (lease ttl : Z) | DeleteLease.

(** What a unit of work is given: whether it may write, the time, the addresses
    of pages, a linearizable read of the lease keys, the outcome of a keepalive,
    the granted lease identities and the [uuid4] it draws. *)
Record unit_env := mkUnitEnv {
  x_write : bool; x_now : Z; x_unavailable_ms : Z; x_prefix : string;
  x_address : string → string;
  x_lease_value : string → option string;
  x_keepalive : Z → option reason;
  x_grant : nat → Z; x_uuid : nat → string }.

Abbreviation root := (gmap string (gmap string string)).
Abbreviation bucket_key := (string * string)%type.

(** The store's cache and persisted pages, and the [EtcdUnit] on top. *)
Record unit_state := mkUnit {
  u_cache : list (string * string); u_kv : gmap string string;
  u_pages : list (string * string);
  u_root : root; u_buckets : gmap bucket_key (gmap string string);
  u_pending : gmap (string * string) (option document);
  u_effects : gmap string effect; u_guards : gmap string string;
  u_lease_reads : gmap string (option string); u_draws : nat }.
#[export] Instance eta_unit : Eta unit_state := λ r,
  mkUnit r.(u_cache) r.(u_kv) r.(u_pages) r.(u_root) r.(u_buckets) r.(u_pending) r.(u_effects)
    r.(u_guards) r.(u_lease_reads) r.(u_draws).

Abbreviation U := (SM unit_env unit_state exn).

(** ** Pages *)
Definition sizes (ps : list (string * string)) : Z := foldr (λ p n, slen p.2 + n) 0 ps.

(** [cache_put]: the entry becomes the newest; the oldest leave while the cache
    is too large. *)
Definition drop_key (k : string) (l : list (string * string)) : list (string * string) :=
  List.filter (λ p, negb (bool_decide (p.1 = k))) l.
Fixpoint evict (l : list (string * string)) : list (string * string) :=
  match l with
  | [] => []
  | _ :: l' => if UNIT_BYTES <? sizes l then evict l' else l
  end.
Definition cache_put (digest payload : string) : U unit :=
  modify (λ u, u <| u_cache ::= λ c, evict (drop_key digest c ++ [(digest, payload)]) |>).

(** [page] inside a unit that writes. *)
Definition page (payload : string) : U string :=
  e ← ask;
  need (slen payload <=? Z.of_nat PAGE_BYTES + 1) LIMIT_EXCEEDED;;
  let digest := e.(x_address) payload in
  u ← get_st;
  match dget digest u.(u_cache) with
  | Some _ => mret digest
  | None =>
      modify (λ u, u <| u_pages ::= dset digest payload |>);;
      u ← get_st;
      need (sizes u.(u_pages) <=? UNIT_BYTES) LIMIT_EXCEEDED;;
      mret digest
  end.

(** [persist_pages]: at most 32 pages or 512 KiB per batch; each is a transaction
    of etcd, cached once it answered. *)
Fixpoint batches (ps batch : list (string * string)) (size : Z) : list (list (string * string)) :=
  match ps with
  | [] => match batch with [] => [] | _ => [batch] end
  | p :: ps =>
      if (32 <=? Z.of_nat (length batch)) || (524288 <? size + slen p.2)
      then match batch with [] => [] | _ => [batch] end ++ batches ps [p] (slen p.2)
      else batches ps (batch ++ [p]) (size + slen p.2)
  end.
Definition persist_batch (batch : list (string * string)) : U unit :=
  for_each batch (λ p, modify (λ u, u <| u_kv ::= <[p.1 := p.2]> |>));;
  for_each batch (λ p, cache_put p.1 p.2).
Definition persist_pages : U unit :=
  u ← get_st;
  for_each (batches u.(u_pages) [] 0) persist_batch.

(** ** Objects as trees of pages *)
Fixpoint pieces (fuel : nat) (s : string) : list string :=
  match fuel with
  | O => []
  | S fuel =>
      if empty s then [] else String.substring 0 PAGE_BYTES s :: pieces fuel (from PAGE_BYTES s)
  end.
Fixpoint groups {A} (fuel : nat) (l : list A) : list (list A) :=
  match fuel with
  | O => []
  | S fuel => match l with [] => [] | _ => take 64 l :: groups fuel (drop 64 l) end
  end.

Section Objects.
Context `{Codec (list string)}.

Definition index_page (digests : list string) : U string := page ("I" +:+ encode digests).
(** The loop of [blob]: 64 pages make one until 64 are left. *)
Fixpoint collapse (fuel : nat) (children : list string) : U (list string) :=
  if Nat.leb (length children) 64 then mret children
  else match fuel with
  | O => mret children
  | S fuel =>
      next ← for_map (groups (length children) children) index_page;
      collapse fuel next
  end.
Definition blob (payload : string) : U string :=
  if Nat.leb (String.length payload) PAGE_BYTES then page ("L" +:+ payload)
  else
    children ← for_map (pieces (String.length payload) payload) (λ p, page ("L" +:+ p));
    top ← collapse (length children) children;
    index_page top.

(** [read_blob], to a depth of the tree. *)
Fixpoint joined (parts : list string) : string :=
  match parts with [] => "" | p :: ps => p +:+ joined ps end.
Definition read_page (digest : string) : U string :=
  e ← ask;
  u ← get_st;
  match dget digest u.(u_cache) with
  | Some payload => mret payload
  | None =>
      payload ← need_some (u.(u_kv) !! digest) DATA_LOSS;
      need (bool_decide (e.(x_address) payload = digest)) DATA_LOSS;;
      cache_put digest payload;;
      mret payload
  end.
Fixpoint read_blob (depth : nat) (digest : string) : U string :=
  match depth with
  | O => raise PyError
  | S depth =>
      payload ← read_page digest;
      match payload with
      | String c rest =>
          if decide (c = "L"%char) then mret rest
          else if decide (c = "I"%char) then
            digests ← some_or_crash (decode rest);
            joined <$> for_map digests (read_blob depth)
          else raise (Fault DATA_LOSS)
      | EmptyString => raise (Fault DATA_LOSS)
      end
  end.
Definition object {A} `{Codec A} (depth : nat) (digest : string) : U A :=
  text ← read_blob depth digest;
  some_or_crash (decode text).
End Objects.

(** ** [EtcdUnit] *)
Section Unit.
Context `{Hash, Codec (list string), Codec document, Codec (gmap string string), Codec root}.
(** How deep a tree of pages is read. *)
Variable depth : nat.

Definition shard (identity : string) : string := String.substring 0 2 (hex (sha256 identity)).

(** [EtcdUnit(store, root)]. *)
Definition open_unit (root_digest : option string) : U unit :=
  r ← match root_digest with Some d => object depth d | None => mret ∅ end;
  modify (λ u, u <| u_root := r |> <| u_buckets := ∅ |> <| u_pending := ∅ |> <| u_effects := ∅ |>
                 <| u_guards := ∅ |> <| u_lease_reads := ∅ |> <| u_pages := [] |>).

Definition load_bucket (key : bucket_key) (digest : option string) : U (gmap string string) :=
  u ← get_st;
  match u.(u_buckets) !! key with
  | Some b => mret b
  | None =>
      b ← match digest with Some d => object depth d | None => mret ∅ end;
      modify (λ u, u <| u_buckets ::= <[key := b]> |>);;
      mret b
  end.
Definition shards (r : root) (kind : string) : gmap string string := default ∅ (r !! kind).
Definition unit_bucket (kind identity : string) : U (gmap string string) :=
  u ← get_st;
  load_bucket (kind, shard identity) (shards u.(u_root) kind !! shard identity).

Definition unit_get (kind identity : string) : U (option document) :=
  u ← get_st;
  match u.(u_pending) !! (kind, identity) with
  | Some v => mret v
  | None =>
      b ← unit_bucket kind identity;
      match b !! identity with
      | Some d => Some <$> object depth d
      | None => mret None
      end
  end.

Definition pending_ids (kind : string) (u : unit_state) : gset string :=
  list_to_set (omap (λ p : string * string * option document,
    if decide (p.1.1 = kind) then Some p.1.2 else None) (map_to_list u.(u_pending))).
Definition unit_all (kind : string) : U (list document) :=
  u ← get_st;
  bs ← for_map (map_to_list (shards u.(u_root) kind)) (λ p, load_bucket (kind, p.1) (Some p.2));
  u ← get_st;
  let ids := foldr (λ b s, dom b ∪ s) (pending_ids kind u) bs in
  vs ← for_map (merge_sort String.le (elements ids)) (unit_get kind);
  mret (omap id vs).
Definition unit_children (parent : string) : U (list document) :=
  ns ← unit_all "node";
  mret (merge_sort named_le
    (List.filter (λ n, n.(d_alive) && bool_decide (n.(d_parent) = Some parent)) ns)).

(** [lease_live]: an effect of this unit decides; otherwise one read per unit,
    which becomes a guard of its publication. *)
Definition unit_lease_live (v : document) : U bool :=
  e ← ask;
  match v.(d_lease) with
  | None => mret false
  | Some (key, owner, _) =>
      u ← get_st;
      match u.(u_effects) !! key with
      | Some (PutLease o _ _) => mret (bool_decide (o = owner))
      | _ =>
          let value := default (e.(x_lease_value) key) (u.(u_lease_reads) !! key) in
          modify (λ u, u <| u_lease_reads ::= <[key := value]> |>);;
          if bool_decide (value = Some owner) then
            modify (λ u, u <| u_guards ::= <[key := owner]> |>);;
            mret true
          else mret false
      end
  end.

Definition leased (kind : string) : bool :=
  bool_decide (kind ∈ ["lock"; "handle"; "datanode"; "session"]).
Definition lease_key (prefix kind identity : string) : string :=
  prefix +:+ "leases/" +:+ kind +:+ "/" +:+ identity.
Definition lease_ttl (kind : string) (v : document) (deadline time : Z) : Z :=
  if bool_decide (kind = "lock") && v.(d_whole) && v.(d_automatic) then 300000 else Z.max 1000 (deadline - time).
Definition draw : U nat := u ← get_st; modify (λ u, u <| u_draws ::= S |>);; mret u.(u_draws).

(** The deadline a stored session or data node gets, and the dead lease a data
    node drops. *)
Definition stamp (kind : string) (v : document) : U document :=
  e ← ask;
  let v := if decide (kind = "session") then v <| d_deadline := Some v.(d_expires) |> else v in
  if decide (kind = "datanode") then
    let v := v <| d_deadline := Some (e.(x_now) + e.(x_unavailable_ms)) |> in
    live ← unit_lease_live v;
    mret (if live : bool then v else v <| d_lease := None |>)
  else mret v.
Definition new_lease (kind : string) (v : document) : U document :=
  e ← ask;
  deadline ← (if bool_decide (kind = "lock") && v.(d_whole) && v.(d_automatic) then mret 0
              else some_or_crash v.(d_deadline));
  i ← draw; j ← draw;
  let ttl := lease_ttl kind v deadline e.(x_now) in
  let key := lease_key e.(x_prefix) kind v.(d_id) in
  let owner := e.(x_uuid) j in
  let lease := e.(x_grant) i in
  modify (λ u, u <| u_effects ::= <[key := PutLease owner lease ttl]> |>);;
  mret (v <| d_lease := Some (key, owner, lease) |>).
Definition extend_lease (v : document) (previous : option document) : U document :=
  e ← ask;
  match previous, v.(d_lease) with
  | Some p, Some (_, _, lease) =>
      if default 0 p.(d_deadline) <? default 0 v.(d_deadline) then
        live ← unit_lease_live v;
        need live LOCK_EXPIRED;;
        match e.(x_keepalive) lease with Some r => raise (Fault r) | None => mret v end
      else mret v
  | _, _ => mret v
  end.
Definition unit_put (kind : string) (v : document) : U unit :=
  e ← ask;
  need e.(x_write) PERMISSION_DENIED;;
  v ← (if leased kind && negb v.(d_closed) && negb v.(d_revoked) then
         previous ← unit_get kind v.(d_id);
         v ← stamp kind v;
         match v.(d_lease) with
         | None => new_lease kind v
         | Some _ => extend_lease v previous
         end
       else mret v);
  modify (λ u, u <| u_pending ::= <[(kind, v.(d_id)) := Some v]> |>).
Definition unit_delete (kind identity : string) : U unit :=
  e ← ask;
  need e.(x_write) PERMISSION_DENIED;;
  previous ← unit_get kind identity;
  (match previous ≫= d_lease with
   | Some (key, _, _) => modify (λ u, u <| u_effects ::= <[key := DeleteLease]> |>)
   | None => mret tt
   end);;
  modify (λ u, u <| u_pending ::= <[(kind, identity) := None]> |>).

(** [flush]: the pages of the changed objects, buckets and root. *)
Definition flush_object (p : string * string * option document) : U (option bucket_key) :=
  let '(kind, identity, value) := p in
  b ← unit_bucket kind identity;
  digest ← match value with Some v => Some <$> blob (encode v) | None => mret None end;
  if decide (b !! identity = digest) then mret None
  else
    let b := match digest with Some d => <[identity := d]> b | None => delete identity b end in
    modify (λ u, u <| u_buckets ::= <[(kind, shard identity) := b]> |>);;
    mret (Some (kind, shard identity)).
Definition flush_bucket (key : bucket_key) : U unit :=
  u ← get_st;
  b ← some_or_crash (u.(u_buckets) !! key);
  d ← blob (encode b);
  modify (λ u, u <| u_root ::= λ r, <[key.1 := <[key.2 := d]> (shards r key.1)]> r |>).
Definition flush : U string :=
  u ← get_st;
  changed ← for_map (map_to_list u.(u_pending)) flush_object;
  for_each (elements (list_to_set (omap id changed) : gset bucket_key)) flush_bucket;;
  u ← get_st;
  blob (encode u.(u_root)).
End Unit.
