(* ===== verification/Lab.v ===== *)
(** * Concrete instances of the interfaces

    A toy version of each third-party interface.  The witnesses of the theorems
    evaluate the definitions with them, which also shows that the laws each
    interface states can hold together. *)
From Stdlib Require String.
From S2P Require Import Prelude Domain Data Store Auth Leases Cluster Placement Requests Queries Commands Access Protection Service Nodes Protected Blocks Etcd.

Module Lab.
(** The first 32 bytes of a text, filled with zeros. *)
Fixpoint pad (n : nat) (s : string) : string :=
  match n with
  | O => ""
  | S n => match s with EmptyString => String "0" (pad n "") | String c s => String c (pad n s) end
  end.
Lemma pad_length n s : String.length (pad n s) = n.
Proof. revert s. induction n as [|n IH]; intros [|c s]; simpl; by rewrite ?IH. Qed.
Lemma pad_slen n s : slen (pad n s) = Z.of_nat n.
Proof. unfold slen. by rewrite pad_length. Qed.

#[export] Instance hash : Hash :=
  {| sha256 := pad 32; hmac_sha256 k s := pad 32 (k +:+ s); sha256_length s := pad_slen 32 s |}.
#[export] Instance unicode : Unicode := {| nfc s := s; nfc_idemp s := eq_refl |}.
#[export] Instance argon2 : Argon2 :=
  {| argon2_hash salt p := salt +:+ ":" +:+ p;
     argon2_verify encoded p := String.eqb (from (String.length encoded - String.length p) encoded) p;
     argon2_verify_hash salt p := ltac:(
       apply String.eqb_eq; rewrite append_assoc, length_append;
       replace (_ + _ - _)%nat with (String.length (salt +:+ ":")) by lia; by apply from_app) |}.

(** The tag is sixteen bytes of the key, the nonce and the associated data. *)
Definition tag (k n a : string) : string := pad 16 (k +:+ n +:+ a).
Definition toy_encrypt (k n p a : string) : string := p +:+ tag k n a.
Definition toy_decrypt (k n c a : string) : option string :=
  let len := (String.length c - 16)%nat in
  if Nat.leb 16 (String.length c) && String.eqb (from len c) (tag k n a)
  then Some (String.substring 0 len c) else None.
Lemma toy_decrypt_encrypt k n p a : toy_decrypt k n (toy_encrypt k n p a) a = Some p.
Proof.
  unfold toy_decrypt, toy_encrypt, tag. rewrite length_append, pad_length.
  replace (String.length p + 16 - 16)%nat with (String.length p) by lia.
  rewrite from_app, substring_app_l by done. rewrite (proj2 (Nat.leb_le _ _)), String.eqb_refl by lia. done.
Qed.
Lemma toy_decrypt_only k n c a p : toy_decrypt k n c a = Some p → c = toy_encrypt k n p a.
Proof.
  unfold toy_decrypt, toy_encrypt. destruct (Nat.leb 16 _) eqn:Hl; [|done]. simpl.
  destruct (String.eqb_spec (from (String.length c - 16) c) (tag k n a)) as [Ht|]; [|done].
  intros [= <-]. rewrite <- Ht. apply split_at. lia.
Qed.
#[export] Instance aead : Aead :=
  {| aead_encrypt := toy_encrypt; aead_decrypt := toy_decrypt;
     aead_decrypt_encrypt := toy_decrypt_encrypt; aead_decrypt_only := toy_decrypt_only;
     aead_length k n p a := ltac:(unfold toy_encrypt, slen; rewrite length_append; unfold tag; rewrite pad_length; lia) |}.

#[export] Instance base64 : Base64 :=
  {| b64encode s := s; b64decode s := Some s; b64decode_encode s := eq_refl; b64encode_nonempty s H := H |}.
#[export] Instance key_wrap : KeyWrap :=
  {| key_wrap k d := d; key_unwrap k w := Some w; key_unwrap_wrap k d := eq_refl |}.
#[export] Instance kdf : Kdf := {| hkdf := pad 64; hkdf_length k := pad_slen 64 k |}.

(** JSON for one dictionary of texts and numbers. *)
Definition flat_eqb (p q : string * json) : bool :=
  String.eqb p.1 q.1 && match p.2, q.2 with
                        | JStr a, JStr b => String.eqb a b
                        | JNum a, JNum b => Z.eqb a b
                        | _, _ => false
                        end.
Fixpoint same (l m : list (string * json)) : bool :=
  match l, m with
  | [], [] => true
  | p :: l, q :: m => flat_eqb p q && same l m
  | _, _ => false
  end.
Lemma same_eq l m : same l m = true → l = m.
Proof.
  revert m. induction l as [|[k a] l IH]; intros [|[k' b] m]; simpl; try done. unfold flat_eqb. simpl.
  intros [[Hk%String.eqb_eq Ha]%andb_true_iff Hl]%andb_true_iff. subst. rewrite (IH m Hl). f_equal. f_equal.
  destruct a, b; try done; [apply Z.eqb_eq in Ha|apply String.eqb_eq in Ha]; by subst.
Qed.
Definition json_of (sample : list (string * json)) : Json.
  refine {| json_ok l := same l sample;
            json_loads s := if String.eqb s (canonical (JObj sample)) then Some (JObj sample) else None |}.
  abstract (intros l ->%same_eq _; rewrite String.eqb_refl; by exists sample).
Defined.
#[export] Instance json : Json := json_of [].

(** Messages: every body is its method, every receipt its identity. *)
Definition wire_serialize (r : response) : string :=
  match r with RMutation m => m.(mr_request_id) | _ => "" end.
#[export] Instance wire : Wire :=
  {| request_dict b := JStr (method_name b); request_size _ := 0; block_dict b := JStr b.(br_block_version_id);
     fence_request_dict f := JStr f.(fc_lock_id);
     representable r := match r with RMutation m => (m.(mr_revision) =? 1) | _ => false end;
     serialize := wire_serialize;
     parse t s := match t with TMutation => Some (RMutation (mkMutationResult s 1)) | _ => None end;
     parse_type t s r := match t return (match t with TMutation => Some (RMutation (mkMutationResult s 1)) | _ => None end = Some r → type_of r = t) with
       | TMutation => λ Hr, match Hr in _ = o return match o with Some r => type_of r = TMutation | None => True end with eq_refl => eq_refl end
       | _ => λ Hr, ltac:(done)
       end;
     parse_serialize r := match r return
       (match r with RMutation m => (m.(mr_revision) =? 1) | _ => false end) = true →
       match type_of r with TMutation => Some (RMutation (mkMutationResult (wire_serialize r) 1)) | _ => None end = Some r with
       | RMutation (mkMutationResult i v) => λ Hv, ltac:(simpl in *; apply Z.eqb_eq in Hv; by rewrite Hv)
       | _ => λ Hv, ltac:(done)
       end |}.
#[export] Instance node_wire : NodeWire :=
  {| heartbeat_dict h := JNum h.(hb_sequence); report_dict r := JNum r.(bk_page_index); report_size _ := 0 |}.

(** Texts in a row: every character is marked, every text ends. *)
Fixpoint enc_text (s : string) : string :=
  match s with EmptyString => ";" | String c s => String "x" (String c (enc_text s)) end.
Fixpoint enc_texts (l : list string) : string :=
  match l with [] => "" | s :: l => enc_text s +:+ enc_texts l end.
Fixpoint dec_texts (s : string) : option (list string) :=
  match s with
  | EmptyString => Some []
  | String c s =>
      if Ascii.eqb c ";" then cons "" <$> dec_texts s
      else match s with
      | String d s => dec_texts s ≫= λ l, match l with w :: l => Some (String d w :: l) | [] => None end
      | EmptyString => None
      end
  end.
Lemma dec_enc_text s t l : dec_texts t = Some l → dec_texts (enc_text s +:+ t) = Some (s :: l).
Proof. intros Ht. induction s as [|c s IH]; simpl; [by rewrite Ht|]. by rewrite IH. Qed.
Lemma dec_enc_texts l : dec_texts (enc_texts l) = Some l.
Proof. induction l as [|s l IH]; simpl; [done|by apply dec_enc_text]. Qed.
#[export] Instance texts_codec : Codec (list string) :=
  {| Etcd.encode := enc_texts; Etcd.decode := dec_texts; Etcd.decode_encode := dec_enc_texts |}.

(** A map as its keys and values in turn. *)
Fixpoint flatten {A} (l : list (A * A)) : list A := match l with [] => [] | (k, v) :: l => k :: v :: flatten l end.
Fixpoint pairs {A} (l : list A) : list (A * A) := match l with k :: v :: l => (k, v) :: pairs l | _ => [] end.
Lemma pairs_flatten {A} (l : list (A * A)) : pairs (flatten l) = l.
Proof. induction l as [|[k v] l IH]; simpl; congruence. Qed.
Definition enc_map (m : gmap string string) : string := enc_texts (flatten (map_to_list m)).
Definition dec_map (s : string) : option (gmap string string) := (λ l, list_to_map (pairs l)) <$> dec_texts s.
Lemma dec_enc_map m : dec_map (enc_map m) = Some m.
Proof. unfold dec_map, enc_map. rewrite dec_enc_texts. simpl. by rewrite pairs_flatten, list_to_map_to_list. Qed.
#[export] Instance map_codec : Codec (gmap string string) :=
  {| Etcd.encode := enc_map; Etcd.decode := dec_map; Etcd.decode_encode := dec_enc_map |}.
Definition dec_root (s : string) : option root :=
  match dec_map s with Some m => Some (omap dec_map m) | None => None end.
Lemma dec_enc_root (r : root) : dec_root (enc_map (enc_map <$> r)) = Some r.
Proof.
  unfold dec_root. rewrite dec_enc_map. simpl. f_equal. apply map_eq. intros i.
  rewrite lookup_omap, lookup_fmap. destruct (r !! i) as [m|]; [|done]. simpl. apply dec_enc_map.
Qed.
#[export] Instance root_codec : Codec root :=
  {| Etcd.encode r := enc_map (enc_map <$> r); Etcd.decode := dec_root; Etcd.decode_encode := dec_enc_root |}.

(** A document as the texts of its fields. *)
Fixpoint bits (p : positive) : string :=
  match p with xH => "" | xO p => String "0" (bits p) | xI p => String "1" (bits p) end.
Fixpoint of_bits (s : string) : positive :=
  match s with
  | EmptyString => xH
  | String c s => if Ascii.eqb c "0" then xO (of_bits s) else xI (of_bits s)
  end.
Lemma of_bits_bits p : of_bits (bits p) = p.
Proof. induction p; simpl; congruence. Qed.
Definition enc_Z (z : Z) : string := bits (countable.encode z).
Definition dec_Z (s : string) : Z := default 0 (countable.decode (of_bits s)).
Lemma dec_enc_Z z : dec_Z (enc_Z z) = z.
Proof. unfold dec_Z, enc_Z. by rewrite of_bits_bits, countable.decode_encode. Qed.
Definition enc_bool (b : bool) : string := if b then "t" else "".
Definition enc_option {A} (f : A → string) (o : option A) : string :=
  match o with Some a => String "s" (f a) | None => "" end.
Definition dec_option {A} (f : string → A) (s : string) : option A :=
  match s with EmptyString => None | String _ s => Some (f s) end.
Definition enc_lease (l : string * string * Z) : string := enc_texts [l.1.1; l.1.2; enc_Z l.2].
Definition dec_lease (s : string) : string * string * Z :=
  match dec_texts s with Some [k; o; z] => (k, o, dec_Z z) | _ => ("", "", 0) end.
Definition enc_document (d : document) : string :=
  enc_texts [d.(d_id); enc_bool d.(d_closed); enc_bool d.(d_revoked); enc_bool d.(d_alive); enc_option id d.(d_parent);
    d.(d_name); enc_bool d.(d_whole); enc_bool d.(d_automatic); enc_Z d.(d_expires); enc_option enc_Z d.(d_deadline);
    enc_option enc_lease d.(d_lease); d.(d_rest)].
Definition dec_document (s : string) : option document :=
  match dec_texts s with
  | Some [i; c; r; a; p; n; w; m; x; t; l; rest] =>
      Some (mkDocument i (negb (empty c)) (negb (empty r)) (negb (empty a)) (dec_option id p) n (negb (empty w))
        (negb (empty m)) (dec_Z x) (dec_option dec_Z t) (dec_option dec_lease l) rest)
  | _ => None
  end.
Lemma dec_enc_option {A} (f : A → string) g o : (∀ a, g (f a) = a) → dec_option g (enc_option f o) = o.
Proof. intros Hfg. destruct o; simpl; [by rewrite Hfg|done]. Qed.
Lemma dec_enc_lease l : dec_lease (enc_lease l) = l.
Proof. unfold dec_lease, enc_lease. rewrite dec_enc_texts, dec_enc_Z. by destruct l as [[]]. Qed.
Lemma dec_enc_bool b : negb (empty (enc_bool b)) = b.
Proof. by destruct b. Qed.
Lemma dec_enc_document d : dec_document (enc_document d) = Some d.
Proof.
  unfold dec_document, enc_document. rewrite dec_enc_texts, !dec_enc_bool, dec_enc_Z.
  rewrite (dec_enc_option id id), (dec_enc_option enc_Z dec_Z), (dec_enc_option enc_lease dec_lease);
    [by destruct d|apply dec_enc_lease|apply dec_enc_Z|done].
Qed.
#[export] Instance document_codec : Codec document :=
  {| Etcd.encode := enc_document; Etcd.decode := dec_document; Etcd.decode_encode := dec_enc_document |}.
End Lab.
