(* ===== verification/EtcdFacts.v ===== *)
(** * The page store keeps its promise (facts of [Etcd])

    A tree of pages reads back as the text it was made of; a unit of work sees
    the tables it opened with its own writes on top; what it publishes is exactly
    that view. *)
From Stdlib Require String.
From S2P Require Import Prelude Domain Data Store Auth Protected Etcd.

(** ** Trees of pages, read without effects *)
Section Text.
Context `{Codec (list string)}.
Implicit Types (look : string → option string).

Fixpoint text_at look (n : nat) (d : string) : option string :=
  match n with
  | O => None
  | S n =>
      payload ← look d;
      match payload with
      | String c rest =>
          if decide (c = "L"%char) then Some rest
          else if decide (c = "I"%char) then ds ← decode rest; joined <$> mapM (text_at look n) ds
          else None
      | EmptyString => None
      end
  end.

Definition extends look look' : Prop := ∀ d p, look d = Some p → look' d = Some p.

Lemma extends_refl look : extends look look.
Proof. by intros d p. Qed.
Lemma mapM_weaken {A B} (f g : A → option B) l r :
  (∀ a b, f a = Some b → g a = Some b) → mapM f l = Some r → mapM g l = Some r.
Proof.
  intros Hfg. rewrite !mapM_Some. induction 1; constructor; auto.
Qed.
Lemma text_at_mono look look' n n' d t :
  extends look look' → (n ≤ n')%nat → text_at look n d = Some t → text_at look' n' d = Some t.
Proof.
  intros He. revert n' d t. induction n as [|n IH]; intros [|n'] d t Hn; simpl; try done; [lia|].
  intros Ht. destruct (look d) as [p|] eqn:Hp; simpl in Ht; [|done].
  rewrite (He _ _ Hp). simpl. destruct p as [|c rest]; [done|].
  case_decide; [done|]. case_decide; [|done].
  destruct (decode rest) as [ds|]; simpl in *; [|done].
  destruct (mapM (text_at look n) ds) as [ts|] eqn:Hm; simpl in Ht; [|done].
  rewrite (mapM_weaken (text_at look n) (text_at look' n') ds ts); [done| |done]. intros a b. apply IH. lia.
Qed.
Lemma texts_mono look look' n n' ds ts :
  extends look look' → (n ≤ n')%nat → mapM (text_at look n) ds = Some ts → mapM (text_at look' n') ds = Some ts.
Proof. intros He Hn. apply mapM_weaken. intros a b. by apply text_at_mono. Qed.
End Text.

(** ** What writing pages does *)
Definition pool (u : unit_state) (d : string) : option string :=
  match dget d u.(u_pages) with Some p => Some p | None => u.(u_kv) !! d end.
(** No two payloads share an address: the collision resistance of the digest. *)
Definition no_collision (e : unit_env) : Prop := ∀ p q, e.(x_address) p = e.(x_address) q → p = q.
(** Every page lies under its own address, and the cache holds persisted pages. *)
Record sound (e : unit_env) (u : unit_state) : Prop := mkSound {
  s_collision : no_collision e;
  s_pages : NoDup u.(u_pages).*1;
  s_address : ∀ d p, dget d u.(u_pages) = Some p ∨ u.(u_kv) !! d = Some p → e.(x_address) p = d;
  s_cache : ∀ d p, (d, p) ∈ u.(u_cache) → u.(u_kv) !! d = Some p }.
Lemma sound_same e u u' :
  u'.(u_cache) = u.(u_cache) → u'.(u_kv) = u.(u_kv) → u'.(u_pages) = u.(u_pages) → sound e u → sound e u'.
Proof. intros E1 E2 E3 [Hnc Hnd Hp Hk]. split; rewrite ?E1, ?E2, ?E3; done. Qed.
Lemma pool_cases u d p : pool u d = Some p → dget d u.(u_pages) = Some p ∨ u.(u_kv) !! d = Some p.
Proof. unfold pool. destruct (dget d _); intros; simplify_eq; auto. Qed.
Lemma sound_pool e u d p : sound e u → u.(u_kv) !! d = Some p → pool u d = Some p.
Proof.
  intros [Hnc _ Hp _] Hk. unfold pool. destruct (dget d _) as [q|] eqn:Hd; [|done].
  f_equal. apply Hnc. rewrite (Hp d q), (Hp d p); auto.
Qed.
Definition with_pages (ps : list (string * string)) (u : unit_state) : unit_state := u <| u_pages := ps |>.
(** Only pages were added. *)
Definition paged (e : unit_env) (u u' : unit_state) : Prop :=
  u' = with_pages u'.(u_pages) u
  ∧ (sound e u → sound e u' ∧ extends (pool u) (pool u')).
#[export] Instance paged_preorder e : PreOrder (paged e).
Proof.
  split.
  - intros u. split; [by destruct u|]. intros Hs. split; [done|by intros d p].
  - intros u1 u2 u3 [E1 H1] [E2 H2]. split.
    + etrans; [exact E2|]. by rewrite E1.
    + intros Hs. destruct (H1 Hs) as [S2 X2]. destruct (H2 S2) as [S3 X3]. split; [done|]. intros d p Hp. auto.
Qed.
Lemma paged_extends e u u' : paged e u u' → sound e u → extends (pool u) (pool u').
Proof. intros [_ Hp] Hs. by destruct (Hp Hs). Qed.
Lemma paged_sound e u u' : paged e u u' → sound e u → sound e u'.
Proof. intros [_ Hp] Hs. by destruct (Hp Hs). Qed.

Section Pages.
Context `{Codec (list string)}.
Implicit Types (e : unit_env) (u : unit_state).

Lemma page_run p e u d u' :
  page p e u = Ok (d, u') → paged e u u' ∧ (sound e u → pool u' d = Some p).
Proof.
  unfold page. intros Hr. mrun. need_inv.
  destruct (dget (x_address e p) (u_cache u)) as [q|] eqn:Hc.
  - mrun. split; [done|]. intros Hs. assert (Hs' := Hs). destruct Hs' as [Hnc Hnd Hp Hk].
    apply dget_elem, Hk in Hc. assert (q = p) as -> by (apply Hnc, Hp; auto). by eapply sound_pool.
  - minv. split; [split; [by destruct u|]|].
    2: { intros _. unfold pool. simpl. by rewrite dget_dset_eq. }
    intros [Hnc Hnd Hp Hk]. split; [split; simpl; [done|by apply dset_NoDup| |done]|]; simpl.
    + intros d r. destruct (decide (x_address e p = d)) as [<-|Hne].
      * rewrite dget_dset_eq. intros [[= ->]|Hr]; [done|]. apply Hp. by right.
      * rewrite dget_dset_ne by done. apply Hp.
    + intros d r Hr. unfold pool. simpl. destruct (decide (x_address e p = d)) as [<-|Hne].
      * rewrite dget_dset_eq. f_equal. apply Hnc. symmetry. by apply Hp, pool_cases.
      * by rewrite dget_dset_ne.
Qed.

(** A loop that writes one page per element. *)
Lemma for_map_paged {A} (f : A → U string) (pre : unit_state → A → Prop) (post : unit_state → A → string → Prop) e :
  (∀ a u d u', f a e u = Ok (d, u') → paged e u u' ∧ (sound e u → pre u a → post u' a d)) →
  (∀ u u' a, extends (pool u) (pool u') → pre u a → pre u' a) →
  (∀ u u' a d, extends (pool u) (pool u') → post u a d → post u' a d) →
  ∀ l u ds u', for_map l f e u = Ok (ds, u') →
    paged e u u' ∧ (sound e u → Forall (pre u) l → Forall2 (post u') l ds).
Proof.
  intros Hf Hpre Hpost. induction l as [|a l IH]; intros u ds u' Hr; simpl in Hr; mrun; [done|].
  match goal with H : f a e u = _ |- _ => destruct (Hf _ _ _ _ H) as [P1 Q1] end.
  match goal with H : for_map l f e _ = _ |- _ => destruct (IH _ _ _ H) as [P2 Q2] end.
  split; [by etrans|]. intros Hs [Ha Hl]%Forall_cons_1.
  pose proof (paged_extends _ _ _ P1 Hs) as X1. pose proof (paged_sound _ _ _ P1 Hs) as S1.
  pose proof (paged_extends _ _ _ P2 S1) as X2. constructor; [eauto|].
  apply Q2; [done|]. eapply list.Forall_impl; [exact Hl|]. simpl. eauto.
Qed.

Lemma leaf_run p e u d u' :
  page ("L" +:+ p) e u = Ok (d, u') → paged e u u' ∧ (sound e u → text_at (pool u') 1 d = Some p).
Proof. intros [P Q]%page_run. split; [done|]. intros Hs. simpl. by rewrite Q. Qed.
Lemma index_run n ts ds e u d u' :
  index_page ds e u = Ok (d, u') →
  paged e u u' ∧ (sound e u → mapM (text_at (pool u) n) ds = Some ts → text_at (pool u') (S n) d = Some (joined ts)).
Proof.
  unfold index_page. intros [P Q]%page_run. split; [done|]. intros Hs Hts. cbn [text_at]. rewrite Q by done.
  cbn [String.append mbind option_bind]. rewrite decide_False, decide_True by done. rewrite decode_encode.
  cbn [mbind option_bind].
  by rewrite (texts_mono _ _ _ _ _ _ (paged_extends _ _ _ P Hs) (Nat.le_refl n) Hts).
Qed.

Lemma joined_app a b : joined (a ++ b) = joined a +:+ joined b.
Proof. induction a as [|x a IH]; simpl; [done|]. by rewrite IH, append_assoc. Qed.
Lemma joined_pieces fuel s : (String.length s ≤ fuel)%nat → joined (pieces fuel s) = s.
Proof.
  revert s. induction fuel as [|fuel IH]; intros s Hf; simpl; [by destruct s; [|simpl in Hf; lia]|].
  unfold empty. case_bool_decide; [by subst|]. cbn [joined].
  pose proof PAGE_BYTES_pos as Hp.
  destruct (decide (PAGE_BYTES ≤ String.length s)%nat) as [Hle|Hlt].
  - rewrite IH, <- split_at; [done..|]. rewrite length_from by done. lia.
  - rewrite substring_0_all by lia. replace (from PAGE_BYTES s) with "".
    2:{ unfold from. replace (_ - _)%nat with O by lia. symmetry. clear.
        generalize PAGE_BYTES. induction s; intros [|k]; simpl; done. }
    rewrite IH by (simpl; lia). clear. induction s; simpl; congruence.
Qed.
Lemma concat_groups {A} fuel (l : list A) : (length l ≤ fuel)%nat → concat (groups fuel l) = l.
Proof.
  revert l. induction fuel as [|fuel IH]; intros l Hf; simpl; [by destruct l; [|simpl in Hf; lia]|].
  destruct l as [|a l]; [done|]. cbn [concat]. rewrite IH, take_drop; [done|].
  rewrite length_drop. simpl in *. lia.
Qed.

Lemma mapM_concat {A B} (f : A → option B) (gs : list (list A)) (ts : list B) :
  mapM f (concat gs) = Some ts → ∃ tss, Forall2 (λ g t, mapM f g = Some t) gs tss ∧ concat tss = ts.
Proof.
  revert ts. induction gs as [|g gs IH]; intros ts Hts; simpl in *; [injection Hts as <-; by exists []|].
  apply mapM_Some, Forall2_app_inv_l in Hts as (t1 & t2 & H1 & H2 & ->).
  destruct (IH t2) as (tss & Hf & <-); [by apply mapM_Some|].
  exists (t1 :: tss). split; [constructor; [by apply mapM_Some|done]|done].
Qed.
Lemma joined_concat tss : joined (concat tss) = joined (map joined tss).
Proof. induction tss as [|ts tss IH]; simpl; [done|]. by rewrite joined_app, IH. Qed.

(** One pass of the loop of [blob] keeps the text. *)
Lemma collapse_pass n children ts e u next u' :
  for_map (groups (length children) children) index_page e u = Ok (next, u') →
  paged e u u' ∧ (sound e u → mapM (text_at (pool u) n) children = Some ts →
    ∃ ts', mapM (text_at (pool u') (S n)) next = Some ts' ∧ joined ts' = joined ts).
Proof.
  intros Hr.
  destruct (λ Hf Hpre Hpost, for_map_paged index_page
    (λ u1 g, ∀ t, mapM (text_at (pool u) n) g = Some t → mapM (text_at (pool u1) n) g = Some t)
    (λ u1 g d, ∀ t, mapM (text_at (pool u) n) g = Some t → text_at (pool u1) (S n) d = Some (joined t))
    e Hf Hpre Hpost _ _ _ _ Hr) as [P Q].
  - intros g u1 d u2 Hi. split; [by destruct (index_run n [] g e u1 d u2 Hi)|].
    intros Hs Hg t Ht. destruct (index_run n t g e u1 d u2 Hi) as [_ Hq]. auto.
  - intros u1 u2 g Hx Hg t Ht. by eapply texts_mono, Hg.
  - intros u1 u2 g d Hx Hd t Ht. eapply text_at_mono; [exact Hx|done|auto].
  - split; [done|]. intros Hs Hts. specialize (Q Hs ltac:(by apply list.Forall_forall)).
    rewrite <- (concat_groups (length children) children) in Hts by done.
    apply mapM_concat in Hts as (tss & Hf & <-). exists (map joined tss). split; [|by rewrite joined_concat].
    apply mapM_Some. clear -Q Hf. revert tss Hf. induction Q as [|g d gs ds Hg _ IH]; intros tss Hf;
      inversion Hf; subst; simpl; [constructor|]. constructor; auto.
Qed.
Lemma collapse_run fuel children ts n e u top u' :
  collapse fuel children e u = Ok (top, u') →
  paged e u u' ∧ (sound e u → mapM (text_at (pool u) n) children = Some ts →
    ∃ n' ts', mapM (text_at (pool u') n') top = Some ts' ∧ joined ts' = joined ts).
Proof.
  revert n children ts u. induction fuel as [|fuel IH]; intros n children ts u Hr; simpl in Hr;
    (destruct (Nat.leb _ 64); [mrun; split; [done|]; eauto|]); [mrun; split; [done|]; eauto|].
  mrun1. match goal with H : for_map _ _ _ _ = _ |- _ => rename H into Hm end.
  destruct (collapse_pass n children ts _ _ _ _ Hm) as [P Q].
  split.
  - etrans; [exact P|]. by eapply (IH (S n) _ []).
  - intros Hs Hts. destruct (Q Hs Hts) as (ts1 & Ht1 & Hj).
    match goal with H : collapse fuel _ _ _ = _ |- _ => destruct (IH (S n) _ ts1 _ H) as [_ Hq] end.
    destruct (Hq (paged_sound _ _ _ P Hs) Ht1) as (n' & ts' & Ht & Hj'). exists n', ts'. by rewrite Hj'.
Qed.

(** What [blob] stores reads back as its payload. *)
Lemma blob_run payload e u d u' :
  blob payload e u = Ok (d, u') →
  paged e u u' ∧ (sound e u → ∃ n, text_at (pool u') n d = Some payload).
Proof.
  unfold blob. destruct (Nat.leb _ PAGE_BYTES); intros Hr.
  - apply leaf_run in Hr as [P Q]. eauto.
  - mrun1. mrun1. repeat match goal with H : for_map _ _ _ _ = _ |- _ => rename H into Hm end.
    match goal with H : collapse _ _ _ _ = _ |- _ => rename H into Hc end.
    match goal with H : index_page _ _ _ = _ |- _ => rename H into Hi end.
    destruct (λ Hf Hpre Hpost, for_map_paged _ (λ _ _, True) (λ u1 p d, text_at (pool u1) 1 d = Some p)
      e Hf Hpre Hpost _ _ _ _ Hm) as [P1 Q1].
    + intros p u1 d1 u2 Hp. destruct (leaf_run _ _ _ _ _ Hp). auto.
    + done.
    + intros u1 u2 p d1 Hx Hd. by eapply text_at_mono.
    + pose proof (λ ts n, collapse_run _ _ ts n _ _ _ _ Hc) as Hcol. destruct (Hcol [] O) as [P2 _].
      destruct (index_run O [] _ _ _ _ _ Hi) as [P3 _].
      split; [by etrans; [|etrans]|]. intros Hs. pose proof (paged_sound _ _ _ P1 Hs) as S1.
      pose proof (paged_sound _ _ _ P2 S1) as S2.
      specialize (Q1 Hs ltac:(by apply list.Forall_forall)). set (ps := pieces _ payload) in *.
      assert (mapM (text_at (pool s) 1) v = Some ps) as Hps.
      { apply mapM_Some. clear -Q1. by induction Q1; constructor. }
      destruct (proj2 (Hcol ps 1%nat) S1 Hps) as (n' & ts' & Ht & Hj).
      exists (S n'). destruct (index_run n' ts' _ _ _ _ _ Hi) as [_ Hq].
      rewrite Hq by done. f_equal. rewrite Hj. by apply joined_pieces.
Qed.

(** 64 pages are left: the loop of [blob] ends with the fuel it is given. *)
Lemma length_groups {A} fuel (l : list A) : (length (groups fuel l) * 64 < length l + 64)%nat.
Proof.
  revert l. induction fuel as [|fuel IH]; intros l; cbn [groups length]; [lia|].
  destruct l as [|a l]; [cbn [length]; lia|]. specialize (IH (drop 64 (a :: l))).
  rewrite length_drop in IH. cbn [length]. set (m := length (groups _ _)) in *.
  destruct (Nat.le_gt_cases 64 (length (a :: l))) as [Hl|Hl]; [cbn [length] in *; lia|].
  assert (m = O) as ->; [|cbn [length] in *; lia].
  subst m. rewrite drop_ge by lia. by destruct fuel.
Qed.
Lemma collapse_small fuel children e u top u' :
  (length children ≤ fuel)%nat → collapse fuel children e u = Ok (top, u') → (length top ≤ 64)%nat.
Proof.
  revert children u. induction fuel as [|fuel IH]; intros children u Hf Hr; simpl in Hr;
    destruct (Nat.leb_spec (length children) 64) as [Hle|Hgt]; try (mrun; lia).
  mrun1. match goal with H : for_map _ _ _ _ = _ |- _ => rename H into Hm end.
  eapply IH; [|done]. pose proof (length_groups (length children) children).
  apply for_map_length in Hm. lia.
Qed.
End Pages.

(** ** Reading *)
(** Only the cache moved. *)
Definition cached (e : unit_env) (u u' : unit_state) : Prop :=
  u' = u <| u_cache := u'.(u_cache) |> ∧ (sound e u → sound e u').
#[export] Instance cached_preorder e : PreOrder (cached e).
Proof.
  split; [intros u; by destruct u|]. intros u1 u2 u3 [E1 H1] [E2 H2]. split; [etrans; [exact E2|]; by rewrite E1|auto].
Qed.

Lemma evict_incl l p : p ∈ evict l → p ∈ l.
Proof.
  induction l as [|q l IH]; [done|]. cbn [evict]. destruct (_ <? _); [|done]. intros ?. apply elem_of_cons. auto.
Qed.
Lemma cache_put_run d p e u :
  ∃ u', cache_put d p e u = Ok (tt, u') ∧ u' = u <| u_cache := u'.(u_cache) |>
        ∧ (u.(u_kv) !! d = Some p → sound e u → sound e u').
Proof.
  eexists. split; [done|]. split; [by destruct u|]. intros Hd [Hnc Hnd Hp Hk]. split; [done..|].
  intros d' p' Hin%evict_incl. apply elem_of_app in Hin as [Hin|Hin%list_elem_of_singleton].
  - unfold drop_key in Hin. rewrite list_elem_of_In, filter_In, <- list_elem_of_In in Hin. by apply Hk, Hin.
  - by injection Hin as -> ->.
Qed.

Section Reading.
Context `{Codec (list string)}.
Implicit Types (e : unit_env) (u : unit_state).
Notation kv u := (λ d : string, u.(u_kv) !! d).

Lemma read_page_run d p e u :
  sound e u → u.(u_kv) !! d = Some p → ∃ u', read_page d e u = Ok (p, u') ∧ cached e u u'.
Proof.
  intros Hs Hd. assert (Hs' := Hs). destruct Hs' as [Hnc Hnd Hp Hk]. unfold read_page.
  rewrite (bind_run (a := e) (s1 := u)), (bind_run (a := u) (s1 := u)) by done.
  destruct (dget d (u_cache u)) as [q|] eqn:Hc.
  - apply dget_elem, Hk in Hc. simplify_eq. eexists. split; [done|]. done.
  - rewrite Hd. rewrite (bind_run (a := p) (s1 := u)) by done.
    rewrite (bind_run (a := tt) (s1 := u)) by (rewrite bool_decide_true by auto; done).
    destruct (cache_put_run d p e u) as (u' & Hr & Hu & Hs'). rewrite (bind_run Hr). eexists. split; [done|]. split; auto.
Qed.

Lemma read_blob_run n depth d t e u :
  sound e u → (n ≤ depth)%nat → text_at (kv u) n d = Some t →
  ∃ u', read_blob depth d e u = Ok (t, u') ∧ cached e u u'.
Proof.
  revert depth d t u. induction n as [|n IH]; intros [|depth] d t u Hs Hn; simpl; try done; try lia.
  intros Ht. destruct (u_kv u !! d) as [p|] eqn:Hp; simpl in Ht; [|done].
  destruct (read_page_run d p e u Hs Hp) as (u1 & Hr & Hc).
  rewrite (bind_run Hr). destruct p as [|c rest]; [done|].
  case_decide; [simplify_eq; eexists; by split|]. case_decide; [|done].
  destruct (decode rest) as [ds|]; simpl in Ht; [|done].
  destruct (mapM _ ds) as [ts|] eqn:Hm; simpl in Ht; [|done]. simplify_eq.
  assert (∃ u', for_map ds (read_blob depth) e u1 = Ok (ts, u') ∧ cached e u1 u') as (u2 & Hf & Hc2).
  { assert (sound e u1) as Hs1 by (by apply Hc). assert (u_kv u1 = u_kv u) as Hk1 by (destruct Hc as [-> _]; done).
    clear Hr Hc Hp. apply mapM_Some in Hm. revert u1 Hs1 Hk1.
    induction Hm as [|d1 t1 ds ts Hd1 _ IHm]; intros u1 Hs1 Hk1; [by exists u1|].
    destruct (IH depth d1 t1 u1 Hs1 ltac:(lia)) as (u2 & Hr2 & Hc2); [by rewrite Hk1|].
    destruct (IHm u2) as (u3 & Hr3 & Hc3); [by apply Hc2|by destruct Hc2 as [-> _]|].
    exists u3. cbn [for_map]. rewrite (bind_run Hr2), (bind_run Hr3). split; [done|by etrans]. }
  exists u2. split; [|by etrans]. rewrite (bind_run (a := ds) (s1 := u1)) by done. exact (fmap_run Hf).
Qed.

Definition obj_at {A} `{Codec A} look (n : nat) (d : string) (a : A) : Prop :=
  ∃ t, text_at look n d = Some t ∧ decode t = Some a.
Lemma obj_at_mono {A} `{Codec A} look look' n n' d (a : A) :
  extends look look' → (n ≤ n')%nat → obj_at look n d a → obj_at look' n' d a.
Proof. intros Hx Hn (t & Ht & Ha). exists t. split; [by eapply text_at_mono|done]. Qed.
Lemma obj_at_det {A} `{Codec A} look n n' d (a a' : A) : obj_at look n d a → obj_at look n' d a' → a = a'.
Proof.
  intros (t & Ht & Ha) (t' & Ht' & Ha').
  apply (text_at_mono look look n (n + n') d t) in Ht; [|apply extends_refl|lia].
  apply (text_at_mono look look n' (n + n') d t') in Ht'; [|apply extends_refl|lia]. congruence.
Qed.
Lemma object_run {A} `{Codec A} n depth d (a : A) e u :
  sound e u → (n ≤ depth)%nat → obj_at (kv u) n d a → ∃ u', object depth d e u = Ok (a, u') ∧ cached e u u'.
Proof.
  intros Hs Hn (t & Ht & Ha). destruct (read_blob_run n depth d t e u Hs Hn Ht) as (u' & Hr & Hc).
  exists u'. unfold object. rewrite (bind_run Hr). by rewrite Ha.
Qed.
End Reading.

(** ** A unit of work over the tables it opened *)
Abbreviation tables := (gmap (string * string) document).
Abbreviation persisted u := (λ d : string, u.(u_kv) !! d).

Section Units.
Context `{Hash, Codec (list string), Codec document, Codec (gmap string string), Codec root}.
Implicit Types (e : unit_env) (u : unit_state) (db : tables) (r : root) (look : string → option string).

(** The bucket of a shard under a root, and what it says of an identity. *)
Definition bucket_of look n r (kind sh : string) (b : gmap string string) : Prop :=
  match shards r kind !! sh with Some d => obj_at look n d b | None => b = ∅ end.
Definition entry look n (b : gmap string string) (i : string) (v : option document) : Prop :=
  match v with
  | Some v => ∃ d, b !! i = Some d ∧ obj_at look n d v
  | None => b !! i = None
  end.
Definition in_shard (sh : string) (b : gmap string string) : Prop := ∀ i, is_Some (b !! i) → shard i = sh.

(** A root means tables: each bucket lists the objects of its shard. *)
Definition represents look n r db : Prop := ∀ kind sh, ∃ b,
  bucket_of look n r kind sh b ∧ in_shard sh b ∧ ∀ i, shard i = sh → entry look n b i (db !! (kind, i)).
Definition opened e n u db : Prop :=
  sound e u ∧ represents (persisted u) n u.(u_root) db
  ∧ ∀ kind sh b, u.(u_buckets) !! (kind, sh) = Some b → bucket_of (persisted u) n u.(u_root) kind sh b.
(** The tables as the unit of work sees them. *)
Definition view u db (k : string * string) : option document :=
  match u.(u_pending) !! k with Some v => v | None => db !! k end.

(** Reads, and what the leases of a write ask of etcd, change no table. *)
Definition quiet n db (e : unit_env) (u u' : unit_state) : Prop :=
  opened e n u db →
  opened e n u' db ∧ u'.(u_kv) = u.(u_kv) ∧ u'.(u_pages) = u.(u_pages) ∧ u'.(u_root) = u.(u_root)
  ∧ u'.(u_pending) = u.(u_pending).
#[export] Instance quiet_preorder n db e : PreOrder (quiet n db e).
Proof.
  split; [intros u Ho; by split_and!|]. intros u1 u2 u3 Q1 Q2 Ho.
  destruct (Q1 Ho) as (O2 & E1 & E2 & E3 & E4). destruct (Q2 O2) as (O3 & F1 & F2 & F3 & F4).
  split_and!; congruence.
Qed.
Lemma quiet_view n db e u u' k : quiet n db e u u' → opened e n u db → view u' db k = view u db k.
Proof. intros Hq Ho. unfold view. by destruct (Hq Ho) as (_ & _ & _ & _ & ->). Qed.

Lemma cached_opened n db e u u' : cached e u u' → quiet n db e u u'.
Proof.
  intros [E Hc] (Hs & Hr & Hb). specialize (Hc Hs). revert E Hc. generalize (u_cache u') as c. intros c -> Hc.
  by split_and!.
Qed.
Lemma bucket_of_det look n r kind sh b b' : bucket_of look n r kind sh b → bucket_of look n r kind sh b' → b = b'.
Proof. unfold bucket_of. case_match; [apply obj_at_det|congruence]. Qed.

Lemma load_bucket_run n depth db kind sh b e u :
  opened e n u db → (n ≤ depth)%nat → bucket_of (persisted u) n u.(u_root) kind sh b →
  ∃ u', load_bucket depth (kind, sh) (shards u.(u_root) kind !! sh) e u = Ok (b, u') ∧ quiet n db e u u'
        ∧ u'.(u_buckets) = <[(kind, sh) := b]> u.(u_buckets).
Proof.
  intros Ho Hn Hb. assert (Ho' := Ho). destruct Ho' as (Hs & Hr & Hl). unfold load_bucket.
  rewrite (bind_run (a := u) (s1 := u)) by done. destruct (u_buckets u !! (kind, sh)) as [b'|] eqn:Hbk.
  - assert (b' = b) as -> by (eapply bucket_of_det; [by apply Hl|done]).
    exists u. rewrite insert_id by done. by split_and!.
  - assert (∃ u1, (match shards (u_root u) kind !! sh with Some d => object depth d | None => mret ∅ end) e u = Ok (b, u1)
             ∧ cached e u u1) as (u1 & Hr1 & Hc).
    { unfold bucket_of in Hb. destruct (shards (u_root u) kind !! sh) as [d|]; [by eapply object_run|].
      subst b. by exists u. }
    rewrite (bind_run Hr1). eexists. split; [done|]. destruct (cached_opened n db _ _ _ Hc Ho) as (O1 & E1 & E2 & E3 & E4).
    assert (u_buckets u1 = u_buckets u) as Eb by (destruct Hc as [-> _]; done).
    split; [intros _|simpl; by rewrite Eb]. destruct O1 as (S1 & R1 & B1).
    split_and!; try done. split_and!; [by destruct S1|done|]. simpl. intros kind' sh' b'.
    destruct (decide ((kind, sh) = (kind', sh'))) as [[= <- <-]|Hne].
    + rewrite lookup_insert_eq. intros [= <-]. by rewrite E1, E3.
    + rewrite lookup_insert_ne by done. apply B1.
Qed.
Lemma unit_bucket_run n depth db kind i e u :
  opened e n u db → (n ≤ depth)%nat →
  ∃ b u', unit_bucket depth kind i e u = Ok (b, u') ∧ quiet n db e u u'
        ∧ in_shard (shard i) b ∧ entry (persisted u) n b i (db !! (kind, i)).
Proof.
  intros Ho Hn. assert (Ho' := Ho). destruct Ho' as (Hs & Hr & Hl).
  destruct (Hr kind (shard i)) as (b & Hb & Hin & He).
  destruct (load_bucket_run n depth db kind (shard i) b e u Ho Hn Hb) as (u' & Hu & Hq & _).
  exists b, u'. split_and!; [|done|done|by apply He]. unfold unit_bucket. by rewrite (bind_run (a := u) (s1 := u)).
Qed.

Lemma unit_get_run n depth db kind i e u :
  opened e n u db → (n ≤ depth)%nat →
  ∃ u', unit_get depth kind i e u = Ok (view u db (kind, i), u') ∧ quiet n db e u u'.
Proof.
  intros Ho Hn. unfold unit_get. rewrite (bind_run (a := u) (s1 := u)) by done. unfold view.
  destruct (u_pending u !! (kind, i)) as [v|] eqn:Hp; [by exists u|].
  destruct (unit_bucket_run n depth db kind i e u Ho Hn) as (b & u1 & Hr1 & Hq & _ & He).
  rewrite (bind_run Hr1). destruct (Hq Ho) as (O1 & E1 & _). unfold entry in He.
  destruct (db !! (kind, i)) as [v|]; [|rewrite He; by exists u1].
  destruct He as (d & -> & Hv). destruct (object_run n depth d v e u1) as (u2 & Hr2 & Hc);
    [apply O1|done|by rewrite E1|]. exists u2. split; [exact (fmap_run Hr2)|].
  etrans; [done|]. by apply cached_opened.
Qed.

(** *** Writes *)
(** Changing the lease bookkeeping of a unit. *)
Lemma quiet_leases n db f :
  (∀ u, u_cache (f u) = u_cache u ∧ u_kv (f u) = u_kv u ∧ u_pages (f u) = u_pages u ∧ u_root (f u) = u_root u
        ∧ u_buckets (f u) = u_buckets u ∧ u_pending (f u) = u_pending u) →
  keeps (quiet n db) (modify f : U unit).
Proof.
  intros Hf e u a u' ->%modify_Ok. destruct (Hf u) as (E1 & E2 & E3 & E4 & E5 & E6).
  intros (Hs & Hr & Hb). split_and!; [split_and!; [|by rewrite E2, E4|by rewrite E2, E4, E5]|done..].
  by eapply sound_same.
Qed.
Lemma quiet_get n depth db kind i : (n ≤ depth)%nat → keeps (quiet n db) (unit_get depth kind i).
Proof.
  intros Hn e u v u' Hr Ho. destruct (unit_get_run n depth db kind i e u Ho Hn) as (u1 & Hr1 & Hq).
  rewrite Hr in Hr1. simplify_eq. by apply Hq.
Qed.
Ltac quiet_step := first [ apply quiet_leases; intros; by split_and! | apply keeps_need; apply _
  | apply keeps_some_or_crash; apply _ | keeps_step ].
Lemma quiet_live n db v : keeps (quiet n db) (unit_lease_live v).
Proof. unfold unit_lease_live. repeat quiet_step. Qed.
Lemma quiet_stamp n db kind v : keeps (quiet n db) (stamp kind v).
Proof. unfold stamp. repeat first [apply quiet_live | quiet_step]. Qed.
Lemma quiet_lease n db kind v p :
  keeps (quiet n db) (match v.(d_lease) with None => new_lease kind v | Some _ => extend_lease v p end).
Proof. unfold new_lease, extend_lease, draw. repeat first [apply quiet_live | quiet_step]. Qed.

(** A write may only set the deadline and the lease of what it stores. *)
Definition renewed (v v' : document) : Prop :=
  v' = v <| d_deadline := v'.(d_deadline) |> <| d_lease := v'.(d_lease) |>.
Lemma renewed_refl v : renewed v v.
Proof. by destruct v. Qed.
Lemma renewed_trans v1 v2 v3 : renewed v1 v2 → renewed v2 v3 → renewed v1 v3.
Proof. unfold renewed. destruct v1, v2, v3. simpl. intros [=] [=]. by subst. Qed.
Lemma stamp_renewed kind v e u v' u' : stamp kind v e u = Ok (v', u') → renewed v v'.
Proof.
  unfold stamp. intros Hr. mrun1. mrun1. repeat case_decide; mrun; try (by destruct v);
    repeat case_match; mrun; by destruct v.
Qed.
Lemma lease_renewed kind v p e u v' u' :
  (match v.(d_lease) with None => new_lease kind v | Some _ => extend_lease v p end) e u = Ok (v', u') → renewed v v'.
Proof.
  unfold new_lease, extend_lease. intros Hr. repeat case_match; mrun; repeat case_match; mrun; try done; by destruct v.
Qed.

Definition writing u (k : string * string) (o : option document) : unit_state := u <| u_pending ::= <[k := o]> |>.
Lemma writing_view u db k o k' : view (writing u k o) db k' = if decide (k' = k) then o else view u db k'.
Proof.
  unfold view, writing. simpl. case_decide as Hk; [subst; by rewrite lookup_insert_eq|by rewrite lookup_insert_ne].
Qed.
Lemma writing_opened u k o e n db : opened e n u db → opened e n (writing u k o) db.
Proof. intros (Hs & Hr & Hb). split; [by eapply (sound_same e u)|done]. Qed.
Lemma unit_put_run n depth db kind v e u a u' :
  opened e n u db → (n ≤ depth)%nat → unit_put depth kind v e u = Ok (a, u') →
  ∃ v', renewed v v' ∧ opened e n u' db ∧ e.(x_write) = true
    ∧ ∀ k, view u' db k = if decide (k = (kind, v.(d_id))) then Some v' else view u db k.
Proof.
  intros Ho Hn Hr. unfold unit_put in Hr. mrun1. mrun1. mrun1. need_inv. mrun1.
  match goal with H : (if _ then _ else _) _ _ = Ok (?w, ?t) |- _ => rename H into Hw, w into v', t into u1 end.
  assert (quiet n db e u u1 ∧ renewed v v') as [Hq Hv].
  { revert Hw. case_match; [|intros [-> ->]%ret_Ok; split; [done|apply renewed_refl]].
    intros Hw. mrun1. mrun1. split.
    - etrans; [by eapply quiet_get|]. etrans; [by eapply quiet_stamp|by eapply quiet_lease].
    - eapply renewed_trans; [by eapply stamp_renewed|by eapply lease_renewed]. }
  mrun. exists v'. assert (d_id v' = d_id v) as Hid by (by rewrite Hv).
  destruct (Hq Ho) as (O1 & _). split_and!; [done|by apply (writing_opened _ (kind, d_id v') (Some v'))|done|]. intros k.
  rewrite <- (quiet_view n db e u _ k Hq Ho), <- Hid. apply (writing_view _ db (kind, d_id v') (Some v') k).
Qed.
Lemma unit_delete_run n depth db kind i e u a u' :
  opened e n u db → (n ≤ depth)%nat → unit_delete depth kind i e u = Ok (a, u') →
  opened e n u' db ∧ e.(x_write) = true ∧ ∀ k, view u' db k = if decide (k = (kind, i)) then None else view u db k.
Proof.
  intros Ho Hn Hr. unfold unit_delete in Hr. mrun1. mrun1. mrun1. need_inv. mrun1. mrun1.
  match goal with H : modify _ _ ?t = _ |- _ => rename t into u1 end.
  assert (quiet n db e u u1) as Hq.
  { etrans; [by eapply quiet_get|].
    match goal with H : (match _ with Some _ => _ | None => _ end) _ _ = _ |- _ => revert H end.
    case_match; [|by intros [_ ->]%ret_Ok]. destruct p as [[key ?] ?].
    apply quiet_leases. intros. by split_and!. }
  mrun. destruct (Hq Ho) as (O1 & _). split_and!; [by apply (writing_opened _ (kind, i) None)|done|]. intros k.
  rewrite <- (quiet_view n db e u _ k Hq Ho). apply (writing_view _ db (kind, i) None k).
Qed.
End Units.
