(* ===== verification/EtcdPublish.v ===== *)
(** * What a unit of work publishes

    The new root means exactly the tables the unit saw: those it opened, with its
    own writes. *)
From Stdlib Require String.
From S2P Require Import Prelude Domain Data Store Auth Protected Etcd EtcdFacts Lab.

Section Publish.
Context `{Hash, Codec (list string), Codec document, Codec (gmap string string), Codec root}.
Implicit Types (e : unit_env) (u : unit_state) (db : tables) (r : root) (look : string → option string).

(** Objects found at some depth. *)
Definition somewhere {A} `{Codec A} look (d : string) (a : A) : Prop := ∃ n, obj_at look n d a.
Definition entry_in look (b : gmap string string) (i : string) (v : option document) : Prop :=
  match v with Some v => ∃ d, b !! i = Some d ∧ somewhere look d v | None => b !! i = None end.
Lemma somewhere_mono {A} `{Codec A} look look' d (a : A) : extends look look' → somewhere look d a → somewhere look' d a.
Proof. intros Hx [n Hn]. exists n. by eapply obj_at_mono. Qed.
Lemma entry_in_mono look look' b i v : extends look look' → entry_in look b i v → entry_in look' b i v.
Proof. intros Hx. destruct v as [v|]; [|done]. intros (d & Hd & Hs). exists d. split; [done|by eapply somewhere_mono]. Qed.
Lemma entry_entry_in look n b i v : entry look n b i v → entry_in look b i v.
Proof. destruct v as [v|]; [|done]. intros (d & Hd & Hs). exists d. split; [done|by exists n]. Qed.
Lemma blob_somewhere {A} `{Codec A} (a : A) e u d u' :
  blob (encode a) e u = Ok (d, u') → paged e u u' ∧ (sound e u → somewhere (pool u') d a).
Proof.
  intros [P Q]%blob_run. split; [done|]. intros Hs. destruct (Q Hs) as [n Hn]. exists n, (encode a).
  by rewrite decode_encode.
Qed.
Lemma persisted_pool e u : sound e u → extends (persisted u) (pool u).
Proof. intros Hs d p. by eapply sound_pool. Qed.

(** ** The changed objects *)
(** The bucket of a shard as the unit holds it. *)
Definition current n u (kind sh : string) (b : gmap string string) : Prop :=
  match u.(u_buckets) !! (kind, sh) with
  | Some b' => b = b'
  | None => bucket_of (persisted u) n u.(u_root) kind sh b
  end.
Lemma current_det n u kind sh b b' : current n u kind sh b → current n u kind sh b' → b = b'.
Proof. unfold current. case_match; [congruence|apply bucket_of_det]. Qed.

Section Objects.
Variables (e : unit_env) (u0 : unit_state) (n : nat) (db : tables).

(** After the objects [D]: their entries are those of the view. *)
Definition mixed (D : gset (string * string)) (k : string * string) : option document :=
  if decide (k ∈ D) then view u0 db k else db !! k.
Record flushing (D : gset (string * string)) (changed : gset bucket_key) (u : unit_state) : Prop := mkFlushing {
  fl_sound : sound e u;
  fl_same : u.(u_kv) = u0.(u_kv) ∧ u.(u_root) = u0.(u_root) ∧ u.(u_pending) = u0.(u_pending);
  fl_root : represents (persisted u0) n u0.(u_root) db;
  fl_bucket : ∀ kind sh b, current n u kind sh b →
    in_shard sh b ∧ ∀ i, shard i = sh → entry_in (pool u) b i (mixed D (kind, i));
  fl_kept : ∀ kind sh b, (kind, sh) ∉ changed → u.(u_buckets) !! (kind, sh) = Some b →
    bucket_of (persisted u) n u.(u_root) kind sh b }.

Lemma flushing_start : opened e n u0 db → flushing ∅ ∅ u0.
Proof.
  intros (Hs & Hr & Hb). split; [done|done|done| |auto]. intros kind sh b Hc.
  assert (bucket_of (persisted u0) n (u_root u0) kind sh b) as Hof.
  { unfold current in Hc. case_match eqn:Hbk; [subst; by apply Hb|done]. }
  destruct (Hr kind sh) as (b' & Hb' & Hin & He). rewrite (bucket_of_det _ _ _ _ _ _ _ Hof Hb').
  split; [done|]. intros i Hi. unfold mixed. rewrite decide_False by set_solver.
  eapply entry_in_mono; [by eapply persisted_pool|]. by eapply entry_entry_in, He.
Qed.

(** Loading a bucket changes nothing the unit holds. *)
Lemma flushing_load D changed depth kind sh u b u' :
  flushing D changed u → (n ≤ depth)%nat →
  load_bucket depth (kind, sh) (shards u.(u_root) kind !! sh) e u = Ok (b, u') →
  flushing D changed u' ∧ current n u' kind sh b ∧ u'.(u_buckets) = <[(kind, sh) := b]> u.(u_buckets)
  ∧ current n u kind sh b.
Proof.
  intros [Hs (Ek & Er & Ep) Hr Hb Hk] Hn. unfold load_bucket. rewrite (bind_run (a := u) (s1 := u)) by done.
  destruct (u_buckets u !! (kind, sh)) as [b'|] eqn:Hbk.
  - intros [-> ->]%ret_Ok. assert (current n u kind sh b') by (unfold current; by rewrite Hbk).
    split_and!; [by split|done|by rewrite insert_id|done].
  - destruct (Hr kind sh) as (b0 & Hb0 & _). rewrite <- Er in Hb0.
    assert (∃ u1, (match shards (u_root u) kind !! sh with Some d => object depth d | None => mret ∅ end) e u = Ok (b0, u1)
           ∧ cached e u u1) as (u1 & Hr1 & [Ec Sc]).
    { unfold bucket_of in Hb0. destruct (shards (u_root u) kind !! sh) as [d|].
      - eapply object_run; [done|done|by rewrite Ek].
      - subst b0. by exists u. }
    rewrite (bind_run Hr1). intros Hr2. mrun. specialize (Sc Hs). revert Ec Sc. generalize (u_cache u1) as c.
    intros c -> Sc.
    assert (current n u kind sh b0) as Hcur by (unfold current; rewrite Hbk; by rewrite Ek).
    assert (∀ kind' sh' b1, current n (u <| u_cache := c |> <| u_buckets ::= <[(kind, sh):=b0]> |>) kind' sh' b1 ↔ current n u kind' sh' b1) as Hsame.
    { intros kind' sh' b1. destruct (decide ((kind, sh) = (kind', sh'))) as [[= <- <-]|Hne].
      - split; [|intros Hc; rewrite (current_det _ _ _ _ _ _ Hc Hcur)]; unfold current at 1; simpl;
          rewrite lookup_insert_eq; [by intros ->|done].
      - unfold current. simpl. by rewrite lookup_insert_ne. }
    split_and!; [|by apply Hsame|done|done]. split; [by destruct Sc|done|done| |].
    + intros kind' sh' b1. rewrite Hsame. apply Hb.
    + simpl. intros kind' sh' b1 Hch. destruct (decide ((kind, sh) = (kind', sh'))) as [[= <- <-]|Hne].
      * rewrite lookup_insert_eq. intros [= <-]. unfold current in Hcur. by rewrite Hbk in Hcur.
      * rewrite lookup_insert_ne by done. by apply Hk.
Qed.

Lemma flushing_paged D changed u u' : flushing D changed u → paged e u u' → flushing D changed u'.
Proof.
  intros [Hs (Ek & Er & Ep) Hr Hb Hk] [E Hp]. destruct (Hp Hs) as [S X]. clear Hp.
  revert E S X. generalize (u_pages u') as ps. intros ps -> S X. split; [done|done|done| |done].
  intros kind sh b Hc. destruct (Hb kind sh b Hc) as [Hin He]. split; [done|]. intros i Hi.
  eapply entry_in_mono; [exact X|by apply He].
Qed.

Lemma mixed_add D k k' : mixed ({[k]} ∪ D) k' = if decide (k' = k) then view u0 db k else mixed D k'.
Proof. unfold mixed. repeat case_decide; subst; try done; set_solver. Qed.

Lemma view_pending k v : u0.(u_pending) !! k = Some v → view u0 db k = v.
Proof. unfold view. by intros ->. Qed.

(** What an entry of a changed bucket says. *)
Lemma entry_write look b i i' (digest : option string) v :
  entry_in look (match digest with Some d => <[i := d]> b | None => delete i b end) i' v ↔
  if decide (i' = i) then match v with Some v => ∃ d, digest = Some d ∧ somewhere look d v | None => digest = None end
  else entry_in look b i' v.
Proof.
  assert ((match digest with Some d => <[i := d]> b | None => delete i b end) !! i' =
            if decide (i' = i) then digest else b !! i') as Hl.
  { destruct (decide (i' = i)) as [->|Hne], digest as [d|].
    - apply lookup_insert_eq.
    - apply lookup_delete_eq.
    - by apply lookup_insert_ne.
    - by apply lookup_delete_ne. }
  unfold entry_in. rewrite Hl. by case_decide.
Qed.
Lemma in_shard_write (b : gmap string string) i (digest : option string) :
  in_shard (shard i) b → in_shard (shard i) (match digest with Some d => <[i := d]> b | None => delete i b end).
Proof.
  intros Hin j. destruct (decide (j = i)) as [->|Hne]; [done|].
  destruct digest; rewrite ?lookup_insert_ne, ?lookup_delete_ne by congruence; apply Hin.
Qed.

Lemma flush_object_run D changed depth kind i v u o u' :
  flushing D changed u → (n ≤ depth)%nat → u0.(u_pending) !! (kind, i) = Some v →
  flush_object depth (kind, i, v) e u = Ok (o, u') →
  flushing ({[(kind, i)]} ∪ D) (match o with Some key => {[key]} ∪ changed | None => changed end) u'.
Proof.
  intros Hf Hn Hv Hr. unfold flush_object in Hr. mrun1. mrun1.
  match goal with H : unit_bucket _ _ _ _ _ = Ok (?w, ?t) |- _ => rename H into Hb, w into b, t into u1 end.
  match goal with H : _ e u1 = Ok (?w, ?t) |- _ => rename H into Hd, w into digest, t into u2 end.
  unfold unit_bucket in Hb. rewrite (bind_run (a := u) (s1 := u)) in Hb by done.
  destruct (flushing_load _ _ _ _ _ _ _ _ Hf Hn Hb) as (F1 & C1 & B1 & _).
  assert (paged e u1 u2 ∧ (sound e u1 →
    match v with Some v => ∃ d, digest = Some d ∧ somewhere (pool u2) d v | None => digest = None end)) as [P Q].
  { destruct v as [v|]; [|mrun; by split]. mrun.
    match goal with H : blob _ _ _ = _ |- _ => destruct (blob_somewhere _ _ _ _ _ H) as [P Q] end. eauto. }
  specialize (Q (fl_sound _ _ _ F1)). pose proof (flushing_paged _ _ _ _ F1 P) as F2.
  assert (u_buckets u2 !! (kind, shard i) = Some b) as Hbk.
  { destruct P as [-> _]. simpl. rewrite B1. apply lookup_insert_eq. }
  destruct F2 as [S2 E2 R2 Hcur Hkept].
  assert (∀ b1, current n u2 kind (shard i) b1 → b1 = b) as Huniq by (intros b1; unfold current; by rewrite Hbk).
  destruct (Hcur kind (shard i) b) as [Hin He]; [unfold current; by rewrite Hbk|].
  destruct (decide (b !! i = digest)) as [Heq|Hneq]; mrun.
  - split; [done..| |done]. intros kind' sh' b1 Hc. destruct (Hcur kind' sh' b1 Hc) as [Hin1 He1]. split; [done|].
    intros i' Hi'. rewrite mixed_add. case_decide as Hk; [|by apply He1]. injection Hk as -> ->. subst sh'.
    rewrite (Huniq b1 Hc), (view_pending _ _ Hv). unfold entry_in. exact Q.
  - split; [by eapply (sound_same e u2)|done|done| |]; simpl.
    + intros kind' sh' b1 Hc. destruct (decide ((kind', sh') = (kind, shard i))) as [[= -> ->]|Hne].
      * unfold current in Hc. simpl in Hc. rewrite lookup_insert_eq in Hc. subst b1.
        split; [by apply in_shard_write|]. intros i' Hi'. rewrite mixed_add. apply entry_write.
        destruct (decide (i' = i)) as [->|Hi]; [by rewrite decide_True, (view_pending _ _ Hv)|].
        rewrite decide_False by congruence. by apply He.
      * unfold current in Hc. simpl in Hc. rewrite lookup_insert_ne in Hc by done.
        destruct (Hcur kind' sh' b1 Hc) as [Hin1 He1]. split; [done|]. intros i' Hi'. rewrite mixed_add.
        rewrite decide_False by (intros [= -> ->]; by subst). by apply He1.
    + intros kind' sh' b1 Hch. rewrite lookup_insert_ne by set_solver. apply Hkept. set_solver.
Qed.

Lemma flush_objects_run depth : (n ≤ depth)%nat → ∀ ps D changed u os u',
  Forall (λ p : string * string * option document, u0.(u_pending) !! p.1 = Some p.2) ps →
  flushing D changed u → for_map ps (flush_object depth) e u = Ok (os, u') →
  flushing (list_to_set ps.*1 ∪ D) (list_to_set (omap id os) ∪ changed) u'.
Proof.
  intros Hn. induction ps as [|[[kind i] v] ps IH]; intros D changed u os u' Hps Hf Hr; cbn [for_map] in Hr.
  { apply ret_Ok in Hr as [-> ->]. simpl. by rewrite !(left_id_L ∅ (∪)). }
  apply Forall_cons_1 in Hps as [Hv Hps]. do 3 mrun1.
  match goal with H : flush_object _ _ _ _ = Ok (?w, ?t) |- _ => rename H into Ho, w into o end.
  pose proof (flush_object_run _ _ _ _ _ _ _ _ _ Hf Hn Hv Ho) as F1.
  match goal with H : for_map _ _ _ _ = _ |- _ => pose proof (IH _ _ _ _ _ Hps F1 H) as F2 end.
  destruct o as [key|]; simpl in *;
    rewrite ?(assoc_L (∪)) in F2; rewrite ?(assoc_L (∪)), ?(comm_L (∪) {[(kind, i)]}), ?(comm_L (∪) {[key]}); exact F2.
Qed.
End Objects.

(** ** The new root *)
Definition means look r (tbl : string * string → option document) : Prop := ∀ kind sh, ∃ b,
  (match shards r kind !! sh with Some d => somewhere look d b | None => b = ∅ end)
  ∧ in_shard sh b ∧ ∀ i, shard i = sh → entry_in look b i (tbl (kind, i)).

Lemma shards_write r k s d k' s' :
  shards (<[k := <[s := d]> (shards r k)]> r) k' !! s' = if decide ((k', s') = (k, s)) then Some d else shards r k' !! s'.
Proof.
  assert (∀ m, shards (<[k := m]> r) k' = if decide (k' = k) then m else shards r k') as Hk.
  { intros m. unfold shards. case_decide; subst; [by rewrite lookup_insert_eq|by rewrite lookup_insert_ne]. }
  rewrite Hk. destruct (decide (k' = k)) as [->|Hne].
  - case_decide as Hs; [injection Hs as ->; apply lookup_insert_eq|]. apply lookup_insert_ne. congruence.
  - rewrite decide_False by congruence. done.
Qed.

(** While the changed buckets are linked. *)
Record linking (e : unit_env) (u1 : unit_state) (D : gset bucket_key) (u : unit_state) : Prop := mkLinking {
  lk_sound : sound e u;
  lk_pool : extends (pool u1) (pool u);
  lk_buckets : u.(u_buckets) = u1.(u_buckets);
  lk_shard : ∀ kind sh, if decide ((kind, sh) ∈ D)
    then ∃ b d, u.(u_buckets) !! (kind, sh) = Some b ∧ shards u.(u_root) kind !! sh = Some d ∧ somewhere (pool u) d b
    else shards u.(u_root) kind !! sh = shards u1.(u_root) kind !! sh }.
Lemma flush_bucket_run e u1 D key u a u' :
  linking e u1 D u → flush_bucket key e u = Ok (a, u') → linking e u1 ({[key]} ∪ D) u'.
Proof.
  intros [Hs Hp Hb Hd] Hr. unfold flush_bucket in Hr. do 4 mrun1. need_inv. mrun1.
  match goal with H : blob _ _ _ = Ok (?w, ?t) |- _ => rename t into u2, w into dg; destruct (blob_somewhere _ _ _ _ _ H) as [P Q] end.
  specialize (Q Hs). destruct (proj2 P Hs) as [S2 X2]. destruct P as [E _].
  match goal with H : u_buckets u !! key = Some ?w |- _ => rename H into Hbk, w into b end.
  split; [by eapply (sound_same e u2)|intros d p Hdp; by apply X2, Hp|by rewrite E|]. intros kind sh. simpl.
  rewrite shards_write. assert (u_buckets u2 = u_buckets u ∧ u_root u2 = u_root u) as [Eb Er] by (by rewrite E).
  rewrite Eb, Er. destruct (decide ((kind, sh) = key)) as [<-|Hne].
  - rewrite decide_True by set_solver. rewrite decide_True by done. eauto.
  - specialize (Hd kind sh). destruct key as [k s]. rewrite (decide_False (P := (kind, sh) = (k, s))) by done.
    destruct (decide ((kind, sh) ∈ D)).
    + rewrite decide_True by set_solver. destruct Hd as (b' & d & ? & ? & ?). exists b', d.
      split_and!; [done|done|by eapply somewhere_mono].
    + by rewrite decide_False by set_solver.
Qed.
Lemma flush_buckets_run e u1 l D u a u' :
  linking e u1 D u → for_each l flush_bucket e u = Ok (a, u') → linking e u1 (list_to_set l ∪ D) u'.
Proof.
  revert D u. induction l as [|key l IH]; intros D u Hl Hr; cbn [for_each] in Hr.
  - apply ret_Ok in Hr as [-> ->]. simpl. by rewrite (left_id_L ∅ (∪)).
  - mrun1. match goal with H : flush_bucket _ _ _ = _ |- _ => apply (flush_bucket_run _ _ _ _ _ _ _ Hl) in H as Hl' end.
    match goal with H : for_each l _ _ _ = _ |- _ => apply (IH _ _ Hl') in H as Hl2 end.
    simpl. by rewrite (assoc_L (∪)), (comm_L (∪) (list_to_set l)) in Hl2.
Qed.

Lemma linked_means e u0 n db D changed u1 u :
  flushing e u0 n db D changed u1 → (∀ k, mixed u0 db D k = view u0 db k) → linking e u1 changed u →
  means (pool u) u.(u_root) (view u0 db).
Proof.
  intros [S1 (Ek & Er & Ep) Hr Hb Hk] Hm [S2 Hp Eb Hd] kind sh.
  assert (∃ b, current n u1 kind sh b) as [b Hc].
  { unfold current. destruct (u_buckets u1 !! (kind, sh)) as [b|]; [by exists b|].
    destruct (Hr kind sh) as (b & Hb' & _). exists b. by rewrite Ek, Er. }
  destruct (Hb kind sh b Hc) as [Hin He]. exists b. split_and!; [|done|].
  2:{ intros i Hi. rewrite <- Hm. by eapply entry_in_mono, He. }
  specialize (Hd kind sh). case_decide as Hch.
  - destruct Hd as (b' & d & Hb' & -> & Hsm). rewrite Eb in Hb'. unfold current in Hc. rewrite Hb' in Hc. by subst b'.
  - rewrite Hd. assert (bucket_of (persisted u1) n (u_root u1) kind sh b) as Hof.
    { unfold current in Hc. destruct (u_buckets u1 !! (kind, sh)) as [b'|] eqn:Hbk; [subst; by apply Hk|done]. }
    unfold bucket_of in Hof. case_match; [|done]. exists n. eapply obj_at_mono; [|done|exact Hof].
    intros d0 p Hdp. by eapply Hp, sound_pool.
Qed.

Lemma flush_run e n depth db u d u' :
  opened e n u db → (n ≤ depth)%nat → flush depth e u = Ok (d, u') →
  sound e u' ∧ ∃ r, somewhere (pool u') d r ∧ means (pool u') r (view u db).
Proof.
  intros Ho Hn Hr. unfold flush in Hr. do 2 mrun1. mrun1. 
  match goal with H : for_map _ _ _ _ = Ok (?w, ?t) |- _ => rename H into Hm, w into os, t into u1 end.
  do 2 mrun1. match goal with H : for_each _ _ _ _ = Ok (?w, ?t) |- _ => rename H into Hl, t into u2 end.
  mrun1. match goal with H : blob _ _ _ = _ |- _ => rename H into Hr end.
  assert (Forall (λ p : string * string * option document, u_pending u !! p.1 = Some p.2) (map_to_list (u_pending u))) as Hps.
  { apply list.Forall_forall. intros [k v] Hin. by apply elem_of_map_to_list in Hin. }
  pose proof (flush_objects_run e u n db depth Hn _ ∅ ∅ u os u1 Hps (flushing_start e u n db Ho) Hm) as F.
  rewrite !(right_id_L ∅ (∪)) in F.
  assert (linking e u1 ∅ u1) as L0 by (by split; [apply F|intros ??| |intros; rewrite decide_False by set_solver]).
  pose proof (flush_buckets_run _ _ _ _ _ _ _ L0 Hl) as L.
  rewrite (right_id_L ∅ (∪)), list_to_set_elements_L in L.
  assert (means (pool u2) (u_root u2) (view u db)) as M.
  { eapply linked_means; [exact F| |exact L]. intros k. unfold mixed. case_decide as Hk; [done|].
    unfold view. destruct (u_pending u !! k) as [v|] eqn:Hv; [|done]. exfalso. apply Hk.
    apply elem_of_list_to_set, list_elem_of_fmap. exists (k, v). split; [done|by apply elem_of_map_to_list]. }
  destruct (blob_somewhere _ _ _ _ _ Hr) as [P Q]. specialize (Q (lk_sound _ _ _ _ L)).
  destruct (proj2 P (lk_sound _ _ _ _ L)) as [S X]. split; [done|]. exists (u_root u2). split; [done|].
  intros kind sh. destruct (M kind sh) as (b & Hb & Hin & He). exists b. split_and!; [|done|].
  - case_match; [by eapply somewhere_mono|done].
  - intros i Hi. by eapply entry_in_mono, He.
Qed.

(** ** Persisting the pages *)
Lemma concat_batches ps batch size : concat (batches ps batch size) = batch ++ ps.
Proof.
  revert batch size. induction ps as [|p ps IH]; intros batch size; cbn [batches].
  - destruct batch; cbn; by rewrite ?app_nil_r.
  - destruct (_ || _); [|by rewrite IH, <- app_assoc].
    rewrite concat_app, IH. by destruct batch; cbn; rewrite ?app_nil_r.
Qed.

(** Each page is written before it is cached. *)
Definition persisting e (ps : list (string * string)) u u' : Prop :=
  sound e u → Forall (λ p : string * string, e.(x_address) p.2 = p.1) ps →
  sound e u' ∧ u'.(u_pages) = u.(u_pages) ∧ extends (persisted u) (persisted u')
  ∧ Forall (λ p : string * string, u'.(u_kv) !! p.1 = Some p.2) ps.
Lemma write_pages_run e ps u a u' :
  for_each ps (λ p : string * string, modify (λ u, u <| u_kv ::= <[p.1 := p.2]> |>) : U unit) e u = Ok (a, u') →
  persisting e ps u u' ∧ u'.(u_cache) = u.(u_cache).
Proof.
  revert u. induction ps as [|[d p] ps IH]; intros u Hr; cbn [for_each] in Hr.
  { apply ret_Ok in Hr as [_ ->]. split; [|done]. intros Hs _. split_and!; [done|done|by intros d p|constructor]. }
  mrun1. match goal with H : modify _ _ _ = _ |- _ => apply modify_Ok in H as -> end.
  match goal with H : for_each ps _ _ _ = _ |- _ => destruct (IH _ H) as [P Ec] end.
  split; [|done]. intros [Hnc Hnd Ha Hk] [Hd Hps]%Forall_cons_1. simpl in Hd.
  assert (∀ d' p', u_kv u !! d' = Some p' → <[d:=p]> (u_kv u) !! d' = Some p') as Hext.
  { intros d' p' Hd'. destruct (decide (d = d')) as [<-|Hne]; [|by rewrite lookup_insert_ne].
    rewrite lookup_insert_eq. f_equal. apply Hnc. rewrite Hd. symmetry. apply Ha. by right. }
  destruct P as (S & Ep & X & Hf); [split; [done|done| |]|done|].
  - simpl. intros d' p' [?|Hin]; [apply Ha; by left|].
    destruct (decide (d = d')) as [<-|Hne]; [rewrite lookup_insert_eq in Hin; by simplify_eq|].
    rewrite lookup_insert_ne in Hin by done. apply Ha. by right.
  - simpl. intros d' p' Hin. by apply Hext, Hk.
  - split_and!; [done|done|intros d' p' Hd'; by apply X, Hext|]. constructor; [|done].
    apply X. simpl. by rewrite lookup_insert_eq.
Qed.
Lemma cache_pages_run e ps u a u' :
  for_each ps (λ p : string * string, cache_put p.1 p.2) e u = Ok (a, u') →
  Forall (λ p : string * string, u.(u_kv) !! p.1 = Some p.2) ps → cached e u u'.
Proof.
  revert u. induction ps as [|[d p] ps IH]; intros u Hr Hps; cbn [for_each] in Hr.
  { by apply ret_Ok in Hr as [_ ->]. }
  mrun1. apply Forall_cons_1 in Hps as [Hd Hps]. cbn [fst snd] in *.
  destruct (cache_put_run d p e u) as (u1 & Hr1 & E & Hs).
  match goal with H : cache_put _ _ _ _ = _ |- _ => rewrite Hr1 in H; injection H as _ <- end.
  assert (u_kv u1 = u_kv u) as Ek by (by rewrite E).
  etrans; [split; [exact E|by apply Hs]|]. eapply IH; [done|]. by rewrite Ek.
Qed.
Lemma persist_batch_run e ps u a u' : persist_batch ps e u = Ok (a, u') → persisting e ps u u'.
Proof.
  intros Hr. unfold persist_batch in Hr. mrun1.
  match goal with H : for_each _ _ e u = _ |- _ => apply write_pages_run in H as [P Ec] end.
  match goal with P : persisting _ _ _ ?t, H : for_each _ _ e ?t = _ |- _ => rename H into Hc end.
  intros Hs Ha. destruct (P Hs Ha) as (S & Ep & X & Hf).
  destruct (cache_pages_run _ _ _ _ _ Hc Hf) as [E Hs']. specialize (Hs' S).
  revert E Hs'. generalize (u_cache u') as c. intros c -> Hs'. by split_and!.
Qed.
Lemma persist_batches_run e bs u a u' :
  for_each bs persist_batch e u = Ok (a, u') → persisting e (concat bs) u u'.
Proof.
  revert u. induction bs as [|b bs IH]; intros u Hr; cbn [for_each] in Hr.
  { apply ret_Ok in Hr as [_ ->]. intros Hs _. split_and!; [done|done|by intros d p|constructor]. }
  mrun1. match goal with H : persist_batch _ _ _ = _ |- _ => apply persist_batch_run in H as P1 end.
  match goal with H : for_each bs _ _ _ = _ |- _ => apply IH in H as P2 end.
  intros Hs [Hb Hbs]%list.Forall_app. destruct (P1 Hs Hb) as (S1 & E1 & X1 & F1).
  destruct (P2 S1 Hbs) as (S2 & E2 & X2 & F2). split_and!; [done|congruence|intros d p ?; by apply X2, X1|].
  apply list.Forall_app. split; [|done]. eapply list.Forall_impl; [exact F1|]. simpl. intros p. apply X2.
Qed.
Lemma persist_pages_run e u a u' :
  persist_pages e u = Ok (a, u') → sound e u →
  sound e u' ∧ extends (pool u) (persisted u').
Proof.
  intros Hr Hs. unfold persist_pages in Hr. do 2 mrun1.
  match goal with H : for_each _ _ _ _ = _ |- _ => apply persist_batches_run in H as P end.
  rewrite concat_batches in P. simpl in P. destruct (P Hs) as (S & _ & X & F).
  - apply list.Forall_forall. intros [d p] Hin. simpl. apply (s_address _ _ Hs). left. by apply dget_NoDup; [apply Hs|].
  - split; [done|]. intros d p [Hp|Hp]%pool_cases; [|by apply X].
    apply dget_elem in Hp. rewrite list.Forall_forall in F. by apply (F _ Hp).
Qed.

(** ** One depth for a whole store *)
Lemma bounded {A} (l : list A) (P : A → nat → Prop) :
  (∀ a n m, P a n → (n ≤ m)%nat → P a m) → (∀ a, a ∈ l → ∃ n, P a n) → ∃ n, ∀ a, a ∈ l → P a n.
Proof.
  intros Hm. induction l as [|a l IH]; intros Hl; [exists O; set_solver|].
  destruct (Hl a) as [n Hn]; [set_solver|]. destruct IH as [m Hm']; [set_solver|].
  exists (n + m)%nat. intros b [->|Hb]%elem_of_cons; eapply Hm; [done|lia|by apply Hm'|lia].
Qed.
Lemma bounded_map {A} (t : gmap string A) (P : string → A → nat → Prop) :
  (∀ i a n m, P i a n → (n ≤ m)%nat → P i a m) → (∀ i a, t !! i = Some a → ∃ n, P i a n) →
  ∃ n, ∀ i a, t !! i = Some a → P i a n.
Proof.
  intros Hm Ht. destruct (bounded (map_to_list t) (λ p, P p.1 p.2)) as [n Hn]; [by eauto| |].
  - intros [i a] Hin%elem_of_map_to_list. by apply Ht.
  - exists n. intros i a Hia. apply (Hn (i, a)). by apply elem_of_map_to_list.
Qed.
(** Objects, then entries, below one depth. *)
Lemma means_uniform look r (tbl : tables) :
  means look r (λ k, tbl !! k) → ∃ n, represents look n r tbl.
Proof.
  intros Hm.
  destruct (bounded_map r (λ kind t n, ∀ sh d, t !! sh = Some d → ∃ b : gmap string string, obj_at look n d b)) as [n1 Hn1].
  { intros kind t n m Hn Hle sh d Hd. destruct (Hn sh d Hd) as [b Hb]. exists b. eapply obj_at_mono; [|done|done]. apply extends_refl. }
  { intros kind t Ht. apply bounded_map with (P := λ sh d n, ∃ b : gmap string string, obj_at look n d b).
    - intros sh d n m [b Hb] Hle. exists b. eapply obj_at_mono; [apply extends_refl|done|done].
    - intros sh d Hd. destruct (Hm kind sh) as (b & Hb & _). unfold shards in Hb. rewrite Ht in Hb. simpl in Hb.
      rewrite Hd in Hb. destruct Hb as [n Hn]. eauto. }
  destruct (bounded (map_to_list tbl) (λ p n, ∀ b, (match shards r p.1.1 !! shard p.1.2 with
      Some d => somewhere look d b | None => b = ∅ end) → entry look n b p.1.2 (Some p.2))) as [n2 Hn2].
  { intros p n m Hn Hle b Hb. destruct (Hn b Hb) as (d & Hd & Ho). exists d. split; [done|].
    eapply obj_at_mono; [apply extends_refl|done|done]. }
  { intros [[kind i] v] Hin%elem_of_map_to_list. destruct (Hm kind (shard i)) as (b & Hb & _ & He).
    specialize (He i eq_refl). rewrite Hin in He. destruct He as (d & Hd & [n Hn]). exists n. simpl. intros b' Hb'.
    assert (b' = b) as ->; [|exists d; done]. case_match; [|congruence].
    destruct Hb as [m1 Hb], Hb' as [m2 Hb']. by eapply obj_at_det. }
  exists (n1 + n2)%nat. intros kind sh. destruct (Hm kind sh) as (b & Hb & Hin & He). exists b.
  split_and!; [|done|].
  - unfold bucket_of. destruct (shards r kind !! sh) as [d|] eqn:Hd; [|done]. unfold shards in Hd.
    destruct (r !! kind) as [t|] eqn:Ht; simpl in Hd; [|by rewrite lookup_empty in Hd].
    destruct (Hn1 kind t Ht sh d Hd) as [b' Hb']. destruct Hb as [m Hb].
    rewrite (obj_at_det _ _ _ _ _ _ Hb Hb'). eapply obj_at_mono; [apply extends_refl| |done]. lia.
  - intros i Hi. specialize (He i Hi). destruct (tbl !! (kind, i)) as [v|] eqn:Hv; [|exact He].
    destruct (Hn2 ((kind, i), v)) with (b := b) as (d & Hd & Ho); [by apply elem_of_map_to_list|simpl; by rewrite Hi|].
    exists d. split; [done|]. eapply obj_at_mono; [apply extends_refl| |done]. lia.
Qed.

(** ** The unit of work *)
Definition viewed u db : tables := merge (λ o v, match o with Some w => w | None => v end) u.(u_pending) db.
Lemma lookup_viewed u db k : viewed u db !! k = view u db k.
Proof. unfold viewed, view. rewrite lookup_merge. by destruct (u_pending u !! k), (db !! k). Qed.

Lemma open_unit_run e n depth db r d u :
  sound e u → (n ≤ depth)%nat → obj_at (persisted u) n d r → represents (persisted u) n r db →
  ∃ u', open_unit depth (Some d) e u = Ok (tt, u') ∧ opened e n u' db ∧ u'.(u_pending) = ∅.
Proof.
  intros Hs Hn Hr Hdb. unfold open_unit. destruct (object_run n depth d r e u Hs Hn Hr) as (u1 & Hr1 & [E S]).
  rewrite (bind_run Hr1). eexists. split; [done|]. assert (u_kv u1 = u_kv u) as Ek by (by rewrite E).
  split; [|done]. destruct (S Hs) as [Hnc Hnd Hp Hk]. split_and!; [|by simpl; rewrite Ek|done].
  split; simpl; [done|constructor| |done]. intros d' p [?|Hin]; [done|]. apply Hp. by right.
Qed.
Lemma flushed_view e n depth db u d u1 a u2 :
  opened e n u db → (n ≤ depth)%nat → flush depth e u = Ok (d, u1) → persist_pages e u1 = Ok (a, u2) →
  ∃ m r, obj_at (persisted u2) m d r ∧ represents (persisted u2) m r (viewed u db).
Proof.
  intros Ho Hn Hf Hp. destruct (flush_run _ _ _ _ _ _ _ Ho Hn Hf) as (S1 & r & [m1 Hr] & Hm).
  destruct (persist_pages_run _ _ _ _ Hp S1) as [S2 X].
  destruct (means_uniform (persisted u2) r (viewed u db)) as [m2 Hm2].
  { intros kind sh. destruct (Hm kind sh) as (b & Hb & Hin & He). exists b. split_and!; [|done|].
    - case_match; [by eapply somewhere_mono|done].
    - intros i Hi. rewrite lookup_viewed. eapply entry_in_mono; [exact X|by apply He]. }
  exists (m1 + m2)%nat, r. split; [eapply obj_at_mono; [exact X| |done]; lia|].
  intros kind sh. destruct (Hm2 kind sh) as (b & Hb & Hin & He). exists b. split_and!; [|done|].
  - unfold bucket_of in *. case_match; [|done]. eapply obj_at_mono; [apply extends_refl| |done]. lia.
  - intros i Hi. specialize (He i Hi). unfold entry in *. case_match; [|done]. destruct He as (d' & ? & ?).
    exists d'. split; [done|]. eapply obj_at_mono; [apply extends_refl| |done]. lia.
Qed.

(** C9: What a unit of work publishes is what it saw.  When a unit that opened the
    tables [db] flushes and persists its pages, any control that then opens the
    published root, with a cache of its own, reads every identity exactly as the
    unit left it: its last write, its deletion, or the record it had opened; enough
    depth is enough for all of them. *)
Theorem unit_publishes e n depth db u d u1 a u2 :
  opened e n u db → (n ≤ depth)%nat → flush depth e u = Ok (d, u1) → persist_pages e u1 = Ok (a, u2) →
  ∃ m, ∀ e' u' depth', sound e' u' → extends (persisted u2) (persisted u') → (m ≤ depth')%nat →
    ∀ kind i, ∃ u3, (open_unit depth' (Some d);; unit_get depth' kind i) e' u' = Ok (view u db (kind, i), u3).
Proof.
  intros Ho Hn Hf Hp. destruct (flushed_view _ _ _ _ _ _ _ _ _ Ho Hn Hf Hp) as (m & r & Hr & Hdb).
  exists m. intros e' u' depth' S X Hd kind i.
  destruct (open_unit_run e' m depth' (viewed u db) r d u' S Hd) as (u3 & Hr3 & O3 & P3).
  { by eapply obj_at_mono. }
  { intros k sh. destruct (Hdb k sh) as (b & Hb & Hin & He). exists b. split_and!; [|done|].
    - unfold bucket_of in *. case_match; [by eapply obj_at_mono|done].
    - intros j Hj. specialize (He j Hj). unfold entry in *. case_match; [|done]. destruct He as (d' & ? & ?).
      exists d'. split; [done|by eapply obj_at_mono]. }
  destruct (unit_get_run m depth' (viewed u db) kind i e' u3 O3 Hd) as (u4 & Hr4 & _).
  exists u4. rewrite (bind_run Hr3), Hr4. unfold view at 1. by rewrite P3, lookup_empty, lookup_viewed.
Qed.
End Publish.

(** ** A first publication *)
Module Sample.
Import Lab.
Definition env : unit_env :=
  mkUnitEnv true 1000 6000 "/p/" id (λ _, None) (λ _, None) Z.of_nat (λ _, "u").
Definition group_record : document :=
  mkDocument "g1" false false false None "staff" false false 0 None None "members".
Definition fresh : unit_state := mkUnit [] ∅ [] ∅ ∅ ∅ ∅ ∅ ∅ 0.
Definition written : unit_state := writing fresh ("group", "g1") (Some group_record).
Definition flushed : string * unit_state := ok_or ("", fresh) (flush 2 env written).
Definition persisted_unit : unit * unit_state := ok_or (tt, fresh) (persist_pages env flushed.2).
Lemma flush_ok : flush 2 env written = Ok (flushed.1, flushed.2).
Proof. unfold flushed. apply (ok_pair ("", fresh)). vm_compute. reflexivity. Qed.
Lemma persist_ok : persist_pages env flushed.2 = Ok (persisted_unit.1, persisted_unit.2).
Proof. unfold persisted_unit. apply (ok_pair (tt, fresh)). vm_compute. reflexivity. Qed.
End Sample.

Import Lab.
Lemma unit_publishes_witness :
  flush 2 Sample.env Sample.written = Ok (Sample.flushed.1, Sample.flushed.2)
  ∧ persist_pages Sample.env Sample.flushed.2 = Ok (Sample.persisted_unit.1, Sample.persisted_unit.2)
  ∧ ∃ m, ∀ e' u' depth', sound e' u' → extends (persisted Sample.persisted_unit.2) (persisted u') → (m ≤ depth')%nat →
      ∀ kind i, ∃ u3, (open_unit depth' (Some Sample.flushed.1);; unit_get depth' kind i) e' u'
                      = Ok (view Sample.written ∅ (kind, i), u3).
Proof.
  split; [exact Sample.flush_ok|]. split; [exact Sample.persist_ok|].
  apply (unit_publishes Sample.env 1 2 ∅ Sample.written Sample.flushed.1 Sample.flushed.2
           Sample.persisted_unit.1 Sample.persisted_unit.2);
    [|lia|exact Sample.flush_ok|exact Sample.persist_ok].
  split; [split; [by intros p q|constructor|by intros d p [?|?]|by intros d p ?%elem_of_nil]|].
  split; [|done]. intros kind sh. exists ∅. split_and!; [done|by intros i [? ?]|].
  intros i _. simpl. by rewrite !lookup_empty.
Defined.
