(* ===== verification/Publication.v ===== *)
(** * Publishing a unit of work ([EtcdMetadataStore.transaction])

    A writing unit takes the gate, reads the root, and publishes its new root
    with one etcd transaction, conditional on the gate, the revision of the root
    it read and its guards.  Controls interleave freely; the lease of the gate may
    expire under its owner; the failover channel may send a transaction twice. *)
From S2P Require Import Prelude Domain Data Store Etcd.

Module Publication.
(** The keys of etcd this protocol uses; [revision] is etcd's own counter. *)
Record cluster := mkCluster {
  gate : option string; root_value : option string; root_revision : Z; revision : Z;
  markers : gmap string string; leases : gmap string string }.
#[export] Instance eta_cluster : Eta cluster := λ r,
  mkCluster r.(gate) r.(root_value) r.(root_revision) r.(revision) r.(markers) r.(leases).

(** A unit that holds the gate: what it read, what it will publish. *)
Record attempt := mkAttempt {
  owner : string; base : option string; base_revision : Z; digest : string;
  guards : list (string * string); effects : list (string * option string); previous_marker : option string }.

Definition acquire_gate (o : string) (c : cluster) : option cluster :=
  match c.(gate) with
  | None => Some (c <| gate := Some o |> <| revision ::= Z.succ |>)
  | Some _ => None
  end.
Definition open_root (c : cluster) : option string * Z := (c.(root_value), c.(root_revision)).

Definition within_limits (a : attempt) : bool :=
  (Z.of_nat (length a.(guards)) <=? MAX_GUARDS) && (Z.of_nat (length a.(effects)) <=? MAX_GUARDS).
Definition guards_hold (a : attempt) (c : cluster) : bool :=
  bool_decide (c.(gate) = Some a.(owner)) && (c.(root_revision) =? a.(base_revision))
  && forallb (λ p, bool_decide (c.(leases) !! p.1 = Some p.2)) a.(guards).
Definition apply_effect (m : gmap string string) (x : string * option string) : gmap string string :=
  match x.2 with Some v => <[x.1 := v]> m | None => delete x.1 m end.
(** The success branch: lease keys, the marker, the root when it differs, and
    the gate given back. *)
Definition publish (a : attempt) (c : cluster) : cluster :=
  let ms := <[a.(owner) := a.(digest)]> c.(markers) in
  let ms := match a.(previous_marker) with Some m => delete m ms | None => ms end in
  let c := c <| revision ::= Z.succ |> <| leases := fold_left apply_effect a.(effects) c.(leases) |>
             <| markers := ms |> <| gate := None |> in
  if decide (c.(root_value) = Some a.(digest)) then c
  else c <| root_value := Some a.(digest) |> <| root_revision := c.(revision) |>.
Definition commit (a : attempt) (c : cluster) : bool * cluster :=
  if guards_hold a c then (true, publish a c) else (false, c).
(** What the unit answers once the transaction returned. *)
Definition outcome (a : attempt) (succeeded : bool) (c : cluster) : result exn Datatypes.unit :=
  if succeeded || bool_decide (c.(markers) !! a.(owner) = Some a.(digest)) then Ok tt else Err (Fault VERSION_CONFLICT).
Definition release (o : string) (c : cluster) : cluster :=
  if decide (c.(gate) = Some o) then c <| gate := None |> <| revision ::= Z.succ |> else c.

(** The world: etcd, the owners drawn so far, the attempts under way, and the
    publications in the order etcd applied them. *)
Record world := mkWorld {
  store : cluster; drawn : gset string; attempts : list attempt;
  log : list (string * option string * string) }.   (* owner, base, digest *)
Definition start : world := mkWorld (mkCluster None None 0 0 ∅ ∅) ∅ [] [].

Inductive step : world → world → Prop :=
  | step_acquire w o c : o ∉ w.(drawn) → acquire_gate o w.(store) = Some c →
      step w (mkWorld c ({[o]} ∪ w.(drawn)) w.(attempts) w.(log))
  | step_prepare w a : a.(owner) ∈ w.(drawn) → (a.(base), a.(base_revision)) = open_root w.(store) →
      within_limits a = true → step w (mkWorld w.(store) w.(drawn) (a :: w.(attempts)) w.(log))
  | step_commit w a c : a ∈ w.(attempts) → commit a w.(store) = (true, c) →
      step w (mkWorld c w.(drawn) w.(attempts) (w.(log) ++ [(a.(owner), a.(base), a.(digest))]))
  | step_refused w a c : a ∈ w.(attempts) → commit a w.(store) = (false, c) →
      step w (mkWorld c w.(drawn) w.(attempts) w.(log))
  | step_release w o : step w (mkWorld (release o w.(store)) w.(drawn) w.(attempts) w.(log))
  | step_expire w : step w (mkWorld (w.(store) <| gate := None |>) w.(drawn) w.(attempts) w.(log))
  | step_leases w l : step w (mkWorld (w.(store) <| leases := l |>) w.(drawn) w.(attempts) w.(log)).

(** Each publication starts from the root the one before it left. *)
Fixpoint chain (from : option string) (l : list (string * option string * string)) : option (option string) :=
  match l with
  | [] => Some from
  | (_, b, d) :: l => if decide (b = from) then chain (Some d) l else None
  end.
Lemma chain_snoc f l o b d r :
  chain f l = Some r → chain f (l ++ [(o, b, d)]) = if decide (b = r) then Some (Some d) else None.
Proof.
  revert f. induction l as [|[[o' b'] d'] l IH]; intros f; simpl; [by intros [= ->]|].
  destruct (decide (b' = f)); [apply IH|done].
Qed.

Record consistent (w : world) : Prop := mkConsistent {
  co_chain : chain None w.(log) = Some w.(store).(root_value);
  co_revision : w.(store).(root_revision) ≤ w.(store).(revision);
  co_base : ∀ a, a ∈ w.(attempts) → a.(base_revision) ≤ w.(store).(root_revision)
    ∧ (a.(base_revision) = w.(store).(root_revision) → a.(base) = w.(store).(root_value));
  co_gate : ∀ o, w.(store).(gate) = Some o → o ∈ w.(drawn) ∧ o ∉ map (λ p, p.1.1) w.(log);
  co_log : NoDup (map (λ p, p.1.1) w.(log)) ∧ ∀ p, p ∈ w.(log) → p.1.1 ∈ w.(drawn) }.

Lemma publish_consistent w a :
  consistent w → a ∈ w.(attempts) → guards_hold a w.(store) = true →
  consistent (mkWorld (publish a w.(store)) w.(drawn) w.(attempts) (w.(log) ++ [(a.(owner), a.(base), a.(digest))])).
Proof.
  intros [Hc Hr Hb Hg [Hn Hd]] Ha Hh. unfold guards_hold in Hh. bsimpl.
  destruct (Hb a Ha) as [_ Hbase]. destruct (Hg (owner a)) as [Hdrawn Hnew]; [done|].
  assert (base a = root_value (store w)) as Eb by auto.
  assert (∀ m, gate (publish a (store w)) = Some m → False) as Hgate by (intros m; unfold publish; by case_decide).
  assert (root_value (publish a (store w)) = Some (digest a)) as Er by (unfold publish; by case_decide).
  assert (revision (publish a (store w)) = Z.succ (revision (store w))) as Ev by (unfold publish; by case_decide).
  split; cbn [store attempts log drawn].
  - rewrite (chain_snoc _ _ _ _ _ _ Hc), decide_True by done. by rewrite Er.
  - rewrite Ev. unfold publish. case_decide; simpl; lia.
  - intros a' Ha'. destruct (Hb a' Ha') as [Hle Heq]. rewrite Er. unfold publish. case_decide as Hd'; simpl in *.
    + split; [lia|]. intros E. rewrite <- Hd'. auto.
    + split; [lia|]. intros E. lia.
  - intros o Ho. by apply Hgate in Ho.
  - rewrite map_app. simpl. split.
    + apply list.NoDup_app. split_and!; [done|set_solver|apply NoDup_singleton].
    + intros p [Hp|Hp%list_elem_of_singleton]%elem_of_app; [by apply Hd|by subst].
Qed.

Lemma step_consistent w w' : step w w' → consistent w → consistent w'.
Proof.
  intros Hs Hw. destruct Hs as [w o c Ho Ha|w a Ha Hopen _|w a c Ha Hc|w a c Ha Hc|w o|w|w l].
  - unfold acquire_gate in Ha. destruct (gate (store w)) eqn:Hg; [done|]. injection Ha as <-.
    destruct Hw as [Hc Hr Hb _ [Hn Hd]]. split; simpl; [done|lia|done| |].
    + intros o' [= <-]. split; [set_solver|]. intros ([p ?] & -> & Hp)%list_elem_of_fmap. set_solver.
    + split; [done|]. set_solver.
  - destruct Hw as [Hc Hr Hb Hg Hl]. injection Hopen as Hba Hre. split; simpl; [done|done| |done|done].
    intros a' [->|Ha']%elem_of_cons; [split; [lia|done]|by apply Hb].
  - unfold commit in Hc. destruct (guards_hold _ _) eqn:Hh; [|done]. injection Hc as <-. by apply publish_consistent.
  - unfold commit in Hc. destruct (guards_hold _ _); [done|]. injection Hc as <-. by destruct w, Hw.
  - destruct Hw as [Hc Hr Hb Hg Hl]. unfold release. case_decide; split; simpl; try done; lia.
  - destruct Hw as [Hc Hr Hb Hg Hl]. by split.
  - destruct Hw as [Hc Hr Hb Hg Hl]. by split.
Qed.

(** C10: Publications are serial.  However the controls interleave, whenever gates
    expire and however often a transaction is repeated, each publication was
    computed from exactly the root the previous one left (no update is lost),
    the last one is the current root, and no attempt is applied twice. *)
Theorem publications_serial w :
  rtc step start w →
  chain None w.(log) = Some w.(store).(root_value) ∧ NoDup (map (λ p, p.1.1) w.(log)).
Proof.
  intros Hr. assert (consistent w) as [Hc _ _ _ [Hn _]]; [|done].
  revert w Hr. apply rtc_ind_r.
  - split; simpl; [done|lia|set_solver|done|]. split; [constructor|set_solver].
  - intros y z _ Hs Hy. by eapply step_consistent.
Qed.
Lemma publications_serial_witness :
  let w := mkWorld (mkCluster None (Some "d") 2 2 {["o" := "d"]} ∅) {["o"]}
             [mkAttempt "o" None 0 "d" [] [] None] [("o", None, "d")] in
  chain None w.(log) = Some w.(store).(root_value) ∧ NoDup (map (λ p, p.1.1) w.(log)).
Proof.
  apply (publications_serial (mkWorld (mkCluster None (Some "d") 2 2 {["o" := "d"]} ∅) {["o"]}
             [mkAttempt "o" None 0 "d" [] [] None] [("o", None, "d")])).
  eapply rtc_l; [apply (step_acquire start "o"); [set_solver|reflexivity]|].
  eapply rtc_l; [apply (step_prepare _ (mkAttempt "o" None 0 "d" [] [] None)); [set_solver|reflexivity|reflexivity]|].
  eapply rtc_l; [apply (step_commit _ (mkAttempt "o" None 0 "d" [] [] None)); [set_solver|reflexivity]|].
  match goal with |- rtc _ ?a ?b => assert (a = b) as -> by reflexivity; apply rtc_refl end.
Defined.
End Publication.
