(* ===== verification/Ownership.v ===== *)
(** * Who runs maintenance ([control/ha.py])

    Several controls share one store.  The key [maintenance-owner], attached to a
    lease, elects one of them; the elected one publishes a new generation, and
    the publications of its maintenance compare the key with an owner.
    Controls and etcd interleave at every call: a lease may expire, a process may
    stop and a message be late, lost or repeated at any time.  That a unit of work
    is published in one step, from the root it read, is in [Publication]. *)
From Stdlib Require String.
From S2P Require Import Prelude Domain Data Store Auth Leases Cluster Placement Requests Queries Commands Access Protection Service Nodes Maintenance Protected.

Module Ownership.
(** ** etcd *)
Record etcd := mkEtcd {
  owner_key : option (string * Z);       (* value, lease *)
  live : gset Z; granted : gset Z;       (* leases *)
  published : option maintenance;        (* the record [maintenance] of the published root *)
  root_revision : Z }.
#[export] Instance eta_etcd : Eta etcd := λ r, mkEtcd r.(owner_key) r.(live) r.(granted) r.(published) r.(root_revision).
Definition lease_grant (l : Z) (e : etcd) : etcd := e <| live ::= λ x, {[l]} ∪ x |> <| granted ::= λ x, {[l]} ∪ x |>.
Definition lease_expire (l : Z) (e : etcd) : etcd :=
  let e := e <| live ::= λ x, x ∖ {[l]} |> in
  match e.(owner_key) with Some (_, l') => if decide (l = l') then e <| owner_key := None |> else e | None => e end.
(** The transaction of the election: the key must be absent, and its lease live. *)
Definition create_owner (v : string) (l : Z) (e : etcd) : bool * etcd :=
  if bool_decide (e.(owner_key) = None) && bool_decide (l ∈ e.(live)) then (true, e <| owner_key := Some (v, l) |>)
  else (false, e).
Definition owner_is (v : string) (e : etcd) : bool := bool_decide (fst <$> e.(owner_key) = Some v).

(** ** A control *)
Inductive phase :=
  | Idle
  | Renewing                                          (* the key has its value *)
  | Granting                                          (* the key was absent *)
  | Electing (l : Z) (v : string)                     (* the transaction is sent *)
  | Elected                                           (* [install_maintenance_generation] *)
  | Opening                                           (* its writing unit waits for the gate *)
  | Installing (base : option maintenance) (rev : Z)  (* the unit has read its root *)
  | Leading                                           (* [super().tick()] under the guard *)
  | Acting (base : option maintenance) (rev : Z) (checked : bool).
Record control := mkControl { instance : string; held : option (Z * string); phase_of : phase }.
#[export] Instance eta_control : Eta control := λ r, mkControl r.(instance) r.(held) r.(phase_of).
Definition goto (p : phase) (c : control) : control := c <| phase_of := p |>.

(** [take_maintenance]: what the owner key says. *)
Definition look (e : etcd) (c : control) : control :=
  match e.(owner_key) with
  | Some (v, _) => if decide (snd <$> c.(held) = Some v) then goto Renewing c else goto Idle c
  | None => goto Granting c
  end.
Definition renew (e : etcd) (c : control) : control :=
  match c.(held) with
  | Some (l, _) => if decide (l ∈ e.(live)) then goto Elected c else goto Idle c
  | None => goto Idle c
  end.
Definition elected (l : Z) (v : string) (won : bool) (c : control) : control :=
  if won then c <| held := Some (l, v) |> <| phase_of := Elected |> else goto Idle c.
(** [install_maintenance_generation]: nothing to do when it is the owner already. *)
Definition owned (v : string) (o : option maintenance) : bool :=
  match o with Some m => bool_decide (m.(mt_lease_owner) = v) | None => false end.
Definition check_installed (e : etcd) (c : control) : control :=
  match c.(held) with
  | Some (_, v) => if owned v e.(published) then goto Leading c else goto Opening c
  | None => goto Idle c
  end.
Definition next_generation (v i : string) (previous : option maintenance) : option maintenance :=
  if owned v previous then previous
  else Some (mkMaintenance "maintenance" (default 0 (mt_generation <$> previous) + 1) v i).
(** It is the record that [Maintenance.install_generation] leaves in its unit. *)
Lemma install_leaves_next v i e (s : st) :
  ∃ s', install_generation v i e s = Ok (tt, s')
    ∧ s'.(s_db) KMaintenance !! "maintenance" = next_generation v i (s.(s_db) KMaintenance !! "maintenance").
Proof.
  assert (∀ o : option maintenance, s.(s_db) KMaintenance !! "maintenance" = o → ∃ s',
    (match o with
     | Some m => if decide (m.(mt_lease_owner) = v) then mret tt
                 else put KMaintenance (mkMaintenance "maintenance" (m.(mt_generation) + 1) v i)
     | None => put KMaintenance (mkMaintenance "maintenance" 1 v i)
     end) e s = Ok (tt, s') ∧ s'.(s_db) KMaintenance !! "maintenance" = next_generation v i o) as Hm; [|exact (Hm _ eq_refl)].
  intros o Ho. unfold next_generation. destruct o as [m|]; cbn.
  - destruct (decide (mt_lease_owner m = v)) as [Hv|Hv]; [rewrite bool_decide_true by done; by exists s|].
    rewrite bool_decide_false by done. eexists. split; [reflexivity|].
    apply (put_db_eq KMaintenance (mkMaintenance "maintenance" (mt_generation m + 1) v i)).
  - eexists. split; [reflexivity|]. apply (put_db_eq KMaintenance (mkMaintenance "maintenance" 1 v i)).
Qed.
(** [maintenance(tx)] in a unit: the record of its root, and the lease of the
    owner it names. *)
Definition lease_live (base : option maintenance) (e : etcd) : bool :=
  match base with Some m => owner_is m.(mt_lease_owner) e | None => false end.
(** The value the owner key is compared with: [required_guards] says the own one,
    [lease_live] replaces it by the one it found. *)
Definition guard_of (v : string) (base : option maintenance) (checked : bool) : string :=
  if checked then default v (mt_lease_owner <$> base) else v.
(** What the transaction that publishes a unit compares. *)
Definition owner_guards (v : string) (rev : Z) (e : etcd) : bool := owner_is v e && (e.(root_revision) =? rev).
Definition publish (o : option maintenance) (e : etcd) : etcd := e <| published := o |> <| root_revision ::= Z.succ |>.

(** ** The world *)
Inductive entry := Installed (generation : Z) (v : string) | Worked (generation : Z) (owner publisher : string).
Record world := mkWorld {
  store : etcd; controls : gmap string control;
  drawn : gset string;                   (* the values drawn *)
  wire : list (string * Z);              (* elections sent, which may arrive late and again *)
  log : list entry }.                    (* the publications of maintenance, in order *)
#[export] Instance eta_world : Eta world := λ r, mkWorld r.(store) r.(controls) r.(drawn) r.(wire) r.(log).
Definition set_control (i : string) (c : control) (w : world) : world := w <| controls ::= <[i := c]> |>.
Definition generation_of (o : option maintenance) : Z := default 0 (mt_generation <$> o).

Inductive step : world → world → Prop :=
  | step_look w i c : w.(controls) !! i = Some c → c.(phase_of) = Idle →
      step w (set_control i (look w.(store) c) w)
  | step_renew w i c : w.(controls) !! i = Some c → c.(phase_of) = Renewing →
      step w (set_control i (renew w.(store) c) w)
  | step_grant w i c l v u : w.(controls) !! i = Some c → c.(phase_of) = Granting →
      l ∉ w.(store).(granted) → v = c.(instance) +:+ ":" +:+ u → v ∉ w.(drawn) →
      step w (set_control i (goto (Electing l v) c)
                (w <| store ::= lease_grant l |> <| drawn ::= λ d, {[v]} ∪ d |> <| wire ::= cons (v, l) |>))
  | step_elect w i c l v won e : w.(controls) !! i = Some c → c.(phase_of) = Electing l v →
      create_owner v l w.(store) = (won, e) →
      step w (set_control i (elected l v won c) (w <| store := e |>))
  | step_late w v l won e : (v, l) ∈ w.(wire) → create_owner v l w.(store) = (won, e) →
      step w (w <| store := e |>)
  | step_check w i c : w.(controls) !! i = Some c → c.(phase_of) = Elected →
      step w (set_control i (check_installed w.(store) c) w)
  | step_open w i c : w.(controls) !! i = Some c → c.(phase_of) = Opening →
      step w (set_control i (goto (Installing w.(store).(published) w.(store).(root_revision)) c) w)
  | step_install w i c l v base rev heard : w.(controls) !! i = Some c → c.(phase_of) = Installing base rev →
      c.(held) = Some (l, v) → owner_guards v rev w.(store) = true →
      step w (set_control i (goto (if (heard : bool) then Leading else Idle) c)
                (w <| store ::= publish (next_generation v c.(instance) base) |>
                   <| log ::= λ g, g ++ if owned v base then [] else [Installed (generation_of base + 1) v] |>))
  | step_begin w i c : w.(controls) !! i = Some c → c.(phase_of) = Leading →
      step w (set_control i (goto (Acting w.(store).(published) w.(store).(root_revision) false) c) w)
  | step_verify w i c base rev checked : w.(controls) !! i = Some c → c.(phase_of) = Acting base rev checked →
      lease_live base w.(store) = true → step w (set_control i (goto (Acting base rev true) c) w)
  | step_act w i c l v base rev checked heard : w.(controls) !! i = Some c → c.(phase_of) = Acting base rev checked →
      c.(held) = Some (l, v) → owner_guards (guard_of v base checked) rev w.(store) = true →
      step w (set_control i (goto (if (heard : bool) then Leading else Idle) c)
                (w <| store ::= publish base |>
                   <| log ::= λ g, g ++ [Worked (generation_of base) (guard_of v base checked) v] |>))
  | step_give_up w i c : w.(controls) !! i = Some c → step w (set_control i (goto Idle c) w)
  | step_start w i name : step w (set_control i (mkControl name None Idle) w)
  | step_expire w l : step w (w <| store ::= lease_expire l |>)
  | step_other w : step w (w <| store ::= publish w.(store).(published) |>).
Definition start : world := mkWorld (mkEtcd None ∅ ∅ None 0) ∅ ∅ [] [].

(** ** Generations are fencing tokens *)
Abbreviation token := (option (Z * string)).
(** Installations count up; work carries the generation and the owner installed
    last. *)
Fixpoint fence (cur : token) (l : list entry) : option token :=
  match l with
  | [] => Some cur
  | Installed g v :: l => if decide (g = default 0 (fst <$> cur) + 1) then fence (Some (g, v)) l else None
  | Worked g v _ :: l => if decide (cur = Some (g, v)) then fence cur l else None
  end.
Definition owners (l : list entry) : list string :=
  flat_map (λ x, match x with Installed _ v => [v] | Worked _ _ _ => [] end) l.
Definition token_of (o : option maintenance) : token := (λ m, (m.(mt_generation), m.(mt_lease_owner))) <$> o.
Lemma fence_app cur l l' t : fence cur l = Some t → fence cur (l ++ l') = fence t l'.
Proof.
  revert cur. induction l as [|[g v|g v p] l IH]; intros cur; simpl; [by intros [= ->]| |]; case_decide; by auto.
Qed.
Lemma owners_app l l' : owners (l ++ l') = owners l ++ owners l'.
Proof. apply flat_map_app. Qed.

(** The value of a control that leads was installed. *)
Definition leads (c : control) : Prop :=
  match c.(phase_of) with Leading | Acting _ _ _ => True | _ => False end.
Definition control_ok (w : world) (c : control) : Prop :=
  (∀ l v, c.(held) = Some (l, v) → (v, l) ∈ w.(wire) ∧ (leads c → v ∈ owners w.(log)))
  ∧ match c.(phase_of) with
    | Electing l v => (v, l) ∈ w.(wire)
    | Installing b r | Acting b r _ =>
        r ≤ w.(store).(root_revision) ∧ (r = w.(store).(root_revision) → b = w.(store).(published))
    | _ => True
    end.
Record consistent (w : world) : Prop := mkConsistent {
  co_pairs : ∀ v l v' l', (v, l) ∈ w.(wire) → (v', l') ∈ w.(wire) → v = v' ∨ l = l' → (v, l) = (v', l');
  co_wire : ∀ v l, (v, l) ∈ w.(wire) → v ∈ w.(drawn) ∧ l ∈ w.(store).(granted);
  co_live : w.(store).(live) ⊆ w.(store).(granted);
  co_key : ∀ v l, w.(store).(owner_key) = Some (v, l) → (v, l) ∈ w.(wire) ∧ l ∈ w.(store).(live);
  (* an owner that was installed has the key, or never has it again *)
  co_spent : ∀ v, v ∈ owners w.(log) → ∃ l, (v, l) ∈ w.(wire)
    ∧ (w.(store).(owner_key) = Some (v, l) ∨ l ∉ w.(store).(live));
  co_last : ∀ v, v ∈ owners w.(log) → owner_is v w.(store) = true → owned v w.(store).(published) = true;
  co_fence : fence None w.(log) = Some (token_of w.(store).(published));
  co_owners : NoDup (owners w.(log));
  co_controls : ∀ i c, w.(controls) !! i = Some c → control_ok w c }.

(** ** Every step keeps it *)
(** What a control knows outlives the steps of others. *)
Lemma control_ok_later w w' c : control_ok w c → (∀ x, x ∈ w.(wire) → x ∈ w'.(wire)) →
  (∀ v, v ∈ owners w.(log) → v ∈ owners w'.(log)) → w.(store).(root_revision) ≤ w'.(store).(root_revision) →
  (w'.(store).(root_revision) = w.(store).(root_revision) → w'.(store).(published) = w.(store).(published)) → control_ok w' c.
Proof.
  intros [Hh Hp] Hw Hl Hr He. split; [naive_solver|].
  destruct (phase_of c); try done; [by apply Hw| |]; (destruct Hp as [Hle Hb]; split; [lia|]; intros E; rewrite He by lia; apply Hb; lia).
Qed.
Lemma owner_is_key v e : owner_is v e = true → ∃ l, e.(owner_key) = Some (v, l).
Proof. intros ([v' l] & Hk & E)%bool_decide_eq_true%fmap_Some. simpl in E. subst. by exists l. Qed.
Lemma set_control_ok w i c : consistent w → control_ok w c → consistent (set_control i c w).
Proof.
  intros [] Hc. split; try done. cbn. intros j x [[_ <-]|[_ Hx]]%lookup_insert_Some; [exact Hc|]. by apply (co_controls0 j).
Qed.
Lemma grant_ok w l v : consistent w → l ∉ w.(store).(granted) → v ∉ w.(drawn) →
  consistent (w <| store ::= lease_grant l |> <| drawn ::= λ d, {[v]} ∪ d |> <| wire ::= cons (v, l) |>).
Proof.
  intros [] Hl Hv. split; cbn.
  - intros v1 l1 v2 l2 [[= -> ->]|H1]%elem_of_cons [[= -> ->]|H2]%elem_of_cons E; [done| | |by apply co_pairs0].
    + destruct (co_wire0 _ _ H2). destruct E; set_solver.
    + destruct (co_wire0 _ _ H1). destruct E; set_solver.
  - intros v1 l1 [[= -> ->]|H1]%elem_of_cons; [set_solver|]. destruct (co_wire0 _ _ H1). set_solver.
  - set_solver.
  - intros v1 l1 H1. destruct (co_key0 _ _ H1) as [? ?]. split; [by right|set_solver].
  - intros v1 H1. destruct (co_spent0 v1 H1) as (l1 & Hw & Hd). exists l1. split; [by right|].
    destruct Hd as [?|Hd]; [by left|right]. destruct (co_wire0 _ _ Hw). set_solver.
  - done.
  - done.
  - done.
  - intros i c Hc. eapply control_ok_later; [by eapply co_controls0| | | |]; cbn; try done. intros x Hx. by right.
Qed.
Lemma create_ok w v l won e : consistent w → (v, l) ∈ w.(wire) → create_owner v l w.(store) = (won, e) →
  consistent (w <| store := e |>).
Proof.
  intros Hw Hin. unfold create_owner. destruct (_ && _) eqn:E; intros [= <- <-]; [|by destruct w, Hw].
  bsimpl. destruct Hw as [Hp Hwi Hl Hk Hs Hla Hf Ho Hc].
  assert (∀ v1, v1 ∈ owners (log w) → ∃ l1, (v1, l1) ∈ wire w ∧ l1 ∉ live (store w)) as Hdead.
  { intros v1 H1. destruct (Hs v1 H1) as (l1 & Hw1 & [Hd|Hd]); [congruence|by exists l1]. }
  split; cbn; try done.
  - by intros v1 l1 [= <- <-].
  - intros v1 H1. destruct (Hdead v1 H1) as (l1 & ? & ?). exists l1. split; [done|by right].
  - intros v1 H1 Hown. apply owner_is_key in Hown as [l1 [= <- <-]]. destruct (Hdead v H1) as (l1 & Hw1 & Hd1).
    by injection (Hp v l1 v l Hw1 Hin (or_introl eq_refl)) as ->.
Qed.
Lemma expire_ok w l : consistent w → consistent (w <| store ::= lease_expire l |>).
Proof.
  intros [Hp Hwi Hl Hk Hs Hla Hf Ho Hc].
  assert (∀ e, published (lease_expire l e) = published e ∧ root_revision (lease_expire l e) = root_revision e
    ∧ granted (lease_expire l e) = granted e ∧ live (lease_expire l e) = live e ∖ {[l]}
    ∧ ∀ x, owner_key (lease_expire l e) = Some x → owner_key e = Some x ∧ l ≠ x.2) as He.
  { intros e. unfold lease_expire. cbn. destruct (owner_key e) as [[v' l']|] eqn:E; [|by split_and!; try done; cbn; rewrite E].
    case_decide as Hd; cbn; split_and!; try done. by intros x [= <-]. }
  destruct (He (store w)) as (E1 & E2 & E3 & E4 & E5). split; cbn.
  - done.
  - by rewrite E3.
  - rewrite E3, E4. set_solver.
  - intros v1 l1 H1. destruct (E5 _ H1) as [H2 Hne]. destruct (Hk _ _ H2). rewrite E4. set_solver.
  - intros v1 H1. destruct (Hs v1 H1) as (l1 & Hw1 & Hd). exists l1. split; [done|]. rewrite E4.
    destruct Hd as [Hd|Hd]; [|right; set_solver]. destruct (decide (l = l1)) as [->|Hne]; [right; set_solver|left].
    unfold lease_expire. cbn. rewrite Hd. by rewrite decide_False by done.
  - intros v1 H1 Hown. rewrite E1. apply Hla; [done|]. apply owner_is_key in Hown as [l1 H2].
    destruct (E5 _ H2) as [H3 _]. unfold owner_is. by rewrite H3, bool_decide_true.
  - by rewrite E1.
  - done.
  - intros i c Hi. eapply control_ok_later; [by eapply Hc| | | |]; cbn; rewrite ?E1, ?E2; try done; lia.
Qed.
(** A publication by [v] that leaves the record to whom it belongs. *)
Lemma publish_ok w o entries : consistent w →
  fence (token_of w.(store).(published)) entries = Some (token_of o) → NoDup (owners (w.(log) ++ entries)) →
  (∀ v, v ∈ owners entries → owner_is v w.(store) = true) →
  (∀ v, v ∈ owners (w.(log) ++ entries) → owner_is v w.(store) = true → owned v o = true) →
  consistent (w <| store ::= publish o |> <| log ::= λ g, g ++ entries |>).
Proof.
  intros [Hp Hwi Hl Hk Hs Hla Hf Ho Hc] Hfe Hnd Hnew Hown. split; cbn; try done.
  - intros v1 H1. rewrite owners_app in H1. apply elem_of_app in H1 as [H1|H1]; [by apply Hs|].
    apply Hnew, owner_is_key in H1 as [l1 H1]. exists l1. split; [by apply Hk|by left].
  - by rewrite (fence_app _ _ _ _ Hf).
  - intros i c Hi. eapply control_ok_later; [by eapply Hc| | | |]; cbn; try done; [|lia|lia].
    intros v1 H1. rewrite owners_app. by apply elem_of_app; left.
Qed.
(** A control that goes on from where it stands. *)
Lemma goto_ok w c p : control_ok w c →
  (leads (goto p c) → leads c) →
  match p with
  | Electing l v => (v, l) ∈ w.(wire)
  | Installing b r | Acting b r _ => r ≤ w.(store).(root_revision) ∧ (r = w.(store).(root_revision) → b = w.(store).(published))
  | _ => True
  end → control_ok w (goto p c).
Proof.
  intros [Hh _] Hl Hp. split; [|done]. intros l v Hlv. destruct (Hh l v Hlv) as [? Ho]. split; [done|auto].
Qed.
Lemma fence_owner l : ∀ cur g v, fence cur l = Some (Some (g, v)) → v ∈ owners l ∨ cur = Some (g, v).
Proof.
  induction l as [|[g' v'|g' v' p] l IH]; intros cur g v; simpl; [intros [= ->]; by right| |]; case_decide as Hd; try done.
  - intros [Hin|[= -> ->]]%IH; left; [by right|by left].
  - apply IH.
Qed.
Lemma owned_installed w v : consistent w → owned v w.(store).(published) = true → v ∈ owners w.(log).
Proof.
  intros Hw Ho. pose proof (co_fence w Hw) as Hf. destruct (published (store w)) as [m|]; [|done]. cbn in *. bsimpl. subst.
  by apply fence_owner in Hf as [Hin|Hd].
Qed.
Lemma install_ok w v c base rev : consistent w → owner_guards v rev w.(store) = true →
  (rev = w.(store).(root_revision) → base = w.(store).(published)) →
  consistent (w <| store ::= publish (next_generation v (instance c) base) |>
                <| log ::= λ g, g ++ if owned v base then [] else [Installed (generation_of base + 1) v] |>)
  ∧ v ∈ owners (w.(log) ++ if owned v base then [] else [Installed (generation_of base + 1) v]).
Proof.
  intros Hw Hg Hb. unfold owner_guards in Hg. bsimpl. specialize (Hb ltac:(done)). subst base.
  unfold next_generation. set (o := published (store w)) in *. destruct (owned v o) eqn:Eo.
  - split; [|rewrite app_nil_r; by apply owned_installed].
    apply publish_ok; try done; rewrite ?app_nil_r.
    + apply Hw.
    + by intros v1 ?%not_elem_of_nil.
    + intros v1. apply (co_last w Hw).
  - split; [|rewrite owners_app; apply elem_of_app; right; by left].
    assert (v ∉ owners w.(log)) as Hnew by (intros Hin; apply (co_last w Hw) in Hin; [|done]; fold o in Hin; congruence).
    apply publish_ok; try done.
    + cbn. fold o. rewrite decide_True; [done|]. unfold generation_of. by destruct o.
    + rewrite owners_app. apply list.NoDup_app. split_and!; [apply Hw|set_solver|apply NoDup_singleton].
    + by intros v1 ->%list_elem_of_singleton.
    + intros v1 _ [l1 H1]%owner_is_key.
      match goal with H : owner_is v _ = true |- _ => apply owner_is_key in H as [l2 H2] end.
      rewrite H1 in H2. injection H2 as <- <-. cbn. by apply bool_decide_eq_true.
Qed.
Lemma act_ok w c l v base rev checked : consistent w → control_ok w c → c.(phase_of) = Acting base rev checked →
  c.(held) = Some (l, v) → owner_guards (guard_of v base checked) rev w.(store) = true →
  consistent (w <| store ::= publish base |> <| log ::= λ g, g ++ [Worked (generation_of base) (guard_of v base checked) v] |>).
Proof.
  intros Hw [Hh Hp] Ha Hl Hg. rewrite Ha in Hp. unfold owner_guards in Hg. bsimpl.
  assert (base = w.(store).(published)) as Hb by (by apply Hp). rewrite Hb.
  assert (v ∈ owners w.(log)) as Hv by (apply (Hh l v Hl); unfold leads; by rewrite Ha).
  match goal with H : owner_is _ _ = true |- _ => rename H into Hown end. rewrite Hb in Hown.
  assert (token_of (published (store w)) = Some (generation_of (published (store w)), guard_of v (published (store w)) checked)) as Ht.
  { destruct (published (store w)) as [m|] eqn:Em.
    - unfold token_of, generation_of, guard_of in *. cbn in *. destruct checked; [done|].
      pose proof (co_last w Hw v Hv Hown) as Ho. rewrite Em in Ho. cbn in Ho. by bsimpl; subst.
    - assert (owner_is v w.(store) = true) as Hov by (by destruct checked).
      pose proof (co_last w Hw v Hv Hov) as Ho. by rewrite Em in Ho. }
  apply publish_ok; try done.
  - cbn. by rewrite decide_True.
  - rewrite owners_app. cbn. rewrite app_nil_r. apply Hw.
  - by intros v1 ?%not_elem_of_nil.
  - intros v1. rewrite owners_app. cbn. rewrite app_nil_r. apply (co_last w Hw).
Qed.
Lemma step_keeps w w' : step w w' → consistent w → consistent w'.
Proof.
  intros Hs Hw. pose proof (λ i c, co_controls w Hw i c) as Hcs.
  destruct Hs as [w i c Hi Hph|w i c Hi Hph|w i c l v u Hi Hph Hl Hv Hd|w i c l v won e Hi Hph He|w v l won e Hin He
    |w i c Hi Hph|w i c Hi Hph|w i c l v base rev heard Hi Hph Hh Hg|w i c Hi Hph|w i c base rev checked Hi Hph Hl
    |w i c l v base rev checked heard Hi Hph Hh Hg|w i c Hi|w i name|w l|w].
  all: try (pose proof (Hcs _ _ Hi) as Hc).
  - apply set_control_ok; [done|]. unfold look. destruct (owner_key _) as [[v l]|]; [case_decide|]; by apply goto_ok.
  - apply set_control_ok; [done|]. unfold renew. destruct (held c) as [[l v]|]; [case_decide|]; by apply goto_ok.
  - apply set_control_ok; [by apply grant_ok|]. apply goto_ok; [|done|cbn; by left].
    eapply control_ok_later; [exact Hc| | | |]; cbn; try done. intros x Hx. by right.
  - assert ((v, l) ∈ w.(wire)) as Hin by (destruct Hc as [_ Hc]; by rewrite Hph in Hc).
    apply set_control_ok; [by eapply create_ok|].
    assert (control_ok (w <| store := e |>) c) as Hc'.
    { eapply control_ok_later; [exact Hc| | | |]; cbn; try done;
        unfold create_owner in He; destruct (_ && _); by injection He as <- <-. }
    unfold elected. destruct won; [|by apply goto_ok]. split; [|done]. intros l1 v1 [= <- <-]. split; [done|by intros []].
  - by eapply create_ok.
  - apply set_control_ok; [done|]. unfold check_installed. destruct (held c) as [[l v]|] eqn:Hh; [|by apply goto_ok].
    destruct (owned v _) eqn:Ho; [|by apply goto_ok]. split; [|done]. cbn. intros l1 v1 H1. rewrite Hh in H1. injection H1 as <- <-.
    split; [by apply (proj1 Hc)|]. intros _. by apply owned_installed.
  - apply set_control_ok; [done|]. apply goto_ok; [done|done|]. by split; [lia|].
  - assert (rev = w.(store).(root_revision) → base = w.(store).(published)) as Hb by (destruct Hc as [_ Hc]; rewrite Hph in Hc; apply Hc).
    destruct (install_ok w v c base rev Hw Hg Hb) as [Hok Hin]. apply set_control_ok; [exact Hok|].
    split; [|by destruct heard]. cbn. intros l1 v1 H1. rewrite Hh in H1. injection H1 as <- <-.
    split; [by apply (proj1 Hc)|]. intros _. exact Hin.
  - apply set_control_ok; [done|]. apply goto_ok; [done| |by split; [lia|]]. intros _. unfold leads; by rewrite Hph.
  - apply set_control_ok; [done|]. destruct Hc as [Hc1 Hc2]. rewrite Hph in Hc2. apply goto_ok; [by split; [|rewrite Hph]| |done].
    intros _. unfold leads; by rewrite Hph.
  - pose proof (act_ok w c l v base rev checked Hw Hc Hph Hh Hg) as Hok. apply set_control_ok; [exact Hok|].
    split; [|by destruct heard]. cbn. intros l1 v1 H1. rewrite Hh in H1. injection H1 as <- <-.
    destruct (proj1 Hc l v Hh) as [? Ho]. split; [done|]. intros _. rewrite owners_app. apply elem_of_app. left. apply Ho. unfold leads; by rewrite Hph.
  - apply set_control_ok; [done|]. by apply goto_ok.
  - by apply set_control_ok.
  - by apply expire_ok.
  - replace (w <| store ::= publish (published (store w)) |>)
      with (w <| store ::= publish (published (store w)) |> <| log ::= λ g, g ++ [] |>) by (destruct w; cbn; by rewrite app_nil_r).
    apply publish_ok; try done; cbn; rewrite ?app_nil_r; [apply Hw|by intros v ?%not_elem_of_nil|apply (co_last w Hw)].
Qed.
Lemma start_keeps : consistent start.
Proof. by split; cbn; try set_solver; try constructor. Qed.
Lemma reached_consistent w : rtc step start w → consistent w.
Proof.
  revert w. apply rtc_ind_r; [apply start_keeps|]. intros y z _ Hs Hy. by eapply step_keeps.
Qed.
(** C11: Generations of maintenance are fencing tokens.  However controls and etcd
    interleave, whatever leases expire, and whatever messages are lost, late or
    repeated: every installation counts the generation up by one, for a value of
    the owner key that had never been installed; and every publication of
    maintenance carries the generation and the owner installed last, so nothing
    is published under a generation once the next one is installed. *)
Theorem maintenance_fenced w : rtc step start w →
  fence None w.(log) = Some (token_of w.(store).(published)) ∧ NoDup (owners w.(log)).
Proof. intros Hr%reached_consistent. split; apply Hr. Qed.

(** ** Taking over *)
Lemma fresh_value i (X : gset string) : ∃ u, i +:+ ":" +:+ u ∉ X.
Proof.
  set (p := i +:+ ":"). set (u := fresh (set_map (D := gset string) (from (String.length p)) X : gset string)).
  exists u. replace (i +:+ ":" +:+ u) with (p +:+ u) by (by unfold p; rewrite append_assoc). intros Hin.
  apply (is_fresh (set_map (D := gset string) (from (String.length p)) X : gset string)). fold u.
  apply elem_of_map. exists (p +:+ u). split; [by rewrite from_app|done].
Qed.
(** The lease of whoever has the key runs out. *)
Lemma expired w : ∃ e, rtc step w (w <| store := e |>) ∧ e.(owner_key) = None ∧ e.(published) = w.(store).(published).
Proof.
  destruct (owner_key (store w)) as [[v l]|] eqn:Ek.
  - exists (lease_expire l w.(store)). split; [apply rtc_once; apply (step_expire w l)|].
    unfold lease_expire. cbn. rewrite Ek. by rewrite decide_True.
  - exists w.(store). split; [|done]. destruct w. apply rtc_refl.
Qed.
(** C32: Maintenance can always be taken over.  From every reachable state, wherever
    each control stands and whoever holds the owner key, every control has a
    run, in which the key expires if it is held, that ends with this control
    leading under the next generation, with its own value in the key and in the
    published record. *)
Theorem maintenance_taken_over w i c : rtc step start w → w.(controls) !! i = Some c →
  ∃ w' c' v, rtc step w w' ∧ w'.(controls) !! i = Some c' ∧ c'.(phase_of) = Leading ∧ owner_is v w'.(store) = true
    ∧ w'.(store).(published) = Some (mkMaintenance "maintenance" (generation_of w.(store).(published) + 1) v c.(instance)).
Proof.
  intros Hr%reached_consistent Hi. destruct (expired (set_control i (goto Idle c) w)) as (e & He & Hk & Hp).
  set (w1 := set_control i (goto Idle c) w) in *. set (w2 := w1 <| store := e |>) in *.
  destruct (fresh_value c.(instance) w.(drawn)) as [u Hu]. set (v := c.(instance) +:+ ":" +:+ u) in *.
  set (l := fresh e.(granted)). assert (l ∉ e.(granted)) as Hl by apply is_fresh.
  assert (owned v e.(published) = false) as Ho.
  { destruct (owned v (published e)) eqn:Ho; [|done]. rewrite Hp in Ho. cbn in Ho. apply owned_installed in Ho; [|done].
    destruct (co_spent w Hr v Ho) as (l1 & Hw & _). by destruct (co_wire w Hr v l1 Hw). }
  set (e3 := lease_grant l e). set (e4 := e3 <| owner_key := Some (v, l) |>).
  set (cl := goto Idle c <| held := Some (l, v) |>).
  eexists _, (goto Leading cl), v. split.
  { eapply rtc_l; [apply (step_give_up w i c Hi)|]. fold w1. etrans; [exact He|]. fold w2.
    eapply rtc_l; [apply (step_look w2 i (goto Idle c)); [cbn; apply lookup_insert_eq|done]|].
    assert (look w2.(store) (goto Idle c) = goto Granting (goto Idle c)) as -> by (unfold look; cbn; by rewrite Hk).
    eapply rtc_l; [apply (step_grant _ i (goto Granting (goto Idle c)) l v u); [cbn; apply lookup_insert_eq|done|done|done|done]|].
    eapply rtc_l; [apply (step_elect _ i (goto (Electing l v) (goto Granting (goto Idle c))) l v true e4); [cbn; apply lookup_insert_eq|done|]|].
    { unfold create_owner. cbn. rewrite Hk. rewrite !bool_decide_true; [done|set_solver|done]. }
    eapply rtc_l; [apply (step_check _ i (cl <| phase_of := Elected |>)); [cbn; apply lookup_insert_eq|done]|].
    unfold check_installed. cbn. rewrite Ho.
    eapply rtc_l; [apply (step_open _ i (goto Opening cl)); [cbn; apply lookup_insert_eq|done]|].
    eapply rtc_l; [apply (step_install _ i (goto (Installing e.(published) e.(root_revision)) cl) l v e.(published) e.(root_revision) true);
      [cbn; apply lookup_insert_eq|done|done|]|].
    { unfold owner_guards, owner_is. cbn. rewrite bool_decide_true by done. cbn. apply Z.eqb_refl. }
    apply rtc_refl. }
  split_and!; [cbn; apply lookup_insert_eq|done| |].
  - unfold owner_is. cbn. by apply bool_decide_eq_true.
  - cbn. unfold next_generation. rewrite Ho. by rewrite Hp.
Qed.

(** ** A run of two controls *)
Ltac evaluate := first [vm_compute; reflexivity | apply (bool_decide_eq_true_1 _); vm_compute; reflexivity].
Tactic Notation "then_step" uconstr(rule) := 
  eapply rtc_l; [eapply rule; evaluate|];
  match goal with |- rtc step ?w _ => let v := eval vm_compute in w in change w with v end.
(** [a] leads; its lease runs out; [b] is elected and leads; then [a] opens a unit
    of the tick it is still in, asks who runs maintenance, and publishes. *)
Lemma two_controls : ∃ w, rtc step start w
  ∧ w.(log) = [Installed 1 "a:1"; Installed 2 "b:2"; Worked 2 "b:2" "a:1"]
  ∧ w.(store).(owner_key) = Some ("b:2", 2)
  ∧ w.(store).(published) = Some (mkMaintenance "maintenance" 2 "b:2" "b")
  ∧ w.(controls) !! "b" = Some (mkControl "b" (Some (2, "b:2")) Leading).
Proof.
  eexists. split.
  - eapply rtc_l; [eapply (step_start _ "a" "a")|]. eapply rtc_l; [eapply (step_start _ "b" "b")|].
    then_step (step_look _ "a"). then_step (step_grant _ "a" _ 1 "a:1" "1"). then_step (step_elect _ "a").
    then_step (step_check _ "a"). then_step (step_open _ "a"). then_step (step_install _ "a" _ _ _ _ _ true).
    eapply rtc_l; [eapply (step_expire _ 1)|].
    then_step (step_look _ "b"). then_step (step_grant _ "b" _ 2 "b:2" "2"). then_step (step_elect _ "b").
    then_step (step_check _ "b"). then_step (step_open _ "b"). then_step (step_install _ "b" _ _ _ _ _ true).
    then_step (step_begin _ "a"). then_step (step_verify _ "a"). then_step (step_act _ "a" _ _ _ _ _ _ true).
    apply rtc_refl.
  - vm_compute. done.
Qed.
(** C33: A control that has lost the election can still publish maintenance.  The
    guard that its units compare the owner key with its own value is replaced by
    the value of the new owner as soon as a unit asks who runs maintenance: in
    this run a control whose value is no longer in the key publishes under the
    generation of the one that took over. *)
Theorem deposed_publishes : ∃ w g owner publisher, rtc step start w
  ∧ list.last w.(log) = Some (Worked g owner publisher) ∧ publisher ≠ owner ∧ owner_is publisher w.(store) = false.
Proof.
  destruct two_controls as (w & Hr & Hl & Hk & _). exists w, 2, "b:2", "a:1".
  split_and!; [done|by rewrite Hl|done|]. unfold owner_is. by rewrite Hk.
Qed.
Lemma maintenance_fenced_witness : ∃ w, rtc step start w ∧ length w.(log) = 3%nat
  ∧ fence None w.(log) = Some (token_of w.(store).(published)) ∧ NoDup (owners w.(log)).
Proof.
  destruct two_controls as (w & Hr & Hl & _). exists w. split; [exact Hr|]. split; [by rewrite Hl|].
  exact (maintenance_fenced w Hr).
Defined.
Lemma maintenance_taken_over_witness : ∃ w w' v, rtc step start w ∧ rtc step w w' ∧ owner_is v w'.(store) = true
  ∧ w'.(store).(published) = Some (mkMaintenance "maintenance" 3 v "b").
Proof.
  destruct two_controls as (w & Hr & _ & _ & Hm & Hc).
  destruct (maintenance_taken_over w "b" (mkControl "b" (Some (2, "b:2")) Leading) Hr Hc) as (w' & c' & v & Hw & _ & _ & Ho & Hp).
  exists w, w', v. split; [exact Hr|]. split; [exact Hw|]. split; [exact Ho|]. rewrite Hm in Hp. exact Hp.
Defined.
End Ownership.
