(* ===== verification/Watch.v ===== *)
(** * The watch of the root ([control/etcd_watch.py])

    A thread of each control of the HA profile follows the key of the root.  It
    reads the root once, then receives its changes from a stream; when the stream
    ends it asks for what follows the last change it saw, and when etcd has
    dropped that part of its history it reads the root again.  The other threads
    stop it and pause it; they read what it counts. *)
From Stdlib Require String.
From S2P Require Import Prelude Domain Data Store Auth Leases Cluster Process.

(** A response of the stream: the revision of a compaction, or 0, and the
    revisions of the changes. *)
Record watch_response := mkWatchResponse { wr_compact : Z; wr_events : list Z }.
Record watch_stream := mkWatchStream { ws_responses : list watch_response; ws_fails : bool }.
Record watch_env := mkWatchEnv {
  we_exits : nat → bool;
  we_stop : nat → bool; we_paused : nat → bool;            (* the events [stop], [paused] *)
  we_range : nat → option (option string * Z);             (* the root and the revision of the answer, or an exception *)
  we_object : nat → string → bool;                         (* [store.object] finds the page of the root *)
  we_watch : nat → Z → option watch_stream;                (* the changes from a revision on, or an exception *)
  we_channels : Z }.
Record root_watch := mkRootWatch {
  rw_revision : Z; rw_rebuilds : Z; rw_events : Z; rw_reconnects : Z; rw_compactions : Z;
  rw_wake : bool; rw_disconnected : bool;
  rw_index : Z;                                            (* [store.channel.index] *)
  rw_notified : list Z; rw_rebuilt : list Z;               (* what [wake] was set for, what was read *)
  rw_ticks : nat }.
#[export] Instance eta_root_watch : Eta root_watch := λ r,
  mkRootWatch r.(rw_revision) r.(rw_rebuilds) r.(rw_events) r.(rw_reconnects) r.(rw_compactions) r.(rw_wake)
    r.(rw_disconnected) r.(rw_index) r.(rw_notified) r.(rw_rebuilt) r.(rw_ticks).
#[export] Instance watch_process : Process watch_env root_watch := {
  stops w := w.(we_exits);
  ticks s := s.(rw_ticks);
  ticked s := s <| rw_ticks ::= S |> }.
Abbreviation V := (PM watch_env root_watch).
Definition new_watch : root_watch := mkRootWatch 0 0 0 0 0 false false 0 [] [] 0.

Definition or_raise {A} (o : option A) : V A := match o with Some a => mret a | None => fail (Raised PyError) end.
(** [if not self.revision]: the root is read. *)
Definition rebuild : V unit :=
  r ← gets rw_revision;
  if r =? 0 then
    o ← query we_range;
    '(value, header) ← or_raise o;
    (match value with
     | Some v => found ← query (λ w i, w.(we_object) i v); if (found : bool) then mret tt else fail (Raised PyError)
     | None => mret tt
     end);;
    sets (λ s, s <| rw_revision := header |> <| rw_rebuilds ::= Z.succ |> <| rw_rebuilt ::= λ l, l ++ [header] |>)
  else mret tt.
(** [max(l)] of a list that is not empty. *)
Definition last_of (l : list Z) : Z := match l with [] => 0 | a :: l => foldr Z.max a l end.
Definition notify (l : list Z) : V unit :=
  if bool_decide (l = []) then mret tt
  else sets (λ s, s <| rw_revision := last_of l |> <| rw_events ::= Z.add (zlen l) |> <| rw_wake := true |>
                    <| rw_notified ::= λ n, n ++ l |>).
(** [self.stop.is_set() or self.paused.is_set()]. *)
Definition interrupted : V bool :=
  stop ← query we_stop;
  if (stop : bool) then mret true else query we_paused.
(** The loop over the responses: whether it was left before the stream ended. *)
Fixpoint follow (l : list watch_response) : V bool :=
  match l with
  | [] => mret false
  | x :: l =>
      if bool_decide (x.(wr_compact) ≠ 0) then
        sets (λ s, s <| rw_compactions ::= Z.succ |> <| rw_revision := 0 |>);; mret true
      else
        notify x.(wr_events);;
        b ← interrupted;
        if (b : bool) then mret true else follow l
  end.
Definition connect : V unit :=
  r ← gets rw_revision;
  o ← query (λ w i, w.(we_watch) i (r + 1));
  stream ← or_raise o;
  sets (λ s, s <| rw_reconnects ::= Z.succ |>);;
  left ← follow stream.(ws_responses);
  if negb left && stream.(ws_fails) then fail (Raised PyError) else mret tt.
(** [except Exception]: the next endpoint. *)
Definition rotate : V unit :=
  n ← asks we_channels;
  sets (λ s, s <| rw_index ::= λ i, (i + 1) mod n |>).
Definition turn : V unit :=
  sets (λ s, s <| rw_disconnected := false |>);;
  try_finally (try_except (rebuild;; connect) (λ _, rotate)) (sets (λ s, s <| rw_disconnected := true |>)).
(** [run], for so many turns. *)
Fixpoint run_watch (n : nat) : V unit :=
  match n with
  | O => fail Exit
  | S n =>
      stop ← query we_stop;
      if (stop : bool) then mret tt
      else
        paused ← query we_paused;
        (if (paused : bool) then sets (λ s, s <| rw_disconnected := true |>) else turn);;
        run_watch n
  end.

(** ** Nothing is missed *)
Section Watched.
Context (w : watch_env) (log : list Z).
(** The revisions at which the root changes, in order. *)
Definition after (r : Z) : list Z := List.filter (λ v, r <? v) log.
(** The changes of a stream, up to a compaction. *)
Fixpoint changes (l : list watch_response) : list Z :=
  match l with
  | [] => []
  | x :: l => if bool_decide (x.(wr_compact) ≠ 0) then [] else x.(wr_events) ++ changes l
  end.
(** What etcd promises: the changes from the revision on, in order and with none
    left out, although the stream may end anywhere. *)
Definition in_order : Prop := ∀ i r stream, w.(we_watch) i r = Some stream →
  ∃ rest, changes stream.(ws_responses) ++ rest = after (r - 1).
Hypothesis Hlog : StronglySorted Z.lt log.
Hypothesis Hpositive : ∀ v, v ∈ log → 0 < v.
Hypothesis Horder : in_order.

Definition covered (s : root_watch) (v : Z) : Prop := v ∈ s.(rw_notified) ∨ ∃ b, b ∈ s.(rw_rebuilt) ∧ v ≤ b.
Record watched (s : root_watch) : Prop := {
  wd_covered v : v ∈ log → v ≤ s.(rw_revision) → covered s v;
  wd_events : s.(rw_events) = zlen s.(rw_notified);
  wd_rebuilds : s.(rw_rebuilds) = zlen s.(rw_rebuilt);
  wd_real v : v ∈ s.(rw_notified) → v ∈ log ∧ s.(rw_wake) = true }.
Abbreviation kept := (ensures (λ _, watched) w).
Lemma elem_after r v : v ∈ after r ↔ v ∈ log ∧ r < v.
Proof using Type. unfold after. rewrite list_elem_of_In, filter_In, <- list_elem_of_In, Z.ltb_lt. done. Qed.
Lemma sorted_after r : StronglySorted Z.lt (after r).
Proof using Hlog.
  unfold after. clear Horder Hpositive. induction Hlog as [|a l Hl IH Ha]; cbn; [constructor|]. destruct (r <? a); [|by apply IH].
  constructor; [by apply IH|]. rewrite Forall_forall in *. intros x Hx. apply Ha.
  revert Hx. rewrite ?list_elem_of_In, filter_In. tauto.
Qed.
Lemma foldr_max (a : Z) l : foldr Z.max a l ∈ a :: l ∧ ∀ x, x ∈ a :: l → x ≤ foldr Z.max a l.
Proof using Type.
  clear. induction l as [|b l [IHin IH]]; cbn; [split; [left|intros x ->%list_elem_of_singleton; lia]|]. split.
  - destruct (Z.max_spec b (foldr Z.max a l)) as [[_ ->]|[_ ->]]; [|right; left].
    apply elem_of_cons in IHin as [->|Hin]; [left|right; by right].
  - intros x [->|[->|Hx]%elem_of_cons]%elem_of_cons; [|lia|]; [specialize (IH a ltac:(by left))|specialize (IH x ltac:(by right))]; lia.
Qed.
Lemma last_of_in l : l ≠ [] → last_of l ∈ l.
Proof using Type. clear. destruct l as [|a l]; [done|]. intros _. apply foldr_max. Qed.
Lemma last_of_ge l x : x ∈ l → x ≤ last_of l.
Proof using Type. clear. destruct l as [|a l]; [by intros ?%not_elem_of_nil|]. apply foldr_max. Qed.
Lemma filter_none {A} (f : A → bool) l : (∀ x, x ∈ l → f x = false) → List.filter f l = [].
Proof using Type.
  clear. induction l as [|a l IH]; intros Hf; [done|]. cbn. rewrite (Hf a) by left. apply IH. intros x Hx. apply Hf. by right.
Qed.
Lemma filter_every {A} (f : A → bool) l : (∀ x, x ∈ l → f x = true) → List.filter f l = l.
Proof using Type.
  clear. induction l as [|a l IH]; intros Hf; [done|]. cbn. rewrite (Hf a) by left. f_equal. apply IH. intros x Hx. apply Hf. by right.
Qed.
(** The first changes after a revision, and what comes after the last of them. *)
Lemma after_split r l rest : l ++ rest = after r → l ≠ [] → rest = after (last_of l).
Proof using Hlog.
  intros E Hne. pose proof (last_of_in l Hne) as Hin. pose proof (sorted_after r) as Hs. rewrite <- E in Hs.
  assert (∀ x y, x ∈ l → y ∈ rest → x < y) as Hlt.
  { clear -Hs. induction l as [|a l IH]; [by intros x y ?%not_elem_of_nil|]. cbn in Hs. apply StronglySorted_inv in Hs as [Hs Ha].
    intros x y [->|Hx]%elem_of_cons Hy; [|by apply IH]. rewrite Forall_forall in Ha. apply Ha, list_elem_of_In, elem_of_app. by right. }
  assert (r < last_of l) as Hr.
  { assert (last_of l ∈ after r) as Hr by (rewrite <- E; apply elem_of_app; by left). by apply elem_after in Hr as []. }
  assert (after (last_of l) = List.filter (λ v, last_of l <? v) (after r)) as ->.
  { unfold after at 1 2. clear -Hr. induction log as [|a l0 IH]; cbn; [done|].
    destruct (Z.ltb_spec r a); cbn; destruct (Z.ltb_spec (last_of l) a); try lia; by rewrite IH. }
  rewrite <- E, List.filter_app, (filter_none _ l), (filter_every _ rest).
  - done.
  - intros y Hy. apply Z.ltb_lt. by apply Hlt.
  - intros x Hx. apply Z.ltb_ge. by apply last_of_ge.
Qed.
(** ** Every turn keeps what was covered *)
Lemma watch_query {A} (P : root_watch → Prop) (f : watch_env → nat → A) :
  (∀ s, P s → P (ticked s)) → (∀ s, P s → watched s) → ensures (λ _, watched) w P (query f) (λ a s, P s ∧ ∃ i, a = f w i).
Proof using Type.
  intros HP Hw s Hs. unfold query, tick, mbind, pm_bind. destruct (stops w (ticks s)); [by apply Hw|]. split; [by apply HP|]. by eexists.
Qed.
Lemma watched_ticked s : watched s → watched (ticked s).
Proof using Type. by intros []. Qed.
Lemma kept_raise {A} (P : root_watch → Prop) (o : option A) :
  (∀ s, P s → watched s) → ensures (λ _, watched) w P (or_raise o) (λ a s, P s ∧ o = Some a).
Proof using Type. intros HP s Hs. destruct o; [done|by apply HP]. Qed.
Lemma kept_rebuild : kept watched rebuild (λ _, watched).
Proof using Type.
  unfold rebuild. eapply ensures_bind; [apply ensures_gets|]. intros r.
  eapply (ensures_weaken _ _ _ watched _ _ (λ _, watched)); [|by intros s []|done]. destruct (r =? 0); [|by apply ensures_ret].
  eapply ensures_bind; [apply watch_query; [apply watched_ticked|done]|]. intros o. apply ensures_pure. intros _.
  eapply ensures_bind; [by apply kept_raise|]. intros [value header]. apply ensures_pure. intros _.
  apply (ensures_bind _ _ _ _ _ (λ _, watched)).
  - destruct value as [v|]; [|by apply ensures_ret].
    eapply ensures_bind; [apply watch_query; [apply watched_ticked|done]|]. intros b. apply ensures_pure. intros _.
    destruct b; [by apply ensures_ret|by apply ensures_fail].
  - intros u. apply ensures_sets. intros s [Hc He Hr Hn]. split; cbn; [|done| |done].
    + intros v Hv Hle. right. exists header. split; [apply elem_of_app; right; left|done].
    + unfold zlen in *. rewrite Hr, length_app. cbn. lia.
Qed.
Lemma kept_notify r e more : e ++ more = after r →
  kept (λ s, watched s ∧ s.(rw_revision) = r) (notify e) (λ _ s, watched s ∧ s.(rw_revision) = if bool_decide (e = []) then r else last_of e).
Proof using Hlog.
  intros E. unfold notify. case_bool_decide as He; [by apply ensures_ret|]. apply ensures_sets.
  intros s [[Hc Hev Hr Hn] Hrev]. split; [split|done]; cbn.
  - intros v Hv Hle. destruct (decide (v ≤ r)) as [Hvr|Hvr].
    + destruct (Hc v Hv) as [?|?]; [by rewrite Hrev|left; apply elem_of_app; by left|by right].
    + left. apply elem_of_app. right. assert (v ∈ after r) as Ha by (apply elem_after; split; [done|lia]).
      rewrite <- E in Ha. apply elem_of_app in Ha as [Ha|Ha]; [done|].
      rewrite (after_split r e more E He) in Ha. apply elem_after in Ha as [_ Ha]. lia.
  - unfold zlen in *. rewrite Hev, length_app. lia.
  - done.
  - intros v [Hv|Hv]%elem_of_app; [split; [by apply Hn|done]|]. split; [|done].
    assert (v ∈ after r) as Ha by (rewrite <- E; apply elem_of_app; by left). by apply elem_after in Ha as [].
Qed.
Lemma kept_interrupted (P : root_watch → Prop) :
  (∀ s, P s → P (ticked s)) → (∀ s, P s → watched s) → ensures (λ _, watched) w P interrupted (λ _, P).
Proof using Type.
  intros HP Hw. unfold interrupted. eapply ensures_bind; [by apply watch_query|]. intros b. apply ensures_pure. intros _.
  destruct b; [by apply ensures_ret|]. eapply ensures_weaken; [by apply watch_query|done|]. by intros a s [].
Qed.
Lemma kept_follow l : ∀ r rest, changes l ++ rest = after r →
  kept (λ s, watched s ∧ s.(rw_revision) = r) (follow l) (λ _, watched).
Proof using Hlog Hpositive.
  induction l as [|x l IH]; intros r rest E; cbn [follow]; [by apply ensures_ret; intros s []|].
  cbn [changes] in E. case_bool_decide as Hx.
  - eapply (ensures_bind _ _ _ _ _ (λ _, watched)); [|intros u; by apply ensures_ret].
    apply ensures_sets. intros s [[Hc He Hr Hn] _]. split; cbn; [|done..]. intros v Hv Hle. by apply Hpositive in Hv; lia.
  - rewrite <- app_assoc in E. eapply ensures_bind; [by eapply kept_notify|]. intros u.
    eapply ensures_bind; [apply kept_interrupted; [|by intros s []]|].
    { intros s [Hs Hr]. split; [by apply watched_ticked|exact Hr]. }
    intros b. destruct b; [by apply ensures_ret; intros s []|]. eapply (IH _ rest).
    case_bool_decide as He; [by rewrite He in E|]. by apply (after_split r) in E.
Qed.
Lemma kept_connect : kept watched connect (λ _, watched).
Proof using Hlog Hpositive Horder.
  unfold connect. intros s Hs. rewrite (pm_bind_run (a := rw_revision s) (s1 := s)) by done. set (r := rw_revision s).
  assert (watched s ∧ rw_revision s = r) as Hp by done. clearbody r. clear Hs. revert s Hp.
  eapply (ensures_bind _ _ _ _ _ (λ o s, (watched s ∧ rw_revision s = r) ∧ ∃ i, o = we_watch w i (r + 1))).
  { apply (watch_query _ (λ w i, we_watch w i (r + 1))); [|by intros s []]. intros s [Hs Hr]. split; [by apply watched_ticked|exact Hr]. }
  intros o. apply ensures_pure. intros [i Ho]. eapply ensures_bind; [apply kept_raise; by intros s []|].
  intros stream. apply ensures_pure. intros ->. destruct (Horder i (r + 1) stream (eq_sym Ho)) as [rest E].
  replace (r + 1 - 1) with r in E by lia.
  eapply (ensures_bind _ _ _ _ _ (λ _ s, watched s ∧ rw_revision s = r)); [apply ensures_sets; by intros s [[] ?]|].
  intros u. eapply ensures_bind; [by eapply kept_follow|]. intros b. destruct (negb b && ws_fails stream); [by apply ensures_fail|by apply ensures_ret].
Qed.
Lemma kept_turn : kept watched turn (λ _, watched).
Proof using Hlog Hpositive Horder.
  unfold turn. eapply (ensures_bind _ _ _ _ _ (λ _, watched)); [apply ensures_sets; by intros s []|]. intros u.
  assert (∀ s, watched s → watched (s <| rw_disconnected := true |>)) as Hd by by intros s [].
  apply (ensures_finally _ _ _ _ _ (λ _, watched)); [|intros a; by apply ensures_sets|intros x _; by apply ensures_sets].
  apply ensures_except.
  - eapply ensures_bind; [apply kept_rebuild|]. intros u'. apply kept_connect.
  - intros x _. unfold rotate. eapply ensures_bind; [apply ensures_asks|]. intros n. apply ensures_pure. intros _.
    apply ensures_sets. by intros s [].
Qed.
Lemma kept_run n : kept watched (run_watch n) (λ _, watched).
Proof using Hlog Hpositive Horder.
  induction n as [|n IH]; cbn [run_watch]; [by apply ensures_fail|].
  eapply ensures_bind; [apply watch_query; [apply watched_ticked|done]|]. intros stop. apply ensures_pure. intros _.
  destruct stop; [by apply ensures_ret|].
  eapply ensures_bind; [apply watch_query; [apply watched_ticked|done]|]. intros paused. apply ensures_pure. intros _.
  apply (ensures_bind _ _ _ _ _ (λ _, watched)); [|by intros u].
  destruct paused; [apply ensures_sets; by intros s []|apply kept_turn].
Qed.
Lemma watched_new : watched new_watch.
Proof using Hpositive. split; [|done..|by intros v ?%not_elem_of_nil]. cbn. intros v Hv%Hpositive Hle. lia. Qed.
End Watched.

(** C37: the watch misses no change of the root: after any number of
    turns, with pauses, failed calls and streams that end anywhere, each change up
    to the revision that the watch has reached was either announced or is part of
    a root that was read later; and it counts exactly what it announced and read. *)
Theorem no_change_missed w log n r s' :
  StronglySorted Z.lt log → (∀ v, v ∈ log → 0 < v) → in_order w log → run_watch n w new_watch = (r, s') →
  (∀ v, v ∈ log → v ≤ s'.(rw_revision) → v ∈ s'.(rw_notified) ∨ ∃ b, b ∈ s'.(rw_rebuilt) ∧ v ≤ b)
  ∧ (∀ v, v ∈ s'.(rw_notified) → v ∈ log ∧ s'.(rw_wake) = true)
  ∧ s'.(rw_events) = zlen s'.(rw_notified) ∧ s'.(rw_rebuilds) = zlen s'.(rw_rebuilt).
Proof.
  intros Hs Hp Ho Hrun. assert (watched log s') as [Hc He Hr Hn].
  { pose proof (kept_run w log Hs Hp Ho n new_watch (watched_new log Hp)) as Hk. rewrite Hrun in Hk. by destruct r. }
  by split_and!.
Qed.

(** ** A concrete run *)
Module WatchRun.
(** The root changes three times; one change is announced, then etcd has dropped
    the next and the root is read again. *)
Definition log : list Z := [3; 5; 8].
Definition shown (i : nat) (r : Z) : option watch_stream :=
  Some (if r =? 4 then mkWatchStream [mkWatchResponse 0 [5]; mkWatchResponse 9 []] false else mkWatchStream [] true).
Definition etcd : watch_env :=
  mkWatchEnv (λ _, false) (λ _, false) (λ i, bool_decide (i = 1%nat))
    (λ i, Some (Some "page", if bool_decide (i < 8)%nat then 3 else 9)) (λ _ _, true) shown 3.
Definition seen : root_watch := (run_watch 3 etcd new_watch).2.
Example reached : (seen.(rw_revision), seen.(rw_notified), seen.(rw_rebuilt), seen.(rw_compactions), seen.(rw_index)) = (9, [5], [3; 9], 1, 1).
Proof. vm_compute. reflexivity. Qed.
Lemma no_change_missed_witness :
  run_watch 3 etcd new_watch = (Err Exit, seen) ∧ seen.(rw_revision) = 9
  ∧ (∀ v, v ∈ log → v ≤ 9 → v ∈ seen.(rw_notified) ∨ ∃ b, b ∈ seen.(rw_rebuilt) ∧ v ≤ b).
Proof.
  assert (run_watch 3 etcd new_watch = (Err Exit, seen)) as R by (vm_compute; reflexivity).
  assert (seen.(rw_revision) = 9) as E by (vm_compute; reflexivity). split_and!; [exact R|exact E|]. rewrite <- E.
  apply (no_change_missed etcd log 3 (Err Exit) seen); [| | |exact R].
  - repeat constructor.
  - clear. intros v Hv. unfold log in Hv. do 3 (apply elem_of_cons in Hv as [->|Hv]; [lia|]). by apply not_elem_of_nil in Hv.
  - intros i r stream. cbn. unfold shown. destruct (Z.eqb_spec r 4) as [->|Hr]; intros [= <-]; cbn.
    + by exists [8].
    + by eexists.
Defined.
End WatchRun.
