(* ===== verification/Diagnostic.v ===== *)
(** * Diagnosis ([control/diagnostic.py], [client/diagnostic.py])

    A synthetic service that keeps nothing, and the client that measures a
    connection with it: a stream up, whose digest the service answers, and a
    stream down, which the client checks while it arrives.  A stub of the
    client is a record of the three calls; the service is one implementation. *)
From Stdlib Require String.
From S2P Require Import Prelude Domain Cluster Process Protected Blocks NodeContent.

Record DiagnosticChunk := mkDiagChunk { gc_offset : Z; gc_data : string }.
Inductive DiagnosticFrame :=
  | DHeader (request_id : string) (total_bytes : Z) (sha : string)
  | DChunk (c : DiagnosticChunk).
Record DigestResult := mkDigestResult { dg_received : Z; dg_sha256 : string; dg_chunks : Z; dg_largest : Z }.
Record HealthResponse := mkHealth {
  he_request_id : string; he_listener : string; he_ready : bool; he_implemented : bool; he_backend : string; he_available : bool }.
(** What the service sees of a call: the seconds that remain, and whether the peer
    is there when it looks for the n-th time. *)
Record call_context := mkCall { cc_remaining : option Z; cc_active : nat → bool }.
Definition E (A : Type) : Type := result rpc_error A.
Definition aborted {A} (c : Grpc.StatusCode) (r : reason) : E A := Err (mkRpcError c (Some r)).
Definition andthen {A B} (m : E A) (f : A → E B) : E B := match m with Ok a => f a | Err x => Err x end.
Definition unless {A} (b : bool) (c : Grpc.StatusCode) (r : reason) (k : E A) : E A := if b then k else aborted c r.

(** ** The pattern *)
Fixpoint bytes_from (n i : nat) : string :=
  match n with O => "" | S n => String (ascii_of_nat i) (bytes_from n (S i)) end.
Definition pattern : string := bytes_from 256 0.
Fixpoint times (n : nat) (s : string) : string := match n with O => "" | S n => s +:+ times n s end.
Definition piece (offset length : Z) : string :=
  String.substring (Z.to_nat (offset mod 256)) (Z.to_nat length) (times (Z.to_nat ((length + 511) / 256)) pattern).
(** [range(0, total, step)]. *)
Definition offsets (total step : Z) : list Z := map (λ i, step * Z.of_nat i) (seq 0 (Z.to_nat ((total + step - 1) / step))).
Definition synthetic_chunks (total size : Z) : list DiagnosticChunk :=
  map (λ o, mkDiagChunk o (piece o (Z.min size (total - o)))) (offsets total size).

(** ** The service *)
Section Service.
Context `{Hash}.
Definition require_deadline {A} (c : call_context) (k : E A) : E A :=
  unless (match c.(cc_remaining) with Some t => t <=? 30 | None => false end) Grpc.INVALID_ARGUMENT INVALID_ARGUMENT k.
Definition require_uuid {A} (i : string) (k : E A) : E A := unless (is_uuid i) Grpc.INVALID_ARGUMENT INVALID_ARGUMENT k.
Definition Health (listener : string) (implemented : bool) (probe : option (string * bool)) (c : call_context) (i : string)
    : E HealthResponse :=
  require_deadline c (require_uuid i
    (let '(backend, available) := default (if implemented then "sqlite" else "sqlite-planned", implemented) probe in
     Ok (mkHealth i listener true implemented backend available))).
Record digesting := mkDigesting { di_received : Z; di_count : Z; di_largest : Z; di_text : string }.
Fixpoint digest_frames (active : nat → bool) (total : Z) (looked : nat) (frames : list DiagnosticFrame) (d : digesting)
    : E digesting :=
  match frames with
  | [] => Ok d
  | f :: frames =>
      unless (active looked) Grpc.DEADLINE_EXCEEDED DEADLINE_EXCEEDED
      (match f with
       | DHeader _ _ _ => aborted Grpc.INVALID_ARGUMENT INVALID_ARGUMENT
       | DChunk c =>
           unless (c.(gc_offset) =? d.(di_received)) Grpc.INVALID_ARGUMENT INVALID_ARGUMENT
           (let n := slen c.(gc_data) in
            unless ((1 <=? n) && (n <=? CHUNK_BYTES)) Grpc.RESOURCE_EXHAUSTED LIMIT_EXCEEDED
            (unless (d.(di_received) + n <=? total) Grpc.INVALID_ARGUMENT INVALID_ARGUMENT
              (digest_frames active total (S looked) frames
                (mkDigesting (d.(di_received) + n) (d.(di_count) + 1) (Z.max d.(di_largest) n) (d.(di_text) +:+ c.(gc_data))))))
       end)
  end.
Definition StreamDigest (c : call_context) (frames : list DiagnosticFrame) : E DigestResult :=
  require_deadline c
  (match frames with
   | DHeader i total sha :: frames =>
       require_uuid i
       (unless (total <=? DIAGNOSTIC_BYTES) Grpc.RESOURCE_EXHAUSTED LIMIT_EXCEEDED
       (unless (slen sha =? 32) Grpc.INVALID_ARGUMENT INVALID_ARGUMENT
       (andthen (digest_frames c.(cc_active) total 0 frames (mkDigesting 0 0 0 "")) (λ d,
        unless (d.(di_received) =? total) Grpc.INVALID_ARGUMENT INVALID_ARGUMENT
        (unless (bool_decide (sha256 d.(di_text) = sha)) Grpc.DATA_LOSS CHECKSUM_MISMATCH
          (Ok (mkDigestResult d.(di_received) (sha256 d.(di_text)) d.(di_count) d.(di_largest))))))))
   | _ => aborted Grpc.INVALID_ARGUMENT INVALID_ARGUMENT
   end).
(** The chunks until the peer is gone. *)
Fixpoint while_active (active : nat → bool) (looked : nat) (cs : list DiagnosticChunk) : list DiagnosticChunk :=
  match cs with
  | [] => []
  | c :: cs => if active looked then c :: while_active active (S looked) cs else []
  end.
Definition GenerateStream (c : call_context) (i : string) (total chunk : Z) : E (list DiagnosticChunk) :=
  require_deadline c (require_uuid i
  (unless ((total <=? DIAGNOSTIC_BYTES) && (1 <=? chunk) && (chunk <=? CHUNK_BYTES)) Grpc.RESOURCE_EXHAUSTED LIMIT_EXCEEDED
    (Ok (while_active c.(cc_active) 0 (synthetic_chunks total chunk))))).

(** ** The client *)
Record stub := mkStub {
  st_health : string → E HealthResponse;
  st_digest : list DiagnosticFrame → E DigestResult;
  st_generate : string → Z → Z → list DiagnosticChunk * option rpc_error }.   (* the chunks, then the error of the stream *)
Record diagnosis := mkDiagnosis {
  gn_health : HealthResponse; gn_uploaded : Z; gn_downloaded : Z; gn_sha256 : string; gn_chunks : Z; gn_largest : Z }.
Inductive refusal := BadArgument | BadStream | BadIntegrity | Failed (e : rpc_error).
Definition expected_text (total : Z) : string := cat (map gc_data (synthetic_chunks total CHUNK_BYTES)).
(** The download, checked chunk by chunk. *)
Fixpoint received_chunks (cs : list DiagnosticChunk) (received largest : Z) (text : string) : option (Z * Z * string) :=
  match cs with
  | [] => Some (received, largest, text)
  | c :: cs =>
      let n := slen c.(gc_data) in
      if (c.(gc_offset) =? received) && (1 <=? n) && (n <=? CHUNK_BYTES)
      then received_chunks cs (received + n) (Z.max largest n) (text +:+ c.(gc_data)) else None
  end.
Definition in_time (t : Z) : bool := (0 <? t) && (t <=? 30).
Definition diagnose (s : stub) (ids : nat → string) (total deadline stream_deadline : Z) : result refusal diagnosis :=
  if (0 <=? total) && (total <=? DIAGNOSTIC_BYTES) && in_time deadline && in_time stream_deadline then
    let digest := sha256 (expected_text total) in
    match s.(st_health) (ids 0%nat) with
    | Err e => Err (Failed e)
    | Ok health =>
        match s.(st_digest) (DHeader (ids 1%nat) total digest :: map DChunk (synthetic_chunks total CHUNK_BYTES)) with
        | Err e => Err (Failed e)
        | Ok uploaded =>
            let '(cs, broken) := s.(st_generate) (ids 2%nat) total CHUNK_BYTES in
            match received_chunks cs 0 0 "", broken with
            | None, _ => Err BadStream
            | Some _, Some e => Err (Failed e)
            | Some (received, largest, text), None =>
                    if (uploaded.(dg_received) =? total) && (received =? total)
                       && bool_decide (uploaded.(dg_sha256) = digest) && bool_decide (sha256 text = digest)
                    then Ok (mkDiagnosis health uploaded.(dg_received) received digest uploaded.(dg_chunks)
                               (Z.max largest uploaded.(dg_largest)))
                    else Err BadIntegrity
            end
        end
    end
  else Err BadArgument.
(** The stub of a client that is connected to the service: [contexts] is what the
    service sees of each call. *)
Definition connected (listener : string) (implemented : bool) (probe : option (string * bool)) (contexts : nat → call_context) : stub :=
  mkStub (Health listener implemented probe (contexts 0%nat)) (StreamDigest (contexts 1%nat))
    (λ i total chunk, match GenerateStream (contexts 2%nat) i total chunk with Ok cs => (cs, None) | Err e => ([], Some e) end).
End Service.

(** ** Streams that continue *)
(** Chunks of acceptable length, each where the last one ended, from [o] to [e]. *)
Fixpoint follows (o : Z) (cs : list DiagnosticChunk) (e : Z) : Prop :=
  match cs with
  | [] => o = e
  | c :: cs => c.(gc_offset) = o ∧ 1 ≤ slen c.(gc_data) ≤ CHUNK_BYTES ∧ follows (o + slen c.(gc_data)) cs e
  end.
Lemma follows_le cs : ∀ o e, follows o cs e → o ≤ e.
Proof. induction cs as [|c cs IH]; intros o e; cbn; [lia|]. intros (_ & Hl & Hf). apply IH in Hf. lia. Qed.
Lemma follows_length cs : ∀ o e, follows o cs e → e = o + slen (cat (map gc_data cs)).
Proof.
  induction cs as [|c cs IH]; intros o e; cbn [follows map cat]; [intros <-; unfold slen; simpl; lia|].
  intros (_ & _ & Hf). apply IH in Hf. unfold slen in *. rewrite length_append. lia.
Qed.
Lemma bytes_from_length n : ∀ i, String.length (bytes_from n i) = n.
Proof. induction n as [|n IH]; intros i; simpl; [done|]. by rewrite IH. Qed.
Lemma times_length n s : String.length (times n s) = (n * String.length s)%nat.
Proof. induction n as [|n IH]; simpl; [done|]. by rewrite length_append, IH. Qed.
(** The repeated pattern is long enough for the slice at any phase. *)
Lemma piece_length offset length : 0 ≤ length → slen (piece offset length) = length.
Proof.
  intros Hl. unfold piece. rewrite text_slen, text_substring, length_take, length_drop, text_length, times_length.
  unfold pattern. rewrite bytes_from_length.
  pose proof (Z.mod_pos_bound offset 256 ltac:(lia)). pose proof (Z.div_pos (length + 511) 256 ltac:(lia) ltac:(lia)).
  pose proof (Z.mod_pos_bound (length + 511) 256 ltac:(lia)). pose proof (Z.div_mod (length + 511) 256 ltac:(lia)). lia.
Qed.
Definition chunk_at (total size o : Z) : DiagnosticChunk := mkDiagChunk o (piece o (Z.min size (total - o))).
Lemma chunks_follow total size (n : nat) : 1 ≤ size ≤ CHUNK_BYTES → ∀ k : nat,
  size * Z.of_nat k ≤ total ≤ size * Z.of_nat (k + n) → (n ≠ 0%nat → size * (Z.of_nat (k + n) - 1) < total) →
  follows (size * Z.of_nat k) (map (chunk_at total size) (map (λ i, size * Z.of_nat i) (seq k n))) total.
Proof.
  intros Hs. induction n as [|n IH]; intros k Hk Hn; cbn [seq map follows]; [lia|].
  specialize (Hn ltac:(lia)). cbn [chunk_at gc_offset gc_data].
  assert (1 ≤ Z.min size (total - size * Z.of_nat k)) by nia. rewrite piece_length by lia. split; [done|]. split; [lia|].
  destruct n as [|n]; [cbn [seq map follows]; nia|].
  replace (size * Z.of_nat k + Z.min size (total - size * Z.of_nat k)) with (size * Z.of_nat (S k)) by nia. apply IH; [nia|intros _; nia].
Qed.
Lemma synthetic_follows total size : 0 ≤ total → 1 ≤ size ≤ CHUNK_BYTES → follows 0 (synthetic_chunks total size) total.
Proof.
  intros Ht Hs. unfold synthetic_chunks, offsets. set (n := Z.to_nat ((total + size - 1) / size)).
  assert (Z.of_nat n = (total + size - 1) / size) as Hn by (unfold n; rewrite Z2Nat.id; [done|apply Z.div_pos; lia]).
  pose proof (Z.mod_pos_bound (total + size - 1) size ltac:(lia)). pose proof (Z.div_mod (total + size - 1) size ltac:(lia)).
  replace 0 with (size * Z.of_nat 0) by lia. apply (chunks_follow total size n Hs 0); [nia|intros _; nia].
Qed.
Lemma while_all active cs : (∀ i, active i = true) → ∀ looked, while_active active looked cs = cs.
Proof. intros Ha. induction cs as [|c cs IH]; intros looked; cbn; [done|]. by rewrite Ha, IH. Qed.
Definition largest (cs : list DiagnosticChunk) (m : Z) : Z := fold_left (λ m c, Z.max m (slen c.(gc_data))) cs m.
(** The service takes exactly the streams that continue and stay within the total. *)
Lemma digest_frames_iff active total frames : (∀ i, active i = true) → ∀ looked d d',
  d.(di_received) ≤ total →
  digest_frames active total looked frames d = Ok d' ↔
  ∃ cs, frames = map DChunk cs ∧ follows d.(di_received) cs d'.(di_received) ∧ d'.(di_received) ≤ total
    ∧ d' = mkDigesting d'.(di_received) (d.(di_count) + zlen cs) (largest cs d.(di_largest)) (d.(di_text) +:+ cat (map gc_data cs)).
Proof.
  intros Ha. induction frames as [|f frames IH]; intros looked d d' Hd; cbn [digest_frames].
  - split.
    + intros [= <-]. exists []. cbn. rewrite append_nil_r, Z.add_0_r. by destruct d.
    + intros ([|c cs] & Hcs & Hf & _ & ->); [|done]. cbn in *. rewrite append_nil_r, Z.add_0_r, <- Hf. by destruct d.
  - rewrite Ha. cbn [unless]. destruct f as [i t sha|c]; [split; [done|]; by intros ([|? ?] & ? & _)|].
    destruct (Z.eqb_spec (gc_offset c) (di_received d)) as [Ho|Ho]; cbn [unless].
    2: { split; [done|]. intros ([|c' cs] & [=] & [? _] & _). by subst. }
    destruct ((1 <=? slen (gc_data c)) && (slen (gc_data c) <=? CHUNK_BYTES)) eqn:Hl; cbn [unless].
    2: { split; [done|]. intros ([|c' cs] & [=] & (_ & ? & _) & _). subst. lia. }
    apply andb_true_iff in Hl as [Hl1%Z.leb_le Hl2%Z.leb_le].
    destruct (Z.leb_spec (di_received d + slen (gc_data c)) total) as [Ht|Ht]; cbn [unless].
    2: { split; [done|]. intros ([|c' cs] & [=] & (_ & _ & Hf) & ? & _). subst. apply follows_le in Hf. lia. }
    rewrite IH by done. cbn [di_received di_count di_largest di_text]. split.
    + intros (cs & -> & Hf & Hle & Heq). exists (c :: cs). split; [done|]. split; [done|]. split; [done|].
      rewrite Heq at 1. f_equal; [unfold zlen; simpl; lia|]. cbn. by rewrite append_assoc.
    + intros ([|c' cs] & [= <- ->] & (_ & _ & Hf) & Hle & Heq). exists cs. split; [done|]. split; [done|]. split; [done|].
      rewrite Heq at 1. f_equal; [unfold zlen; simpl; lia|]. cbn. by rewrite append_assoc.
Qed.

Section Diagnosis.
Context `{Hash}.
(** A call in time whose peer stays. *)
Definition steady (c : call_context) : Prop := (∃ t, c.(cc_remaining) = Some t ∧ t ≤ 30) ∧ ∀ i, c.(cc_active) i = true.
Lemma in_deadline {A} c (k : E A) : steady c → require_deadline c k = k.
Proof using Type. intros [(t & Ht & Hl) _]. unfold require_deadline. rewrite Ht. by rewrite (proj2 (Z.leb_le _ _)). Qed.
Lemma chunks_inj cs : ∀ cs', map DChunk cs = map DChunk cs' → cs = cs'.
Proof using Type. induction cs as [|c cs IH]; intros [|c' cs'] E; try done. injection E as <- E. by rewrite (IH cs' E). Qed.
(** Where the deadline, the identity and the sizes of the header are accepted, the
    service answers a stream exactly when its frames are chunks that continue each
    other up to the announced total and digest. *)
Lemma stream_digest_iff c i total sha frames r : steady c → is_uuid i = true → 0 ≤ total ≤ DIAGNOSTIC_BYTES → slen sha = 32 →
  StreamDigest c (DHeader i total sha :: frames) = Ok r ↔
  ∃ cs, frames = map DChunk cs ∧ follows 0 cs total ∧ sha256 (cat (map gc_data cs)) = sha
    ∧ r = mkDigestResult total sha (zlen cs) (largest cs 0).
Proof using Type.
  intros Hc Hi Ht Hs. unfold StreamDigest, require_uuid. rewrite in_deadline, Hi by done. cbn [unless].
  rewrite (proj2 (Z.leb_le _ _)), (proj2 (Z.eqb_eq _ _)) by lia. cbn [unless].
  destruct (digest_frames (cc_active c) total 0 frames (mkDigesting 0 0 0 "")) as [d|x] eqn:Hd; cbn [andthen].
  - apply digest_frames_iff in Hd as (cs & -> & Hf & Hle & Hd); [|apply Hc|cbn; lia]. cbn in Hf, Hd.
    destruct (Z.eqb_spec (di_received d) total) as [Hr|Hr]; cbn [unless].
    + rewrite Hd. cbn. rewrite Hr. case_bool_decide as Hsha; cbn.
      * split; [intros [= <-]; exists cs; by subst sha; rewrite <- Hr|].
        intros (cs' & Hcs & _ & _ & ->). apply chunks_inj in Hcs as <-. by rewrite Hsha.
      * split; [done|]. intros (cs' & Hcs & _ & ? & _). by apply chunks_inj in Hcs as <-.
    + split; [done|]. intros (cs' & Hcs & Hf' & _). apply chunks_inj in Hcs as <-.
      apply follows_length in Hf, Hf'. lia.
  - split; [done|]. intros (cs & -> & Hf & _). exfalso.
    assert (digest_frames (cc_active c) total 0 (map DChunk cs) (mkDigesting 0 0 0 "")
      = Ok (mkDigesting total (0 + zlen cs) (largest cs 0) ("" +:+ cat (map gc_data cs)))) as Hok; [|congruence].
    apply digest_frames_iff; [apply Hc|cbn; lia|]. exists cs. split; [done|]. split; [done|]. split; [cbn; lia|done].
Qed.
Lemma received_all cs : ∀ o e m t, follows o cs e → received_chunks cs o m t = Some (e, largest cs m, t +:+ cat (map gc_data cs)).
Proof using Type.
  induction cs as [|c cs IH]; intros o e m t; cbn [follows received_chunks map cat]; [intros ->; by rewrite append_nil_r|].
  intros (Ho & Hl & Hf). rewrite (proj2 (Z.eqb_eq _ _)), !(proj2 (Z.leb_le _ _)) by lia. cbn [andb].
  rewrite (IH _ _ _ _ Hf). by rewrite append_assoc.
Qed.

(** C36: a diagnosis of any size within the limits succeeds over a steady
    connection: the service takes the stream the client sends and answers its
    digest, the client takes the stream the service generates, and both are the
    same bytes, counted exactly. *)
Theorem diagnose_succeeds listener implemented probe contexts ids total deadline stream_deadline :
  (∀ i, steady (contexts i)) → (∀ i, is_uuid (ids i) = true) → 0 ≤ total ≤ DIAGNOSTIC_BYTES →
  0 < deadline ≤ 30 → 0 < stream_deadline ≤ 30 →
  ∃ g, diagnose (connected listener implemented probe contexts) ids total deadline stream_deadline = Ok g
    ∧ g.(gn_uploaded) = total ∧ g.(gn_downloaded) = total ∧ slen (expected_text total) = total
    ∧ g.(gn_sha256) = sha256 (expected_text total) ∧ g.(gn_chunks) = zlen (synthetic_chunks total CHUNK_BYTES)
    ∧ g.(gn_health).(he_request_id) = ids 0%nat.
Proof.
  intros Hc Hi Ht Hd Hsd. pose proof (synthetic_follows total CHUNK_BYTES ltac:(lia) ltac:(unfold CHUNK_BYTES; lia)) as Hf.
  pose proof (follows_length _ _ _ Hf) as Hlen. unfold diagnose, in_time.
  rewrite !(proj2 (Z.leb_le _ _)), !(proj2 (Z.ltb_lt _ _)) by lia. cbn [andb connected st_health st_digest st_generate].
  unfold Health, GenerateStream. rewrite !in_deadline by done. unfold require_uuid. rewrite !Hi. cbn [unless].
  replace (StreamDigest _ _) with (Ok (X := rpc_error) (mkDigestResult total (sha256 (expected_text total))
    (zlen (synthetic_chunks total CHUNK_BYTES)) (largest (synthetic_chunks total CHUNK_BYTES) 0))).
  2: { symmetry. apply stream_digest_iff; [done|done|done|apply sha256_length|]. by exists (synthetic_chunks total CHUNK_BYTES). }
  rewrite !(proj2 (Z.leb_le _ _)) by (unfold CHUNK_BYTES; lia). cbn [andb unless].
  rewrite while_all by apply Hc. rewrite (received_all _ _ _ _ _ Hf). cbn [dg_received dg_sha256].
  rewrite !Z.eqb_refl, !bool_decide_true by done. cbn [andb].
  destruct (default _ probe) as [backend available]. eexists. split; [done|]. cbn. split_and!; done.
Qed.
End Diagnosis.
