(* ===== verification/Trees.v ===== *)
(** * Trees of local files

    Files and directories of a file system by the parts of their names, the
    operations of [pathlib] and [os] that the archives of
    [common/backup_archive.py] and the state file of [client/state.py] use, and
    what they do to the files that are there. *)
From Stdlib Require String.
From S2P Require Import Prelude.

Abbreviation tree := (gmap (list string) (option string)).
(** [target.parent.mkdir(parents=True, exist_ok=True)]. *)
Fixpoint parents (above : list string) (p : list string) : list (list string) :=
  match p with
  | [] | [_] => []
  | c :: p => (above ++ [c]) :: parents (above ++ [c]) p
  end.
Definition make_dir (t : option tree) (p : list string) : option tree :=
  t ← t; match t !! p with Some (Some _) => None | _ => Some (<[p := None]> t) end.
Definition make_parents (p : list string) (t : tree) : option tree := fold_left make_dir (parents [] p) (Some t).
(** [open('xb')]: the name is free, and not the destination itself. *)
Definition open_new (p : list string) (t : tree) : option tree :=
  if bool_decide (p = []) || bool_decide (is_Some (t !! p)) then None else Some (<[p := Some ""]> t).
(** ** Trees of files *)
(** What a destination holds when the files [l] are there. *)
Definition below (q p : list string) : Prop := q `prefix_of` p ∧ q ≠ p.
Record holds (l : list (list string * string)) (t : tree) : Prop := mkHolds {
  ho_files : ∀ p c, t !! p = Some (Some c) ↔ (p, c) ∈ l;
  ho_dirs : ∀ p, t !! p = Some None → ∃ q c, (q, c) ∈ l ∧ below p q }.
(** [p] is free: no file lies on the way to it or below it. *)
Definition free (l : list (list string * string)) (p : list string) : Prop :=
  p ≠ [] ∧ ∀ q c, (q, c) ∈ l → ¬ q `prefix_of` p ∧ ¬ p `prefix_of` q.
Lemma holds_nil : holds [] ∅.
Proof.
  split; [|intros p Hp; by rewrite lookup_empty in Hp]. intros p c. split; [intros Hp; by rewrite lookup_empty in Hp|by intros ?%not_elem_of_nil].
Qed.
Lemma parents_below p : ∀ above q, q ∈ parents above p → below q (above ++ p) ∧ above `prefix_of` q.
Proof.
  induction p as [|c p IH]; intros above q; cbn [parents]; [by intros ?%not_elem_of_nil|].
  destruct p as [|c' p]; [by intros ?%not_elem_of_nil|]. intros [->|Hq]%elem_of_cons.
  - split; [split|by exists [c]].
    + exists (c' :: p). by rewrite <- app_assoc.
    + intros E. apply (f_equal length) in E. rewrite !length_app in E. simpl in E. lia.
  - apply IH in Hq as [Hb Ha]. rewrite <- app_assoc in Hb. split; [exact Hb|]. etrans; [by exists [c]|exact Ha].
Qed.
(** While the parents of [p] are made, the files stay. *)
Definition making (l : list (list string * string)) (p : list string) (t : tree) : Prop :=
  (∀ q c, t !! q = Some (Some c) ↔ (q, c) ∈ l)
  ∧ ∀ q, t !! q = Some None → below q p ∨ ∃ q' c, (q', c) ∈ l ∧ below q q'.
Lemma dirs_made l p qs : free l p → (∀ q, q ∈ qs → below q p) → ∀ t, making l p t →
  ∃ t', fold_left make_dir qs (Some t) = Some t' ∧ making l p t'.
Proof.
  intros [_ Hf]. induction qs as [|q qs IH]; intros Hqs t [Hfi Hd]; cbn [fold_left]; [by exists t|].
  assert (below q p) as Hq by (apply Hqs; by left).
  assert (∀ c, t !! q ≠ Some (Some c)) as Hn by (intros c Hc; apply Hfi in Hc; exact (proj1 (Hf q c Hc) (proj1 Hq))).
  assert (make_dir (Some t) q = Some (<[q := None]> t)) as ->.
  { unfold make_dir. cbn. destruct (t !! q) as [[c|]|] eqn:E; [by destruct (Hn c)|done|done]. }
  apply IH; [intros q' ?; apply Hqs; by right|]. split.
  - intros q' c. destruct (decide (q' = q)) as [->|Hne].
    + rewrite lookup_insert_eq. split; [done|]. intros Hc%Hfi. by destruct (Hn c).
    + rewrite lookup_insert_ne by done. apply Hfi.
  - intros q'. destruct (decide (q' = q)) as [->|Hne]; [intros _; by left|]. rewrite lookup_insert_ne by done. apply Hd.
Qed.
Lemma parents_made l p t : free l p → holds l t → ∃ t', make_parents p t = Some t' ∧ making l p t'.
Proof.
  intros Hf [Hfi Hd]. apply (dirs_made l p); [done|intros q Hq; by apply (parents_below p [])|].
  split; [done|]. intros q Hq. right. by apply Hd.
Qed.
(** The new file, with whatever content. *)
Lemma file_written l p t c : free l p → making l p t →
  open_new p t = Some (<[p := Some ""]> t) ∧ holds (l ++ [(p, c)]) (<[p := Some c]> (<[p := Some ""]> t)).
Proof.
  intros [Hp Hf] [Hfi Hd].
  assert (t !! p = None) as Hnone.
  { destruct (t !! p) as [[x|]|] eqn:E; [|exfalso|done].
    - exfalso. apply Hfi in E. exact (proj1 (Hf p x E) (reflexivity p)).
    - destruct (Hd p E) as [[_ ?]|(q & x & Hq & Hb)]; [done|]. exact (proj2 (Hf q x Hq) (proj1 Hb)). }
  split.
  { unfold open_new. rewrite Hnone, !bool_decide_false; [done|by intros []|done]. }
  rewrite insert_insert_eq. split.
  - intros q x. rewrite elem_of_app, list_elem_of_singleton. destruct (decide (q = p)) as [->|Hne].
    + rewrite lookup_insert_eq. split; [intros [= ->]; by right|]. intros [Hin|[= ->]]; [|done].
      apply Hfi in Hin. congruence.
    + rewrite lookup_insert_ne by done. rewrite Hfi. naive_solver.
  - intros q. destruct (decide (q = p)) as [->|Hne]; [by rewrite lookup_insert_eq|]. rewrite lookup_insert_ne by done.
    intros Hq. destruct (Hd q Hq) as [Hb|(q' & x & Hq' & Hb)].
    + exists p, c. split; [apply elem_of_app; right; by left|done].
    + exists q', x. split; [by apply elem_of_app; left|done].
Qed.

(** Membership in the short lists of names. *)
Ltac members := try intros ?; rewrite ?elem_of_cons, ?elem_of_nil; tauto.

(** ** Files that stay

    [agree X t t']: outside [X] the two trees have the same files. *)
Definition agree (X : list (list string)) (t t' : tree) : Prop :=
  ∀ q c, q ∉ X → (t' !! q = Some (Some c) ↔ t !! q = Some (Some c)).
#[export] Instance agree_preorder X : PreOrder (agree X).
Proof. split; [by intros t q c|]. intros t1 t2 t3 A1 A2 q c Hq. rewrite (A2 q c Hq). by apply A1. Qed.
Lemma agree_more X Y t t' : X ⊆ Y → agree X t t' → agree Y t t'.
Proof. intros HX A q c Hq. apply A. set_solver. Qed.
Lemma agree_insert X p o t t' : p ∈ X → agree X t t' → agree X t (<[p := o]> t').
Proof. intros Hp A q c Hq. rewrite lookup_insert_ne by (intros ->; done). by apply A. Qed.
Lemma agree_delete X p t t' : p ∈ X → agree X t t' → agree X t (delete p t').
Proof. intros Hp A q c Hq. rewrite lookup_delete_ne by (intros ->; done). by apply A. Qed.
Lemma make_dir_agree t p t' : make_dir (Some t) p = Some t' → agree [] t t' ∧ ∀ q, q ≠ p → t' !! q = t !! q.
Proof.
  unfold make_dir. cbn. intros Hm. assert (t' = <[p := None]> t ∧ ∀ c, t !! p ≠ Some (Some c)) as [-> Hp]
    by (destruct (t !! p) as [[c|]|]; by simplify_eq).
  split; [|intros q Hq; by rewrite lookup_insert_ne].
  intros q c _. destruct (decide (q = p)) as [->|Hq]; [rewrite lookup_insert_eq|by rewrite lookup_insert_ne].
  split; [done|]. by intros Hc%Hp.
Qed.
Lemma make_dirs_agree qs : ∀ t t', fold_left make_dir qs (Some t) = Some t' → agree [] t t' ∧ ∀ q, q ∉ qs → t' !! q = t !! q.
Proof.
  induction qs as [|p qs IH]; intros t t' Hm; cbn [fold_left] in Hm; [by simplify_eq|].
  destruct (make_dir (Some t) p) as [t1|] eqn:H1; [|exfalso; clear -Hm; by induction qs].
  apply make_dir_agree in H1 as [A1 S1]. apply IH in Hm as [A2 S2]. split; [by etrans|].
  intros q [Hq Hqs]%not_elem_of_cons. rewrite S2 by done. by apply S1.
Qed.
Lemma make_parents_agree p t t' : make_parents p t = Some t' → agree [] t t' ∧ t' !! p = t !! p.
Proof.
  intros [A S]%make_dirs_agree. split; [done|]. apply S. intros Hp. by apply (parents_below p []) in Hp as [[_ ?] _].
Qed.
