(* ===== verification/ClientState.v ===== *)
(** * The state file of the command line ([client/state.py])

    The session, the working directory, the handles and the locks of a user stay
    on disk between two commands, sealed under a key that is kept elsewhere.  A
    new state is written beside the old one and renamed over it: however the
    program ends, the file holds the old state or the new one. *)
From Stdlib Require String.
From S2P Require Import Prelude Domain Data Store Auth Etcd Process Protected Trees.

Record home_env := mkHomeEnv {
  h_stops : nat → bool; h_fails : nat → bool; h_random : nat → Z → string;
  h_name : nat → string;               (* the name that [mkstemp] draws *)
  h_written : nat → nat }.             (* how much of a text a write has put so far *)
Record home := mkHome { h_tree : tree; h_ticks : nat }.
#[export] Instance eta_home : Eta home := λ r, mkHome r.(h_tree) r.(h_ticks).
#[export] Instance home_process : Process home_env home := {
  stops w := w.(h_stops);
  ticks s := s.(h_ticks);
  ticked s := s <| h_ticks ::= S |> }.
Abbreviation L := (PM home_env home).

(** A file operation: it takes a tick, and may fail. *)
Definition touch : L unit := broken ← query h_fails; if (broken : bool) then fail (Raised PyError) else mret tt.
Definition or_crash {A} (o : option A) : L A := match o with Some a => mret a | None => fail (Raised PyError) end.
Definition change (f : tree → option tree) : L unit :=
  touch;;
  t ← gets h_tree; t ← or_crash (f t);
  sets (λ s, s <| h_tree := t |>).
Definition here (p : list string) : L (option (option string)) := t ← gets h_tree; mret (t !! p).
Definition read_bytes (p : list string) : L string :=
  touch;; o ← here p; or_crash (mjoin o).
(** [out.write(raw)]: what was written so far stays when the process stops. *)
Definition write_out (p : list string) (raw : string) : L unit :=
  n ← query h_written;
  change (λ t, Some (<[p := Some (String.substring 0 n raw)]> t));;
  change (λ t, Some (<[p := Some raw]> t)).
Definition beside (p : list string) (name : string) : list string := removelast p ++ [name].
(** [os.replace]. *)
Definition replace_file (q p : list string) (t : tree) : option tree :=
  raw ← mjoin (t !! q);
  match t !! p with Some None => None | _ => Some (<[p := Some raw]> (delete q t)) end.
Definition unlink_file (p : list string) (t : tree) : option tree :=
  match t !! p with Some None => None | _ => Some (delete p t) end.

Definition MAX_STATE : Z := 4 * 1048576.
Definition STATE_CONTEXT : string := "dfsha-client-state-v1".

Section State.
Context `{Hash, Aead, Kdf, Codec json}.

Definition initialize_key (path state : list string) : L unit :=
  demand (negb (bool_decide (removelast state `prefix_of` path))) INVALID_ARGUMENT;;
  o ← here path;
  match o with
  | Some None => refuse DATA_LOSS
  | Some (Some _) => raw ← read_bytes path; demand (slen raw =? 32) DATA_LOSS
  | None =>
      s ← here state;
      demand (bool_decide (s = None)) ALREADY_EXISTS;;
      change (make_parents path);; touch;;
      change (open_new path);;
      raw ← query (λ w i, w.(h_random) i 32);
      write_out path raw;; touch
  end.
(** [MetadataCipher.configured]; without a key file the state is not sealed. *)
Definition cipher (key_file : option (list string)) (required : bool) : L (option MetadataCipher) :=
  demand (negb required || bool_decide (is_Some key_file)) PERMISSION_DENIED;;
  match key_file with
  | None => mret None
  | Some k => raw ← read_bytes k; c ← or_crash (metadata_cipher raw); mret (Some c)
  end.
Definition load (path : list string) (key_file : option (list string)) (required : bool) : L json :=
  codec ← cipher key_file required;
  o ← here path;
  match o with
  | None => mret (JObj [])
  | Some o =>
      demand (slen (default "" o) <=? MAX_STATE) LIMIT_EXCEEDED;;
      raw ← read_bytes path;
      raw ← match codec with Some c => of_result (open_envelope c raw STATE_CONTEXT) | None => mret raw end;
      or_crash (decode raw)
  end.
Definition save (path : list string) (state : json) (key_file : option (list string)) (required : bool) : L unit :=
  codec ← cipher key_file required;
  raw ← match codec with
        | Some c => nonce ← query (λ w i, w.(h_random) i 12); mret (seal c nonce (encode state) STATE_CONTEXT)
        | None => mret (encode state)
        end;
  demand (slen raw <=? MAX_STATE) LIMIT_EXCEEDED;;
  change (make_parents path);; touch;;
  name ← query h_name;
  let temporary := beside path name in
  change (open_new temporary);;
  try_finally (write_out temporary raw;; change (replace_file temporary path);; touch)
    (change (unlink_file temporary)).

(** ** What a state file says *)
Definition codec_of (key_file : option (list string)) (required : bool) (t : tree) : result failure (option MetadataCipher) :=
  if negb required || bool_decide (is_Some key_file) then
    match key_file with
    | None => Ok None
    | Some k => match mjoin (t !! k) ≫= metadata_cipher with Some c => Ok (Some c) | None => Err (Raised PyError) end
    end
  else Err (Raised (Fault PERMISSION_DENIED)).
Definition opened (codec : option MetadataCipher) (raw : string) : result exn string :=
  match codec with Some c => open_envelope c raw STATE_CONTEXT | None => Ok raw end.
Definition load_of (path : list string) (key_file : option (list string)) (required : bool) (t : tree) : result failure json :=
  match codec_of key_file required t with
  | Err x => Err x
  | Ok codec =>
      match t !! path with
      | None => Ok (JObj [])
      | Some o =>
          if slen (default "" o) <=? MAX_STATE then
            match o with
            | None => Err (Raised PyError)
            | Some raw =>
                match opened codec raw with
                | Ok text => match decode text with Some j => Ok j | None => Err (Raised PyError) end
                | Err x => Err (Raised x)
                end
            end
          else Err (Raised (Fault LIMIT_EXCEEDED))
      end
  end.
(** Where nothing fails, [load] gives what the file says. *)
Definition works (w : home_env) : Prop := ∀ i, w.(h_stops) i = false ∧ w.(h_fails) i = false.
Lemma touch_works w s : works w → touch w s = (Ok tt, ticked s).
Proof using Type.
  intros Hw. destruct (Hw (ticks s)) as [Hs Hf]. unfold touch, query, tick, mbind, pm_bind.
  change (stops w (ticks s)) with (h_stops w (ticks s)). rewrite Hs. cbv [asks]. by rewrite Hf.
Qed.
Lemma read_works w s p : works w →
  read_bytes p w s = (match mjoin (s.(h_tree) !! p) with Some c => Ok c | None => Err (Raised PyError) end, ticked s).
Proof using Type.
  intros Hw. unfold read_bytes. rewrite (pm_bind_run (touch_works w s Hw)).
  rewrite (pm_bind_run (a := h_tree s !! p) (s1 := ticked s)) by done. by destruct (h_tree s !! p) as [[c|]|].
Qed.
Lemma load_works w s path key_file required : works w →
  (load path key_file required w s).1 = load_of path key_file required s.(h_tree).
Proof using Type.
  intros Hw. unfold load, load_of.
  assert (∃ s', cipher key_file required w s = (codec_of key_file required s.(h_tree), s') ∧ h_tree s' = h_tree s) as (s1 & Hc & Ht).
  { unfold cipher, codec_of. destruct (negb required || bool_decide (is_Some key_file)); [|by exists s].
    destruct key_file as [k|]; [|by exists s]. exists (ticked s). split; [|done].
    cbn [demand]. rewrite (pm_bind_run (a := tt) (s1 := s)) by done. unfold mbind, pm_bind. rewrite read_works by done.
    destruct (mjoin (h_tree s !! k)) as [raw|]; [|done]. cbn. by destruct (metadata_cipher raw). }
  unfold mbind at 1, pm_bind at 1. rewrite Hc. destruct (codec_of key_file required (h_tree s)) as [codec|x]; [|done].
  rewrite (pm_bind_run (a := h_tree s !! path) (s1 := s1)) by (by rewrite <- Ht).
  destruct (h_tree s !! path) as [o|] eqn:Ho; [|done].
  destruct (slen (default "" o) <=? MAX_STATE); [|done]. rewrite (pm_bind_run (a := tt) (s1 := s1)) by done.
  unfold mbind at 1, pm_bind at 1. rewrite read_works by done. rewrite Ht, Ho. cbn. destruct o as [raw|]; [|done]. cbn.
  unfold opened. destruct codec as [c|]; [destruct (open_envelope c raw STATE_CONTEXT)|]; unfold mbind, pm_bind; cbn; try done; by destruct (decode _).
Qed.

(** ** Saving, however it ends *)
Section Saving.
Context (path : list string) (key_file : option (list string)) (required : bool) (new : json) (w : home_env) (before : tree).
(** The key lies elsewhere, [mkstemp] draws another name, [urandom] gives what is asked. *)
Hypothesis Hkey : key_file ≠ Some path.
Hypothesis Hname : ∀ i, beside path (w.(h_name) i) ≠ path.
Hypothesis Hrandom : ∀ i, slen (w.(h_random) i 12) = 12.
(** A text that is loaded as the new state. *)
Definition says (raw : string) : Prop :=
  ∃ codec, codec_of key_file required before = Ok codec ∧ slen raw ≤ MAX_STATE ∧ opened codec raw = Ok (encode new).
(** The file is as before or says the new state; beside it only the temporary changed. *)
Definition fresh (temporary : list string) : Prop := temporary ≠ path ∧ ∀ c, before !! temporary ≠ Some (Some c).
Definition old_or_new (t : tree) : Prop := t !! path = before !! path ∨ ∃ raw, says raw ∧ t !! path = Some (Some raw).
Definition safe (x : failure) (s : home) : Prop :=
  old_or_new s.(h_tree) ∧ ∃ Y, (∀ q, q ∈ Y → fresh q) ∧ agree (path :: Y) before s.(h_tree).
Definition untouched (s : home) : Prop := agree [] before s.(h_tree) ∧ s.(h_tree) !! path = before !! path.
Definition during (q : list string) (s : home) : Prop :=
  fresh q ∧ agree [q] before s.(h_tree) ∧ s.(h_tree) !! path = before !! path.

Lemma ensures_touch (P : home → Prop) (I : failure → home → Prop) :
  (∀ s s', h_tree s = h_tree s' → P s → P s') → (∀ x s, P s → I x s) → ensures I w P touch (λ _, P).
Proof using Type.
  intros HP HI s Hs. unfold touch, query, tick, mbind, pm_bind. destruct (stops w (ticks s)); [by apply HI|]. cbv [asks].
  assert (P (ticked s)) as Hp by (by apply (HP s)). destruct (h_fails w (ticks s)); [by apply HI|done].
Qed.
Lemma ensures_change (P Q : home → Prop) (I : failure → home → Prop) f :
  (∀ s s', h_tree s = h_tree s' → P s → P s') → (∀ x s, P s → I x s) →
  (∀ s t, P s → f s.(h_tree) = Some t → Q (s <| h_tree := t |>)) → ensures I w P (change f) (λ _, Q).
Proof using Type.
  intros HP HI HQ. unfold change. eapply ensures_bind; [by apply ensures_touch|intros u s Hs].
  unfold mbind, pm_bind, gets. destruct (f (h_tree s)) as [t|] eqn:Hf; [by apply HQ|by apply HI].
Qed.
Lemma untouched_safe x s : untouched s → safe x s.
Proof using Type.
  intros [Ha Hp]. split; [by left|]. exists []. split; [by intros q ?%not_elem_of_nil|]. eapply agree_more; [|exact Ha]. members.
Qed.
Lemma during_safe x q s : during q s → safe x s.
Proof using Type.
  intros (Hf & Ha & Hp). split; [by left|]. exists [q]. split; [by intros y ->%list_elem_of_singleton|]. eapply agree_more; [|exact Ha]. members.
Qed.
Lemma during_write q raw : ensures safe w (during q) (write_out q raw) (λ _ s, during q s ∧ s.(h_tree) !! q = Some (Some raw)).
Proof using Type.
  assert (∀ s t c, during q s → (λ t, Some (<[q:=Some c]> t)) (h_tree s) = Some t →
    during q (s <| h_tree := t |>) ∧ t !! q = Some (Some c)) as Hw.
  { intros s t c (Hf & Ha & Hp) [= <-]. split; [|apply lookup_insert_eq]. split_and!; [done|apply agree_insert; [members|done]|].
    cbn. rewrite lookup_insert_ne; [done|]. by apply Hf. }
  unfold write_out. eapply (ensures_bind _ _ _ _ _ (λ _, during q)).
  { intros s Hs. unfold query, tick, mbind, pm_bind. destruct (stops w (ticks s)); [by apply (during_safe _ q)|done]. }
  intros n. eapply (ensures_bind _ _ _ _ _ (λ _, during q)).
  - apply ensures_change; [by intros s s' E; unfold during; rewrite E|intros x s; apply during_safe|]. intros s t Hs Ht. by eapply Hw.
  - intros u. apply ensures_change; [by intros s s' E; unfold during; rewrite E|intros x s; apply during_safe|].
    intros s t Hs Ht. by eapply (Hw s).
Qed.
(** Once renamed, the file says the new state. *)
Definition done_at (q : list string) (raw : string) (s : home) : Prop :=
  fresh q ∧ agree [path; q] before s.(h_tree) ∧ s.(h_tree) !! path = Some (Some raw).
Lemma done_safe x q raw s : says raw → done_at q raw s → safe x s.
Proof using Type. intros Hs (Hf & Ha & Hp). split; [right; by exists raw|]. exists [q]. split; [by intros y ->%list_elem_of_singleton|exact Ha]. Qed.
Lemma saved_file q raw : says raw →
  ensures safe w (λ s, during q s ∧ s.(h_tree) !! q = Some (Some raw)) (change (replace_file q path);; touch)
    (λ _ s, done_at q raw s ∧ s.(h_tree) !! q = None).
Proof using Type.
  clear Hkey Hname Hrandom. intros Hsays. eapply (ensures_bind _ _ _ _ _ (λ _ s, done_at q raw s ∧ s.(h_tree) !! q = None)).
  - apply ensures_change; [by intros s s' E; unfold during; rewrite E|intros x s [? _]; by apply (during_safe _ q)|].
    intros s t [(Hf & Ha & Hp) Hq] Ht. unfold replace_file in Ht. rewrite Hq in Ht. cbn in Ht.
    assert (t = <[path := Some raw]> (delete q (h_tree s))) as -> by (by destruct (h_tree s !! path) as [[]|]; simplify_eq).
    split; [split_and!|]; [done| |cbn; apply lookup_insert_eq|].
    + cbn. apply agree_insert; [members|]. apply agree_delete; [members|]. eapply agree_more; [|exact Ha]. members.
    + cbn. rewrite lookup_insert_ne by (apply not_eq_sym, Hf). apply lookup_delete_eq.
  - intros u. apply ensures_touch; [by intros s s' E; unfold done_at; rewrite E|]. intros x s [? _]. by eapply done_safe.
Qed.
(** The temporary goes; what it leaves is the file and all others. *)
Definition only (s : home) : Prop := agree [path] before s.(h_tree).
Lemma temporary_removed q (P : home → Prop) (Q : unit → home → Prop) : fresh q →
  (∀ s s', h_tree s = h_tree s' → P s → P s') → (∀ x s, P s → safe x s) →
  (∀ s, P s → Q tt (s <| h_tree ::= delete q |>)) → ensures safe w P (change (unlink_file q)) Q.
Proof using Type.
  intros Hf HP HI HQ. eapply ensures_weaken; [apply (ensures_change P (Q tt))|done|by intros []]; [done|done|].
  intros s t Hs Ht. unfold unlink_file in Ht. specialize (HQ s Hs).
  destruct (h_tree s !! q) as [[c|]|]; [|done|]; injection Ht as <-; exact HQ.
Qed.
Lemma safe_removed q x s : fresh q → safe x s → safe x (s <| h_tree ::= delete q |>).
Proof using Type.
  clear Hkey Hname Hrandom. intros Hf [Ho (Y & HY & Ha)]. split.
  - unfold old_or_new. cbn. rewrite lookup_delete_ne by apply Hf. exact Ho.
  - exists (q :: Y). split; [intros y [->|?]%elem_of_cons; [exact Hf|by apply HY]|]. cbn.
    apply agree_delete; [members|]. eapply agree_more; [|exact Ha]. members.
Qed.
Lemma done_removed q raw s : done_at q raw s → only (s <| h_tree ::= delete q |>) ∧ (s <| h_tree ::= delete q |>).(h_tree) !! path = Some (Some raw).
Proof using Type.
  clear Hkey Hname Hrandom. intros (Hf & Ha & Hp). split; [|cbn; by rewrite lookup_delete_ne by apply Hf].
  intros y c Hy. cbn. destruct (decide (y = q)) as [->|Hne].
  - rewrite lookup_delete_eq. split; [done|]. by intros Hc%Hf.
  - rewrite lookup_delete_ne by done. apply Ha. intros [->|[->|[]%not_elem_of_nil]%elem_of_cons]%elem_of_cons; [apply Hy; by left|done].
Qed.
(** The key and the text are found before anything is changed. *)
Definition unchanged (s : home) : Prop := s.(h_tree) = before.
Lemma unchanged_safe x s : unchanged s → safe x s.
Proof using Type. intros E. apply untouched_safe. unfold untouched. rewrite E. by split. Qed.
Lemma cipher_found : ensures safe w unchanged (cipher key_file required)
  (λ codec s, unchanged s ∧ codec_of key_file required before = Ok codec).
Proof using Type.
  clear Hkey. unfold cipher, codec_of. destruct (negb required || bool_decide (is_Some key_file)).
  2: { intros s Hs. by apply unchanged_safe. }
  cbn [demand]. intros s Hs. rewrite (pm_bind_run (a := tt) (s1 := s)) by done.
  destruct key_file as [k|]; [|done]. unfold read_bytes.
  revert s Hs. change (ensures safe w unchanged (raw ← (touch;; o ← here k; or_crash (mjoin o)); c ← or_crash (metadata_cipher raw); mret (Some c))
    (λ codec s, unchanged s ∧ match mjoin (before !! k) ≫= metadata_cipher with Some c => Ok (Some c) | None => Err (Raised PyError) end = Ok codec)).
  eapply (ensures_bind _ _ _ _ _ (λ raw s, unchanged s ∧ mjoin (before !! k) = Some raw)).
  - eapply ensures_bind; [apply (ensures_touch unchanged); [by intros s s' E; unfold unchanged; rewrite E|apply unchanged_safe]|].
    intros u s Hs. rewrite (pm_bind_run (a := h_tree s !! k) (s1 := s)) by done. rewrite Hs.
    destruct (mjoin (before !! k)); [done|by apply unchanged_safe].
  - intros raw s [Hs Hr]. rewrite Hr. cbn. destruct (metadata_cipher raw); [done|by apply unchanged_safe].
Qed.
Lemma codec_opens codec nonce : codec_of key_file required before = Ok codec → slen nonce = 12 →
  opened codec (match codec with Some c => seal c nonce (encode new) STATE_CONTEXT | None => encode new end) = Ok (encode new).
Proof using Type.
  clear Hkey. unfold codec_of. destruct (negb required || bool_decide (is_Some key_file)); [|done].
  destruct key_file as [k|]; [|by intros [= <-]]. destruct (mjoin (before !! k)) as [raw|] eqn:Hr; [|done]. cbn.
  destruct (metadata_cipher raw) as [c|] eqn:Hc; [|done]. intros [= <-] Hn. by apply (seal_opens raw).
Qed.
Lemma saved_ensures : ensures safe w unchanged (save path new key_file required)
  (λ _ s, only s ∧ ∃ raw, says raw ∧ s.(h_tree) !! path = Some (Some raw)).
Proof using Hname Hrandom.
  clear Hkey. unfold save. eapply ensures_bind; [apply cipher_found|]. intros codec. apply ensures_pure. intros Hc.
  eapply (ensures_bind _ _ _ _ _ (λ raw s, unchanged s ∧ opened codec raw = Ok (encode new))).
  { intros s Hs. destruct codec as [c|]; [|done]. unfold query, tick, mbind, pm_bind.
    destruct (stops w (ticks s)); [by apply unchanged_safe|]. cbn. split; [done|]. by apply (codec_opens (Some c)). }
  intros raw. apply ensures_pure. intros Ho.
  eapply ensures_bind; [apply ensures_demand, unchanged_safe|]. intros u. apply ensures_pure. intros Hl%Z.leb_le.
  assert (says raw) as Hsays by (by exists codec).
  eapply (ensures_bind _ _ _ _ _ (λ _, untouched)).
  { apply ensures_change; [by intros s s' E; unfold unchanged; rewrite E|apply unchanged_safe|].
    intros s t Hs Ht. rewrite Hs in Ht. by apply make_parents_agree in Ht. }
  assert (∀ s s', h_tree s = h_tree s' → untouched s → untouched s') as Hsame by (intros s s' E; unfold untouched; by rewrite E).
  intros u'. eapply (ensures_bind _ _ _ _ _ (λ _, untouched)); [apply ensures_touch; [exact Hsame|apply untouched_safe]|].
  intros u2. eapply (ensures_bind _ _ _ _ _ (λ name s, untouched s ∧ beside path name ≠ path)).
  { intros s Hs. unfold query, tick, mbind, pm_bind. destruct (stops w (ticks s)); [by apply untouched_safe|]. by split. }
  intros name. apply ensures_pure. intros Hne. cbv zeta. set (q := beside path name) in *.
  eapply (ensures_bind _ _ _ _ _ (λ _, during q)).
  { apply ensures_change; [exact Hsame|apply untouched_safe|]. intros s t [Ha Hp] Ht. unfold open_new in Ht.
    destruct (bool_decide (q = []) || bool_decide (is_Some (h_tree s !! q))) eqn:Hq; [done|]. injection Ht as <-.
    apply orb_false_iff in Hq as [_ Hq%bool_decide_eq_false]. rewrite <- eq_None_not_Some in Hq.
    split; [|split; [apply agree_insert; [members|]; eapply agree_more; [|exact Ha]; members|cbn; by rewrite lookup_insert_ne]].
    split; [done|]. intros c Hin. apply (Ha q c) in Hin; [|by apply not_elem_of_nil]. by rewrite Hq in Hin. }
  intros u3 s Hs. assert (fresh q) as Hf by apply Hs. revert s Hs. change (ensures safe w (during q)
    (try_finally (write_out q raw;; change (replace_file q path);; touch) (change (unlink_file q)))
    (λ _ s, only s ∧ ∃ raw, says raw ∧ s.(h_tree) !! path = Some (Some raw))).
  apply (ensures_finally _ _ _ _ _ (λ _ s, done_at q raw s ∧ s.(h_tree) !! q = None)).
  - eapply ensures_bind; [apply during_write|]. intros u4. by apply saved_file.
  - intros u4. apply temporary_removed; [done|by intros s s' E; unfold done_at; rewrite E| |].
    + intros x s [? _]. by eapply done_safe.
    + intros s [Hd%done_removed _]. destruct Hd as [? Hp]. split; [done|]. by exists raw.
  - intros x _. apply temporary_removed; [done| | |].
    + intros s s' E. unfold safe, old_or_new. by rewrite E.
    + by intros y s.
    + intros s. by apply safe_removed.
Qed.
(** Reading it afterwards. *)
Lemma codec_same t : (∀ q c, q ≠ path → before !! q = Some (Some c) → t !! q = Some (Some c)) →
  ∀ codec, codec_of key_file required before = Ok codec → codec_of key_file required t = Ok codec.
Proof using Hkey.
  intros Ht codec. unfold codec_of. destruct (negb required || bool_decide (is_Some key_file)); [|done].
  destruct key_file as [k|]; [|done]. destruct (before !! k) as [[raw|]|] eqn:Hk; [|done..].
  rewrite (Ht k raw); [done|congruence|done].
Qed.
Lemma load_new t raw : (∀ q c, q ≠ path → before !! q = Some (Some c) → t !! q = Some (Some c)) →
  says raw → t !! path = Some (Some raw) → load_of path key_file required t = Ok new.
Proof using Hkey.
  intros Ht (codec & Hc & Hl & Ho) Hp. unfold load_of. rewrite (codec_same t Ht codec Hc), Hp. cbn.
  rewrite (proj2 (Z.leb_le _ _)) by done. rewrite Ho. by rewrite decode_encode.
Qed.
Lemma load_old t old : (∀ q c, q ≠ path → before !! q = Some (Some c) → t !! q = Some (Some c)) →
  t !! path = before !! path → load_of path key_file required before = Ok old → load_of path key_file required t = Ok old.
Proof using Hkey.
  intros Ht Hp. unfold load_of. destruct (codec_of key_file required before) as [codec|] eqn:Hc; [|done].
  by rewrite (codec_same t Ht codec Hc), Hp.
Qed.
End Saving.

(** C38: saving is atomic: whatever fails while a state is saved, and wherever
    the process stops, a later [load] gives the old state or the new one; when
    [save] returns it gives the new one, and no other file is left.  The other
    files that were there stay in every case. *)
Theorem save_atomic path key_file required old new w w2 s s0 r s' :
  key_file ≠ Some path → (∀ i, beside path (w.(h_name) i) ≠ path) → (∀ i, slen (w.(h_random) i 12) = 12) → works w2 →
  load path key_file required w2 s = (Ok old, s0) → save path new key_file required w s = (r, s') →
  ((load path key_file required w2 s').1 = Ok old ∨ (load path key_file required w2 s').1 = Ok new)
  ∧ (r = Ok tt → (load path key_file required w2 s').1 = Ok new ∧ agree [path] s.(h_tree) s'.(h_tree))
  ∧ ∀ q c, q ≠ path → s.(h_tree) !! q = Some (Some c) → s'.(h_tree) !! q = Some (Some c).
Proof.
  intros Hkey Hname Hrandom Hw2 Hload Hsave. rewrite load_works by done.
  assert (load_of path key_file required (h_tree s) = Ok old) as Hold by (rewrite <- (load_works w2) by done; by rewrite Hload).
  pose proof (saved_ensures path key_file required new w (h_tree s) Hname Hrandom s eq_refl) as He. rewrite Hsave in He.
  destruct r as [[]|x].
  - destruct He as (Ha & raw & Hsays & Hp).
    assert (∀ q c, q ≠ path → h_tree s !! q = Some (Some c) → h_tree s' !! q = Some (Some c)) as Hkept.
    { intros q c Hq. apply Ha. by intros ->%list_elem_of_singleton. }
    assert (load_of path key_file required (h_tree s') = Ok new) as Hnew by (by eapply load_new).
    split; [by right|]. split; [done|exact Hkept].
  - destruct He as (Ho & Y & HY & Ha).
    assert (∀ q c, q ≠ path → h_tree s !! q = Some (Some c) → h_tree s' !! q = Some (Some c)) as Hkept.
    { intros q c Hq Hc. apply Ha; [|done]. intros [->|Hin]%elem_of_cons; [done|]. by apply HY in Hin as [_ Hf]; apply Hf in Hc. }
    split; [|split; [done|exact Hkept]].
    destruct Ho as [Hp|(raw & Hsays & Hp)]; [left; by eapply load_old|right; by eapply load_new].
Qed.
End State.
