(* ===== verification/Cli.v ===== *)
(** * The command line ([client/cli.py])

    A command is executed on the client that the state file describes; when it
    succeeds the state is saved and its result printed, when it fails nothing is
    saved.  Handles and locks have names of the user's choice, which live in the
    state file between two commands.  The parser of arguments and the loop of the
    shell are not modelled: a command is one constructor with its parsed
    arguments. *)
From Stdlib Require String.
From S2P Require Import Prelude Domain Data Store Auth Leases Cluster Requests Queries Etcd Process Protected Blocks DataNode Streams Client Downloads Sends Ranges Trees ClientState.

Inductive command :=
  | CmdLogin (username : string) | CmdUserAdd (username : string)
  | CmdPwd | CmdLogout | CmdNodes | CmdShell | CmdInitKey
  | CmdUserSet (user_id : string) (revision : Z) (disabled : bool)
  | CmdNodeAuthorize (node_id : string) (revision : Z) (enabled : bool)
  | CmdPasswd (user_id : string) (revision : Z)
  | CmdGroupAdd (name : string) | CmdGroupMembers (group_id : string) (revision : Z) (user_ids : list string)
  | CmdGetAcl (path : string) | CmdSetAcl (path acl_file : string)
  | CmdCopyBlock (path : string) (index : Z) (destination : string) | CmdCopyStatus (task_id : string)
  | CmdProtection (path cursor : string) | CmdPromote (path : string) (revision : Z)
  | CmdLs (path : string) | CmdStat (path : string) | CmdCd (path : string)
  | CmdMkdir (path : string) | CmdRmdir (path : string) | CmdRm (path : string)
  | CmdChmod (mode : Z) (path : string)
  | CmdSend (source destination : string) (overwrite : bool) | CmdReceive (source destination : string) (overwrite : bool)
  | CmdOpen (path mode alias : string) | CmdClose (alias : string) | CmdRenewHandle (alias : string)
  | CmdRead (alias : string) (offset length : Z) (destination : string)
  | CmdWrite (alias : string) (offset : Z) (source request_id : string)
  | CmdLock (alias lock_alias : string) (whole_file : bool) (offset length : option Z) (wait_ms : Z)
  | CmdUnlock (lock_alias : string) | CmdRenewLock (lock_alias : string)
  | CmdOperation (operation_id : string).
(** What a command returns: a message, or a dictionary of its own. *)
Inductive output :=
  | OMessage (r : response) | OText (s : string) | OEntries (l : list Entry) | OUserId (i : string)
  | OLocked (alias : string) (generation : Z) | OGeneration (generation : Z)
  | OWritten (n : Z) (operation_id : option string) | ORead (n : Z) | OReceived (n : Z) (sha : string).

(** Messages as JSON objects ([asdict], [proto]). *)
Class Dict (A : Type) := {
  asdict : A → json;
  proto : json → option A;
  proto_asdict a : proto (asdict a) = Some a }.

Record cli_env := mkCliEnv {
  x_client : client_env; x_home : home_env; x_stops : nat → bool;
  x_line : nat → string;                           (* a line of the terminal, or of stdin *)
  x_name : nat → string;                           (* the name that [mkstemp] draws *)
  x_file : nat → string → option string;           (* a local file *)
  x_acl : nat → string → option Acl }.             (* an ACL file, parsed *)
Record cli := mkCli {
  ci_client : client; ci_home : home;
  ci_handles : gmap string nat; ci_fences : gmap string Fence;   (* [client.handles], [client.fences] *)
  ci_out : list output; ci_ticks : nat }.
#[export] Instance eta_cli : Eta cli := λ r,
  mkCli r.(ci_client) r.(ci_home) r.(ci_handles) r.(ci_fences) r.(ci_out) r.(ci_ticks).
#[export] Instance cli_process : Process cli_env cli := {
  stops w := w.(x_stops);
  ticks s := s.(ci_ticks);
  ticked s := s <| ci_ticks ::= S |> }.
Abbreviation X := (PM cli_env cli).

(** The parts of the program, as parts of one state. *)
Definition on_client {A} (m : C A) : X A := λ w s, let '(r, c) := m w.(x_client) s.(ci_client) in (r, s <| ci_client := c |>).
Definition on_home {A} (m : L A) : X A := λ w s, let '(r, h) := m w.(x_home) s.(ci_home) in (r, s <| ci_home := h |>).
Definition crash {A} : X A := fail (Raised PyError).
Definition some_of {A} (o : option A) : X A := match o with Some a => mret a | None => crash end.
(** [raise ValueError] unless. *)
Definition insist (b : bool) : X unit := if b then mret tt else crash.
Definition message {A} (f : A → response) (m : C A) : X output := a ← on_client m; mret (OMessage (f a)).

Section Cli.
Context `{Hash, Unicode, Wire, ReadWire}.

(** [sys.stdin.readline().rstrip('\r\n')]; what [getpass] gives has no line end. *)
Fixpoint rstrip_line (s : string) : string :=
  match s with
  | EmptyString => ""
  | String c s => let r := rstrip_line s in
      if empty r && (bool_decide (c = "010"%char) || bool_decide (c = "013"%char)) then "" else String c r
  end.
Definition password : X string := l ← query x_line; mret (rstrip_line l).
Definition handle_of (alias : string) : X nat := hs ← gets ci_handles; some_of (hs !! alias).
Definition fence_of (alias : string) : X Fence := fs ← gets ci_fences; some_of (fs !! alias).

(** ** Handles and locks by name *)
Definition run_open (p mode alias : string) : X output :=
  hs ← gets ci_handles;
  insist (bool_decide (hs !! alias = None));;
  h ← on_client (open p mode);
  sets (λ s, s <| ci_handles ::= <[alias := h]> |>);;
  x ← on_client (handle_at h); mret (OMessage (RHandle x)).
Definition run_close (alias : string) : X output :=
  h ← handle_of alias;
  r ← on_client (close h);
  sets (λ s, s <| ci_handles ::= delete alias |>);;
  mret (OMessage (RMutation r)).
Definition run_lock (alias lock_alias : string) (whole_file : bool) (offset length : option Z) (wait_ms : Z) : X output :=
  h ← handle_of alias;
  fs ← gets ci_fences;
  insist (bool_decide (fs !! lock_alias = None));;
  f ← on_client (lock h offset length whole_file wait_ms);
  sets (λ s, s <| ci_fences ::= <[lock_alias := f]> |>);;
  mret (OLocked lock_alias f.(fc_generation)).
Definition run_unlock (lock_alias : string) : X output :=
  f ← fence_of lock_alias;
  r ← on_client (unlock f);
  sets (λ s, s <| ci_fences ::= delete lock_alias |>);;
  mret (OMessage (RMutation r)).
(** [renew_lock] changes the fence object in place. *)
Definition run_renew_lock (lock_alias : string) : X output :=
  f ← fence_of lock_alias;
  f ← on_client (renew_lock f);
  sets (λ s, s <| ci_fences ::= <[lock_alias := f]> |>);;
  mret (OGeneration f.(fc_generation)).
(** At most one byte more than a write may have is read of the source. *)
Definition run_write (alias : string) (offset : Z) (source request_id : string) : X output :=
  h ← handle_of alias;
  o ← query (λ w i, w.(x_file) i source);
  text ← some_of o;
  n ← on_client (write h offset (String.substring 0 (Z.to_nat (MAX_DELTA + 1)) text) [] request_id);
  last ← on_client (gets cl_last_operation);
  mret (OWritten n (or_operation_id <$> last)).
(** The range arrives in a temporary file beside the destination, which it
    replaces at the end; a generator that fails leaves nothing. *)
Definition move_file (file target : string) (fs : gmap string string) : gmap string string :=
  <[target := default "" (fs !! file)]> (delete file fs).
Definition read_into (file : string) (h : nat) (offset length : Z) (destination : string) : C Z :=
  before ← gets (λ c, List.length c.(cl_yielded));
  iter_read h offset length;;
  chunks ← gets (λ c, drop before c.(cl_yielded));
  append file (cat chunks);;
  disk_write (move_file file destination);;
  mret (slen (cat chunks)).
Definition run_read (alias : string) (offset length : Z) (destination : string) : X output :=
  h ← handle_of alias;
  name ← query x_name;
  let file := folder destination +:+ name in
  n ← on_client (create file;; try_finally (read_into file h offset length destination) (unlink file));
  mret (ORead n).

(** ** [execute] *)
Definition execute (c : command) : X output :=
  match c with
  | CmdInitKey => crash
  | CmdUserSet i r d => message RUser (set_user i r d)
  | CmdNodeAuthorize n r e => message id (set_node_authorization n r e)
  | CmdPasswd i r => p ← password; message RUser (change_password i r p)
  | CmdGroupAdd n => message RGroup (create_group n)
  | CmdGroupMembers g r us => message RGroup (set_group_members g r us)
  | CmdGetAcl p => message RAcl (get_acl p)
  | CmdSetAcl p f => o ← query (λ w i, w.(x_acl) i f); a ← some_of o; message RMutation (set_acl p a)
  | CmdProtection p cursor => message RProtection (protection (Some p) "" "" cursor)
  | CmdPromote p r => message id (promote p r)
  | CmdOpen p m alias => run_open p m alias
  | CmdClose alias => run_close alias
  | CmdRenewHandle alias =>
      h ← handle_of alias; h ← on_client (renew_handle h); x ← on_client (handle_at h); mret (OMessage (RHandle x))
  | CmdLock alias l w o n t => run_lock alias l w o n t
  | CmdWrite alias o f i => run_write alias o f i
  | CmdRead alias o n d => run_read alias o n d
  | CmdUnlock l => run_unlock l
  | CmdRenewLock l => run_renew_lock l
  | CmdOperation i => message ROperation (operation i "")
  | CmdLogin n => p ← password; s ← on_client (login n p); mret (OUserId s.(sm_user_id))
  | CmdUserAdd n => p ← password; u ← on_client (create_user n p); mret (OUserId u.(um_user_id))
  | CmdSend _ d o => message RCommit (send d o)
  | CmdReceive s d o => '(n, sha) ← on_client (receive s d o); mret (OReceived n sha)
  | CmdChmod m p => message RMutation (chmod p m)
  | CmdCopyBlock p i d => message id (copy_block p i d)
  | CmdCopyStatus i => message RTask (copy_status i)
  | CmdLs p => l ← on_client (ls p); mret (OEntries l)
  | CmdStat p => message REntry (stat p)
  | CmdCd p => t ← on_client (cd p); mret (OText t)
  | CmdPwd => t ← on_client pwd; mret (OText t)
  | CmdMkdir p => message REntry (mkdir p)
  | CmdRmdir p => message RMutation (rmdir p)
  | CmdRm p => message RMutation (rm p)
  | CmdLogout => message RMutation logout
  | CmdNodes => message RNodes nodes
  | CmdShell => crash
  end.

(** ** The state between two commands *)
Context `{Aead, Kdf, Codec json, Dict Session, Dict Handle, Dict Fence}.
(** [bool(value)]. *)
Definition truthy (j : json) : bool :=
  match j with
  | JNull => false | JBool b => b | JNum n => negb (n =? 0) | JStr s => negb (empty s)
  | JArr l => negb (bool_decide (l = [])) | JObj l => negb (bool_decide (l.*1 = []))
  end.
(** [{k: asdict(v) for k, v in m.items()}]. *)
Definition dict_of {A} `{Dict A} (m : gmap string A) : json := JObj (prod_map id asdict <$> map_to_list m).
(** A document with a repeated name has its last value. *)
Definition entries (l : list (string * json)) : gmap string json := list_to_map (reverse l).
Definition items (j : json) : option (gmap string json) := match j with JObj l => Some (entries l) | _ => None end.
Definition text_of (j : json) : option string := match j with JStr s => Some s | _ => None end.
(** The handles by name, as messages. *)
Definition named (s : cli) : gmap string Handle := omap (λ h, s.(ci_client).(cl_handles) !! h) s.(ci_handles).
Definition state_of (se : Session) (s : cli) : json :=
  JObj [("session", asdict se); ("cwd", JStr s.(ci_client).(cl_cwd)); ("cwd_id", JStr s.(ci_client).(cl_cwd_id));
        ("handles", dict_of (named s)); ("locks", dict_of s.(ci_fences))].
(** [Client(...)]. *)
Definition new_client (session : option Session) : client := mkClient session "/" "" None None ∅ [] None ∅ [] 0 "" [] [] 0.
(** The handles of the state become objects of the process. *)
Definition adopt (l : list (string * json)) : X unit := each l (λ '(k, v),
  x ← some_of (proto v);
  h ← on_client (new_handle x);
  sets (λ s, s <| ci_handles ::= <[k := h]> |>)).
(** Names of another type than a text are refused here; the code would keep them. *)
Definition resume (state : json) : X unit :=
  d ← some_of (items state);
  let get k j := default j (d !! k) in
  session ← some_of (let j := get "session" JNull in if truthy j then Some <$> proto j else Some None);
  sets (λ s, s <| ci_client := new_client session |> <| ci_handles := ∅ |>);;
  cwd ← some_of (text_of (get "cwd" (JStr "/")));
  cwd_id ← some_of (text_of (get "cwd_id" (JStr "")));
  sets (λ s, s <| ci_client ::= λ c, c <| cl_cwd := cwd |> <| cl_cwd_id := cwd_id |> |>);;
  handles ← some_of (items (get "handles" (JObj [])));
  adopt (map_to_list handles);;
  locks ← some_of (items (get "locks" (JObj [])));
  fences ← some_of (mapM (λ '(k, v), pair k <$> proto v) (map_to_list locks));
  sets (λ s, s <| ci_fences := list_to_map fences |>).
Definition start (path : list string) (key_file : option (list string)) (required : bool) : X unit :=
  state ← on_home (load path key_file required); resume state.
Definition save_state (path : list string) (key_file : option (list string)) (required : bool) : X unit :=
  s ← gets id;
  match s.(ci_client).(cl_session) with
  | Some se => on_home (save path (state_of se s) key_file required)
  | None => on_home (change (unlink_file path))
  end.
Definition run (path : list string) (key_file : option (list string)) (required : bool) (c : command) : X unit :=
  o ← execute c;
  save_state path key_file required;;
  sets (λ s, s <| ci_out ::= λ l, l ++ [o] |>).
End Cli.
