(* ===== verification/CliFacts.v ===== *)
(** * The command line keeps its state

    A command that fails leaves the state file alone; after one that succeeds the
    next process starts with the session, the working directory, the handles and
    the locks that the command left. *)
From Stdlib Require String.
From S2P Require Import Prelude Domain Data Store Auth Leases Cluster Requests Queries Etcd Process Protected Blocks DataNode Streams Client Downloads Sends Ranges Trees ClientState Cli.

(** ** What a command touches *)
Definition same_home (s s' : cli) : Prop := s'.(ci_home) = s.(ci_home).
#[export] Instance same_home_order : PreOrder same_home.
Proof. split; [done|]. intros s t u. unfold same_home. by intros -> ->. Qed.

Section Facts.
Context `{Hash, Unicode, Wire, ReadWire}.
Lemma client_home {A} (m : C A) : preserves same_home (on_client m).
Proof using Type. intros w s. unfold on_client. by destruct (m (x_client w) (ci_client s)). Qed.
Lemma query_home {A} (f : cli_env → nat → A) : preserves same_home (query f).
Proof using Type. intros w s. unfold query, tick, mbind, pm_bind. by destruct (stops w (ticks s)). Qed.
Lemma message_home {A} (f : A → response) m : preserves same_home (message f m).
Proof using Type. unfold message. apply preserves_bind; [apply _|apply client_home|]. intros a. apply preserves_ret, _. Qed.
Lemma some_home {A} (o : option A) : preserves same_home (some_of o).
Proof using Type. destruct o; [apply preserves_ret, _|apply preserves_fail, _]. Qed.
Lemma insist_home b : preserves (W := cli_env) same_home (insist b).
Proof using Type. destruct b; [apply preserves_ret, _|apply preserves_fail, _]. Qed.
Lemma sets_home f : (∀ s, ci_home (f s) = ci_home s) → preserves (W := cli_env) same_home (sets f).
Proof using Type. intros Hf. apply preserves_sets. intros s. apply Hf. Qed.
#[local] Hint Resolve client_home query_home message_home some_home insist_home : kept.
#[local] Hint Extern 4 (preserves same_home (sets _)) => (apply sets_home; done) : kept.
#[local] Hint Extern 4 (preserves same_home crash) => (apply preserves_fail; apply _) : kept.
Lemma execute_home c : preserves same_home (execute c).
Proof using Type.
  destruct c; cbn [execute]; unfold run_open, run_close, run_lock, run_unlock, run_renew_lock, run_write, run_read,
    handle_of, fence_of, password; solve_preserves.
Qed.

(** ** Starting again *)
Context `{Aead, Kdf, Codec json, Dict Session, Dict Handle, Dict Fence}.
Lemma list_to_reverse {A} (m : gmap string A) : list_to_map (reverse (map_to_list m)) = m.
Proof using Type.
  rewrite <- (list_to_map_to_list m) at 2. apply list_to_map_proper; [|apply reverse_Permutation].
  rewrite reverse_Permutation. apply NoDup_fst_map_to_list.
Qed.
Lemma items_dict {A} `{Dict A} (m : gmap string A) : items (dict_of m) = Some (asdict <$> m).
Proof using Type.
  unfold items, dict_of, entries. by rewrite <- map_to_list_fmap, list_to_reverse.
Qed.
Lemma mapM_dict {A} `{Dict A} (l : list (string * A)) :
  mapM (λ '(k, v), pair k <$> proto v) (prod_map id asdict <$> l) = Some l.
Proof using Type. induction l as [|[k v] l IH]; [done|]. cbn. rewrite proto_asdict. cbn. by rewrite IH. Qed.
(** The process as far as its state file tells it. *)
Definition valid (s : cli) : Prop := ∀ a i, s.(ci_handles) !! a = Some i → (i < length s.(ci_client).(cl_handles))%nat.
Definition same_rest (s s' : cli) : Prop :=
  s'.(ci_home) = s.(ci_home) ∧ s'.(ci_client).(cl_session) = s.(ci_client).(cl_session)
  ∧ s'.(ci_client).(cl_cwd) = s.(ci_client).(cl_cwd) ∧ s'.(ci_client).(cl_cwd_id) = s.(ci_client).(cl_cwd_id).
Lemma adopt_run w l : ∀ s, valid s → ∃ s', adopt (prod_map id asdict <$> l) w s = (Ok tt, s')
  ∧ named s' = list_to_map (reverse l) ∪ named s ∧ same_rest s s'.
Proof using Type.
  induction l as [|[k x] l IH]; intros s Hv.
  { exists s. split; [done|]. split; [by rewrite reverse_nil, list_to_map_nil, (left_id_L ∅ (∪))|done]. }
  set (s1 := s <| ci_client ::= λ c, c <| cl_handles ::= λ l, l ++ [x] |> |> <| ci_handles ::= <[k := length (cl_handles (ci_client s))]> |>).
  assert (valid s1) as Hv1.
  { intros a i. cbn. rewrite length_app. cbn. destruct (decide (a = k)) as [->|Hne].
    - rewrite lookup_insert_eq. intros [= <-]. lia.
    - rewrite lookup_insert_ne by done. intros Hi%Hv. lia. }
  destruct (IH s1 Hv1) as (s' & Hrun & Hn & Hrest). exists s'. split; [|split; [|exact Hrest]].
  - change (adopt (prod_map id asdict <$> (k, x) :: l)) with
      ((x ← some_of (proto (asdict x)); h ← on_client (new_handle x); sets (λ s, s <| ci_handles ::= <[k := h]> |>));;
       adopt (prod_map id asdict <$> l)).
    rewrite proto_asdict. rewrite (pm_bind_run (a := tt) (s1 := s1)); [exact Hrun|done].
  - rewrite Hn, reverse_cons, list_to_map_app, <- (assoc_L (∪)). f_equal.
    apply map_eq. intros a. unfold named. cbn. rewrite lookup_union, lookup_omap.
    destruct (decide (a = k)) as [->|Hne].
    + rewrite !lookup_insert_eq. cbn. rewrite lookup_app_r by done. rewrite Nat.sub_diag. cbn. by rewrite union_Some_l.
    + rewrite !lookup_insert_ne by done. rewrite lookup_empty, (left_id_L None _), lookup_omap.
      destruct (ci_handles s !! a) as [i|] eqn:Hi; [|done]. cbn. apply lookup_app_l. by apply Hv in Hi.
Qed.
(** What one process leaves is what the next finds. *)
Definition resumed (s s' : cli) : Prop :=
  s'.(ci_client).(cl_session) = s.(ci_client).(cl_session) ∧ s'.(ci_client).(cl_cwd) = s.(ci_client).(cl_cwd)
  ∧ s'.(ci_client).(cl_cwd_id) = s.(ci_client).(cl_cwd_id) ∧ named s' = named s ∧ s'.(ci_fences) = s.(ci_fences).
Lemma resume_state w se t s : truthy (asdict se) = true → t.(ci_client).(cl_session) = Some se →
  ∃ s', resume (state_of se t) w s = (Ok tt, s') ∧ resumed t s'.
Proof using Type.
  intros Hse Ht. unfold resume.
  set (d := entries [("session", asdict se); ("cwd", JStr t.(ci_client).(cl_cwd)); ("cwd_id", JStr t.(ci_client).(cl_cwd_id));
        ("handles", dict_of (named t)); ("locks", dict_of t.(ci_fences))]).
  rewrite (pm_bind_run (a := d) (s1 := s)) by done. cbv zeta.
  assert (default JNull (d !! "session") = asdict se ∧ default (JStr "/") (d !! "cwd") = JStr t.(ci_client).(cl_cwd)
    ∧ default (JStr "") (d !! "cwd_id") = JStr t.(ci_client).(cl_cwd_id) ∧ default (JObj []) (d !! "handles") = dict_of (named t)
    ∧ default (JObj []) (d !! "locks") = dict_of t.(ci_fences)) as (-> & -> & -> & -> & ->) by done.
  clear d. rewrite Hse, proto_asdict.
  rewrite (pm_bind_run (a := Some se) (s1 := s)) by done.
  rewrite (pm_bind_run (a := tt) (s1 := s <| ci_client := new_client (Some se) |> <| ci_handles := ∅ |>)) by done.
  rewrite (pm_bind_run (a := t.(ci_client).(cl_cwd)) (s1 := s <| ci_client := new_client (Some se) |> <| ci_handles := ∅ |>)) by done.
  rewrite (pm_bind_run (a := t.(ci_client).(cl_cwd_id)) (s1 := s <| ci_client := new_client (Some se) |> <| ci_handles := ∅ |>)) by done.
  set (s1 := s <| ci_client := (new_client (Some se)) <| cl_cwd := cl_cwd (ci_client t) |> <| cl_cwd_id := cl_cwd_id (ci_client t) |> |> <| ci_handles := ∅ |>).
  rewrite (pm_bind_run (a := tt) (s1 := s1)) by done.
  rewrite (items_dict (named t)), (items_dict (ci_fences t)). rewrite (pm_bind_run (a := asdict <$> named t) (s1 := s1)) by done.
  rewrite map_to_list_fmap. destruct (adopt_run w (map_to_list (named t)) s1) as (s2 & Hrun & Hn & Hh & Hs & Hc & Hi); [by intros a i|].
  rewrite (pm_bind_run Hrun). rewrite (pm_bind_run (a := asdict <$> ci_fences t) (s1 := s2)) by done.
  rewrite map_to_list_fmap, mapM_dict. rewrite (pm_bind_run (a := map_to_list (ci_fences t)) (s1 := s2)) by done.
  exists (s2 <| ci_fences := list_to_map (map_to_list (ci_fences t)) |>). split; [done|].
  split_and!; cbn; [by rewrite Hs|done|done| |apply list_to_map_to_list].
  unfold named at 1. cbn. fold (named s2). rewrite Hn, list_to_reverse.
  assert (named s1 = ∅) as -> by (apply map_eq; intros a; unfold named; by rewrite lookup_omap, !lookup_empty). by rewrite (right_id_L ∅ (∪)).
Qed.
Lemma resume_empty w s : ∃ s', resume (JObj []) w s = (Ok tt, s')
  ∧ s'.(ci_client) = new_client None ∧ s'.(ci_handles) = ∅ ∧ s'.(ci_fences) = ∅.
Proof using Type.
  unfold resume. assert (items (JObj []) = Some ∅) as -> by done. rewrite (pm_bind_run (a := ∅) (s1 := s)) by done. cbv zeta.
  rewrite !lookup_empty. change (default JNull None) with JNull. change (default (JObj []) None) with (JObj []).
  assert (items (JObj []) = Some ∅) as -> by done.
  set (s1 := s <| ci_client := new_client None |> <| ci_handles := ∅ |>).
  exists (s1 <| ci_fences := ∅ |>). split; [|done].
  rewrite (pm_bind_run (a := None) (s1 := s)) by done. rewrite (pm_bind_run (a := tt) (s1 := s1)) by done.
  rewrite (pm_bind_run (a := "/") (s1 := s1)) by done. rewrite (pm_bind_run (a := "") (s1 := s1)) by done.
  rewrite (pm_bind_run (a := tt) (s1 := s1)) by done. rewrite (pm_bind_run (a := ∅) (s1 := s1)) by done.
  rewrite map_to_list_empty. by do 2 rewrite (pm_bind_run (s1 := s1)) by done.
Qed.
Lemma home_Ok {A} (m : L A) w s a s' : on_home m w s = (Ok a, s') →
  m w.(x_home) s.(ci_home) = (Ok a, s'.(ci_home)) ∧ s' = s <| ci_home := s'.(ci_home) |>.
Proof using Type. unfold on_home. destruct (m (x_home w) (ci_home s)) as [r h]. by intros [= -> <-]. Qed.
Lemma starts path key_file required state w s : works w.(x_home) →
  load_of path key_file required s.(ci_home).(h_tree) = Ok state →
  ∃ h, start path key_file required w s = resume state w (s <| ci_home := h |>).
Proof using Type.
  intros Hw Hl. exists (load path key_file required w.(x_home) s.(ci_home)).2. unfold start.
  rewrite (pm_bind_run (a := state) (s1 := s <| ci_home := (load path key_file required w.(x_home) s.(ci_home)).2 |>)); [done|].
  unfold on_home. pose proof (load_works w.(x_home) s.(ci_home) path key_file required Hw) as E. rewrite Hl in E.
  destruct (load path key_file required (x_home w) (ci_home s)). cbn in E. by subst.
Qed.
(** Signing out removes the file. *)
Lemma unlinked path w s u s' : change (unlink_file path) w s = (Ok u, s') → s'.(h_tree) = delete path s.(h_tree).
Proof using Type.
  unfold change, touch. intros Hr. prun. match goal with E : query _ _ _ = _ |- _ => apply query_Ok in E as (_ & _ & ->) end.
  destruct v2; prun. unfold unlink_file, or_crash in *. cbn in *. by destruct (h_tree s !! path) as [[c|]|]; prun.
Qed.
(** What [save_state] leaves, when it returns. *)
Lemma state_saved path key_file required w w2 s s' u :
  key_file ≠ Some path → (∀ i, beside path (w.(x_home).(h_name) i) ≠ path) → (∀ i, slen (w.(x_home).(h_random) i 12) = 12) →
  works w2.(x_home) → (∃ codec, codec_of key_file required s.(ci_home).(h_tree) = Ok codec) →
  save_state path key_file required w s = (Ok u, s') →
  s' = s <| ci_home := s'.(ci_home) |> ∧
  load_of path key_file required s'.(ci_home).(h_tree)
  = Ok (match s.(ci_client).(cl_session) with Some se => state_of se s | None => JObj [] end).
Proof using Type.
  intros Hkey Hname Hrandom Hw [codec Hcodec] Hrun. unfold save_state in Hrun. rewrite (pm_bind_run (a := s) (s1 := s)) in Hrun by done.
  destruct (cl_session (ci_client s)) as [se|]; apply home_Ok in Hrun as [Hrun Hs']; (split; [exact Hs'|]).
  - pose proof (saved_ensures path key_file required (state_of se s) (x_home w) (h_tree (ci_home s)) Hname Hrandom (ci_home s) eq_refl) as He.
    rewrite Hrun in He. destruct He as (Ha & raw & Hsays & Hp). eapply load_new; [exact Hkey| |exact Hsays|exact Hp].
    intros q c Hq. apply Ha. by intros ->%list_elem_of_singleton.
  - apply unlinked in Hrun. unfold load_of. rewrite Hrun.
    assert (codec_of key_file required (delete path (h_tree (ci_home s))) = Ok codec) as ->.
    { eapply codec_same; [exact Hkey| |exact Hcodec]. intros q c Hq Hc. by rewrite lookup_delete_ne. }
    by rewrite lookup_delete_eq.
Qed.

(** C39: a command that fails, or is never executed to its end, leaves
    the state file as it was; once a command has been executed and its state saved,
    a process that starts from the file has the session, the working directory,
    the handles by their names and the locks which the command left, and after
    signing out it has none of them. *)
Theorem state_resumed path key_file required c w w2 s s' r :
  key_file ≠ Some path → (∀ i, beside path (w.(x_home).(h_name) i) ≠ path) → (∀ i, slen (w.(x_home).(h_random) i 12) = 12) →
  works w2.(x_home) → (∃ codec, codec_of key_file required s.(ci_home).(h_tree) = Ok codec) →
  run path key_file required c w s = (r, s') →
  (∀ x, (execute c w s).1 = Err x → r = Err x ∧ s'.(ci_home) = s.(ci_home))
  ∧ (r = Ok tt → ∀ s0, s0.(ci_home) = s'.(ci_home) →
     match s'.(ci_client).(cl_session) with
     | Some se => truthy (asdict se) = true → ∃ s2, start path key_file required w2 s0 = (Ok tt, s2) ∧ resumed s' s2
     | None => ∃ s2, start path key_file required w2 s0 = (Ok tt, s2)
         ∧ s2.(ci_client) = new_client None ∧ s2.(ci_handles) = ∅ ∧ s2.(ci_fences) = ∅
     end).
Proof using Type.
  intros Hkey Hname Hrandom Hw Hcodec Hrun. pose proof (execute_home c w s) as Hhome. split.
  - intros x Hx. unfold run, mbind at 1, pm_bind at 1 in Hrun. destruct (execute c w s) as [[o|y] s1]; [done|].
    cbn in Hx. injection Hx as ->. injection Hrun as <- <-. split; [done|exact Hhome].
  - intros -> s0 Hs0. unfold run in Hrun. apply pm_bind_Ok in Hrun as (o & s1 & He & Hrun).
    apply pm_bind_Ok in Hrun as (u & s3 & Hsave & Hrun). apply sets_Ok in Hrun as ->.
    rewrite He in Hhome. unfold same_home in Hhome. cbn in Hhome.
    destruct (state_saved path key_file required w w2 s1 s3 u) as [Hs3 Hl]; [done..|by rewrite Hhome|done|].
    rewrite <- Hs0 in Hl at 1. destruct (starts path key_file required _ w2 s0 Hw Hl) as [h ->]. rewrite Hs3. cbn.
    destruct (cl_session (ci_client s1)) as [se|] eqn:Hse; [intros Ht|apply resume_empty].
    destruct (resume_state w2 se s1 (s0 <| ci_home := h |>) Ht Hse) as (s2 & Hr & Hk). by exists s2.
Qed.
(** A name whose handle the control does not close stays taken, and nothing is
    asked to open another file under it. *)
Lemma dead_name_stays path mode alias w s x s' : run_close alias w s = (Err x, s') → is_Some (s.(ci_handles) !! alias) →
  s'.(ci_handles) = s.(ci_handles) ∧ run_open path mode alias w s' = (Err (Raised PyError), s').
Proof using Type.
  intros Hrun [h Hh]. unfold run_close, handle_of in Hrun. rewrite (pm_bind_run (a := h) (s1 := s)) in Hrun.
  2: { rewrite (pm_bind_run (a := ci_handles s) (s1 := s)) by done. by rewrite Hh. }
  unfold mbind, pm_bind, on_client in Hrun. destruct (close h (x_client w) (ci_client s)) as [[a|y] c]; [done|].
  injection Hrun as <- <-. split; [done|]. unfold run_open.
  rewrite (pm_bind_run (a := ci_handles s) (s1 := s <| ci_client := c |>)) by done.
  rewrite bool_decide_eq_false_2 by (by rewrite Hh). done.
Qed.
End Facts.
