(* ===== verification/Backup.v ===== *)
(** * Backup archives ([common/backup_archive.py])

    An archive is a directory with one encrypted object per file and a sealed
    manifest; restoring it writes every file anew below a destination.  What an
    exception or a stop leaves behind stays in the state: an archive without its
    manifest, a destination without its mark. *)
From Stdlib Require String.
From S2P Require Import Prelude Domain Data Store Auth Leases Cluster Requests Queries Etcd Process Protected Blocks DataNode Streams NodeContent Copies Trees.

Record backup_entry := mkBackupEntry { be_path : string; be_block : BlockRef; be_stored : Z; be_sha256 : string }.
Record backup_manifest := mkBackupManifest { bm_schema : Z; bm_entries : list backup_entry; bm_metadata : json }.
Record backup_env := mkBackupEnv {
  k_stops : nat → bool; k_uid : nat → string; k_random : nat → Z → string;
  k_source : nat → string → option string; k_disk_fails : nat → bool }.
Record backup := mkBackup {
  k_made : bool; k_objects : gmap (string * string) string; k_pending : option string; k_sealed : option string;
  k_tree : option tree; k_ticks : nat }.
#[export] Instance eta_backup : Eta backup := λ r,
  mkBackup r.(k_made) r.(k_objects) r.(k_pending) r.(k_sealed) r.(k_tree) r.(k_ticks).
#[export] Instance backup_process : Process backup_env backup := {
  stops w := w.(k_stops);
  ticks s := s.(k_ticks);
  ticked s := s <| k_ticks ::= S |> }.
Abbreviation B := (PM backup_env backup).

(** [PurePosixPath(name).parts] of a relative name. *)
Definition parts (name : string) : list string :=
  List.filter (λ c, negb (empty c || bool_decide (c = "."))) (split_on slash name).
Definition name_ok (name : string) : bool :=
  negb (starts_with "/" name) && negb (bool_decide (".." ∈ split_on slash name)) && negb (has_char "092"%char name)
  && negb (has_char ":"%char name) && negb (empty name) && negb (bool_decide (name = ".")).
Definition MAX_MANIFEST : Z := 16 * 1048576.
Definition MANIFEST_CONTEXT : string := "dfsha-backup-manifest-v1".

Section Backup.
Context `{Hash, Aead, Json, Base64, KeyWrap, Kdf, Codec backup_manifest}.

Definition disk (f : backup → backup) : B unit :=
  broken ← query k_disk_fails;
  if (broken : bool) then fail (Raised PyError) else sets f.
Definition some_or_crash {A} (o : option A) : B A := match o with Some a => mret a | None => fail (Raised PyError) end.
Definition source_text (path : string) : B string := o ← query (λ w i, w.(k_source) i path); some_or_crash o.
Definition random (n : Z) : B string := query (λ w i, w.(k_random) i n).

(** ** Creating *)
(** One source: digest, size and content are read one after the other. *)
Definition archive_source (key name path : string) : B backup_entry :=
  t ← source_text path;
  n ← source_text path;
  u ← query k_uid; v ← query k_uid;
  let b := mkBlockRef u v 0 (slen n) (sha256 t) in
  c ← source_text path;
  dek ← random 32; prefix ← random 8;
  fs ← gets k_objects;
  '(bs, stored, digest) ← of_result (put_object (open_store key [] fs) b (file_pieces c) dek prefix);
  disk (λ s, s <| k_objects := bs.(bs_files) |>);;
  mret (mkBackupEntry name b stored (hex digest)).
Definition archive_one (key : string) (es : list backup_entry) (x : string * string) : B (list backup_entry) :=
  demand (name_ok x.1 && negb (bool_decide (x.1 ∈ map be_path es))) INVALID_ARGUMENT;;
  demand (zlen es + 1 <=? 100000) LIMIT_EXCEEDED;;
  e ← archive_source key x.1 x.2;
  mret (es ++ [e]).
Definition create_archive (key : string) (sources : list (string * string)) (metadata : json) : B (Z * string * string) :=
  made ← gets k_made;
  demand (negb made) ALREADY_EXISTS;;
  disk (λ s, s <| k_made := true |>);;
  c ← some_or_crash (metadata_cipher key);
  es ← fold sources [] (archive_one key);
  let payload := encode (mkBackupManifest 1 es metadata) in
  demand (slen payload <=? MAX_MANIFEST) LIMIT_EXCEEDED;;
  nonce ← random 12;
  disk (λ s, s <| k_pending := Some (seal c nonce payload MANIFEST_CONTEXT) |>);;
  disk (λ s, s <| k_sealed := s.(k_pending) |> <| k_pending := None |>);;
  mret (zlen es, hex (sha256 payload), hex c.(mc_key_id)).

(** ** Restoring *)
Definition change_tree (f : tree → option tree) : B unit :=
  o ← gets k_tree;
  t ← some_or_crash (o ≫= f);
  disk (λ s, s <| k_tree := Some t |>).
Definition stored_as (e : backup_entry) (s : string) : bool :=
  (slen s =? e.(be_stored)) && bool_decide (hex (sha256 s) = e.(be_sha256)).
Definition restore_entry (key : string) (e : backup_entry) : B unit :=
  let p := parts e.(be_path) in
  change_tree (make_parents p);;
  demand (path_ok e.(be_block)) INVALID_ARGUMENT;;
  fs ← gets k_objects;
  s ← some_or_crash (fs !! path_of e.(be_block));
  demand (stored_as e s) DATA_LOSS;;
  change_tree (open_new p);;
  cs ← of_result (read_verified (open_store key [] fs) e.(be_block));
  change_tree (λ t, Some (<[p := Some (cat cs)]> t)).
Definition check_name (names : list string) (e : backup_entry) : B (list string) :=
  demand (name_ok e.(be_path) && negb (bool_decide (e.(be_path) ∈ names))) DATA_LOSS;;
  mret (e.(be_path) :: names).
Definition COMPLETE : list string := ["RESTORE_COMPLETE"].
(** [write_text]: it replaces a file, and fails on a directory. *)
Definition mark (text : string) (t : tree) : option tree :=
  match t !! COMPLETE with Some None => None | _ => Some (<[COMPLETE := Some text]> t) end.
Definition newline : string := String "010" "".
Definition restore_archive (key : string) : B json :=
  t ← gets k_tree;
  demand (bool_decide (t = None)) ALREADY_EXISTS;;
  o ← gets k_sealed;
  sealed ← some_or_crash o;
  demand (slen sealed <=? MAX_MANIFEST + 68) LIMIT_EXCEEDED;;
  c ← some_or_crash (metadata_cipher key);
  payload ← of_result (open_envelope c sealed MANIFEST_CONTEXT);
  d ← some_or_crash (decode payload);
  demand ((d.(bm_schema) =? 1) && (zlen d.(bm_entries) <=? 100000)) DATA_LOSS;;
  _ ← fold d.(bm_entries) [] check_name;
  disk (λ s, s <| k_tree := Some ∅ |>);;
  each d.(bm_entries) (restore_entry key);;
  change_tree (mark (hex (sha256 payload) +:+ newline));;
  mret d.(bm_metadata).
End Backup.
