(* ===== verification/BackupFacts.v ===== *)
(** * An archive gives back what went into it

    Creating an archive stores each file so that it reads back verified;
    restoring it in a working environment writes exactly these files, as long as
    no name leads through another one. *)
From Stdlib Require String.
From S2P Require Import Prelude Domain Data Store Auth Leases Cluster Requests Queries Etcd Process Protected Local Blocks Patch DataNode Streams NodeContent Copies Trees Backup.

Section Backup.
Context `{Hash, Aead, Json, Base64, KeyWrap, Kdf, Codec backup_manifest}.

(** ** Creating *)
Context (key : string) (w : backup_env) (content : string → string) (sources : list (string * string)).
(** The sources stay as they are, the random bytes are as many as asked for, and
    the header of every object can be read back. *)
Hypothesis Hsource : ∀ i x, x ∈ sources → w.(k_source) i x.2 = Some (content x.2).
Hypothesis Hrandom : ∀ i n, 0 ≤ n → slen (w.(k_random) i n) = n.
Hypothesis Hheader : ∀ i j k m x, x ∈ sources →
  let b := mkBlockRef (w.(k_uid) i) (w.(k_uid) j) 0 (slen (content x.2)) (sha256 (content x.2)) in
  json_ok (header_fields (open_store key [] ∅) b (w.(k_random) k 32) (w.(k_random) m 8)) = true
  ∧ slen (header_of (open_store key [] ∅) b (w.(k_random) k 32) (w.(k_random) m 8)) ≤ 4096.
Hypothesis Hsize : ∀ x, x ∈ sources → slen (content x.2) ≤ 2 ^ 32.

(** An entry whose object is there and reads back. *)
Definition readable (fs : gmap (string * string) string) (x : string * string) (e : backup_entry) : Prop :=
  e.(be_path) = x.1 ∧ path_ok e.(be_block) = true
  ∧ ∃ s, fs !! path_of e.(be_block) = Some s ∧ stored_as e s = true
    ∧ read_verified (open_store key [] fs) e.(be_block) = Ok (file_pieces (content x.2)).
Lemma readable_more fs fs' x e : (∀ p s, fs !! p = Some s → fs' !! p = Some s) → readable fs x e → readable fs' x e.
Proof using Type.
  intros Hm (Hn & Hp & s & Hs & Hst & Hr). split; [done|]. split; [done|]. exists s. split; [by apply Hm|]. split; [done|].
  unfold read_verified in *. rewrite Hp in *. cbn in *. by rewrite (Hm _ _ Hs), Hs in *.
Qed.
Lemma pieces_length fuel s : (length (pieces fuel s) ≤ fuel)%nat.
Proof using Type. revert s. induction fuel as [|fuel IH]; intros [|c s]; cbn [pieces length]; try lia. specialize (IH (from CHUNK_LEN (String c s))). lia. Qed.
Lemma disk_Ok f (w1 : backup_env) s u s' : disk f w1 s = (Ok u, s') → s' = f (ticked s).
Proof using Type.
  unfold disk. intros ([|] & s1 & (_ & _ & ->)%query_Ok & E)%pm_bind_Ok; [done|]. by apply sets_Ok in E.
Qed.
Lemma crash_Ok {A} (o : option A) (w1 : backup_env) s a s' : some_or_crash o w1 s = (Ok a, s') → o = Some a ∧ s' = s.
Proof using Type. destruct o; cbn; by intros [= -> ->]. Qed.
Lemma source_Ok x s t s' : x ∈ sources → source_text x.2 w s = (Ok t, s') → t = content x.2 ∧ s' = ticked s.
Proof using Hsource.
  intros Hx. unfold source_text. intros (o & s1 & (_ & -> & ->)%query_Ok & [E ->]%crash_Ok)%pm_bind_Ok.
  rewrite (Hsource _ x Hx) in E. by injection E as <-.
Qed.
Lemma put_store fs b cs dek prefix bs n d : put_object (open_store key [] fs) b cs dek prefix = Ok (bs, n, d) →
  bs = open_store key [] bs.(bs_files).
Proof using Type.
  unfold put_object. destruct (negb _); [done|]. destruct (negb _); [done|]. destruct (negb _); [done|]. case_decide; [done|].
  by intros [= <- _ _].
Qed.
(** What one source adds to the archive. *)
Lemma archived_source x s e s' : x ∈ sources → archive_source key x.1 x.2 w s = (Ok e, s') →
  readable s'.(k_objects) x e ∧ (∀ p t, s.(k_objects) !! p = Some t → s'.(k_objects) !! p = Some t)
  ∧ s'.(k_sealed) = s.(k_sealed).
Proof using Hsource Hrandom Hheader Hsize.
  intros Hx E. unfold archive_source, random in E.
  apply pm_bind_Ok in E as (t & s1 & [-> ->]%source_Ok & E); [|done].
  apply pm_bind_Ok in E as (n & s2 & [-> ->]%source_Ok & E); [|done].
  apply pm_bind_Ok in E as (u & s3 & (_ & -> & ->)%query_Ok & E).
  apply pm_bind_Ok in E as (v & s4 & (_ & -> & ->)%query_Ok & E).
  apply pm_bind_Ok in E as (c & s5 & [-> ->]%source_Ok & E); [|done].
  apply pm_bind_Ok in E as (dek & s6 & (_ & -> & ->)%query_Ok & E).
  apply pm_bind_Ok in E as (prefix & s7 & (_ & -> & ->)%query_Ok & E).
  apply pm_bind_Ok in E as (fs & s8 & [-> ->]%gets_Ok & E).
  apply pm_bind_Ok in E as ([[bs stored] digest] & s9 & [Hput ->]%of_result_Ok & E).
  apply pm_bind_Ok in E as (u1 & s10 & ->%disk_Ok & E). apply pm_ret_Ok in E as [-> ->].
  match type of Hput with put_object _ ?b _ _ _ = _ => set (b0 := b) in * end.
  destruct (Hheader (ticks (ticked (ticked s))) (ticks (ticked (ticked (ticked s))))
    (ticks (ticked (ticked (ticked (ticked (ticked s)))))) (ticks (ticked (ticked (ticked (ticked (ticked (ticked s))))))) x Hx) as [Hj Hh].
  assert (path_ok b0 = true) as Hp by (unfold put_object in Hput; by destruct (path_ok b0)).
  destruct (put_reads key [] _ _ _ _ _ _ _ _ Hput Hj) as (Hr & (z & Hz & -> & ->) & Hnew); [by apply Hrandom|exact Hh| |].
  { pose proof (pieces_length (String.length (content x.2)) (content x.2)). pose proof (Hsize x Hx). unfold file_pieces, slen in *. lia. }
  cbn [k_objects k_sealed ticked]. split_and!; [split; [done|split; [done|]]| |done].
  - exists z. cbn. rewrite Hz. split; [apply lookup_insert_eq|]. split; [|].
    + unfold stored_as. cbn. rewrite Z.eqb_refl. by rewrite bool_decide_true.
    + rewrite <- Hz. rewrite (put_store _ _ _ _ _ _ _ _ Hput) in Hr. exact Hr.
  - intros p t Ht. cbn. rewrite Hz. rewrite lookup_insert_ne; [exact Ht|]. 
    intros Heq. cbn in Hnew. unfold path_of in *. rewrite Heq in Hnew. by rewrite Hnew in Ht.
Qed.
(** The entries so far, in the order of their sources. *)
Lemma archived_all todo : ∀ gone es s es' s', sources = gone ++ todo → Forall2 (readable s.(k_objects)) gone es →
  fold todo es (archive_one key) w s = (Ok es', s') →
  Forall2 (readable s'.(k_objects)) sources es' ∧ s'.(k_sealed) = s.(k_sealed)
  ∧ (zlen es ≤ 100000 → zlen es' ≤ 100000).
Proof using Hsource Hrandom Hheader Hsize.
  induction todo as [|x todo IH]; intros gone es s es' s' Hs Hes E; cbn [fold] in E.
  - apply pm_ret_Ok in E as [-> ->]. rewrite app_nil_r in Hs. by rewrite Hs.
  - apply pm_bind_Ok in E as (es1 & s1 & E1 & E). unfold archive_one in E1.
    apply pm_bind_Ok in E1 as (u1 & s2 & [_ ->]%demand_Ok & E1).
    apply pm_bind_Ok in E1 as (u2 & s3 & [Hn ->]%demand_Ok & E1). bsimpl.
    apply pm_bind_Ok in E1 as (e & s4 & Ea & E1). apply pm_ret_Ok in E1 as [-> ->].
    assert (x ∈ sources) as Hx by (rewrite Hs; apply elem_of_app; right; by left).
    destruct (archived_source x s e s4 Hx Ea) as (He & Hm & Hk).
    destruct (IH (gone ++ [x]) (es ++ [e]) s4 es' s') as (Hall & Hk' & Hlen); [by rewrite <- app_assoc| |exact E|].
    { apply Forall2_app; [|by constructor]. eapply list.Forall2_impl; [exact Hes|]. intros y f. by apply readable_more. }
    split_and!; [done|congruence|]. intros _. apply Hlen. unfold zlen. rewrite length_app. unfold zlen in Hn. simpl. lia.
Qed.
(** Distinct names that can be restored: each can be checked again. *)
Lemma archived_names todo : ∀ es s es' s', fold todo es (archive_one key) w s = (Ok es', s') →
  NoDup (map be_path es) → Forall (λ e, name_ok e.(be_path) = true) es →
  NoDup (map be_path es') ∧ Forall (λ e, name_ok e.(be_path) = true) es'.
Proof using Type.
  induction todo as [|x todo IH]; intros es s es' s' E Hn Hok; cbn [fold] in E.
  - by apply pm_ret_Ok in E as [-> ->].
  - apply pm_bind_Ok in E as (es1 & s1 & E1 & E). unfold archive_one in E1.
    apply pm_bind_Ok in E1 as (u1 & s2 & [Hx ->]%demand_Ok & E1). bsimpl.
    apply pm_bind_Ok in E1 as (u2 & s3 & [_ ->]%demand_Ok & E1).
    apply pm_bind_Ok in E1 as (e & s4 & Ea & E1). apply pm_ret_Ok in E1 as [-> ->].
    assert (e.(be_path) = x.1) as Hp.
    { unfold archive_source in Ea. do 8 (apply pm_bind_Ok in Ea as (? & ? & _ & Ea); cbv beta in Ea).
      apply pm_bind_Ok in Ea as ([[bs n] d] & ? & _ & Ea). apply pm_bind_Ok in Ea as (? & ? & _ & Ea).
      by apply pm_ret_Ok in Ea as [-> _]. }
    apply (IH _ _ _ _ E).
    + rewrite map_app. apply list.NoDup_app. split_and!; [done| |apply NoDup_singleton]. cbn.
      intros y Hy ->%list_elem_of_singleton. by rewrite Hp in Hy.
    + apply list.Forall_app. split; [done|]. constructor; [|constructor]. by rewrite Hp.
Qed.
Lemma created metadata s r s' : create_archive key sources metadata w s = (Ok r, s') →
  ∃ c es nonce, metadata_cipher key = Some c ∧ slen nonce = 12
    ∧ Forall2 (readable s'.(k_objects)) sources es ∧ zlen es ≤ 100000
    ∧ NoDup (map be_path es) ∧ Forall (λ e, name_ok e.(be_path) = true) es
    ∧ let payload := encode (mkBackupManifest 1 es metadata) in
      slen payload ≤ MAX_MANIFEST ∧ s'.(k_sealed) = Some (seal c nonce payload MANIFEST_CONTEXT)
      ∧ hex (sha256 payload) = r.1.2.
Proof using Hsource Hrandom Hheader Hsize.
  unfold create_archive. intros E.
  apply pm_bind_Ok in E as (made & s1 & [-> ->]%gets_Ok & E).
  apply pm_bind_Ok in E as (u1 & s2 & [_ ->]%demand_Ok & E).
  apply pm_bind_Ok in E as (u2 & s3 & ->%disk_Ok & E).
  apply pm_bind_Ok in E as (c & s4 & [Hc ->]%crash_Ok & E).
  apply pm_bind_Ok in E as (es & s5 & Ef & E).
  apply pm_bind_Ok in E as (u3 & s6 & [Hl ->]%demand_Ok & E). bsimpl.
  apply pm_bind_Ok in E as (nonce & s7 & (_ & -> & ->)%query_Ok & E).
  apply pm_bind_Ok in E as (u4 & s8 & ->%disk_Ok & E).
  apply pm_bind_Ok in E as (u5 & s9 & ->%disk_Ok & E). apply pm_ret_Ok in E as [-> ->].
  destruct (archived_all sources [] [] _ _ _ eq_refl (Forall2_nil _) Ef) as (Hr & _ & Hlen).
  destruct (archived_names sources _ _ _ _ Ef) as [Hn Hok]; [constructor|constructor|].
  eexists c, es, _. split; [exact Hc|]. split; [by apply Hrandom|]. split; [exact Hr|]. split; [by apply Hlen|].
  split; [exact Hn|]. split; [exact Hok|]. split; [exact Hl|]. split; done.
Qed.

(** ** Restoring, where nothing fails *)
Context (w2 : backup_env).
Hypothesis Hworks : ∀ i, w2.(k_stops) i = false ∧ w2.(k_disk_fails) i = false.
Lemma disk_runs f s : disk f w2 s = (Ok tt, f (ticked s)).
Proof using Hworks.
  destruct (Hworks (ticks s)) as [Hs Hd]. unfold disk, query, tick, mbind, pm_bind. change (stops w2 (ticks s)) with (w2.(k_stops) (ticks s)).
  rewrite Hs. cbv [asks]. by rewrite Hd.
Qed.
Lemma change_runs f t t' s : s.(k_tree) = Some t → f t = Some t' →
  change_tree f w2 s = (Ok tt, ticked s <| k_tree := Some t' |>).
Proof using Hworks.
  intros Ht Hf. unfold change_tree. rewrite (pm_bind_run (a := Some t) (s1 := s)) by (cbv [gets]; by rewrite Ht).
  cbn [mbind option_bind]. rewrite Hf. rewrite (pm_bind_run (a := t') (s1 := s)) by done. by rewrite disk_runs.
Qed.
Definition file_of (x : string * string) : list string * string := (parts x.1, content x.2).
Lemma entry_restored x e l t s : readable s.(k_objects) x e → s.(k_tree) = Some t → holds l t → free l (parts x.1) →
  ∃ s' t', restore_entry key e w2 s = (Ok tt, s') ∧ s'.(k_objects) = s.(k_objects) ∧ s'.(k_tree) = Some t'
    ∧ holds (l ++ [file_of x]) t'.
Proof using Hworks.
  intros (Hn & Hp & z & Hz & Hst & Hr) Ht Hh Hf. destruct (parents_made l (parts x.1) t Hf Hh) as (t1 & Hmk & Hm).
  destruct (file_written l (parts x.1) t1 (content x.2) Hf Hm) as [Ho Hw].
  unfold restore_entry. rewrite Hn.
  rewrite (pm_bind_run (a := tt) (s1 := ticked s <| k_tree := Some t1 |>)) by (by eapply change_runs).
  rewrite Hp. cbn [demand]. rewrite (pm_bind_run (a := tt) (s1 := ticked s <| k_tree := Some t1 |>)) by done.
  rewrite (pm_bind_run (a := s.(k_objects)) (s1 := ticked s <| k_tree := Some t1 |>)) by done.
  rewrite Hz. rewrite (pm_bind_run (a := z) (s1 := ticked s <| k_tree := Some t1 |>)) by done.
  rewrite Hst. rewrite (pm_bind_run (a := tt) (s1 := ticked s <| k_tree := Some t1 |>)) by done.
  erewrite pm_bind_run by (eapply change_runs; [done|exact Ho]).
  rewrite Hr. erewrite (pm_bind_run (a := file_pieces (content x.2))) by done.
  erewrite change_runs by done. eexists _, _. split; [done|]. split; [done|]. split; [done|].
  rewrite cat_file_pieces. exact Hw.
Qed.
Lemma entries_restored todo : ∀ es l t s, Forall2 (readable s.(k_objects)) todo es → s.(k_tree) = Some t → holds l t →
  (∀ gone x rest, todo = gone ++ x :: rest → free (l ++ map file_of gone) (parts x.1)) →
  ∃ s' t', each es (restore_entry key) w2 s = (Ok tt, s') ∧ s'.(k_tree) = Some t' ∧ holds (l ++ map file_of todo) t'.
Proof using Hworks.
  induction todo as [|x todo IH]; intros es l t s Hes Ht Hh Hf.
  - apply Forall2_nil_inv_l in Hes as ->. exists s, t. rewrite app_nil_r. done.
  - apply Forall2_cons_inv_l in Hes as (e & es' & He & Hes & ->). cbn [each].
    destruct (entry_restored x e l t s He Ht Hh) as (s1 & t1 & E1 & Ho & Ht1 & Hh1).
    { specialize (Hf [] x todo eq_refl). by rewrite app_nil_r in Hf. }
    rewrite (pm_bind_run (a := tt) (s1 := s1)) by done.
    destruct (IH es' (l ++ [file_of x]) t1 s1) as (s2 & t2 & E2 & Ht2 & Hh2); [by rewrite Ho|done|done| |].
    + intros gone y rest ->. specialize (Hf (x :: gone) y rest eq_refl). by rewrite <- app_assoc.
    + exists s2, t2. rewrite <- app_assoc in Hh2. done.
Qed.
Lemma names_checked es : ∀ names s, NoDup (map be_path es) → Forall (λ e, name_ok e.(be_path) = true) es →
  (∀ n, n ∈ names → n ∉ map be_path es) →
  ∃ r, fold es names check_name w2 s = (Ok r, s).
Proof using Type.
  induction es as [|e es IH]; intros names s Hn Hok Hd; cbn [fold]; [by exists names|].
  apply list.NoDup_cons in Hn as [Hne Hn]. apply list.Forall_cons in Hok as [He Hok].
  assert (be_path e ∉ names) as Hfresh by (intros Hin; apply (Hd _ Hin); by left).
  rewrite (pm_bind_run (a := be_path e :: names) (s1 := s)) by (unfold check_name; by rewrite He, bool_decide_false by done).
  destruct (IH (be_path e :: names) s Hn Hok) as [r Hr]; [|exists r; exact Hr].
  intros n [->|Hin]%elem_of_cons; [exact Hne|]. intros Hin'. apply (Hd n Hin). by right.
Qed.

(** No name leads through another, to nothing, or to the mark. *)
Definition separate (ps : list (list string)) : Prop :=
  [] ∉ ps ∧ ∀ (i j : nat) p q, ps !! i = Some p → ps !! j = Some q → p `prefix_of` q → i = j.
Definition targets : list (list string) := COMPLETE :: map (λ x, parts x.1) sources.
Lemma target_at i : targets !! S i = (λ x, parts x.1) <$> (sources !! i).
Proof using Type. apply list_lookup_fmap. Qed.
Lemma file_at q c gone : (q, c) ∈ map file_of gone → ∃ i x, gone !! i = Some x ∧ q = parts x.1 ∧ c = content x.2.
Proof using Type.
  intros Hin. apply list_elem_of_fmap in Hin as (x & [= -> ->] & [i Hx]%list_elem_of_lookup). by exists i, x.
Qed.
Lemma free_target gone x rest : separate targets → sources = gone ++ x :: rest → free (map file_of gone) (parts x.1).
Proof using Type.
  intros [Hne Hp] Hs. assert (targets !! S (length gone) = Some (parts x.1)) as Hx by (rewrite target_at, Hs; by rewrite list_lookup_middle).
  split.
  - intros E. apply Hne. rewrite <- E. by eapply list_elem_of_lookup_2.
  - intros q c (i & y & Hy & -> & _)%file_at. apply lookup_lt_Some in Hy as Hlt.
    assert (targets !! S i = Some (parts y.1)) as Hq.
    { rewrite target_at, Hs, lookup_app_l by done. by rewrite Hy. }
    split; intros Hpre; [pose proof (Hp _ _ _ _ Hq Hx Hpre)|pose proof (Hp _ _ _ _ Hx Hq Hpre)]; lia.
Qed.
Lemma marked t text : separate targets → holds (map file_of sources) t → mark text t = Some (<[COMPLETE := Some text]> t).
Proof using Type.
  intros [_ Hp] Hh. unfold mark. destruct (t !! COMPLETE) as [[c|]|] eqn:E; [done| |done]. exfalso.
  apply (ho_dirs _ _ Hh) in E as (q & c & (i & x & Hx & -> & _)%file_at & [Hpre _]).
  assert (targets !! S i = Some (parts x.1)) as Hq by (by rewrite target_at, Hx).
  by pose proof (Hp 0%nat (S i) _ _ eq_refl Hq Hpre).
Qed.
(** Up to the files: what is read of the archive passes every check. *)
Lemma opened c es nonce metadata s : metadata_cipher key = Some c → slen nonce = 12 → zlen es ≤ 100000 →
  NoDup (map be_path es) → Forall (λ e, name_ok e.(be_path) = true) es →
  let payload := encode (mkBackupManifest 1 es metadata) in
  slen payload ≤ MAX_MANIFEST → s.(k_sealed) = Some (seal c nonce payload MANIFEST_CONTEXT) → s.(k_tree) = None →
  restore_archive key w2 s = (each es (restore_entry key);; change_tree (mark (hex (sha256 payload) +:+ newline));; mret metadata)
    w2 (ticked s <| k_tree := Some ∅ |>).
Proof using Hworks.
  intros Hc Hn Hlen Hnd Hok payload Hmax Hs Ht.
  assert (decode payload = Some (mkBackupManifest 1 es metadata)) as Hdec by apply decode_encode. unfold restore_archive.
  rewrite (pm_bind_run (a := None) (s1 := s)) by (cbv [gets]; by rewrite Ht).
  rewrite bool_decide_true by done. rewrite (pm_bind_run (a := tt) (s1 := s)) by done.
  rewrite (pm_bind_run (a := s.(k_sealed)) (s1 := s)) by done. rewrite Hs.
  rewrite (pm_bind_run (a := seal c nonce payload MANIFEST_CONTEXT) (s1 := s)) by done.
  rewrite seal_length; [|by eapply cipher_key_id|done]. rewrite (proj2 (Z.leb_le _ _)) by lia.
  rewrite (pm_bind_run (a := tt) (s1 := s)) by done. rewrite Hc.
  rewrite (pm_bind_run (a := c) (s1 := s)) by done. rewrite (seal_opens key c) by done.
  rewrite (pm_bind_run (a := payload) (s1 := s)) by done. rewrite Hdec.
  rewrite (pm_bind_run (a := mkBackupManifest 1 es metadata) (s1 := s)) by done. cbn [bm_schema bm_entries bm_metadata].
  rewrite (proj2 (Z.leb_le _ _)) by lia. rewrite (pm_bind_run (a := tt) (s1 := s)) by done.
  destruct (names_checked es [] s Hnd Hok) as [r Hr]; [by intros n ?%not_elem_of_nil|].
  rewrite (pm_bind_run Hr). by rewrite (pm_bind_run (disk_runs _ s)).
Qed.

(** C40: an archive gives back what went into it: restored where nothing
    fails, the archive that [create_archive] has made of files that did not change
    writes exactly these files, with their contents, below a new destination, and
    beside them only the mark, which holds the digest of the manifest.  It is
    enough that no name of the archive leads through another one, to the
    destination itself, or through the mark. *)
Theorem restore_gives_back metadata s r s1 s2 :
  create_archive key sources metadata w s = (Ok r, s1) → separate targets →
  s2.(k_sealed) = s1.(k_sealed) → s2.(k_objects) = s1.(k_objects) → s2.(k_tree) = None →
  ∃ s3 t, restore_archive key w2 s2 = (Ok metadata, s3) ∧ s3.(k_tree) = Some t
    ∧ ∀ p c, t !! p = Some (Some c) ↔
        (∃ x, x ∈ sources ∧ p = parts x.1 ∧ c = content x.2) ∨ (p = COMPLETE ∧ c = r.1.2 +:+ newline).
Proof using All.
  intros Hc Hsep Hs Ho Ht. destruct (created _ _ _ _ Hc) as (c & es & nonce & Hk & Hn & Hes & Hlen & Hnd & Hok & Hmax & Hsealed & Hr).
  rewrite <- Ho in Hes. rewrite <- Hs in Hsealed.
  rewrite (opened c es nonce metadata s2) by done.
  edestruct (entries_restored sources es [] ∅ (ticked s2 <| k_tree := Some ∅ |>)) as (s3 & t & E & Ht3 & Hh);
    [done|done|apply holds_nil|intros gone x rest; by apply free_target|].
  pose proof (marked t (r.1.2 +:+ newline) Hsep Hh) as Hm. rewrite (pm_bind_run E). rewrite Hr.
  rewrite (pm_bind_run (change_runs _ _ _ s3 Ht3 Hm)). eexists _, _. split; [done|]. split; [done|]. intros p x.
  destruct (decide (p = COMPLETE)) as [->|Hne].
  - rewrite lookup_insert_eq. split; [intros [= <-]; by right|]. intros [(y & Hy & Hp & _)|[_ ->]]; [|done]. exfalso.
    apply list_elem_of_lookup in Hy as [i Hy]. destruct Hsep as [_ Hsep].
    assert (targets !! S i = Some COMPLETE) as Hq by (by rewrite target_at, Hy, Hp).
    by pose proof (Hsep 0%nat (S i) _ _ eq_refl Hq (reflexivity _)).
  - rewrite lookup_insert_ne by done. rewrite (ho_files _ _ Hh). split.
    + intros (y & [= -> ->] & Hy)%list_elem_of_fmap. left. by exists y.
    + intros [(y & Hy & -> & ->)|[? _]]; [|done]. by apply (list_elem_of_fmap_2 file_of).
Qed.
End Backup.
