(* ===== verification/BackupRuns.v ===== *)
(** * Concrete runs of backup archives and of the state file

    A manifest as a text, the archive of one small file and what restoring it
    gives: the witness of the theorem on archives, and a file that restoring
    loses because it has the name of the mark; then a state that is saved, and one
    whose saving is cut short. *)
From Stdlib Require String.
From S2P Require Import Prelude Domain Data Store Auth Protected Blocks Etcd Process Lab Trees Backup BackupFacts ClientState.

Module BackupRuns.
Import Lab.

(** ** A manifest as a text *)
Fixpoint tree_of (j : Domain.json) : gen_tree string :=
  match j with
  | JNull => GenNode 0 []
  | JBool b => GenNode 1 [GenLeaf (enc_bool b)]
  | JNum n => GenNode 2 [GenLeaf (enc_Z n)]
  | JStr s => GenLeaf s
  | JArr l => GenNode 3 (map tree_of l)
  | JObj l => GenNode 4 (map (λ kv, GenNode 0 [GenLeaf kv.1; tree_of kv.2]) l)
  end.
Fixpoint of_tree (t : gen_tree string) : Domain.json :=
  match t with
  | GenLeaf s => JStr s
  | GenNode 1 [GenLeaf b] => JBool (negb (empty b))
  | GenNode 2 [GenLeaf n] => JNum (dec_Z n)
  | GenNode 3 l => JArr (map of_tree l)
  | GenNode 4 l => JObj (map (λ t, match t with GenNode 0 [GenLeaf k; t] => (k, of_tree t) | _ => ("", JNull) end) l)
  | _ => JNull
  end.
Lemma of_tree_of : ∀ j, of_tree (tree_of j) = j.
Proof.
  fix IH 1. intros [|b|n|s|l|l]; cbn.
  - done.
  - by rewrite dec_enc_bool.
  - by rewrite dec_enc_Z.
  - done.
  - f_equal. induction l as [|j l IHl]; cbn; [done|]. by rewrite IH, IHl.
  - f_equal. induction l as [|[k j] l IHl]; cbn; [done|]. by rewrite IH, IHl.
Qed.
Definition enc_json (j : Domain.json) : string := bits (countable.encode (tree_of j)).
Definition dec_json (s : string) : Domain.json := default JNull (of_tree <$> countable.decode (of_bits s)).
Lemma dec_enc_json j : dec_json (enc_json j) = j.
Proof. unfold dec_json, enc_json. rewrite of_bits_bits, countable.decode_encode. cbn. apply of_tree_of. Qed.
Definition enc_entry (e : backup_entry) : string :=
  let b := e.(be_block) in
  enc_texts [e.(be_path); b.(br_file_id); b.(br_block_version_id); enc_Z b.(br_block_index); enc_Z b.(br_size_bytes);
    b.(br_plaintext_sha256); enc_Z e.(be_stored); e.(be_sha256)].
Definition dec_entry (s : string) : backup_entry :=
  match dec_texts s with
  | Some [p; f; v; i; n; h; stored; digest] => mkBackupEntry p (mkBlockRef f v (dec_Z i) (dec_Z n) h) (dec_Z stored) digest
  | _ => mkBackupEntry "" (mkBlockRef "" "" 0 0 "") 0 ""
  end.
Lemma dec_enc_entry e : dec_entry (enc_entry e) = e.
Proof. unfold dec_entry, enc_entry. rewrite dec_enc_texts, !dec_enc_Z. by destruct e as [p []]. Qed.
Definition enc_manifest (m : backup_manifest) : string :=
  enc_texts [enc_Z m.(bm_schema); enc_texts (map enc_entry m.(bm_entries)); enc_json m.(bm_metadata)].
Definition dec_manifest (s : string) : option backup_manifest :=
  match dec_texts s with
  | Some [v; es; j] => (λ l, mkBackupManifest (dec_Z v) (map dec_entry l) (dec_json j)) <$> dec_texts es
  | _ => None
  end.
Lemma dec_enc_manifest m : dec_manifest (enc_manifest m) = Some m.
Proof.
  unfold dec_manifest, enc_manifest. rewrite dec_enc_texts, dec_enc_texts. cbn.
  rewrite dec_enc_Z, dec_enc_json. rewrite map_map, (map_ext _ id) by apply dec_enc_entry. rewrite map_id. by destruct m.
Qed.
#[local] Instance manifest_codec : Codec backup_manifest :=
  {| Etcd.encode := enc_manifest; Etcd.decode := dec_manifest; Etcd.decode_encode := dec_enc_manifest |}.

(** ** The archive of one file *)
Definition key : string := pad 32 "key".
Definition content (path : string) : string := "hello".
Definition bytes (i : nat) (n : Z) : string := pad (Z.to_nat n) "random".
Definition quiet : backup_env :=
  mkBackupEnv (λ _, false) (λ _, "00000000-0000-4000-8000-000000000001") bytes (λ _ p, Some (content p)) (λ _, false).
Definition block : BlockRef := mkBlockRef (k_uid quiet 0) (k_uid quiet 0) 0 5 (sha256 (content "")).
Definition fields : list (string * Domain.json) := header_fields (open_store key [] ∅) block (bytes 0 32) (bytes 0 8).
#[local] Instance fields_json : Json := json_of fields.
Definition nothing : backup := mkBackup false ∅ None None None 0.
Definition metadata : Domain.json := JObj [("epoch", JNum 3)].
Definition archived (name : string) := create_archive key [(name, "/data/a")] metadata quiet nothing.
Definition receipt (name : string) : Z * string * string := ok_or (0, "", "") (archived name).1.
Definition restored (name : string) := restore_archive key quiet (archived name).2.

(** A source with the name of the mark is archived, and the mark overwrites it. *)
Example mark_overwrites :
  match archived "RESTORE_COMPLETE", restored "RESTORE_COMPLETE" with
  | (Ok r, _), (Ok _, s) => k_tree s = Some {[ COMPLETE := Some (r.1.2 +:+ newline) ]}
  | _, _ => False
  end.
Proof. vm_compute. reflexivity. Qed.
(** [PurePosixPath('./')] has no parts: the name is archived and cannot be restored. *)
Example no_parts :
  match archived "./", restored "./" with (Ok _, _), (Err (Raised PyError), _) => True | _, _ => False end.
Proof. vm_compute. done. Qed.

Definition name : string := "d/a".
Lemma bytes_length i n : 0 ≤ n → slen (bytes i n) = n.
Proof. intros Hn. unfold bytes. rewrite pad_slen. lia. Qed.
Lemma name_separate : separate [COMPLETE; parts name].
Proof.
  split; [by vm_compute; intros [|[|?%not_elem_of_nil]%elem_of_cons]%elem_of_cons|].
  intros [|[|i]] [|[|j]] p q Hp Hq [k Hk]; vm_compute in Hp, Hq; simplify_eq; by simplify_list_eq.
Qed.
Lemma created_ok : (archived name).1 = Ok (receipt name).
Proof. vm_compute. reflexivity. Qed.
Lemma pair_eq {A B} {p : A * B} {a} : p.1 = a → p = (a, p.2).
Proof. intros <-. by destruct p. Qed.
Lemma created_pair : archived name = (Ok (receipt name), (archived name).2).
Proof. exact (pair_eq created_ok). Qed.
Lemma restore_gives_back_witness :
  (archived name).1 = Ok (receipt name)
  ∧ ∃ s3 t, restored name = (Ok metadata, s3) ∧ k_tree s3 = Some t
    ∧ ∀ p c, t !! p = Some (Some c) ↔
        (∃ x, x ∈ [(name, "/data/a")] ∧ p = parts x.1 ∧ c = content x.2) ∨ (p = COMPLETE ∧ c = (receipt name).1.2 +:+ newline).
Proof.
  split; [exact created_ok|].
  apply (restore_gives_back key quiet content [(name, "/data/a")]) with (metadata := metadata) (s := nothing) (r := receipt name) (s1 := (archived name).2) (s2 := (archived name).2).
  - done.
  - apply bytes_length.
  - intros i j k m x ->%list_elem_of_singleton. split; vm_compute; done.
  - intros x ->%list_elem_of_singleton. vm_compute. done.
  - done.
  - exact created_pair.
  - exact name_separate.
  - reflexivity.
  - reflexivity.
  - vm_compute. reflexivity.
Defined.
End BackupRuns.

(** ** A state that is saved, and one whose saving is cut short *)
Module StateRuns.
Import Lab BackupRuns.
#[local] Instance json_codec : Codec Domain.json :=
  {| Etcd.encode := enc_json; Etcd.decode s := Some (dec_json s);
     Etcd.decode_encode j := f_equal Some (dec_enc_json j) |}.
Definition path : list string := ["client"; "session.json"].
Definition key_file : option (list string) := Some ["keys"; "client.key"].
Definition calm : home_env := mkHomeEnv (λ _, false) (λ _, false) bytes (λ _, ".session-a") (λ _, 1%nat).
Definition cut (n : nat) : home_env := mkHomeEnv (λ i, bool_decide (i = n)) (λ _, false) bytes (λ _, ".session-a") (λ _, 1%nat).
Definition old : Domain.json := JNum 2.
Definition new : Domain.json := JNum 3.
Definition keyed : home := mkHome {[ ["keys"; "client.key"] := Some (pad 32 "secret") ]} 0.
Definition start : home := (save path old key_file true calm keyed).2.
Definition ended (w : home_env) : home := (save path new key_file true w start).2.
Definition outcome (w : home_env) : result failure Domain.json := (load path key_file true calm (ended w)).1.
Example saved_state : outcome calm = Ok new.
Proof. vm_compute. reflexivity. Qed.
Example cut_before_rename : outcome (cut 16) = Ok old.
Proof. vm_compute. reflexivity. Qed.
(** A key whose writing was cut short is refused for ever. *)
Definition no_key : home := mkHome ∅ 0.
Definition cut_key (n : nat) : home := (initialize_key ["keys"; "client.key"] path (cut n) no_key).2.
Example half_a_key : h_tree (cut_key 3) !! ["keys"; "client.key"] = Some (Some "")
  ∧ (initialize_key ["keys"; "client.key"] path calm (cut_key 3)).1 = Err (Raised (Fault DATA_LOSS)).
Proof. vm_compute. split; reflexivity. Qed.
Lemma works_calm : works calm.
Proof. by intros i. Qed.
Lemma started : (load path key_file true calm start).1 = Ok old.
Proof. vm_compute. reflexivity. Qed.
Lemma save_atomic_witness :
  (save path new key_file true (cut 16) start).1 = Err Exit
  ∧ ((load path key_file true calm (ended (cut 16))).1 = Ok old ∨ (load path key_file true calm (ended (cut 16))).1 = Ok new)
  ∧ (Err Exit = Ok tt → (load path key_file true calm (ended (cut 16))).1 = Ok new ∧ agree [path] start.(h_tree) (ended (cut 16)).(h_tree))
  ∧ ∀ q c, q ≠ path → start.(h_tree) !! q = Some (Some c) → (ended (cut 16)).(h_tree) !! q = Some (Some c).
Proof.
  split; [vm_compute; reflexivity|].
  apply (save_atomic path key_file true old new (cut 16) calm start (load path key_file true calm start).2 (Err Exit)).
  - done.
  - intros i. by vm_compute.
  - intros i. apply bytes_length. lia.
  - exact works_calm.
  - rewrite (surjective_pairing (load path key_file true calm start)), started. reflexivity.
  - rewrite (surjective_pairing (save path new key_file true (cut 16) start)). f_equal; vm_compute; reflexivity.
Defined.
End StateRuns.
