(* ===== verification/World.v ===== *)
(** * A small world

    A store that was just initialised, an administrator who is logged in, and the
    environment of a unit of work under each profile: the concrete runs of the
    witnesses start here. *)
From S2P Require Import Prelude Domain Data Store Auth Leases Cluster Placement Requests Queries Commands Access Protection Footprints Tables Service Nodes Maintenance Startup UnitFootprints System Lab.

Module World.
Import Lab.

Fixpoint marks (n : nat) : string := match n with O => "" | S n => String "x" (marks n) end.
Definition ids (n : nat) : string := String "u" (marks n).
Lemma ids_distinct : distinct_draws ids.
Proof.
  intros n m [= E]. revert m E. induction n as [|n IH]; intros [|m]; simpl; try done. intros [= E]. f_equal. by apply IH.
Qed.

Definition node_at (n : string) : string * allowed_node :=
  (n, mkAllowed ("cn-" +:+ n) ("client-" +:+ n) ("private-" +:+ n) ("domain-" +:+ n) 1000000000).
Definition config_of (p : profile) (rf3 : bool) : config :=
  mkConfig p rf3 false false 4194304 1000000000 1000000000 (if decide (p = PReplicated) then 3 else 1) 30000 60000
    15000 45000 3600000 "local" [node_at "n1"; node_at "n2"; node_at "n3"].
Definition root_id : string := ids 2.
Definition admin_id : string := ids 1.
Definition env_at (p : profile) (rf3 : bool) (t : Z) : env :=
  mkEnv (config_of p rf3) (mkSystem "epoch" root_id "node" false) t t (pad 32 "key") 1000000000
    ids (λ n k, pad (Z.to_nat k) "random") "control-epoch-1" 1 (λ _ _, true).

Definition empty_st : st := mkSt empty_db 0 [].
(** After [initialize], with one session of the administrator. *)
Definition opened : M string :=
  r ← initialize "admin" "correct horse battery";
  put KSession (mkSessionRec (hex (sha256 "token")) "session" admin_id 100000000 false);;
  mret r.
Definition at_start : env := env_at PMonolith false 1000.
Definition base : st := (ok_or ("", empty_st) (opened at_start empty_st)).2.
Lemma opened_ok : opened at_start empty_st = Ok ((ok_or ("", empty_st) (opened at_start empty_st)).1, base).
Proof. unfold base. apply (ok_pair ("", empty_st)). vm_compute. reflexivity. Qed.

Lemma opened_writes : writes [KUser; KGroup; KNode; KSession] opened.
Proof. unfold opened, initialize. solve_keeps. Qed.
Lemma base_frame : frame [KUser; KGroup; KNode; KSession] at_start empty_st base.
Proof. eapply opened_writes, opened_ok. Qed.
Lemma base_keyed : keyed base.(s_db).
Proof. destruct base_frame as (_ & _ & K). apply K, keyed_empty. Qed.
Lemma base_unissued k : k ∉ [KUser; KGroup; KNode; KSession] → unissued k ids base.
Proof. intros Hk n _. destruct base_frame as (T & _). by rewrite T. Qed.

(** A request of the administrator. *)
Definition request_id : string := "00000000-0000-4000-8000-000000000001".
Definition context_of (i : string) (b : body) : RequestContext := mkRequestContext i admin_id "epoch" (request_intent b).
Definition ask_as (i : string) (b : body) : request := mkRequest (context_of i b) b.
Definition second_id : string := "00000000-0000-4000-8000-000000000002".
Definition ask_for (b : body) : request := ask_as request_id b.
Definition at_path (p : string) : PathRef := mkPathRef p "" "".

(** What a unit of work that is known to succeed does from the base. *)
Definition after {A} (m : M A) (e : env) (s : st) : st := match m e s with Ok (_, s') => s' | Err _ => s end.
Lemma after_moves {A} (m : M A) e s : e.(e_uid) = ids → unit_of_work m → is_ok (m e s) = true → moves ids s (after m e s).
Proof.
  intros He Hm Hok. unfold after. destruct (m e s) as [[a s']|] eqn:Hr; [|done]. by exists e, A, m, a.
Qed.
Definition upload_request : request := ask_for (BeginUpload (at_path "/f") 10 (pad 32 "sha") false None).
Definition uploading : st := after (publish "token" upload_request) at_start base.
Lemma uploading_moves : moves ids base uploading.
Proof. apply after_moves; [done|constructor|]. vm_compute. reflexivity. Qed.
End World.
