(* ===== verification/Runs.v ===== *)
(** * Concrete runs of the system

    Witnesses of the theorems about runs: an upload begun and collected, a file
    created and collected, a request that is asked again. *)
From S2P Require Import Prelude Domain Data Store Auth Leases Cluster Placement Requests Queries Commands Access Protection Footprints Tables Service Nodes Maintenance Startup UnitFootprints Uploads System Ledger Snapshots Locks Paths Tree Namespace Lab World.
Import Lab World.

(** ** An upload that expires at a restart *)
Definition restart_env : env := env_at PMonolith false 2000.
Definition restarted : st := after (_ ← collect_base true; mret tt) restart_env uploading.
Lemma restarted_moves : moves ids uploading restarted.
Proof.
  apply after_moves; [done| |vm_compute; reflexivity].
  apply (w_collect true). unfold collect. rewrite !elem_of_cons. auto.
Qed.
Lemma upload_lifecycle_witness :
  o_state <$> uploading.(s_db) KUpload !! ids 5 = Some PREPARING
  ∧ o_state <$> restarted.(s_db) KUpload !! ids 5 = Some ABORTED
  ∧ growth KUpload upload_step tidy ids base restarted.
Proof.
  split_and!; [vm_compute; reflexivity|vm_compute; reflexivity|].
  apply (upload_lifecycle ids base restarted); [exact ids_distinct|exact base_keyed|apply base_unissued; set_solver|].
  eapply rtc_l; [exact uploading_moves|]. apply rtc_once, restarted_moves.
Defined.

(** ** A file that is created, and what a collection leaves of it *)
Definition access_env : env := env_at PDistributed true 1000.
Definition created : st := after (publish "token" (ask_for (Open (at_path "/g") ctl.X_PLUS))) access_env base.
Lemma created_moves : moves ids base created.
Proof. apply after_moves; [done|constructor|]. vm_compute. reflexivity. Qed.
Definition collected : st := after (_ ← collect_base false; mret tt) access_env created.
Lemma collected_moves : moves ids created collected.
Proof.
  apply after_moves; [done| |vm_compute; reflexivity].
  apply (w_collect false). unfold collect. rewrite !elem_of_cons. auto.
Qed.
Lemma created_ready : keyed created.(s_db) ∧ unissued KSnapshot ids created.
Proof.
  destruct created_moves as (e & A & m & a & He & Hm & Hr). rewrite <-He.
  destruct (se_units A m Hm e _ _ _ Hr) as (_ & K & G). split; [apply K, base_keyed|].
  eapply G; [rewrite He; exact ids_distinct|exact base_keyed|rewrite He; apply base_unissued; set_solver].
Qed.
Definition created_snapshot : snapshot :=
  ltac:(let o := eval vm_compute in (created.(s_db) KSnapshot !! ids 6) in
        match o with Some ?s => exact s end).
Lemma snapshots_immutable_witness :
  created.(s_db) KSnapshot !! ids 6 = Some created_snapshot
  ∧ (collected.(s_db) KSnapshot !! ids 6 = Some created_snapshot ∨ collected.(s_db) KSnapshot !! ids 6 = None)
  ∧ (collected.(s_db) KSnapshot !! ids 6 = None → collected.(s_db) KSnapshot !! ids 6 = None).
Proof.
  split; [vm_compute; reflexivity|].
  apply (snapshots_immutable ids created collected collected (ids 6) created_snapshot);
    [exact ids_distinct|apply created_ready|apply created_ready|apply rtc_once, collected_moves|done|vm_compute; reflexivity].
Defined.

(** ** A lock taken on a file that was just opened *)
Definition lock_env : env := env_at PDistributed true 2000.
Definition lock_whole : request := ask_as second_id (Lock (ids 7) true None None 0).
Definition locked : st := after (publish "token" lock_whole) lock_env created.
Lemma after_timed {A} (m : M A) e s e' : later e s e' → e'.(e_uid) = ids → unit_of_work m →
  is_ok (m e' s) = true → timed ids (e, s) (e', after m e' s).
Proof.
  intros L He Hm Hok. unfold after. destruct (m e' s) as [[a s']|] eqn:Hr; [|done]. by eapply timed_step.
Qed.
Lemma created_timed : timed ids (access_env, base) (access_env, created).
Proof. apply after_timed; [by apply same_epoch|done|constructor|]. vm_compute. reflexivity. Qed.
Lemma locked_timed : timed ids (access_env, created) (lock_env, locked).
Proof. apply after_timed; [by apply same_epoch|done|constructor|]. vm_compute. reflexivity. Qed.
Lemma locks_exclusive_witness :
  k_whole <$> locked.(s_db) KLock !! ids 9 = Some true
  ∧ (live_lock_at lock_env <$> locked.(s_db) KLock !! ids 9 = Some true) ∧ exclusive lock_env locked.
Proof.
  split_and!; [vm_compute; reflexivity|vm_compute; reflexivity|].
  apply (locks_exclusive ids access_env base lock_env locked);
    [exact ids_distinct|exact base_keyed|apply base_unissued; set_solver| |eapply rtc_l; [exact created_timed|apply rtc_once; exact locked_timed]].
  assert (base.(s_db) KLock = ∅) as E by (vm_compute; reflexivity). intros i j k l Hk. by rewrite E in Hk.
Defined.

(** ** The namespace *)
Lemma base_namespace : namespace root_id ids base.
Proof.
  pose proof opened_ok as Hr. unfold opened in Hr. apply bind_Ok in Hr as (r & s1 & Hi & Hr).
  apply bind_Ok in Hr as (u & s2 & ->%put_Ok & [Er ->]%ret_Ok).
  assert (r = root_id) as -> by (rewrite <-Er; vm_compute; reflexivity).
  pose proof (initialize_names _ _ at_start empty_st _ _ ids_distinct eq_refl eq_refl Hi) as Hn.
  unfold namespace in *. simpl. by rewrite !put_db_kind.
Qed.
Lemma after_moves_in {A} (E : env → Prop) (m : M A) e s : E e → unit_of_work m → is_ok (m e s) = true →
  moves_in E s (after m e s).
Proof.
  intros He Hm Hok. unfold after. destruct (m e s) as [[a s']|] eqn:Hr; [|done]. by exists e, A, m, a.
Qed.
Definition home_request (n : nat) : string :=
  "00000000-0000-4000-8000-00000000000" +:+ match n with 1 => "1" | 2 => "2" | 3 => "3" | _ => "4" end%nat.
Definition no_admin_home : st := after (publish "token" (ask_as (home_request 1) (Rmdir (at_path "/home/admin")))) access_env base.
Definition no_home : st := after (publish "token" (ask_as (home_request 2) (Rmdir (at_path "/home")))) access_env no_admin_home.
Definition home_file : st := after (publish "token" (ask_as (home_request 3) (Open (at_path "/home") ctl.X_PLUS))) access_env no_home.
Definition with_bob : st :=
  after (publish "token" (ask_as (home_request 4) (CreateUser "bob" "a long enough password"))) access_env home_file.
Ltac one_move := apply after_moves_in; [done|constructor|]; vm_compute; reflexivity.
Lemma bob_run : rtc (moves_in (at_root ids root_id)) base with_bob.
Proof.
  assert (moves_in (at_root ids root_id) base no_admin_home) as H1 by one_move.
  assert (moves_in (at_root ids root_id) no_admin_home no_home) as H2 by one_move.
  assert (moves_in (at_root ids root_id) no_home home_file) as H3 by one_move.
  assert (moves_in (at_root ids root_id) home_file with_bob) as H4 by one_move.
  exact (rtc_l _ _ _ _ H1 (rtc_l _ _ _ _ H2 (rtc_l _ _ _ _ H3 (rtc_once _ _ H4)))).
Qed.
Lemma namespace_stays_tree_witness :
  size (with_bob.(s_db) KNode) = 5%nat ∧ namespace root_id ids with_bob.
Proof.
  split; [vm_compute; reflexivity|].
  apply (namespace_stays_tree ids root_id base with_bob); [exact ids_distinct|exact base_keyed|exact base_namespace|exact bob_run].
Defined.

(** C34: [CreateUser] does not ask whether /home is a directory.  There is a run of the
    requests of an administrator, from a new store, after which a live directory lies
    below a file. *)
Theorem directory_under_file : ∃ s n m, rtc (moves_in (at_root ids root_id)) base s
  ∧ s.(s_db) KNode !! n.(n_id) = Some n ∧ n.(n_alive) = true ∧ n.(n_parent) = Some m.(n_id)
  ∧ s.(s_db) KNode !! m.(n_id) = Some m ∧ m.(n_kind) = File.
Proof.
  destruct (with_bob.(s_db) KNode !! ids 13) as [n|] eqn:En; [|by vm_compute in En].
  destruct (with_bob.(s_db) KNode !! ids 7) as [m|] eqn:Em; [|by vm_compute in Em].
  exists with_bob, n, m. split; [exact bob_run|].
  vm_compute in En, Em. injection En as <-. injection Em as <-. by vm_compute.
Qed.

(** ** Paths *)
Definition the_admin : user :=
  ltac:(let o := eval vm_compute in (base.(s_db) KUser !! admin_id) in match o with Some ?u => exact u end).
Definition the_root : node :=
  ltac:(let o := eval vm_compute in (base.(s_db) KNode !! root_id) in match o with Some ?n => exact n end).
Definition the_home : node :=
  ltac:(let o := eval vm_compute in (base.(s_db) KNode !! ids 3) in match o with Some ?n => exact n end).
Lemma the_root_here : base.(s_db) KNode !! root_id = Some the_root.
Proof. vm_compute. reflexivity. Qed.
Lemma the_home_here : base.(s_db) KNode !! ids 3 = Some the_home.
Proof. vm_compute. reflexivity. Qed.
Lemma home_found : resolve the_admin (at_path "/home") access_env base = Ok (the_home, base).
Proof. vm_cast_no_check (eq_refl (Ok (A := node * st) (X := exn) (the_home, base))). Qed.
Lemma resolve_agrees_witness : child_named "home" (children_db root_id base.(s_db)) = Some the_home.
Proof.
  refine (proj1 (resolve_agrees the_admin (at_path "/home") access_env base the_root "home" base _) the_home base home_found).
  vm_cast_no_check (eq_refl (Ok (A := node * string * st) (X := exn) (the_root, "home", base))).
Defined.
Lemma ancestors_total_witness : ∃ l, ancestors (n_parent the_home) access_env base = Ok (l, base)
  ∧ (ids 3 = root_id ∨ list_last l = Some root_id).
Proof.
  apply (ancestors_total root_id access_env base (ids 3) the_home); [exact (nm_tree _ _ _ _ _ base_namespace)|exact the_home_here].
Defined.
Lemma initialize_tree_witness :
  ∃ s, is_ok (initialize "admin" "correct horse battery" at_start empty_st) = true ∧ keyed s.(s_db) ∧ namespace root_id ids s.
Proof.
  exists (after (initialize "admin" "correct horse battery") at_start empty_st). split; [vm_compute; reflexivity|].
  apply (initialize_tree "admin" "correct horse battery" at_start empty_st root_id);
    [exact ids_distinct|exact keyed_empty|reflexivity|reflexivity|]. vm_cast_no_check (eq_refl (Ok (A := string * st) (X := exn)
    (root_id, after (initialize "admin" "correct horse battery") at_start empty_st))).
Defined.
Lemma open_root_crashes_witness : ∃ x, open_creating the_admin (mkSessionRec "" "" "" 0 false) (at_path "/") ctl.W access_env base = Err x.
Proof.
  exists PyError. apply (open_root_crashes _ _ _ _ _ _ the_root); [|reflexivity|reflexivity].
  vm_cast_no_check (eq_refl (Ok (A := node * st) (X := exn) (the_root, base))).
Defined.

(** ** A session that logs out twice *)
Definition logout_request : request := ask_for (Logout "session").
Definition logged_out : st := after (publish "token" logout_request) at_start base.
Definition farewell : response := RMutation (mkMutationResult request_id 1).
Lemma logged_out_ok : publish "token" logout_request at_start base = Ok (farewell, logged_out).
Proof. vm_cast_no_check (eq_refl (Ok (A := response * st) (X := exn) (farewell, logged_out))). Qed.
Definition swept : st := after (_ ← collect_base false; mret tt) access_env logged_out.
Lemma swept_moves : moves_in (λ _, True) logged_out swept.
Proof.
  apply after_moves_in; [done| |vm_compute; reflexivity].
  apply (w_collect false). unfold collect. rewrite !elem_of_cons. auto.
Qed.
Definition nobody (n : nat) (s : st) : env * st := (access_env, s).
Lemma answered_once_witness :
  publish "token" logout_request at_start base = Ok (farewell, logged_out)
  ∧ (unary_once (λ _, None) nobody "token" logout_request access_env swept).1 = Ok farewell
  ∧ ∃ x, unary_once (λ _, None) nobody "token" logout_request access_env swept = (x, swept) ∧ (x = Ok farewell ∨ ∃ f, x = Err f)
    ∧ ((∃ us s', authenticated "token" logout_request.(rq_context) access_env swept = Ok (us, s'))
       → x = Ok farewell ∨ x = Err (Fault IDEMPOTENCY_MISMATCH)).
Proof.
  split; [exact logged_out_ok|]. split; [vm_compute; reflexivity|].
  apply (answered_once (λ _, None) nobody "token" "token" logout_request at_start access_env base farewell logged_out swept);
    [exact base_keyed|intros n; apply (pad_slen 12)|reflexivity|reflexivity|reflexivity|exact logged_out_ok
    |apply rtc_once, swept_moves|reflexivity].
Defined.
Lemma answers_typed_witness :
  (unary_once (λ _, None) nobody "token" logout_request access_env swept).1 = Ok farewell ∧ type_of farewell = TMutation.
Proof.
  split; [vm_compute; reflexivity|].
  apply (answers_typed (λ _, None) nobody "token" logout_request access_env swept farewell swept).
  vm_cast_no_check (eq_refl (Ok (A := response) (X := exn) farewell, swept)).
Defined.
