(* ===== verification/Samples.v ===== *)
(** * Concrete runs of the containers

    Witnesses of the theorems about sealed metadata, block objects and diagnosis,
    on a small envelope, a small block and a short stream. *)
From Stdlib Require String.
From S2P Require Import Prelude Domain Data Store Auth Cluster Process Protected Blocks Diagnostic Lab.

Module Envelopes.
Import Lab.
Definition cipher : MetadataCipher := ltac:(let c := eval vm_compute in (default (mkCipher "" "" "") (metadata_cipher "kkkkkkkkkkkkkkkkkkkkkkkkkkkkkkkk")) in exact c).
Definition nonce : string := "abcdefghijkl".
Definition envelope : string := seal cipher nonce "data" "page".
End Envelopes.

Module Objects.
Import Lab.
Definition block : BlockRef :=
  mkBlockRef "00000000-0000-4000-8000-000000000001" "00000000-0000-4000-8000-000000000002" 3 5
    (pad 32 "hello").
Definition nonce_prefix : string := "prefix00".
Definition fields : list (string * Domain.json) := header_fields (open_store "key" [] ∅) block "dek" nonce_prefix.
#[local] Instance fields_json : Json := json_of fields.
Definition stored : block_store * Z * string :=
  ok_or (open_store "" [] ∅, 0, "") (put_object (open_store "key" [] ∅) block ["he"; "llo"] "dek" nonce_prefix).
Lemma stored_ok :
  put_object (open_store "key" [] ∅) block ["he"; "llo"] "dek" nonce_prefix = Ok (stored.1.1, stored.1.2, stored.2).
Proof. vm_compute. reflexivity. Qed.
End Objects.

Import Lab.
#[local] Existing Instance Objects.fields_json.

Lemma open_seal_witness :
  metadata_cipher "kkkkkkkkkkkkkkkkkkkkkkkkkkkkkkkk" = Some (Envelopes.cipher)
  ∧ open_envelope Envelopes.cipher Envelopes.envelope "page" = Ok "data".
Proof.
  split; [vm_compute; reflexivity|].
  apply (open_seal "kkkkkkkkkkkkkkkkkkkkkkkkkkkkkkkk" Envelopes.cipher Envelopes.nonce "data" "page"); vm_compute; reflexivity.
Defined.

Lemma open_only_sealed_witness :
  open_envelope Envelopes.cipher Envelopes.envelope "page" = Ok "data"
  ∧ slen Envelopes.envelope = 68 + slen "data".
Proof.
  split; [vm_compute; reflexivity|].
  apply (open_only_sealed Envelopes.cipher Envelopes.envelope "page" "data"). vm_compute. reflexivity.
Defined.

Lemma put_then_read_witness :
  put_object (open_store "key" [] ∅) Objects.block ["he"; "llo"] "dek" Objects.nonce_prefix
    = Ok (Objects.stored.1.1, Objects.stored.1.2, Objects.stored.2)
  ∧ read_verified Objects.stored.1.1 Objects.block = Ok ["he"; "llo"].
Proof.
  split; [exact Objects.stored_ok|].
  apply (put_then_read "key" [] ∅ Objects.block ["he"; "llo"] "dek" Objects.nonce_prefix
    Objects.stored.1.1 Objects.stored.1.2 Objects.stored.2);
    [exact Objects.stored_ok|vm_compute; done..].
Defined.

Definition steady_call (n : nat) : call_context := mkCall (Some 5) (λ _, true).
Lemma steady_calls n : steady (steady_call n).
Proof. split; [by exists 5|done]. Qed.
Definition diagnosis_ids (n : nat) : string := "00000000-0000-4000-8000-000000000001".
Definition diagnosed : result refusal diagnosis := diagnose (connected "public" true None steady_call) diagnosis_ids 300 5 15.
Lemma diagnose_succeeds_witness :
  (match diagnosed with Ok g => g.(gn_chunks) | Err _ => 0 end) = 1
  ∧ ∃ g, diagnosed = Ok g ∧ g.(gn_uploaded) = 300 ∧ g.(gn_downloaded) = 300 ∧ slen (expected_text 300) = 300
    ∧ g.(gn_sha256) = sha256 (expected_text 300) ∧ g.(gn_chunks) = zlen (synthetic_chunks 300 CHUNK_BYTES)
    ∧ g.(gn_health).(he_request_id) = diagnosis_ids 0.
Proof.
  split; [vm_compute; reflexivity|].
  apply (diagnose_succeeds "public" true None steady_call diagnosis_ids 300 5 15);
    [exact steady_calls|intros n; reflexivity|split; vm_compute; discriminate|lia|lia].
Defined.
