(* ===== verification/NodeRuns.v ===== *)
(** * Concrete runs of data nodes

    Witnesses of the theorems about a data node: one that starts, stores a
    block, serves it, is asked again, copies it to a second node and deletes it. *)
From Stdlib Require String.
From S2P Require Import Prelude Domain Data Store Auth Leases Cluster Requests Nodes Process Protected Local Blocks Patch DataNode Streams NodeTasks NodeEffects NodeResources Inventory NodeContent Acknowledged Copies Capacity Lab.

Module NodeRuns.
Import Lab.
Definition key : string := pad 32 "key".
Definition block : BlockRef :=
  mkBlockRef "00000000-0000-4000-8000-000000000001" "00000000-0000-4000-8000-000000000002" 3 5 (pad 32 "hello").
Definition dek : string := pad 32 "dek".
#[local] Instance block_json : Json := json_of (header_fields (open_store key [] ∅) block dek "prefix00").
#[local] Instance order_wire : OrderWire :=
  {| replicate_dict r := JStr r.(rb_task_id); delete_dict r := JStr r.(xr_task_id) |}.

(** The world: a control that allows everything, a disk that works. *)
Definition config (i : string) : node_config :=
  mkNodeConfig i "epoch" "client" "private" "domain" 1000000 ["control"] false true true.
Definition decision : AuthorizationDecision := mkAuthorizationDecision "user" 1 100000 4194304 None 5.
Definition world (i : string) (st : replica_stream) : node_env :=
  mkNodeEnv (config i) (λ _, false) Z.of_nat (λ _, "uid") (λ _ n, if n =? 32 then dek else "prefix00")
    (λ _, 10000000) (λ _, None) (λ _, true) (λ _, false) (λ _ _, Ok decision) (λ _ _, Ok decision)
    (λ _ _, Ok (mkNodeLease i 1 100000 1)) (λ _ _, Ok (mkNodeLease i 1 100000 1))
    (λ _ _, Ok (mkMutationResult "" 1)) (λ _ _, Ok (mkMutationResult "" 1)) (λ _ _, Ok (mkMutationResult "" 1))
    (λ _ _ _, st).
Definition no_stream : replica_stream := mkReplicaStream [] None.
Definition here : node_env := world "node" no_stream.
Definition blank (i : string) : data_node :=
  mkDataNode (open_store "" [] ∅)
    (mkTables (Some (mkNodeSettings i (hex (sha256 key)) 0)) [] ∅ ∅ ∅ ∅ ∅) 0 "" 0 false 0 0 (Pins.mkPins ∅ ∅) ∅ [] 0 [] 0.
Definition ring : keyring := mkKeyring (Some key) [] None.
Definition booted : data_node := (boot_node ring here (blank "node")).2.

Definition context : RequestContext := mkRequestContext "request" "user" "epoch" "".
Definition tp : transport := mkTransport ["Bearer t"] ["control"] 1000.
Definition put_header : PutBlockHeader := mkPutHeader context no_operation block no_fence "capability".
Definition put_frames : list (frame PutBlockHeader) := [FChunk (mkChunk 0 "hello")].
Definition written : data_node := (PutBlock (FHeader put_header :: put_frames) tp here booted).2.
Definition receipt : DurableReceipt := ok_or (mkDurableReceipt "" "" no_block "" 0 "" 0 "" 0)
  (PutBlock (FHeader put_header :: put_frames) tp here booted).1.

Lemma put_runs : PutBlock (FHeader put_header :: put_frames) tp here booted = (Ok receipt, written).
Proof. refine (run_eq (PutBlock (FHeader put_header :: put_frames) tp) here booted receipt _). vm_compute. reflexivity. Qed.
Lemma quiet : no_replay here.
Proof. by intros i rq d [= <-]. Qed.
Lemma booted_opened : opened booted.(dx_blocks).
Proof. exists key, [key], ∅. vm_compute. reflexivity. Qed.
Lemma booted_fits : header_fits here booted.(dx_blocks) block.
Proof. intros i j. split_and!; vm_compute; done. Qed.

Lemma streams_give_back_witness :
  (perform (OnPut (FHeader put_header :: put_frames) tp) here booted).1 = Ok tt
  ∧ (perform (OnPut (FHeader put_header :: put_frames) tp) here booted).2.(dx_pins) = booted.(dx_pins).
Proof.
  split; [vm_compute; reflexivity|].
  refine (proj2 (proj2 (streams_give_back (OnPut (FHeader put_header :: put_frames) tp) here booted _ _))).
  - intros i. vm_compute. destruct i; done.
  - vm_compute. discriminate.
Defined.


Definition read : GetBlockRequest := mkGetBlock context "handle" no_snapshot block (Some 1) (Some 3) "capability" "read".
Definition served : data_node := (GetBlock read tp here written).2.
Lemma get_sends_range_witness : ∃ cs,
  served.(dx_sent) = written.(dx_sent) ++ SentRead (FHeader (mkReadHeader block 1 3 "")) :: sent_chunks cs
  ∧ payload cs = "ell".
Proof.
  assert (GetBlock read tp here written = (Ok tt, served)) as R by (refine (run_eq (GetBlock read tp) here written tt _); vm_compute; reflexivity).
  pose proof (get_sends_range read tp here written served ltac:(simpl; lia) R) as E.
  destruct E as (chunks & cs & Hread & Hsent & _ & Hp & _). exists cs. split; [exact Hsent|]. rewrite Hp.
  assert (read_verified written.(dx_blocks) block = Ok ["hello"]) as Hh by (vm_compute; reflexivity).
  change (gb_block read) with block in Hread. rewrite Hh in Hread. injection Hread as <-. reflexivity.
Defined.

Lemma put_acknowledged_witness : ∃ ds, put_frames = map FChunk ds ∧ stored_from here put_header ds receipt booted written.
Proof.
  destruct (put_acknowledged put_header put_frames tp here booted receipt written quiet booted_opened booted_fits)
    as (ds & me & Hf & _ & _ & _ & Hs & _); [vm_compute; discriminate|vm_compute; reflexivity|exact put_runs|].
  exists ds. split; [exact Hf|exact Hs].
Defined.

(** The node starts again, and the request comes again without its frames. *)
Definition restarted : data_node := (boot_node ring here written).2.
Definition again : data_node := (PutBlock [FHeader put_header] tp here restarted).2.

(** A second node, with the same key, fetches the block from the first. *)
Definition served_replica : GetReplicaRequest :=
  mkGetReplica (mkRequestContext "r" "other" "epoch" "") "task" block "capability" no_fence "other".
Definition replica_tp : transport := mkTransport [] ["other"] 1000.
Definition source : data_node := (GetReplica served_replica replica_tp here written).2.
Definition stream : replica_stream :=
  mkReplicaStream (replica_frames (drop (length written.(dx_sent)) source.(dx_sent))) None.
Definition there : node_env := world "other" stream.
Definition other : data_node := (boot_node ring there (blank "other")).2.
Definition location (i : string) : BlockLocation := mkBlockLocation i 1 "client" "private" "domain".
Definition copy_order : ReplicateBlockRequest :=
  mkReplicate (mkRequestContext "r" "control" "epoch" "") "task" block (location "node") (location "other") "capability"
    (mkFence "" "" "" 0 0 [] false false 100000) receipt.(dr_stored_size_bytes) receipt.(dr_ciphertext_sha256) "".
Definition copied : data_node := (fetch_copy copy_order there other).2.

Definition registered : data_node := (register_inventory here written).2.
Lemma inventory_pages_witness : register_inventory here written = (Ok tt, registered)
  ∧ ∃ pre, registered.(dx_sent) = written.(dx_sent) ++ pre ∧ length pre = 1%nat.
Proof.
  assert (register_inventory here written = (Ok tt, registered)) as R by (refine (run_eq (register_inventory) here written tt _); vm_compute; reflexivity).
  split; [exact R|]. destruct (inventory_pages here written tt registered R) as (pre & mes & l & Hs & Hl & Hm & Hp & _).
  exists pre. split; [exact Hs|]. rewrite Hp, length_zip_with, length_seq, Hm, Hl. vm_compute. reflexivity.
Defined.

Definition delete_order : DeleteRetiredBlockRequest :=
  mkDeleteRetired (mkRequestContext "r" "control" "epoch" "") "task" block 1 "capability" no_fence "uid".
Definition deleted : data_node := (DeleteRetiredBlock delete_order tp here written).2.
Lemma delete_retired_witness :
  DeleteRetiredBlock delete_order tp here written = (Ok (mkTaskStatus "task" FINISHED None None), deleted)
  ∧ deleted.(dx_blocks).(bs_files) = delete (path_of block) written.(dx_blocks).(bs_files).
Proof.
  assert (DeleteRetiredBlock delete_order tp here written = (Ok (mkTaskStatus "task" FINISHED None None), deleted)) as R
    by (refine (run_eq (DeleteRetiredBlock delete_order tp) here written ((mkTaskStatus "task" FINISHED None None)) _); vm_compute; reflexivity).
  split; [exact R|].
  refine (proj1 (proj2 (proj2 (delete_retired delete_order tp here written _ deleted _ R)))). vm_compute. reflexivity.
Defined.

Lemma put_within_capacity_witness : used_bytes written.(dx_tables) + 0 ≤ 1000000.
Proof.
  refine (put_within_capacity put_header put_frames tp here booted _ _ _ _).
  - intros i x. vm_compute. destruct i; discriminate.
  - intros i j. vm_compute. discriminate.
  - vm_compute. discriminate.
  - vm_compute. discriminate.
Defined.
End NodeRuns.
