(* ===== verification/ClientRuns.v ===== *)
(** * Concrete runs of clients

    Witnesses of the theorems about a client: a small file that is sent, read
    across a stream that breaks, and received; and the run in which a renewal
    fails while a commit is confirmed. *)
From Stdlib Require String.
From S2P Require Import Prelude Domain Data Store Auth Leases Cluster Requests Queries Process Protected Blocks DataNode Streams NodeContent Client Downloads ClientFacts DownloadFacts Sends SendFacts Ranges RangeFacts Lab.

Module ClientRuns.
Import Lab.
#[local] Instance read_wire : ReadWire := {| get_dict rq := JStr rq.(gb_capability) |}.

(** ** The world *)
Definition F : string := "hello".
Definition block : BlockRef := mkBlockRef "file" "version" 0 5 (pad 32 F).
Definition sn : SnapshotRef :=
  mkSnapshotRef "file" 1 1 "manifest" 5 (manifest_hash [block]) (Some (pad 32 F)) 4194304.
Definition location (i : string) : BlockLocation := mkBlockLocation i 1 i "private" "domain".
Definition grant (offset length : Z) (i : string) : BlockGrant := mkBlockGrant "capability" READ_DATA block i offset length 100000.
(** Two nodes have the block. *)
Definition planned (offset length : Z) : PlannedBlock :=
  mkPlannedBlock block [location "one"; location "two"] [grant offset length "one"; grant offset length "two"] "" false 0 0 0 None.
Definition op : OperationRef := mkOperationRef "operation" "request" "".
Definition commit : CommitResult := mkCommitResult op COMMITTED sn 5 false 1 1.
Definition handle : Handle := mkHandle "handle" sn ctl.R 100000 1.
Definition upload_plan : UploadPlan := mkUploadPlan op "file" 1 no_fence 4194304 100000 1.
(** A range that lies in the first block. *)
Definition resolve (offset length : Z) : BlockPlan :=
  let e := Z.min (offset + length) (slen F) in
  mkBlockPlan (if offset <? e then [planned offset (e - offset)] else []) "" (Some sn).
Definition control (rq : request) : result rpc_error response :=
  match rq.(rq_body) with
  | ResolveBlocks _ s (Some o) (Some n) page _ =>
      if (0 <=? o) && empty page.(pg_cursor) && bool_decide (s = sn) then Ok (RBlocks (resolve o n))
      else Err (mkRpcError Grpc.NOT_FOUND None)
  | BeginRead _ s _ _ => Ok (RRead (mkReadLease "read" s 100000))
  | EndRead _ _ | AbortUpload _ => Ok (RMutation (mkMutationResult "" 1))
  | BeginUpload _ _ _ _ _ => Ok (RUpload upload_plan)
  | AllocateBlocks _ _ _ => Ok (RBlocks (mkBlockPlan [planned 0 5] "" None))
  | StageManifestPage _ _ _ _ _ | SealManifest _ _ _ _ _ _ => Ok (RPage (mkPageReceipt "page" "" 1))
  | CommitUpload _ _ _ => Ok (RCommit commit)
  | _ => Err (mkRpcError Grpc.UNIMPLEMENTED None)
  end.
(** The first node breaks off after three bytes. *)
Definition served (endpoint : string) (rq : GetBlockRequest) : string :=
  let p := rq.(gb_block).(br_block_index) * 4194304 + default 0 rq.(gb_offset) in
  let n := default 0 rq.(gb_length) in
  if (0 <=? p) && (0 <=? n) then slice F p (if decide (endpoint = "one") then Z.min 3 n else n) else "".
Definition get (endpoint : string) (rq : GetBlockRequest) : read_stream :=
  mkReadStream
    [FHeader (mkReadHeader rq.(gb_block) (default 0 rq.(gb_offset)) (default 0 rq.(gb_length)) rq.(gb_block).(br_plaintext_sha256));
     FChunk (mkChunk 0 (served endpoint rq))]
    (if decide (endpoint = "one") then Some (mkRpcError Grpc.UNAVAILABLE None) else None).
Definition receipt : DurableReceipt := mkDurableReceipt "receipt" "operation" block "one" 1 "domain" 5 "" 0.
Definition world (failed : option failure) : client_env :=
  mkClientEnv false 10 (λ _, false) (λ _, "uid") Z.of_nat (λ _, Ok tt) (λ _ _ _, Err (mkRpcError Grpc.UNIMPLEMENTED None))
    (λ _ _ rq, control rq) (λ _ _ _ _, Ok receipt) (λ _ _ _ _, Err (mkRpcError Grpc.UNIMPLEMENTED None))
    (λ _ endpoint _ rq, get endpoint rq) (λ _, (F, 7)) (λ _, false) (λ _, false) (λ _ x, x) (λ _ p, p) (λ _, failed).
Definition here : client_env := world None.
Definition client0 : client :=
  mkClient (Some (mkSession "session" "user" "token" 100000 "epoch")) "/" "root" None None ∅ [handle] None {["other" := "x"]}
    [] 0 "" [] [] 0.

(** ** Reading *)
Lemma begins_shorter t a k n : 0 ≤ a → 0 ≤ k ≤ n → begins (slice t a k) (slice t a n).
Proof. intros. exists (slice t (a + k) (n - k)). rewrite <- slice_split by lia. by replace (k + (n - k)) with n by lia. Qed.
Lemma honest : Honest here sn F (λ _, 0).
Proof.
  split.
  - intros i e token rq hd frames ds rest _ [= _ <-] Hds.
    set (p := br_block_index (gb_block rq) * 4194304 + default 0 (gb_offset rq)). set (n := default 0 (gb_length rq)).
    change (begins (payload ds) (slice F p n)).
    assert (begins (served e rq) (slice F p n)) as Hb.
    { unfold served. fold p n. destruct ((0 <=? p) && (0 <=? n)) eqn:E; [|by eexists]. bsimpl.
      case_decide; apply begins_shorter; lia. }
    destruct ds as [|d [|d' ds]]; [by eexists| |done]. injection Hds as <- _. unfold payload. cbn [map cat dc_data].
    by rewrite NodeContent.append_nil_r.
  - intros i token [c b] plan Hc. change (control (mkRequest c b) = Ok (RBlocks plan)) in Hc. cbn [rq_body].
    destruct b; try exact I; try discriminate Hc. unfold control in Hc. cbn [rq_body] in Hc.
    destruct offset as [o|], length as [n|]; try exact I; try discriminate Hc.
    destruct (_ && _) eqn:E; [|discriminate Hc]. bsimpl. injection Hc as <-. intros _. cbv zeta. 
    match goal with H : empty _ = true |- _ => rewrite H end.
    unfold resolve. cbv zeta. cbn [bp_blocks bp_next_cursor]. change (empty "") with true. cbv iota.
    assert (slen F = 5) as -> by reflexivity.
    destruct (o <? Z.min (o + n) 5) eqn:Eo; bsimpl; cbn [tiles]; [|lia].
    cbn [planned pb_block block br_block_index pb_grants]. change (sr_block_size_bytes sn) with 4194304.
    split_and!; [lia|lia| |lia].
    intros g [->|[->|[]%not_elem_of_nil]%elem_of_cons]%elem_of_cons; cbn [grant bg_offset bg_length]; split; lia.
  - done.
Qed.
(** Three bytes from the first node, the rest from the second. *)
Lemma read_resumes_exactly_witness :
  (read 0 1 4 here client0).1 = Ok "ello" ∧ "ello" = slice F 1 4 ∧ (read 0 1 4 here client0).2.(cl_yielded) = ["ell"; "o"].
Proof.
  assert ((read 0 1 4 here client0).1 = Ok "ello") as R by (vm_compute; reflexivity).
  split_and!; [exact R| |vm_compute; reflexivity].
  refine (proj1 (read_resumes_exactly here sn F (λ _, 0) 0 1 4 client0 (Ok "ello") _ honest _ _) "ello" eq_refl).
  - exists handle. split; reflexivity.
  - exact (run_eq (read 0 1 4) here client0 "ello" R).
Defined.

(** ** Receiving *)
Definition received : client := (receive_handle 0 "dir/local" false here client0).2.
Lemma receive_is_verified_witness : ∃ c, content_of sn c ∧ received.(cl_files) = <["dir/local" := c]> client0.(cl_files).
Proof.
  set (d := hex (pad 32 F)).
  assert (receive_handle 0 "dir/local" false here client0 = (Ok (5, d), received)) as R
    by (refine (run_eq (receive_handle 0 "dir/local" false) here client0 (5, d) _); vm_compute; reflexivity).
  destruct (receive_is_verified here 0 sn "dir/local" false client0 (Ok (5, d)) received (λ _ _, eq_refl) eq_refl) as (c & Hc & Hf & _).
  - intros i. split; [reflexivity|discriminate].
  - exact R.
  - exists c. split; [exact Hc|exact Hf].
Defined.

(** ** Sending *)
Definition sent : client := (send "/file" false here client0).2.
Lemma send_covers_file_witness : ∃ op size bs pgs,
  covered F op size bs pgs (drop (length client0.(cl_acked)) sent.(cl_acked))
    (rq_body <$> drop (length client0.(cl_asked)) sent.(cl_asked))
  ∧ cat (map (λ i, part F size (Z.of_nat i)) (seq 0 (length bs))) = F.
Proof.
  assert (send "/file" false here client0 = (Ok commit, sent)) as R
    by (refine (run_eq (send "/file" false) here client0 commit _); vm_compute; reflexivity).
  exact (send_covers_file "/file" false here client0 F 7 commit sent (λ _, eq_refl) (λ _ _, conj eq_refl eq_refl) R).
Defined.
(** A commit that gets no answer, and a control that then knows nothing of it. *)
Definition silent : client_env :=
  mkClientEnv false 10 (λ _, false) (λ _, "uid") Z.of_nat (λ _, Ok tt) (λ _ _ _, Err (mkRpcError Grpc.UNIMPLEMENTED None))
    (λ _ _ rq, match rq.(rq_body) with CommitUpload _ _ _ => Err (mkRpcError Grpc.DEADLINE_EXCEEDED None) | _ => control rq end)
    (λ _ _ _ _, Ok receipt) (λ _ _ _ _, Err (mkRpcError Grpc.UNIMPLEMENTED None))
    (λ _ endpoint _ rq, get endpoint rq) (λ _, (F, 7)) (λ _, false) (λ _, false) (λ _ x, x) (λ _ p, p) (λ _, None).
Definition left_alone : client := (send "/file" false silent client0).2.
Lemma unknown_not_aborted_witness :
  (send "/file" false silent client0).1 = Err (Raised (Fault OUTCOME_UNKNOWN))
  ∧ Forall (λ rq, not_abort rq.(rq_body)) (drop (length client0.(cl_asked)) left_alone.(cl_asked)).
Proof.
  assert ((send "/file" false silent client0).1 = Err (Raised (Fault OUTCOME_UNKNOWN))) as R by (vm_compute; reflexivity).
  split; [exact R|].
  exact (unknown_not_aborted "/file" false silent client0 _ left_alone (surjective_pairing (send "/file" false silent client0)) (or_introl R)).
Defined.

(** ** A renewal that fails while the commit is confirmed *)
Definition expired : failure := RpcError (mkRpcError Grpc.FAILED_PRECONDITION (Some OPERATION_EXPIRED)).

(** ** Writing *)
Lemma write_parts_cover_witness :
  covers 3 4 "hello!" 0 (write_parts 6 3 4 "hello!" 0) ∧ (map wp_length (write_parts 6 3 4 "hello!" 0)) = [1; 4; 1].
Proof. split; [apply (write_parts_cover 3 4 "hello!"); lia|vm_compute; reflexivity]. Defined.
End ClientRuns.
