(* ===== verification/CliRuns.v ===== *)
(** * A concrete run of the command line

    A file is opened under a name while another name and a lock are held: the
    state is saved under a key, and the next process has all of them. *)
From Stdlib Require String.
From S2P Require Import Prelude Domain Data Store Auth Leases Cluster Requests Queries Etcd Process Protected Blocks DataNode Streams Client Downloads Sends Ranges Trees ClientState Cli CliFacts Lab BackupRuns ClientRuns.

Module CliRuns.
Import Lab BackupRuns.BackupRuns ClientRuns.ClientRuns.
#[local] Instance read_wire : ReadWire := {| get_dict rq := JStr rq.(gb_capability) |}.
#[local] Instance json_codec : Codec Domain.json :=
  {| Etcd.encode := enc_json; Etcd.decode s := Some (dec_json s);
     Etcd.decode_encode j := f_equal Some (dec_enc_json j) |}.

(** ** Messages as objects *)
Definition of_session (m : Session) : Domain.json :=
  JObj [("session_id", JStr m.(sm_session_id)); ("user_id", JStr m.(sm_user_id)); ("token", JStr m.(sm_token));
        ("expires_unix_ms", JNum m.(sm_expires)); ("service_epoch", JStr m.(sm_service_epoch))].
Definition to_session (j : Domain.json) : option Session :=
  match j with
  | JObj [(_, JStr i); (_, JStr u); (_, JStr t); (_, JNum x); (_, JStr e)] => Some (mkSession i u t x e)
  | _ => None
  end.
#[local] Instance session_dict : Dict Session.
Proof. refine {| asdict := of_session; proto := to_session |}. by intros []. Defined.
Definition of_snapshot (m : SnapshotRef) : Domain.json :=
  JObj [("file_id", JStr m.(sr_file_id)); ("content_epoch", JNum m.(sr_content_epoch)); ("file_version", JNum m.(sr_file_version));
        ("manifest_root", JStr m.(sr_manifest_root)); ("size_bytes", JNum m.(sr_size_bytes)); ("manifest_sha256", JStr m.(sr_manifest_sha256));
        ("file_sha256", match m.(sr_file_sha256) with Some s => JStr s | None => JNull end); ("block_size_bytes", JNum m.(sr_block_size_bytes))].
Definition to_snapshot (j : Domain.json) : option SnapshotRef :=
  match j with
  | JObj [(_, JStr f); (_, JNum c); (_, JNum v); (_, JStr r); (_, JNum n); (_, JStr h); (_, d); (_, JNum b)] =>
      Some (mkSnapshotRef f c v r n h (match d with JStr s => Some s | _ => None end) b)
  | _ => None
  end.
Lemma to_of_snapshot m : to_snapshot (of_snapshot m) = Some m.
Proof. by destruct m as [??????[]]. Qed.
Definition mode_names : list (ctl.OpenMode * string) :=
  [(ctl.R, "R"); (ctl.R_PLUS, "R_PLUS"); (ctl.W, "W"); (ctl.W_PLUS, "W_PLUS"); (ctl.X, "X"); (ctl.X_PLUS, "X_PLUS")].
Definition of_mode (m : ctl.OpenMode) : string :=
  match m with
  | ctl.R => "R" | ctl.R_PLUS => "R_PLUS" | ctl.W => "W" | ctl.W_PLUS => "W_PLUS" | ctl.X => "X" | ctl.X_PLUS => "X_PLUS"
  | ctl.OPEN_MODE_UNSPECIFIED => ""
  end.
Definition to_mode (s : string) : ctl.OpenMode :=
  from_option fst ctl.OPEN_MODE_UNSPECIFIED (List.find (λ p, String.eqb p.2 s) mode_names).
Definition of_handle (m : Handle) : Domain.json :=
  JObj [("handle_id", JStr m.(hm_handle_id)); ("snapshot", of_snapshot m.(hm_snapshot)); ("mode", JStr (of_mode m.(hm_mode)));
        ("expires_unix_ms", JNum m.(hm_expires)); ("revision", JNum m.(hm_revision))].
Definition to_handle (j : Domain.json) : option Handle :=
  match j with
  | JObj [(_, JStr i); (_, s); (_, JStr m); (_, JNum x); (_, JNum r)] =>
      s ← to_snapshot s; Some (mkHandle i s (to_mode m) x r)
  | _ => None
  end.
#[local] Instance handle_dict : Dict Handle.
Proof. refine {| asdict := of_handle; proto := to_handle |}. intros [i s m x r]. cbn -[to_snapshot of_snapshot]. rewrite to_of_snapshot. by destruct m. Defined.
Definition of_fence (m : Fence) : Domain.json :=
  JObj [("lock_id", JStr m.(fc_lock_id)); ("handle_id", JStr m.(fc_handle_id)); ("service_epoch", JStr m.(fc_service_epoch));
        ("generation", JNum m.(fc_generation)); ("lease_id", JNum m.(fc_lease_id)); ("block_indices", JArr (map JNum m.(fc_block_indices)));
        ("whole_file", JBool m.(fc_whole_file)); ("includes_size", JBool m.(fc_includes_size)); ("expires_unix_ms", JNum m.(fc_expires))].
Definition num_of (j : Domain.json) : Z := match j with JNum n => n | _ => 0 end.
Definition to_fence (j : Domain.json) : option Fence :=
  match j with
  | JObj [(_, JStr l); (_, JStr h); (_, JStr e); (_, JNum g); (_, JNum i); (_, JArr bs); (_, JBool w); (_, JBool z); (_, JNum x)] =>
      Some (mkFence l h e g i (map num_of bs) w z x)
  | _ => None
  end.
#[local] Instance fence_dict : Dict Fence.
Proof.
  refine {| asdict := of_fence; proto := to_fence |}. intros [l h e g i bs w z x]. cbn. rewrite map_map. cbn.
  by rewrite map_id.
Defined.

(** ** Opening a file *)
Definition path : list string := ["client"; "session.json"].
Definition key_file : option (list string) := Some ["keys"; "client.key"].
Definition second : Handle := mkHandle "second" sn ctl.R 100000 1.
Definition opening (rq : request) : result rpc_error response :=
  match rq.(rq_body) with Open _ _ => Ok (RHandle second) | _ => control rq end.
Definition user : client_env :=
  mkClientEnv false 10 (λ _, false) (λ _, "uid") Z.of_nat (λ _, Ok tt) (λ _ _ _, Err (mkRpcError Grpc.UNIMPLEMENTED None))
    (λ _ _ rq, opening rq) (λ _ _ _ _, Ok receipt) (λ _ _ _ _, Err (mkRpcError Grpc.UNIMPLEMENTED None))
    (λ _ endpoint _ rq, get endpoint rq) (λ _, (F, 7)) (λ _, false) (λ _, false) (λ _ x, x) (λ _ p, p) (λ _, None).
Definition terminal : cli_env :=
  mkCliEnv user StateRuns.calm (λ _, false) (λ _, "secret") (λ _, ".dfsha-read-a") (λ _ _, None) (λ _ _, None).
Definition fence : Fence := mkFence "lock" "handle" "epoch" 1 1 [0] true true 100000.
Definition before : cli :=
  mkCli client0 StateRuns.keyed {[ "first" := 0%nat ]} {[ "lock" := fence ]} [] 0.
Definition after : cli := (run path key_file true (CmdOpen "/file" "r" "f") terminal before).2.
Definition again : cli := (start path key_file true terminal (mkCli (new_client None) after.(ci_home) ∅ ∅ [] 0)).2.
Example opened_names : map_to_list (named after) = [("first", handle); ("f", second)] ∨ map_to_list (named after) = [("f", second); ("first", handle)].
Proof. vm_compute. (left; reflexivity) || (right; reflexivity). Qed.
Example started_again : map_to_list (named again) = map_to_list (named after).
Proof. vm_compute. reflexivity. Qed.
Definition session : Session := mkSession "session" "user" "token" 100000 "epoch".
Lemma ran : (run path key_file true (CmdOpen "/file" "r" "f") terminal before).1 = Ok tt.
Proof. vm_compute. reflexivity. Qed.
Lemma signed_in : after.(ci_client).(cl_session) = Some session.
Proof. vm_compute. reflexivity. Qed.
Lemma state_resumed_witness :
  (run path key_file true (CmdOpen "/file" "r" "f") terminal before).1 = Ok tt
  ∧ ∃ s2, start path key_file true terminal (mkCli (new_client None) after.(ci_home) ∅ ∅ [] 0) = (Ok tt, s2) ∧ resumed after s2.
Proof.
  split; [exact ran|].
  assert (run path key_file true (CmdOpen "/file" "r" "f") terminal before = (Ok tt, after)) as Hrun.
  { rewrite <- ran. exact (surjective_pairing (run path key_file true (CmdOpen "/file" "r" "f") terminal before)). }
  assert (∃ codec, codec_of key_file true before.(ci_home).(h_tree) = Ok codec) as Hcodec by (eexists; vm_compute; reflexivity).
  assert (key_file ≠ Some path) as H1 by done.
  assert (∀ i, beside path (terminal.(x_home).(h_name) i) ≠ path) as H2 by (intros i; by vm_compute).
  assert (∀ i, slen (terminal.(x_home).(h_random) i 12) = 12) as H3 by (intros i; apply bytes_length; lia).
  pose proof (state_resumed path key_file true (CmdOpen "/file" "r" "f") terminal terminal before after (Ok tt)
    H1 H2 H3 StateRuns.works_calm Hcodec Hrun) as [_ Hok].
  set (s0 := mkCli (new_client None) after.(ci_home) ∅ ∅ [] 0). assert (s0.(ci_home) = after.(ci_home)) as H0 by (cbn [ci_home s0]; exact eq_refl).
  pose proof (Hok eq_refl s0 H0) as Hs. rewrite signed_in in Hs.
  exact (Hs eq_refl).
Defined.
End CliRuns.
